(* ===== verification/_CoqProject ===== *)
-Q . S2P
Prelude.v
GoStrings.v
GoTime.v
Base64.v
Json.v
World.v
Policy.v
Httpx.v
Threads.v
Polynomials.v
Shamir.v
Envelope.v
AuditTrail.v
Migrate.v
Migrations.v
SealManager.v
PolicyStore.v
Cipher.v
Walk.v
SecretStore.v
SecretRewrap.v
VersionedMap.v
Interfaces.v
GoPath.v
Files.v
GoNumbers.v
GoUrl.v
Metrics.v
GoMux.v
Ratelimit.v
Config.v
Lease.v
Param.v
Rotate.v
SecretHttp.v
Jwt.v
Client.v
Snapshot.v
AgentConfig.v
Agent.v
GoFlag.v
Command.v
Auth.v
Lockout.v
Pages.v
Telemetry.v
App.v
Answers.v
Hardening.v
Operator.v
Main.v
KeyRotation.v
Concurrent.v
Deadlock.v
Linear.v
Races.v
Server.v
Wire.v
Writers.v
Lifecycle.v
Serving.v
Shell.v
Session.v
