(* ===== verification/Prelude.v ===== *)
(** * marstack-secrets: a verification development

  marstack-secrets is a server that keeps secrets and configuration parameters
  encrypted at rest, hands them out over HTTP to authenticated identities that
  a policy permits, records every decision in a hash-chained audit log, leases
  what it hands out, and holds the root key in memory only while it is
  unsealed by a quorum of shares; with it come a client library, an agent that
  renders templates into files, and a command line.  This library models the Go
  code under src/internal and src/cmd as executable definitions and proves what
  makes it correct.

  ** How the models read

  A Go function that touches state is a function from the state to a result and
  the state it leaves: the monad [M] of this file, at the state [World].  An
  error is the list of the sentinels it wraps ([errors.Is] asks for
  membership); message texts and log lines are left out.  A Go [int] is a [Z]
  with its wrap-around written out ([wrap64]); a [string] is a sequence of bytes;
  a [[]byte] is a list of integers from 0 to 255; a float64 is the Standard
  Library's [spec_float] at 53 bits.  Names are those of the source, with a
  trailing underscore where Rocq or Go's package prefix would clash.

  [World.World] is everything an operation can read or change: the database (one
  map per table of the migrations, [World.Db]), the memory of the seal manager
  and of the audit log, the rate limiter's buckets, and what comes from outside:
  the clock, the random source, and which database call fails next.  A statement
  of SQL is a [query] or an [exec_] on the tables that may fail; a transaction
  ([World.with_tx]) restores the tables when its body returns an error.
  What runs outside of the server has a state with files ([Files.FileSystem]),
  where each call of the operating system may fail: the agent's ([agent.State]),
  a command's ([Command.Host], which also holds a [World] to work on and whatever
  the network leads to).

  ** The parts, their files and their sources (under src/internal)

  - Prelude: results, the state monad, generic lemmas and automation.
  - GoStrings, GoTime, Base64, Json, GoNumbers, GoPath, GoUrl, GoMux, GoFlag: what the
    code uses of Go's strings, strconv, time, encoding/base64, encoding/json,
    path/filepath, net/url, the patterns of net/http and flag, and
    platform/sqlite/time.go.  Files: the calls of os, on a map from paths.
  - World: the tables of every module's migrations.go and the process state.
  - Policy, PolicyStore: platform/authz, platform/authn, modules/policy: rules and
    [Set.Evaluate]; the stored policies, bindings, [Authorize].
  - Polynomials, Shamir: platform/crypto/shamir.go over the field it computes in.
  - Envelope: platform/crypto: keys, derivation, associated data, envelopes.
  - AuditTrail: platform/audit: records, the hash chain, [Append], [Verify].
  - SealManager, Cipher: modules/seal: initialising, unsealing, sealing, rotating;
    the cipher; the interface through which the stores use it.
  - SecretStore, Walk, SecretRewrap, VersionedMap: modules/secret: versioned
    writes, reads, deletion states, pruning; the walk that rewraps; the abstract
    specification the store implements.
  - Param: modules/param: typed values, inheritance, references, HTTP.
  - Lease: modules/lease.  Jwt, Auth: platform/jwt and modules/auth.
  - Httpx, Interfaces, SecretHttp, Rotate: platform/httpx, the Go interfaces between
    the modules, modules/secret/http.go, modules/rotate.
  - Ratelimit, Config, Migrate, Migrations: platform/ratelimit, platform/config and
    platform/logging, platform/sqlite/migrate.go and the migrations' texts.
  - Snapshot: platform/sqlite/sqlite.go and snapshot.go.  Hardening:
    platform/hardening.
  - Metrics, Telemetry, Pages: platform/metrics, app/telemetry.go, modules/observe,
    modules/ui.
  - App, KeyRotation, Server: app/app.go: the adapters between modules, the
    middleware, the routes, start-up and shutdown; what the whole guarantees.
    Lockout: what disabling an identity does to everything that may follow.
  - Threads, Concurrent, Deadlock, Linear, Races: requests at once.  Threads has
    programs that take and give back locks, and the pool they run in; Concurrent
    has the operations of the seal, the secrets, the rotation and the writing of
    a parameter as such programs, each shown to be the operation of its own file when
    nothing is in its way; Deadlock, Linear and Races say what may and what may not
    come of running them together.
  - Answers: what every route answers, and the redirects of the choice of a route.
  - Client: internal/client, with the redirects that net/http follows for it.  Wire: the
    client and the server over a network.
  - Writers, Lifecycle: how an answer gets onto the connection, with the recorders of
    the middleware, log lines of requests and handlers that panic; how the server stops
    (platform/httpx/server.go, [sweep] of app/app.go), as steps of its goroutines.
    Serving: [serve] of cmd/marsec/main.go and [Run] and [Close] of app/app.go around
    these, with the state that the goroutines share.
  - AgentConfig, Agent: internal/agent.
  - Command, Operator, Main: cmd/marsec: the commands over the network, those on the
    database of the host, the agent's, the start of the server ([boot]), the choice of a
    command.  Shell: the commands together with what stands behind them.
    Session: from a bootstrap token to a session.

  The modules meet where the Go code declares interfaces, and so do the files:
  [Cipher.Cipher] (what the stores want from the seal, with [CipherLaws] proved of
  the seal in Cipher), [Sink], [Authorizer], [Leases], [Revoker] (Interfaces),
  [Param.Secrets], [Rotate.Keys], [Auth.Assertions], [Walk.Walkable],
  [Client.Transport] (a network), [Files.FileSystem] (a disk).  A client's
  theorems are proved against the class and its laws; App gives the instances
  the code wires in.

  ** What the theorems show

  - The whole server (Server, KeyRotation): while sealed nothing but the start-up
    paths is served; an answer with a secret or parameter was authenticated,
    permitted and recorded, or the store seals itself; a read returns the stored
    value and leases it; a rotation moves every value to the new key unchanged.
  - Policies: a matching deny always wins; exactly when access is allowed; the
    order of policies does not matter unless equal patterns disagree.
  - Keys: splitting and combining round trip, fewer shares than the threshold say
    nothing; an envelope opens only where it was sealed, or a GCM forgery is
    exhibited; memory and row of the seal agree in every reachable state, only
    a quorum opens it, any quorum does.
  - The audit log: a successful append keeps the file verifying; files that verify
    to the same tip hold the same records, or a SHA-256 collision is exhibited; a
    failed fsync breaks the chain for good.
  - The secret store implements an abstract map of numbered versions (refinement,
    by simulation), its tables keep their invariant, destroyed is for ever, the
    walk of a rotation ends and misses nothing.
  - Leases, tokens, assertions: at most one active lease per holder and version;
    what a prefix revokes; what authenticates; a bootstrap token and an assertion
    are used once; who is disabled stays out.
  - Parameters: what is stored is what its descendants resolve to; references reveal
    only what the caller may read.
  - The limiter's memory is bounded; a configuration that loads is within bounds;
    the page of metrics says what the instruments say.
  - The client over the network is a client of the versioned map (refinement, through
    middleware, routes and handlers); it talks to the host of its address only, unless
    that redirects it, and its token goes to hosts of that name only even then.
  - The agent never leaves a part of a rendering in a destination; after a cycle that
    succeeds every destination is current.
  - The command line: what was put comes out; a login trades a bootstrap token for a
    session that the next command presents; a snapshot that is restored is the
    database it was taken of, and restoring harms no file.
  - What a client is sent is what the functional view of the server answers, and what the
    access log and the counter say; what becomes of a panic (Writers).  The server stops
    when it is told, and without an error only when no request runs (Lifecycle); once it
    is closed nobody touches the database, and when it has ended without an error the key
    is gone for good, whatever ran in between (Serving).
  - Requests at once (Deadlock, Linear, Races): the secret store is linearizable, each
    call taking effect at one moment between its beginning and its end; a rotation
    leaves no secret behind, whatever is written while it runs; requests always come to
    an end unless a write of a secret meets somebody who holds the seal, and that these
    two can stop the server is a theorem too; so are the races that the code leaves
    open, of a parameter with a rotation and of a lease with a revocation.

  No law says that a hash or a cipher is hard to break.  Where security rests on
  that, the theorem exhibits the break: the collision, the forged ciphertext.

  ** Fuel and bounds

  Go loops that are not structural take fuel.  Parsers and string scans take the
  length of their input ([Json.parse] twice that and one more, which
  [parse_print] shows suffices for every printed value).  The rewrap loop
  takes one more than the rows of its table ([Walk.rewrap_fuel]) and returns an
  option; that it never runs out is a theorem of SecretRewrap.  With others writing
  while it runs no number of rounds is known beforehand ([Concurrent.rewrap_loop]): there
  the theorems hold for every fuel, a walk that needs more answers with an error and
  promises nothing, and with as much fuel as there are rows and one more a walk that
  nobody disturbs is the one of Walk ([solo_walk]).  Field inversion runs the
  eight rounds of its exponent's bits, digits of a number as many as a 64-bit
  integer has.  Widths and limits (path lengths, sizes, versions kept) are the
  source's constants.

  ** Parameters of the models

  Code outside src/ is a parameter: AES-GCM, HKDF, HMAC and SHA-256
  ([Envelope.Primitives] with [PrimitiveLaws], instantiated by a concrete toy in
  the witnesses), Ed25519 ([Jwt.Ed25519]), what a DDL text does
  ([Migrate.Driver]), the order of ranging over a Go map ([Ratelimit.MapOrder],
  [Agent.LeaseOrder]), SQLite on files ([Snapshot.SQLite] with [SQLiteLaws]), the
  network ([Client.Transport]), which host names are IP addresses
  ([GoUrl.IPLiterals]), text/template ([Agent.TextTemplate]), the commands an agent
  runs ([Agent.Runner]), names of temporary files ([Files.TempNames]), the kernel's
  protections ([Hardening.Kernel]), certificates and the environment
  ([Command.Certificates], [Command.Environment]), the files embedded for browsers
  ([Pages.ui.Assets]).

  ** Not modelled

  - Of concurrency: outside of Threads, Concurrent, Deadlock, Linear, Races, Lifecycle
    and Serving every operation runs as one step.  In the first five a step is a statement, a
    transaction's part between two operations on locks, or a computation under a lock;
    a context that ends while a transaction runs, the memory model of Go, and the
    goroutines of net/http are left out.  Lifecycle takes what net/http documents of
    [Shutdown] as the steps of its listener and connections; in Serving a request may
    change the state in any way while it runs.  Linearizability is about a server that is
    sealed or has been unsealed: initialising and unsealing are in Concurrent and
    Deadlock, not in Linear.
  - Panics (but for what the middleware makes of them, in Writers), log lines other than
    those of Writers, what goes to the standard error stream, wiping of memory
    other than the root key; the permissions of the audit file, the umask and links.
  - The addresses, TLS settings and time limits that platform/httpx/server.go hands to
    net/http; the header [Referer] of a redirect that a client follows.  How long the background loop and the agent wait between rounds.
  - platform/logging beyond the levels it reads; handlers of log records. *)
From Stdlib Require Import ZArith Lia.
From stdpp Require Export base tactics list strings gmap sorting.
From stdpp Require Import options.

Declare Scope go_scope.
Delimit Scope go_scope with go.

(** ** Errors and results

  A Go error is modelled by the list of the sentinels it wraps: [errors.New]
  gives a one-element list, [fmt.Errorf("%w: ...")] keeps the list of the
  wrapped error (the message text around it is not observable by the code),
  [errors.Join] concatenates.  A sentinel is its message, which is distinct for
  every sentinel of the program. *)
Abbreviation sentinel := string (only parsing).
Abbreviation error := (list string) (only parsing).

Definition errors_Is (e : list string) (s : string) : bool := bool_decide (s ∈ e).
Definition errors_Join (e1 e2 : list string) : list string := e1 ++ e2.

Inductive result (A : Type) : Type :=
| Ok (a : A)
| Err (e : list string).
Arguments Ok {A} a.
Arguments Err {A} e.

#[export] Instance Ok_inj {A} : Inj (=) (=) (@Ok A).
Proof. congruence. Qed.

Definition result_map {A B} (f : A → B) (r : result A) : result B :=
  match r with Ok a => Ok (f a) | Err e => Err e end.

Definition result_bind {A B} (r : result A) (f : A → result B) : result B :=
  match r with Ok a => f a | Err e => Err e end.

Definition is_ok {A} (r : result A) : bool :=
  match r with Ok _ => true | Err _ => false end.

Notation "'let?' x ':=' r 'in' k" := (result_bind r (fun x => k))
  (at level 10, x pattern, r at level 100, k at level 200) : go_scope.

(** ** State and error monad

  A Go function that touches state is a function from the state to a result and
  the state it leaves.  [bind] is Go's [if err != nil { return err }]. *)
Definition M (S A : Type) : Type := S → result A * S.

Definition ret {S A} (a : A) : M S A := fun s => (Ok a, s).
Definition fail {S A} (e : list string) : M S A := fun s => (Err e, s).
Definition bind {S A B} (m : M S A) (k : A → M S B) : M S B :=
  fun s => match m s with
           | (Ok a, s') => k a s'
           | (Err e, s') => (Err e, s')
           end.
(** [attempt m] makes the error of [m] a value, for code that inspects it. *)
Definition attempt {S A} (m : M S A) : M S (result A) :=
  fun s => let '(r, s') := m s in (Ok r, s').
Definition errors_of (r : result unit) : list string := match r with Ok _ => [] | Err e => e end.
(** Both calls are made, whatever comes of the first, and their errors joined. *)
Definition both {S} (m1 m2 : M S unit) : M S unit := fun s =>
  let '(r1, s) := m1 s in
  let '(r2, s) := m2 s in
  (if is_ok r1 && is_ok r2 then Ok tt else Err (errors_Join (errors_of r1) (errors_of r2)), s).
Definition lift_result {S A} (r : result A) : M S A := fun s => (r, s).
Definition get {S} : M S S := fun s => (Ok s, s).
Definition modify {S} (f : S → S) : M S unit := fun s => (Ok tt, f s).

Notation "'let!' x ':=' m 'in' k" := (bind m (fun x => k))
  (at level 10, x pattern, m at level 100, k at level 200) : go_scope.
Notation "m ';!' k" := (bind m (fun _ => k))
  (at level 199, right associativity) : go_scope.
Open Scope go_scope.

Section monad_laws.
  Context {S A B C : Type}.
Lemma bind_ret_l (a : A) (k : A → M S B) s : bind (ret a) k s = k a s.
  Proof. done. Qed.
Lemma bind_fail_l e (k : A → M S B) s : bind (fail e) k s = (Err e, s).
  Proof. done. Qed.
Lemma bind_assoc (m : M S A) (k : A → M S B) (h : B → M S C) s :
    bind (bind m k) h s = bind m (fun a => bind (k a) h) s.
  Proof. unfold bind. by destruct (m s) as [[a|e] s']. Qed.
Lemma bind_ok_inv (m : M S A) (k : A → M S B) s b s' :
    bind m k s = (Ok b, s') → ∃ a s1, m s = (Ok a, s1) ∧ k a s1 = (Ok b, s').
  Proof. unfold bind. destruct (m s) as [[a|e] s1]; naive_solver. Qed.
Lemma bind_ok (m : M S A) (k : A → M S B) s a s1 :
    m s = (Ok a, s1) → bind m k s = k a s1.
  Proof. unfold bind. by intros ->. Qed.
Lemma bind_err (m : M S A) (k : A → M S B) s e s1 :
    m s = (Err e, s1) → bind m k s = (Err e, s1).
  Proof. unfold bind. by intros ->. Qed.
End monad_laws.

(** A property of states kept by a computation whatever its outcome, and a
  relation between the states before and after it.  Both compose along [bind]. *)
Definition keeps {S A} (P : S → Prop) (m : M S A) : Prop :=
  ∀ s, P s → P (snd (m s)).

Section keeps.
  Context {S : Type} (P : S → Prop).
Lemma keeps_ret {A} (a : A) : keeps P (ret a).
  Proof. by intros s. Qed.
Lemma keeps_fail {A} e : keeps P (fail (A:=A) e).
  Proof. by intros s. Qed.
Lemma keeps_lift {A} (r : result A) : keeps P (lift_result r).
  Proof. by intros s. Qed.
Lemma keeps_get : keeps P get.
  Proof. by intros s. Qed.
Lemma keeps_bind {A B} (m : M S A) (k : A → M S B) :
    keeps P m → (∀ a, keeps P (k a)) → keeps P (bind m k).
  Proof.
    intros Hm Hk s Hs. specialize (Hm s Hs). unfold bind.
    destruct (m s) as [[a|e] s']; simpl in *; [by apply Hk|done].
  Qed.
Lemma keeps_attempt {A} (m : M S A) : keeps P m → keeps P (attempt m).
  Proof. intros Hm s Hs. specialize (Hm s Hs). unfold attempt. by destruct (m s). Qed.
Lemma keeps_modify (f : S → S) : (∀ s, P s → P (f s)) → keeps P (modify f).
  Proof. intros Hf s Hs. by apply Hf. Qed.
End keeps.

Create HintDb keeps.
#[export] Hint Resolve keeps_ret keeps_fail keeps_lift keeps_get keeps_bind
  keeps_attempt : keeps.

(** ** Automation *)

(** Case analysis on every match of the goal or hypotheses whose scrutinee is
  not itself a match; used to run a computation through its branches. *)
Ltac step_match :=
  match goal with
  | |- context [match ?x with _ => _ end] =>
      lazymatch x with context [match _ with _ => _ end] => fail | _ => destruct x eqn:? end
  | H : context [match ?x with _ => _ end] |- _ =>
      lazymatch x with context [match _ with _ => _ end] => fail | _ => destruct x eqn:? end
  end.
Ltac crush := repeat (simplify_eq/=; try done; try step_match).

(** Turns the boolean tests of the code into propositions. *)
Ltac reflect_bools :=
  repeat match goal with
  | H : _ && _ = true |- _ => apply andb_true_iff in H as [? ?]
  | H : _ || _ = false |- _ => apply orb_false_iff in H as [? ?]
  | H : negb _ = true |- _ => apply negb_true_iff in H
  | H : negb _ = false |- _ => apply negb_false_iff in H
  | H : bool_decide _ = true |- _ => apply bool_decide_eq_true in H
  | H : bool_decide _ = false |- _ => apply bool_decide_eq_false in H
  | H : (_ <? _)%Z = true |- _ => apply Z.ltb_lt in H
  | H : (_ <? _)%Z = false |- _ => apply Z.ltb_ge in H
  | H : (_ <=? _)%Z = true |- _ => apply Z.leb_le in H
  | H : (_ <=? _)%Z = false |- _ => apply Z.leb_gt in H
  | H : (_ =? _)%Z = true |- _ => apply Z.eqb_eq in H
  | H : (_ =? _)%Z = false |- _ => apply Z.eqb_neq in H
  end.

(** ** Machine integers *)
Open Scope Z_scope.

(** Go's [int] and [int64] on the platforms the server runs on. *)
Definition i64_min : Z := - 2 ^ 63.
Definition i64_max : Z := 2 ^ 63 - 1.
Definition wrap64 (z : Z) : Z := (z + 2 ^ 63) mod 2 ^ 64 - 2 ^ 63.
Definition in_i64 (z : Z) : Prop := i64_min ≤ z ≤ i64_max.

Lemma wrap64_id z : in_i64 z → wrap64 z = z.
Proof. unfold in_i64, wrap64, i64_min, i64_max. intros. rewrite Z.mod_small; lia. Qed.
Lemma wrap64_in z : in_i64 (wrap64 z).
Proof.
  unfold in_i64, wrap64, i64_min, i64_max.
  pose proof (Z.mod_pos_bound (z + 2 ^ 63) (2 ^ 64)). lia.
Qed.

(** ** Checking a decidable property on an interval by computation *)
Fixpoint check_from (f : Z → bool) (n : nat) (start : Z) : bool :=
  match n with
  | O => true
  | S n => f start && check_from f n (start + 1)
  end.

Lemma check_from_spec f n start :
  check_from f n start = true → ∀ z, start ≤ z < start + Z.of_nat n → f z = true.
Proof.
  revert start. induction n as [|n IH]; intros start H z Hz; [lia|].
  cbn [check_from] in H. apply andb_true_iff in H as [H1 H2].
  destruct (decide (z = start)) as [->|]; [done|].
  apply (IH (start + 1)); [done|lia].
Qed.

Lemma pair_fst {A B} (p : A * B) (x : A) : fst p = x → p = (x, snd p).
Proof. destruct p. by intros <-. Qed.
