(* ===== verification/GoStrings.v ===== *)
(** The parts of Go's [strings], [strconv] and byte handling that the server
    uses.  A Go string is a sequence of bytes, here Rocq's [string]; a [[]byte]
    is a list of integers between 0 and 255. *)
From Stdlib Require Import ZArith Lia Ascii.
From Stdlib Require String.
From S2P Require Import Prelude.
From stdpp Require Import options.

(** ** Bytes *)
Abbreviation bytes := (list Z) (only parsing).

Definition byte_ok (b : Z) : Prop := 0 ≤ b < 256.
Definition byte_of_ascii (c : ascii) : Z := Z.of_N (N_of_ascii c).
Definition ascii_of_byte (b : Z) : ascii := ascii_of_N (Z.to_N b).

Fixpoint bytes_of_string (s : string) : list Z :=
  match s with
  | EmptyString => []
  | String c s => byte_of_ascii c :: bytes_of_string s
  end.
Fixpoint string_of_bytes (b : list Z) : string :=
  match b with
  | [] => EmptyString
  | x :: b => String (ascii_of_byte x) (string_of_bytes b)
  end.

(** [len] of a string or byte slice, as the [int] the code compares. *)
Definition len (s : string) : Z := Z.of_nat (String.length s).
Definition blen {A} (b : list A) : Z := Z.of_nat (length b).

Lemma byte_of_ascii_ok c : byte_ok (byte_of_ascii c).
Proof. unfold byte_ok, byte_of_ascii. pose proof (N_ascii_bounded c). lia. Qed.
Lemma ascii_of_byte_of_ascii c : ascii_of_byte (byte_of_ascii c) = c.
Proof.
  unfold ascii_of_byte, byte_of_ascii. rewrite N2Z.id. apply ascii_N_embedding.
Qed.
Lemma byte_of_ascii_of_byte b : byte_ok b → byte_of_ascii (ascii_of_byte b) = b.
Proof.
  unfold byte_ok, byte_of_ascii, ascii_of_byte. intros.
  rewrite N_ascii_embedding; lia.
Qed.
Lemma string_of_bytes_of_string s : string_of_bytes (bytes_of_string s) = s.
Proof. induction s; simpl; by rewrite ?ascii_of_byte_of_ascii, ?IHs. Qed.
Lemma bytes_of_string_of_bytes b :
  Forall byte_ok b → bytes_of_string (string_of_bytes b) = b.
Proof. induction 1; simpl; by rewrite ?byte_of_ascii_of_byte, ?IHForall. Qed.
Lemma bytes_of_string_ok s : Forall byte_ok (bytes_of_string s).
Proof. induction s; constructor; eauto using byte_of_ascii_ok. Qed.
Lemma length_bytes_of_string s : length (bytes_of_string s) = String.length s.
Proof. induction s; simpl; congruence. Qed.
Lemma bytes_of_string_app s1 s2 :
  bytes_of_string (s1 +:+ s2) = bytes_of_string s1 ++ bytes_of_string s2.
Proof. induction s1; simpl; [done|]. unfold String.append in *. by rewrite <-IHs1. Qed.
#[export] Instance bytes_of_string_inj : Inj (=) (=) bytes_of_string.
Proof.
  intros s1 s2 H. rewrite <-(string_of_bytes_of_string s1), H.
  apply string_of_bytes_of_string.
Qed.

(** ** Concatenation *)
Lemma str_app_nil_l s : "" +:+ s = s.
Proof. done. Qed.
Lemma str_app_nil_r s : s +:+ "" = s.
Proof. induction s; [done|]. unfold String.append in *. simpl. by rewrite IHs. Qed.
Lemma str_app_cons c s t : String c s +:+ t = String c (s +:+ t).
Proof. done. Qed.
Lemma str_app_assoc s1 s2 s3 : s1 +:+ (s2 +:+ s3) = (s1 +:+ s2) +:+ s3.
Proof. induction s1; [done|]. rewrite !str_app_cons. by rewrite IHs1. Qed.
Lemma length_app_string s1 s2 : String.length (s1 +:+ s2) = (String.length s1 + String.length s2)%nat.
Proof. induction s1; [done|]. rewrite str_app_cons. simpl. by rewrite IHs1. Qed.
Lemma len_app s1 s2 : len (s1 +:+ s2) = len s1 + len s2.
Proof. unfold len. rewrite length_app_string. lia. Qed.
Lemma len_nonneg s : 0 ≤ len s.
Proof. unfold len. lia. Qed.
Lemma len_zero s : len s = 0 ↔ s = "".
Proof. unfold len. destruct s; simpl; split; intros; try done; lia. Qed.
Lemma app_inj_len s1 s2 t1 t2 :
  String.length s1 = String.length t1 → s1 +:+ s2 = t1 +:+ t2 → s1 = t1 ∧ s2 = t2.
Proof.
  revert t1. induction s1 as [|c s1 IH]; intros [|d t1] Hl H; try done.
  rewrite !str_app_cons in H. simplify_eq/=. destruct (IH t1) as [-> ->]; auto.
Qed.

(** ** Prefixes and suffixes *)
Definition HasPrefix (s prefix : string) : bool := String.prefix prefix s.

(** [CutPrefix s p] is [Some rest] when [s] is [p] followed by [rest]. *)
Fixpoint CutPrefix (s p : string) {struct p} : option string :=
  match p, s with
  | EmptyString, _ => Some s
  | String a p, String b s => if Ascii.eqb a b then CutPrefix s p else None
  | String _ _, EmptyString => None
  end.

(** [strings.CutSuffix]: the text before a final [suffix], if there is one. *)
Fixpoint CutSuffix (s suffix : string) : option string :=
  if String.eqb s suffix then Some ""
  else match s with
       | EmptyString => None
       | String a s => match CutSuffix s suffix with
                       | Some r => Some (String a r)
                       | None => None
                       end
       end.

Definition HasSuffix (s suffix : string) : bool :=
  match CutSuffix s suffix with Some _ => true | None => false end.
Definition TrimSuffix (s suffix : string) : string :=
  match CutSuffix s suffix with Some r => r | None => s end.
Definition TrimPrefix (s p : string) : string :=
  match CutPrefix s p with Some r => r | None => s end.

Lemma CutPrefix_Some s p r : CutPrefix s p = Some r ↔ s = p +:+ r.
Proof.
  revert s. induction p as [|a p IH]; intros s; simpl.
  { rewrite str_app_nil_l. split; congruence. }
  destruct s as [|b s]; [done|]. rewrite str_app_cons.
  destruct (Ascii.eqb_spec a b) as [->|Hne].
  - rewrite IH. split; congruence.
  - split; congruence.
Qed.
Lemma HasPrefix_spec s p : HasPrefix s p = true ↔ ∃ r, s = p +:+ r.
Proof.
  unfold HasPrefix. revert s. induction p as [|a p IH]; intros s; simpl.
  - split; [by exists s|]. by destruct s.
  - destruct s as [|b s]; simpl; [split; [done|intros [? ?]; done]|].
    destruct (ascii_dec a b) as [->|Hne].
    + rewrite IH. split; intros [r Hr]; exists r; rewrite str_app_cons in *; congruence.
    + split; [done|]. intros [r Hr]. rewrite str_app_cons in Hr. congruence.
Qed.
Lemma CutSuffix_Some s t r : CutSuffix s t = Some r ↔ s = r +:+ t.
Proof.
  revert r. induction s as [|a s IH]; intros r; cbn [CutSuffix].
  - destruct t as [|b t]; simpl.
    + destruct r; split; intros; by simplify_eq/=.
    + destruct r; split; intros; by simplify_eq/=.
  - destruct (String.eqb_spec (String a s) t) as [<-|Hne].
    + split; [intros H; by simplify_eq/=|]. intros H. destruct r as [|b r]; [done|].
      exfalso. apply (f_equal String.length) in H. rewrite length_app_string in H.
      simpl in H. lia.
    + destruct (CutSuffix s t) as [r'|] eqn:E.
      * assert (s = r' +:+ t) as -> by (by apply IH). split; [intros; simplify_eq/=; by rewrite str_app_cons|].
        destruct r as [|b r]; [intros H; by simplify_eq/=|]. rewrite str_app_cons. intros [= <- H].
        f_equal. f_equal. apply (f_equal String.length) in H as Hl.
        rewrite !length_app_string in Hl.
        destruct (app_inj_len r' t r t); [lia|done|done].
      * split; [done|]. destruct r as [|b r]; [intros H; by simplify_eq/=|]. rewrite str_app_cons.
        intros [= <- H]. apply IH in H. done.
Qed.
Lemma CutSuffix_None s t : CutSuffix s t = None ↔ ∀ r, s ≠ r +:+ t.
Proof.
  split.
  - intros H r Hr. apply CutSuffix_Some in Hr. congruence.
  - intros H. destruct (CutSuffix s t) as [r|] eqn:E; [|done].
    apply CutSuffix_Some in E. by destruct (H r).
Qed.

(** ** Searching, splitting, joining *)
Fixpoint Contains (s sub : string) : bool :=
  HasPrefix s sub ||
  match s with EmptyString => false | String _ s => Contains s sub end.

(** [strings.Count] for a one-byte separator. *)
Fixpoint Count (s : string) (c : ascii) : Z :=
  match s with
  | EmptyString => 0
  | String a s => (if Ascii.eqb a c then 1 else 0) + Count s c
  end.

Lemma Count_app s t c : Count (s +:+ t) c = Count s c + Count t c.
Proof. induction s as [|a s IH]; [done|]. rewrite str_app_cons. cbn [Count]. rewrite IH. lia. Qed.
Lemma Count_nonneg s c : 0 ≤ Count s c.
Proof. induction s as [|a s IH]; cbn [Count]; [done|]. case_match; lia. Qed.

(** [strings.Split] for a one-byte separator. *)
Fixpoint Split (s : string) (c : ascii) : list string :=
  match s with
  | EmptyString => [""]
  | String a s =>
      if Ascii.eqb a c then "" :: Split s c
      else match Split s c with
           | [] => [String a ""]
           | x :: l => String a x :: l
           end
  end.

Fixpoint Join (l : list string) (sep : string) : string :=
  match l with
  | [] => ""
  | [x] => x
  | x :: l => x +:+ sep +:+ Join l sep
  end.

(** [strings.Cut] around a one-byte separator. *)
Fixpoint Cut (s : string) (c : ascii) : string * string * bool :=
  match s with
  | EmptyString => ("", "", false)
  | String a s =>
      if Ascii.eqb a c then ("", s, true)
      else let '(before, after, found) := Cut s c in (String a before, after, found)
  end.

Lemma Contains_spec s sub : Contains s sub = true ↔ ∃ l r, s = l +:+ sub +:+ r.
Proof.
  induction s as [|a s IH]; cbn [Contains].
  - rewrite orb_false_r, HasPrefix_spec. split.
    + intros [r Hr]. exists "", r. done.
    + intros (l & r & H). exists r. by destruct l.
  - rewrite orb_true_iff, HasPrefix_spec, IH. split.
    + intros [[r Hr]|(l & r & ->)]; [by exists "", r|].
      by exists (String a l), r.
    + intros (l & r & H). destruct l as [|b l]; [left; by exists r|].
      right. rewrite str_app_cons in H. simplify_eq. by exists l, r.
Qed.

Lemma Split_nonempty s c : Split s c ≠ [].
Proof. destruct s; simpl; [done|]. case_match; [done|]. by case_match. Qed.

Lemma Join_cons x l sep : l ≠ [] → Join (x :: l) sep = x +:+ sep +:+ Join l sep.
Proof. by destruct l. Qed.

Lemma Join_Split s c : Join (Split s c) (String c "") = s.
Proof.
  induction s as [|a s IH]; [done|]. cbn [Split].
  pose proof (Split_nonempty s c).
  destruct (Ascii.eqb_spec a c) as [->|Hne].
  - rewrite Join_cons, IH by done. done.
  - destruct (Split s c) as [|x l]; [done|].
    destruct l as [|y l]; [simpl in *; congruence|].
    rewrite Join_cons in IH |- * by done. rewrite str_app_cons. congruence.
Qed.

Lemma Split_no_sep s c x : x ∈ Split s c → Count x c = 0.
Proof.
  revert x. induction s as [|a s IH]; intros x; cbn [Split].
  - intros ->%list_elem_of_singleton. done.
  - destruct (Ascii.eqb_spec a c) as [->|Hne].
    + intros [->|H]%elem_of_cons; auto.
    + destruct (Split s c) as [|y l].
      * intros ->%list_elem_of_singleton. simpl.
        by destruct (Ascii.eqb_spec a c).
      * intros [->|H]%elem_of_cons; [|apply IH; by right].
        cbn [Count]. destruct (Ascii.eqb_spec a c); [done|].
        rewrite (IH y) by left. done.
Qed.

(** ** White space

  [strings.TrimSpace] removes the Unicode white space at both ends.  The UTF-8
  encodings of these runes are listed; none is a prefix of another. *)
Definition utf8_space : list string :=
  map string_of_bytes
    ([[9]; [10]; [11]; [12]; [13]; [32]; [194; 133]; [194; 160]; [225; 154; 128]] ++
     map (fun b => [226; 128; b]) [128; 129; 130; 131; 132; 133; 134; 135; 136; 137; 138; 168; 169; 175] ++
     [[226; 129; 159]; [227; 128; 128]]).

Fixpoint first_some {A B} (f : A → option B) (l : list A) : option B :=
  match l with
  | [] => None
  | x :: l => match f x with Some y => Some y | None => first_some f l end
  end.

Fixpoint trim_with (cut : string → option string) (fuel : nat) (s : string) : string :=
  match fuel with
  | O => s
  | S fuel => match cut s with Some s' => trim_with cut fuel s' | None => s end
  end.
Definition TrimLeftSpace (s : string) : string :=
  trim_with (fun s => first_some (CutPrefix s) utf8_space) (String.length s) s.
Definition TrimRightSpace (s : string) : string :=
  trim_with (fun s => first_some (CutSuffix s) utf8_space) (String.length s) s.
Definition TrimSpace (s : string) : string := TrimRightSpace (TrimLeftSpace s).

(** ** Order

  [strings.Compare], Go's [<] on strings and SQLite's BINARY collation are the
  lexicographic order on bytes. *)
Definition str_lt (s t : string) : bool := String.ltb s t.
Definition str_le (s t : string) : bool := String.leb s t.

Lemma Ascii_compare_eq a b : Ascii.compare a b = Eq ↔ a = b.
Proof. split; [apply Ascii.compare_eq_iff|]. intros ->. unfold Ascii.compare. apply N.compare_refl. Qed.
Lemma String_compare_eq s t : String.compare s t = Eq ↔ s = t.
Proof.
  split; [apply String.compare_eq_iff|]. intros ->.
  induction t; [done|]. cbn [String.compare]. by rewrite (proj2 (Ascii_compare_eq a a)).
Qed.

Lemma compare_app s1 s2 t1 t2 :
  String.length s1 = String.length t1 →
  String.compare (s1 +:+ s2) (t1 +:+ t2) =
  match String.compare s1 t1 with Eq => String.compare s2 t2 | c => c end.
Proof.
  revert t1. induction s1 as [|a s1 IH]; intros [|b t1] Hl; simplify_eq/=; [done|].
  rewrite ?str_app_cons. cbn [String.compare].
  destruct (Ascii.compare a b); auto.
Qed.

Lemma compare_app_same p s t : String.compare (p +:+ s) (p +:+ t) = String.compare s t.
Proof. rewrite compare_app by done. by rewrite (proj2 (String_compare_eq p p)). Qed.

Lemma str_lt_compare s t : str_lt s t = true ↔ String.compare s t = Lt.
Proof. unfold str_lt, String.ltb. by destruct (String.compare s t). Qed.
Lemma str_le_compare s t : str_le s t = true ↔ String.compare s t ≠ Gt.
Proof. unfold str_le, String.leb. by destruct (String.compare s t). Qed.
Lemma compare_flip s t : String.compare t s = CompOpp (String.compare s t).
Proof. apply String.compare_antisym. Qed.
Lemma str_lt_not_le s t : str_lt s t = negb (str_le t s).
Proof.
  unfold str_lt, str_le, String.ltb, String.leb. rewrite (compare_flip s t).
  by destruct (String.compare s t).
Qed.
Lemma str_le_refl s : str_le s s = true.
Proof. apply str_le_compare. by rewrite (proj2 (String_compare_eq s s)). Qed.
Lemma str_le_trans s t u : str_le s t = true → str_le t u = true → str_le s u = true.
Proof.
  intros H1 H2. pose proof (transitivity (R:=String.le) (x:=s) (y:=t) (z:=u)) as H.
  unfold String.le in H. unfold str_le in *.
  apply Is_true_eq_true, H; by apply Is_true_eq_left.
Qed.
Lemma str_lt_irrefl s : str_lt s s = false.
Proof. rewrite str_lt_not_le, str_le_refl. done. Qed.
Lemma str_le_antisym s t : str_le s t = true → str_le t s = true → s = t.
Proof. apply String.leb_antisym. Qed.
Lemma str_lt_le s t : str_lt s t = true → str_le s t = true.
Proof. rewrite str_lt_compare, str_le_compare. by intros ->. Qed.
Lemma str_le_lt_trans s t u : str_le s t = true → str_lt t u = true → str_lt s u = true.
Proof.
  rewrite !str_lt_not_le, !negb_true_iff. intros H1 H2.
  destruct (str_le u s) eqn:E; [|done]. rewrite <-H2. symmetry. by eapply str_le_trans.
Qed.
Lemma str_lt_le_trans s t u : str_lt s t = true → str_le t u = true → str_lt s u = true.
Proof.
  rewrite !str_lt_not_le, !negb_true_iff. intros H1 H2.
  destruct (str_le u s) eqn:E; [|done]. rewrite <-H1. symmetry. by eapply str_le_trans.
Qed.
Lemma str_lt_trans s t u : str_lt s t = true → str_lt t u = true → str_lt s u = true.
Proof. intros. eapply str_le_lt_trans; [by apply str_lt_le|done]. Qed.
Lemma str_le_prefix p s : str_le p (p +:+ s) = true.
Proof.
  rewrite <-(str_app_nil_r p) at 1. apply str_le_compare. rewrite compare_app_same.
  by destruct s.
Qed.

(** ** Big-endian integers, [encoding/binary] *)
Fixpoint big_endian (n : nat) (z : Z) : list Z :=
  match n with
  | O => []
  | S n => Z.shiftr z (8 * Z.of_nat n) mod 256 :: big_endian n z
  end.
Lemma big_endian_length n z : length (big_endian n z) = n.
Proof. induction n; simpl; auto. Qed.
Lemma big_endian_ok n z : Forall byte_ok (big_endian n z).
Proof. induction n; constructor; [by apply Z.mod_pos_bound|done]. Qed.
Lemma big_endian_mod n x y : big_endian n x = big_endian n y →
  x mod 2 ^ (8 * Z.of_nat n) = y mod 2 ^ (8 * Z.of_nat n).
Proof.
  induction n as [|n IH]; intros E; [by rewrite !Z.mod_1_r|]. cbn [big_endian] in E.
  injection E as E1 E2. specialize (IH E2).
  rewrite !Z.shiftr_div_pow2 in E1 by lia.
  replace (8 * Z.of_nat (S n)) with (8 * Z.of_nat n + 8) by lia. rewrite Z.pow_add_r by lia.
  change (2 ^ 8) with 256. rewrite !Z.rem_mul_r by lia. by rewrite E1, IH.
Qed.
Lemma big_endian_inj n x y : 0 ≤ x < 2 ^ (8 * Z.of_nat n) → 0 ≤ y < 2 ^ (8 * Z.of_nat n) →
  big_endian n x = big_endian n y → x = y.
Proof. intros Hx Hy E%big_endian_mod. by rewrite !Z.mod_small in E. Qed.

(** A string prefixed by its length in four big-endian bytes. *)
Definition framed (s : string) : list Z := big_endian 4 (len s) ++ bytes_of_string s.
Lemma framed_inj s s' r r' : len s < 2 ^ 32 → len s' < 2 ^ 32 →
  framed s ++ r = framed s' ++ r' → s = s' ∧ r = r'.
Proof.
  intros Hs Hs' E. unfold framed in E. rewrite <- !app_assoc in E.
  pose proof (len_nonneg s). pose proof (len_nonneg s').
  apply app_inj_1 in E as [El E]; [|by rewrite !big_endian_length].
  apply big_endian_inj in El; [|change (8 * Z.of_nat 4) with 32; lia..].
  apply app_inj_1 in E as [Eb ->]; [|rewrite !length_bytes_of_string; unfold len in El; lia].
  apply (f_equal string_of_bytes) in Eb. by rewrite !string_of_bytes_of_string in Eb.
Qed.
Lemma framed_bytes s : Forall byte_ok (framed s).
Proof. apply Forall_app. split; [apply big_endian_ok|apply bytes_of_string_ok]. Qed.
#[global] Opaque framed.

Lemma substring_app s t : String.substring 0 (String.length s) (s +:+ t) = s.
Proof. induction s as [|c s IH]; [by destruct t|]. rewrite str_app_cons. cbn. by rewrite IH. Qed.

(** ** Prefix ranges

  The code asks SQLite for the keys that start with a prefix by
  [key >= prefix AND key < prefix + U+FFFF]. *)
Definition ceiling_rune : string := string_of_bytes [239; 191; 191].
Lemma between_prefix p s c : str_le p s = true → str_lt s (p +:+ c) = true → ∃ r, s = p +:+ r ∧ str_lt r c = true.
Proof.
  revert s. induction p as [|a p IH]; intros s; [by exists s|]. destruct s as [|b s]; [done|].
  rewrite str_app_cons, str_le_compare, str_lt_compare. cbn [String.compare].
  destruct (Ascii.compare a b) eqn:E; [|rewrite Ascii.compare_antisym, E; done|done].
  apply Ascii_compare_eq in E as ->. assert (Ascii.compare b b = Eq) as -> by by apply Ascii_compare_eq.
  intros H1 H2. destruct (IH s) as (r&->&?); [by apply str_le_compare|by apply str_lt_compare|]. by exists r.
Qed.
Lemma lt_ceiling_small rest : match rest with String c _ => byte_of_ascii c < 239 | EmptyString => True end →
  str_lt rest ceiling_rune = true.
Proof.
  destruct rest as [|c rest]; [done|]. intros Hc. apply str_lt_compare. unfold ceiling_rune. cbn [string_of_bytes String.compare].
  assert (Ascii.compare c (ascii_of_byte 239) = Lt) as ->; [|done]. unfold Ascii.compare. apply N.compare_lt_iff.
  unfold byte_of_ascii in Hc. change (N_of_ascii (ascii_of_byte 239)) with 239%N. lia.
Qed.
Lemma lt_ceiling_large c rest : 240 ≤ byte_of_ascii c → str_lt (String c rest) ceiling_rune = false.
Proof.
  intros Hc. apply not_true_iff_false. rewrite str_lt_compare. unfold ceiling_rune. cbn [string_of_bytes String.compare].
  assert (Ascii.compare c (ascii_of_byte 239) = Gt) as ->; [|done]. unfold Ascii.compare. apply N.compare_gt_iff.
  unfold byte_of_ascii in Hc. change (N_of_ascii (ascii_of_byte 239)) with 239%N. lia.
Qed.
Lemma in_range p s : str_le p s = true ∧ str_lt s (p +:+ ceiling_rune) = true ↔
  ∃ rest, s = p +:+ rest ∧ str_lt rest ceiling_rune = true.
Proof.
  split.
  - intros [H1 H2]. by apply between_prefix.
  - intros (rest&->&Hr). split; [apply str_le_prefix|]. apply str_lt_compare. rewrite compare_app_same. by apply str_lt_compare.
Qed.
