(* ===== verification/GoTime.v ===== *)
(** Wall-clock times, their RFC 3339 text, and the order of that text.

  A [time.Time] is its number of nanoseconds since the Unix epoch.  The database
  keeps times as text (internal/platform/sqlite/time.go), and SQL compares that
  text, so what the text order means matters: it agrees with the order of times
  that fall in different seconds ([FormatTime_lt]) and disagrees inside a second
  ([FormatTime_not_monotone]). *)
From Stdlib Require Import ZArith Lia Ascii.
From S2P Require Import Prelude GoStrings.
From stdpp Require Import options.

(** ** Durations, in nanoseconds *)
Definition Second : Z := 1000000000.
Definition Minute : Z := 60 * Second.
Definition Hour : Z := 60 * Minute.

(** ** The proleptic Gregorian calendar *)
Record civil := Civil { year : Z; month : Z; day : Z }.

(** A 400-year era has 146097 days; inside it years run from March, so that the
  leap day is the last day of its year. *)
Definition era_days : Z := 146097.
Definition year_of_era (doe : Z) : Z * Z :=
  let century := Z.min (doe / 36524) 3 in
  let r := doe - 36524 * century in
  let cycle := Z.min (r / 1461) 24 in
  let r := r - 1461 * cycle in
  let y := Z.min (r / 365) 3 in
  (100 * century + 4 * cycle + y, r - 365 * y).
Definition month_of_doy (doy : Z) : Z * Z :=
  let mp := (5 * doy + 2) / 153 in
  (if mp <? 10 then mp + 3 else mp - 9, doy - (153 * mp + 2) / 5 + 1).
Definition civil_of_days (z : Z) : civil :=
  let z' := z + 719468 in
  let '(yoe, doy) := year_of_era (z' mod era_days) in
  let '(m, d) := month_of_doy doy in
  Civil (400 * (z' / era_days) + yoe + (if m <=? 2 then 1 else 0)) m d.

Definition doy_of (m d : Z) : Z :=
  (153 * (m + (if 2 <? m then -3 else 9)) + 2) / 5 + d - 1.
Definition days_of_civil (c : civil) : Z :=
  let y := year c - (if month c <=? 2 then 1 else 0) in
  let yoe := y mod 400 in
  (y / 400) * era_days + (yoe * 365 + yoe / 4 - yoe / 100 + doy_of (month c) (day c)) - 719468.

Definition leap (y : Z) : bool :=
  (y mod 4 =? 0) && (negb (y mod 100 =? 0) || (y mod 400 =? 0)).
Definition days_in (y m : Z) : Z :=
  if m =? 2 then (if leap y then 29 else 28)
  else if (m =? 4) || (m =? 6) || (m =? 9) || (m =? 11) then 30 else 31.

(** A key that orders calendar dates. *)
Definition ckey (c : civil) : Z := (year c * 12 + (month c - 1)) * 31 + (day c - 1).

Lemma year_of_era_spec doe yoe doy :
  0 ≤ doe < era_days → year_of_era doe = (yoe, doy) →
  0 ≤ yoe < 400 ∧ 0 ≤ doy ≤ 365 ∧ yoe * 365 + yoe / 4 - yoe / 100 + doy = doe ∧
  (doy = 365 → leap (yoe + 1) = true).
Proof.
  unfold year_of_era, era_days. intros Hd [= <- <-].
  set (c := Z.min (doe / 36524) 3). set (q := Z.min ((doe - 36524 * c) / 1461) 24).
  set (r := doe - 36524 * c - 1461 * q). set (a := Z.min (r / 365) 3).
  assert (0 ≤ c ≤ 3 ∧ 0 ≤ doe - 36524 * c < 36524 + (if c =? 3 then 1 else 0)) as [Hc Hr].
  { subst c. destruct (Z.eqb_spec (Z.min (doe / 36524) 3) 3); Z.to_euclidean_division_equations; lia. }
  assert (0 ≤ q ≤ 24 ∧ 0 ≤ r < 1461 ∧ (r = 1460 → q = 24 → c = 3)) as (Hq & Hr' & Hlast).
  { subst r q. destruct (Z.eqb_spec c 3); Z.to_euclidean_division_equations; lia. }
  assert (0 ≤ a ≤ 3 ∧ 0 ≤ r - 365 * a ≤ 365 ∧ (r - 365 * a = 365 → a = 3 ∧ r = 1460)) as (Ha & Hy & Hleap).
  { subst a. Z.to_euclidean_division_equations; lia. }
  assert ((100 * c + 4 * q + a) / 4 = 25 * c + q) as -> by (Z.to_euclidean_division_equations; lia).
  assert ((100 * c + 4 * q + a) / 100 = c) as -> by (Z.to_euclidean_division_equations; lia).
  split_and!; try lia.
  intros H. destruct (Hleap H) as [Ea Er]. unfold leap. rewrite Ea.
  replace ((100 * c + 4 * q + 3 + 1) mod 4) with 0 by (Z.to_euclidean_division_equations; lia).
  destruct (decide (q = 24)) as [->|Hne].
  - by rewrite (Hlast Er eq_refl).
  - replace ((100 * c + 4 * q + 3 + 1) mod 100 =? 0) with false; [done|].
    symmetry. apply Z.eqb_neq. Z.to_euclidean_division_equations; lia.
Qed.

(** The month arithmetic is checked on the 366 days of a year. *)
Definition doy_ok (doy : Z) : bool :=
  let '(m, d) := month_of_doy doy in
  let '(m', d') := month_of_doy (doy + 1) in
  (1 <=? m) && (m <=? 12) && (1 <=? d) && (doy_of m d =? doy) &&
  (d <=? if m =? 2 then (if doy =? 365 then 29 else 28) else days_in 0 m) &&
  ((doy =? 365) || (ckey (Civil (if m <=? 2 then 1 else 0) m d) <? ckey (Civil (if m' <=? 2 then 1 else 0) m' d'))).
Lemma doy_ok_spec doy : 0 ≤ doy ≤ 365 → doy_ok doy = true.
Proof.
  intros. apply (check_from_spec doy_ok 366 0); [by vm_compute|lia].
Qed.

Lemma leap_era y k : leap (400 * k + y) = leap y.
Proof.
  unfold leap.
  replace ((400 * k + y) mod 4) with (y mod 4) by (Z.to_euclidean_division_equations; lia).
  replace ((400 * k + y) mod 100) with (y mod 100) by (Z.to_euclidean_division_equations; lia).
  replace ((400 * k + y) mod 400) with (y mod 400) by (Z.to_euclidean_division_equations; lia).
  done.
Qed.

Lemma civil_of_days_valid z :
  let c := civil_of_days z in
  1 ≤ month c ≤ 12 ∧ 1 ≤ day c ≤ days_in (year c) (month c).
Proof.
  unfold civil_of_days. destruct (year_of_era _) as [yoe doy] eqn:E.
  apply year_of_era_spec in E as (Hy & Hd & _ & Hl); [|by apply Z.mod_pos_bound].
  apply doy_ok_spec in Hd. unfold doy_ok in Hd.
  destruct (month_of_doy doy) as [m d], (month_of_doy (doy + 1)) as [m' d'].
  reflect_bools. cbn [year month day]. split; [lia|]. split; [lia|].
  unfold days_in in *. destruct (Z.eqb_spec m 2) as [->|]; [|lia].
  cbn [Z.leb Z.compare Pos.compare Pos.compare_cont]. rewrite <-Z.add_assoc, leap_era.
  destruct (Z.eqb_spec doy 365); [rewrite Hl by done; lia|].
  destruct (leap _); lia.
Qed.

Lemma days_of_civil_of_days z : days_of_civil (civil_of_days z) = z.
Proof.
  unfold civil_of_days. destruct (year_of_era _) as [yoe doy] eqn:E.
  apply year_of_era_spec in E as (Hy & Hd & Hdoe & _); [|by apply Z.mod_pos_bound].
  apply doy_ok_spec in Hd. unfold doy_ok in Hd.
  destruct (month_of_doy doy) as [m d], (month_of_doy (doy + 1)) as [m' d'].
  reflect_bools. unfold days_of_civil. cbn [year month day].
  set (b := if m <=? 2 then 1 else 0). set (era := (z + 719468) / era_days) in *.
  replace (400 * era + yoe + b - b) with (yoe + era * 400) by lia.
  rewrite Z.div_add, Z.mod_add, Z.div_small, Z.mod_small by lia.
  pose proof (Z.div_mod (z + 719468) era_days ltac:(done)). subst era. lia.
Qed.

(** Days before a year of the era. *)
Definition year_base (y : Z) : Z := y * 365 + y / 4 - y / 100.
Definition year_base_ok (y : Z) : bool :=
  year_base (y + 1) =? year_base y + 365 + (if leap (y + 1) then 1 else 0).
Lemma year_base_succ y : 0 ≤ y < 399 →
  year_base (y + 1) = year_base y + 365 + (if leap (y + 1) then 1 else 0).
Proof.
  intros. apply Z.eqb_eq. apply (check_from_spec year_base_ok 399 0); [by vm_compute|lia].
Qed.
Lemma year_base_mono y y' : y ≤ y' → year_base y + 365 * (y' - y) ≤ year_base y'.
Proof.
  intros. unfold year_base.
  assert (y / 100 = y / 4 / 25 ∧ y' / 100 = y' / 4 / 25) as [-> ->].
  { by rewrite !Z.div_div by lia. }
  assert (y / 4 ≤ y' / 4) by (apply Z.div_le_mono; lia).
  Z.to_euclidean_division_equations. lia.
Qed.
Lemma year_step z y1 d1 y2 d2 :
  0 ≤ y1 < 400 → 0 ≤ d1 ≤ 365 → 0 ≤ y2 < 400 → 0 ≤ d2 ≤ 365 →
  year_base y1 + d1 = z mod era_days → year_base y2 + d2 = (z + 1) mod era_days →
  (d1 = 365 → leap (y1 + 1) = true) →
  400 * ((z + 1) / era_days) + y2 = 400 * (z / era_days) + y1 ∧ d2 = d1 + 1 ∨
  400 * ((z + 1) / era_days) + y2 = 400 * (z / era_days) + y1 + 1 ∧ d2 = 0.
Proof.
  intros Hy1 Hd1 Hy2 Hd2 E1 E2 Hl.
  pose proof (Z.div_mod z era_days ltac:(done)) as Hz.
  pose proof (Z.mod_pos_bound z era_days ltac:(done)) as Hb.
  destruct (decide (z mod era_days = era_days - 1)) as [Hw|Hw].
  - assert ((z + 1) mod era_days = 0 ∧ (z + 1) / era_days = z / era_days + 1) as [H1 H2].
    { replace (z + 1) with (0 + (z / era_days + 1) * era_days) by lia.
      rewrite Z.mod_add, Z.div_add by done. done. }
    rewrite H2. pose proof (year_base_mono 0 y2). pose proof (year_base_mono y1 399).
    change (year_base 0) with 0 in *. change (year_base 399) with 145731 in *.
    unfold era_days in *. lia.
  - assert ((z + 1) mod era_days = z mod era_days + 1 ∧ (z + 1) / era_days = z / era_days) as [H1 H2].
    { replace (z + 1) with ((z mod era_days + 1) + (z / era_days) * era_days) by lia.
      rewrite Z.mod_add, Z.div_add by done.
      rewrite (Z.mod_small (z mod era_days + 1)), (Z.div_small (z mod era_days + 1)) by lia.
      done. }
    rewrite H2. rewrite H1 in E2.
    destruct (decide (y2 < y1)); [pose proof (year_base_mono y2 y1); lia|].
    destruct (decide (y1 + 1 < y2)); [pose proof (year_base_mono y1 y2); lia|].
    destruct (decide (y2 = y1)) as [->|]; [left; lia|].
    assert (y2 = y1 + 1) as -> by lia. right.
    rewrite year_base_succ in E2 by lia.
    destruct (leap (y1 + 1)) eqn:El; [lia|].
    assert (d1 ≠ 365) by (intros H; by specialize (Hl H)). lia.
Qed.

Lemma ckey_succ z : ckey (civil_of_days z) < ckey (civil_of_days (z + 1)).
Proof.
  unfold civil_of_days. set (z' := z + 719468). replace (z + 1 + 719468) with (z' + 1) by lia.
  destruct (year_of_era (z' mod era_days)) as [y1 d1] eqn:E1.
  destruct (year_of_era ((z' + 1) mod era_days)) as [y2 d2] eqn:E2.
  apply year_of_era_spec in E1 as (Hy1 & Hd1 & Hdoe1 & Hl1); [|by apply Z.mod_pos_bound].
  apply year_of_era_spec in E2 as (Hy2 & Hd2 & Hdoe2 & _); [|by apply Z.mod_pos_bound].
  pose proof (doy_ok_spec _ Hd1) as Ho1. pose proof (doy_ok_spec _ Hd2) as Ho2.
  set (q1 := 400 * (z' / era_days) + y1). set (q2 := 400 * ((z' + 1) / era_days) + y2).
  assert ((q2 = q1 ∧ d2 = d1 + 1) ∨ (q2 = q1 + 1 ∧ d2 = 0)) as Hstep.
  { subst q1 q2. destruct (year_step z' y1 d1 y2 d2) as [?|?]; try done; [left|right]; lia. }
  unfold doy_ok in *.
  destruct (month_of_doy d1) as [m1 e1] eqn:M1, (month_of_doy d2) as [m2 e2] eqn:M2.
  unfold ckey. cbn [year month day].
  destruct Hstep as [[-> ->]|[-> ->]].
  - rewrite M2 in Ho1. reflect_bools. unfold ckey in *. cbn [year month day] in *. lia.
  - vm_compute in M2. simplify_eq. destruct (month_of_doy (d1 + 1)).
    assert (e1 ≤ 31) by (reflect_bools; unfold days_in in *; repeat case_match; lia).
    reflect_bools. destruct (Z.leb_spec m1 2); cbn [Z.leb Z.compare Pos.compare Pos.compare_cont]; lia.
Qed.

Lemma ckey_mono z1 z2 : z1 < z2 → ckey (civil_of_days z1) < ckey (civil_of_days z2).
Proof.
  intros H. replace z2 with (z1 + 1 + Z.of_nat (Z.to_nat (z2 - z1 - 1))) by lia.
  induction (Z.to_nat (z2 - z1 - 1)) as [|n IH].
  - rewrite Z.add_0_r. apply ckey_succ.
  - etransitivity; [exact IH|]. rewrite Nat2Z.inj_succ, <-Z.add_1_r, Z.add_assoc. apply ckey_succ.
Qed.

(** ** Decimal digits *)
Definition digit (d : Z) : ascii := ascii_of_byte (48 + d).
Definition digit_val (c : ascii) : option Z :=
  let b := byte_of_ascii c in
  if (48 <=? b) && (b <=? 57) then Some (b - 48) else None.

(** The [w] low decimal digits of [x], most significant first. *)
Fixpoint pad (w : nat) (x : Z) : string :=
  match w with
  | O => ""
  | S w => String (digit (x / 10 ^ Z.of_nat w mod 10)) (pad w x)
  end.

(** [strconv.Itoa] and [strconv.FormatInt (_, 10)]. *)
Fixpoint ndigits (fuel : nat) (x : Z) : nat :=
  match fuel with
  | O => 1
  | S fuel => if x <? 10 then 1 else S (ndigits fuel (x / 10))
  end.
Definition Itoa (x : Z) : string :=
  if x <? 0 then "-" +:+ pad (ndigits 64 (- x)) (- x) else pad (ndigits 64 x) x.

(** [time.appendInt]: a zero-padded field of at least [w] digits. *)
Definition appendInt (x : Z) (w : nat) : string :=
  let u := Z.abs x in
  (if x <? 0 then "-" else "") +:+ (if u <? 10 ^ Z.of_nat w then pad w u else Itoa u).

Lemma digit_val_digit d : 0 ≤ d < 10 → digit_val (digit d) = Some d.
Proof.
  intros. unfold digit_val, digit. rewrite byte_of_ascii_of_byte by (unfold byte_ok; lia).
  replace ((48 <=? 48 + d) && (48 + d <=? 57)) with true by (symmetry; apply andb_true_iff; lia).
  f_equal. lia.
Qed.
Lemma length_pad w x : String.length (pad w x) = w.
Proof. induction w; simpl; congruence. Qed.
Lemma pad_split w x : x mod 10 ^ Z.of_nat (S w) =
  (x / 10 ^ Z.of_nat w mod 10) * 10 ^ Z.of_nat w + x mod 10 ^ Z.of_nat w.
Proof.
  rewrite Nat2Z.inj_succ, Z.pow_succ_r, Z.mul_comm by lia.
  rewrite Z.rem_mul_r by lia. lia.
Qed.
Lemma pad_compare w x y :
  String.compare (pad w x) (pad w y) = (x mod 10 ^ Z.of_nat w ?= y mod 10 ^ Z.of_nat w).
Proof.
  induction w as [|w IH]; [by rewrite !Z.mod_1_r|].
  rewrite !pad_split. cbn [pad String.compare].
  set (p := 10 ^ Z.of_nat w) in *.
  assert (0 < p) by (subst p; lia).
  pose proof (Z.mod_pos_bound x p ltac:(lia)). pose proof (Z.mod_pos_bound y p ltac:(lia)).
  pose proof (Z.mod_pos_bound (x / p) 10 ltac:(lia)). pose proof (Z.mod_pos_bound (y / p) 10 ltac:(lia)).
  assert (∀ a b, 0 ≤ a < 10 → 0 ≤ b < 10 → Ascii.compare (digit a) (digit b) = (a ?= b)) as Hc.
  { intros a b Ha Hb. unfold Ascii.compare, digit, ascii_of_byte.
    rewrite !N_ascii_embedding by lia. rewrite <-N2Z.inj_compare, !Z2N.id by lia.
    by rewrite Z.add_compare_mono_l. }
  rewrite Hc, IH by done. destruct (Z.compare_spec (x / p mod 10) (y / p mod 10)) as [E|E|E].
  - rewrite E. symmetry. apply Z.add_compare_mono_l.
  - symmetry. apply Z.compare_lt_iff. nia.
  - symmetry. apply Z.compare_gt_iff. nia.
Qed.

(** ** time.Time.UTC().Format(time.RFC3339Nano) *)
Fixpoint strip_zeros (s : string) : string :=
  match s with
  | EmptyString => ""
  | String c s => match strip_zeros s with
                  | EmptyString => if Ascii.eqb c "0" then "" else String c ""
                  | s' => String c s'
                  end
  end.
Definition format_frac (ns : Z) : string :=
  match strip_zeros (pad 9 ns) with EmptyString => "" | s => "." +:+ s end.
Definition format_seconds (sec : Z) : string :=
  let c := civil_of_days (sec / 86400) in
  let tod := sec mod 86400 in
  appendInt (year c) 4 +:+ "-" +:+ appendInt (month c) 2 +:+ "-" +:+ appendInt (day c) 2 +:+
  "T" +:+ appendInt (tod / 3600) 2 +:+ ":" +:+ appendInt (tod / 60 mod 60) 2 +:+
  ":" +:+ appendInt (tod mod 60) 2.
Definition FormatTime (t : Z) : string :=
  format_seconds (t / Second) +:+ format_frac (t mod Second) +:+ "Z".

(** ** time.Parse(time.RFC3339Nano, _) *)
Fixpoint take_num (n : nat) (acc : Z) (s : string) : option (Z * string) :=
  match n with
  | O => Some (acc, s)
  | S n => match s with
           | String c s => d ← digit_val c; take_num n (acc * 10 + d) s
           | EmptyString => None
           end
  end.
Definition expect (c : ascii) (s : string) : option string :=
  match s with
  | String a s => if Ascii.eqb a c then Some s else None
  | EmptyString => None
  end.
Fixpoint skip_digits (s : string) : string :=
  match s with
  | String c s' => match digit_val c with Some _ => skip_digits s' | None => s end
  | EmptyString => s
  end.
(** Up to [n] digits of a fraction, scaled to [n] digits; further digits are dropped. *)
Fixpoint take_frac (n : nat) (s : string) : Z * string :=
  match n with
  | O => (0, skip_digits s)
  | S n => match s with
           | String c s' =>
               match digit_val c with
               | Some d => let '(v, r) := take_frac n s' in (d * 10 ^ Z.of_nat n + v, r)
               | None => (0, s)
               end
           | EmptyString => (0, s)
           end
  end.
Definition parse_frac (s : string) : Z * string :=
  match s with
  | String p (String c r) =>
      if Ascii.eqb p "." || Ascii.eqb p ","
      then match digit_val c with Some _ => take_frac 9 (String c r) | None => (0, s) end
      else (0, s)
  | _ => (0, s)
  end.
(** The zone: [Z] or a signed hh:mm offset, in seconds east of UTC. *)
Definition parse_zone (s : string) : option Z :=
  match s with
  | String a r =>
      if Ascii.eqb a "Z" then (match r with EmptyString => Some 0 | _ => None end)
      else if Ascii.eqb a "+" || Ascii.eqb a "-" then
        '(h, r) ← take_num 2 0 r; r ← expect ":" r; '(m, r) ← take_num 2 0 r;
        if String.eqb r "" && (h <=? 24) && (m <? 60)
        then Some ((if Ascii.eqb a "-" then -1 else 1) * (h * 3600 + m * 60)) else None
      else None
  | EmptyString => None
  end.
Definition ParseTime (s : string) : option Z :=
  '(y, s) ← take_num 4 0 s; s ← expect "-" s;
  '(mo, s) ← take_num 2 0 s; s ← expect "-" s;
  '(d, s) ← take_num 2 0 s; s ← expect "T" s;
  '(h, s) ← take_num 2 0 s; s ← expect ":" s;
  '(mi, s) ← take_num 2 0 s; s ← expect ":" s;
  '(sec, s) ← take_num 2 0 s;
  let '(ns, s) := parse_frac s in
  off ← parse_zone s;
  if (1 <=? mo) && (mo <=? 12) && (1 <=? d) && (d <=? days_in y mo) &&
     (h <? 24) && (mi <? 60) && (sec <? 60)
  then Some ((days_of_civil (Civil y mo d) * 86400 + h * 3600 + mi * 60 + sec - off) * Second + ns)
  else None.

(** ** Text and back *)

(** The times whose year has four digits; the rest cannot be written in RFC 3339. *)
Definition representable (t : Z) : Prop :=
  0 ≤ year (civil_of_days (t / Second / 86400)) ≤ 9999.

Lemma appendInt_pad x w : 0 ≤ x < 10 ^ Z.of_nat w → appendInt x w = pad w x.
Proof.
  intros Hx. unfold appendInt. rewrite Z.abs_eq by lia.
  destruct (Z.ltb_spec x 0); [lia|]. destruct (Z.ltb_spec x (10 ^ Z.of_nat w)); [done|lia].
Qed.

Lemma take_num_pad w acc x r :
  take_num w acc (pad w x +:+ r) = Some (acc * 10 ^ Z.of_nat w + x mod 10 ^ Z.of_nat w, r).
Proof.
  revert acc. induction w as [|w IH]; intros acc.
  - cbn [take_num pad]. rewrite Z.mod_1_r. do 2 f_equal. simpl. lia.
  - cbn [pad]. rewrite str_app_cons. cbn [take_num].
    rewrite digit_val_digit by (by apply Z.mod_pos_bound). cbn [mbind option_bind].
    rewrite IH, pad_split. do 2 f_equal. rewrite Nat2Z.inj_succ, Z.pow_succ_r by lia. lia.
Qed.

Definition no_digit (r : string) : Prop :=
  match r with String c _ => digit_val c = None | EmptyString => True end.

Lemma digit_zero_iff d : 0 ≤ d < 10 → Ascii.eqb (digit d) "0" = (d =? 0).
Proof.
  intros. destruct (Ascii.eqb_spec (digit d) "0") as [E|E].
  - apply (f_equal digit_val) in E. rewrite digit_val_digit in E by done.
    vm_compute in E. simplify_eq. done.
  - destruct (Z.eqb_spec d 0) as [->|]; [|done]. by destruct E.
Qed.

Lemma skip_no_digit r : no_digit r → skip_digits r = r.
Proof. destruct r as [|c r]; simpl; [done|]. by intros ->. Qed.

Lemma take_frac_strip w x r : no_digit r →
  take_frac w (strip_zeros (pad w x) +:+ r) = (x mod 10 ^ Z.of_nat w, r) ∧
  (strip_zeros (pad w x) = "" → x mod 10 ^ Z.of_nat w = 0).
Proof.
  intros Hr. induction w as [|w [IH1 IH2]].
  - cbn [strip_zeros pad take_frac]. rewrite str_app_nil_l, skip_no_digit, Z.mod_1_r by done. done.
  - rewrite pad_split. cbn [pad strip_zeros].
    set (d := x / 10 ^ Z.of_nat w mod 10).
    assert (0 ≤ d < 10) as Hd by (by apply Z.mod_pos_bound).
    destruct (strip_zeros (pad w x)) as [|c s] eqn:E.
    + rewrite (IH2 eq_refl) in *. rewrite digit_zero_iff by done.
      destruct (Z.eqb_spec d 0) as [Ed|Ed].
      * split; [|intros; lia]. rewrite Ed, str_app_nil_l.
        destruct r as [|a r]; [done|]. cbn in Hr |- *. by rewrite Hr.
      * split; [|done]. rewrite str_app_cons. cbn [take_frac].
        rewrite digit_val_digit by done. by rewrite IH1.
    + split; [|done]. rewrite str_app_cons. cbn [take_frac].
      rewrite digit_val_digit by done. by rewrite IH1.
Qed.

Lemma strip_pad_head w x c s : strip_zeros (pad w x) = String c s → is_Some (digit_val c).
Proof.
  destruct w as [|w]; [done|]. cbn [pad strip_zeros]. intros H.
  assert (c = digit (x / 10 ^ Z.of_nat w mod 10)) as ->.
  { destruct (strip_zeros (pad w x)); [destruct (Ascii.eqb _ _)|]; congruence. }
  rewrite digit_val_digit by (by apply Z.mod_pos_bound). done.
Qed.

Lemma parse_frac_format ns : 0 ≤ ns < Second → parse_frac (format_frac ns +:+ "Z") = (ns, "Z").
Proof.
  intros Hns. unfold format_frac.
  destruct (take_frac_strip 9 ns "Z" eq_refl) as [H1 H2].
  change (10 ^ Z.of_nat 9) with Second in *. rewrite Z.mod_small in H1, H2 by done.
  destruct (strip_zeros (pad 9 ns)) as [|c s] eqn:E.
  - rewrite H2 by done. done.
  - rewrite str_app_cons, str_app_nil_l. unfold parse_frac. rewrite str_app_cons.
    rewrite str_app_cons in *. cbn [Ascii.eqb Bool.eqb orb].
    destruct (digit_val c) eqn:Ed; [exact H1|].
    destruct (strip_pad_head _ _ _ _ E). congruence.
Qed.

Lemma tod_fields n : 0 ≤ n < 86400 →
  0 ≤ n / 3600 < 24 ∧ 0 ≤ n / 60 mod 60 < 60 ∧ 0 ≤ n mod 60 < 60 ∧
  n / 3600 * 3600 + n / 60 mod 60 * 60 + n mod 60 = n.
Proof. intros. Z.to_euclidean_division_equations. lia. Qed.

(** Every date and time field is written as a fixed-width number. *)
Lemma format_seconds_pad sec :
  0 ≤ year (civil_of_days (sec / 86400)) ≤ 9999 →
  let c := civil_of_days (sec / 86400) in let tod := sec mod 86400 in
  format_seconds sec =
  pad 4 (year c) +:+ "-" +:+ pad 2 (month c) +:+ "-" +:+ pad 2 (day c) +:+ "T" +:+
  pad 2 (tod / 3600) +:+ ":" +:+ pad 2 (tod / 60 mod 60) +:+ ":" +:+ pad 2 (tod mod 60).
Proof.
  intros Hy c tod. unfold format_seconds.
  destruct (civil_of_days_valid (sec / 86400)) as [Hm Hd].
  destruct (tod_fields (sec mod 86400) ltac:(by apply Z.mod_pos_bound)) as (?&?&?&_).
  assert (day c ≤ 31) by (unfold days_in in Hd; subst c; repeat case_match; lia).
  subst c tod. rewrite !appendInt_pad; [done|..];
    change (10 ^ Z.of_nat 2) with 100; change (10 ^ Z.of_nat 4) with 10000; lia.
Qed.

(** Writing a time and reading it back gives the same time. *)
Lemma ParseTime_FormatTime t : representable t → ParseTime (FormatTime t) = Some t.
Proof.
  intros Hy. unfold FormatTime. rewrite format_seconds_pad by done.
  set (sec := t / Second). destruct (civil_of_days_valid (sec / 86400)) as [Hm Hd].
  destruct (tod_fields (sec mod 86400) ltac:(by apply Z.mod_pos_bound)) as (?&?&?&Htod).
  pose proof (days_of_civil_of_days (sec / 86400)) as Hz.
  unfold representable in Hy. fold sec in Hy.
  destruct (civil_of_days (sec / 86400)) as [y m d]. cbn [year month day] in *.
  assert (d ≤ 31) by (unfold days_in in Hd; repeat case_match; lia).
  assert (∀ x, 0 ≤ x < 100 → 0 * 10 ^ Z.of_nat 2 + x mod 10 ^ Z.of_nat 2 = x) as Hp2.
  { intros x Hx. change (10 ^ Z.of_nat 2) with 100. rewrite Z.mod_small; lia. }
  unfold ParseTime. rewrite <-!str_app_assoc.
  repeat first [rewrite take_num_pad|rewrite str_app_cons, str_app_nil_l
    |progress cbn [mbind option_bind expect Ascii.eqb Bool.eqb]].
  change (10 ^ Z.of_nat 4) with 10000. rewrite (Z.mod_small y) by lia. rewrite !Hp2 by lia.
  rewrite parse_frac_format by (by apply Z.mod_pos_bound).
  rewrite Z.mul_0_l, Z.add_0_l.
  replace (_ && _) with true.
  - cbn. f_equal. rewrite Hz. pose proof (Z.div_mod sec 86400 ltac:(done)).
    pose proof (Z.div_mod t Second ltac:(done)). subst sec. lia.
  - symmetry. rewrite !andb_true_iff, !Z.leb_le, !Z.ltb_lt. lia.
Qed.

(** ** The order of the text *)

Lemma format_seconds_lt s1 s2 :
  0 ≤ year (civil_of_days (s1 / 86400)) ≤ 9999 → 0 ≤ year (civil_of_days (s2 / 86400)) ≤ 9999 →
  s1 < s2 → String.compare (format_seconds s1) (format_seconds s2) = Lt.
Proof.
  intros Hy1 Hy2 Hlt. rewrite !format_seconds_pad by done.
  destruct (civil_of_days_valid (s1 / 86400)) as [Hm1 Hd1].
  destruct (civil_of_days_valid (s2 / 86400)) as [Hm2 Hd2].
  assert (∀ y m, days_in y m ≤ 31) as Hdi by (intros; unfold days_in; repeat case_match; lia).
  pose proof (Hdi (year (civil_of_days (s1 / 86400))) (month (civil_of_days (s1 / 86400)))).
  pose proof (Hdi (year (civil_of_days (s2 / 86400))) (month (civil_of_days (s2 / 86400)))).
  destruct (tod_fields (s1 mod 86400) ltac:(by apply Z.mod_pos_bound)) as (?&?&?&Ht1).
  destruct (tod_fields (s2 mod 86400) ltac:(by apply Z.mod_pos_bound)) as (?&?&?&Ht2).
  assert (s1 / 86400 < s2 / 86400 ∨ s1 / 86400 = s2 / 86400 ∧ s1 mod 86400 < s2 mod 86400) as Hor.
  { Z.to_euclidean_division_equations. lia. }
  assert (ckey (civil_of_days (s1 / 86400)) < ckey (civil_of_days (s2 / 86400)) ∨
    civil_of_days (s1 / 86400) = civil_of_days (s2 / 86400) ∧ s1 mod 86400 < s2 mod 86400) as Hk.
  { destruct Hor as [Hor|[-> ?]]; [left; by apply ckey_mono|by right]. }
  clear Hor Hlt Hdi. revert Ht1 Ht2 Hk.
  generalize dependent (s1 mod 86400). generalize dependent (s2 mod 86400). intros t2 ??? t1 ??? Ht1 Ht2 Hk.
  destruct (civil_of_days (s1 / 86400)) as [y1 m1 d1], (civil_of_days (s2 / 86400)) as [y2 m2 d2].
  unfold ckey in Hk. cbn [year month day] in *.
  generalize dependent (t1 / 3600). generalize dependent (t1 / 60 mod 60). generalize dependent (t1 mod 60).
  generalize dependent (t2 / 3600). generalize dependent (t2 / 60 mod 60). generalize dependent (t2 mod 60).
  intros.
  repeat first [rewrite compare_app by (by rewrite ?length_pad)|rewrite pad_compare].
  change (10 ^ Z.of_nat 2) with 100. change (10 ^ Z.of_nat 4) with 10000.
  rewrite !Z.mod_small by lia.
  change (String.compare "-" "-") with Eq. change (String.compare "T" "T") with Eq.
  change (String.compare ":" ":") with Eq. cbv beta iota.
  repeat (match goal with |- context [?a ?= ?b] => destruct (Z.compare_spec a b) end;
    [|reflexivity|exfalso; destruct Hk as [Hk|[? Hk]]; simplify_eq; lia]).
  exfalso. destruct Hk as [Hk|[? Hk]]; simplify_eq; lia.
Qed.

(** Times in different seconds: the text order is the order of times. *)
Lemma FormatTime_lt t1 t2 :
  representable t1 → representable t2 → t1 / Second < t2 / Second →
  str_lt (FormatTime t1) (FormatTime t2) = true.
Proof.
  intros H1 H2 Hlt. apply str_lt_compare. unfold FormatTime.
  pose proof (format_seconds_lt _ _ H1 H2 Hlt) as Hc.
  rewrite compare_app; [by rewrite Hc|].
  rewrite !format_seconds_pad by done. by rewrite !length_app_string, !length_pad.
Qed.
Lemma FormatTime_le_seconds t1 t2 :
  representable t1 → representable t2 →
  str_le (FormatTime t1) (FormatTime t2) = true → t1 / Second ≤ t2 / Second.
Proof.
  intros H1 H2 Hle. destruct (decide (t1 / Second ≤ t2 / Second)) as [|Hgt]; [done|].
  pose proof (FormatTime_lt t2 t1 H2 H1 ltac:(lia)) as Hlt.
  rewrite str_lt_not_le, Hle in Hlt. done.
Qed.
Lemma FormatTime_inj t1 t2 :
  representable t1 → representable t2 → FormatTime t1 = FormatTime t2 → t1 = t2.
Proof.
  intros H1 H2 E. apply (f_equal ParseTime) in E.
  rewrite !ParseTime_FormatTime in E by done. congruence.
Qed.

(** Inside one second it is not: trailing zeros of the fraction are dropped, and
  ["Z"] sorts after ["."] and after the digits. *)
Lemma FormatTime_not_monotone :
  str_lt (FormatTime (1700000000 * Second + 500000000)) (FormatTime (1700000000 * Second)) = true.
Proof. by vm_compute. Qed.

(** [time.Unix(s, 0)]: the seconds are counted from the year 1 in an [int64]. *)
Definition Unix (s : Z) : Z := (wrap64 (s + 62135596800) - 62135596800) * Second.
Lemma Unix_small s : - 2 ^ 62 ≤ s ≤ 2 ^ 62 → Unix s = s * Second.
Proof. intros H. unfold Unix. rewrite wrap64_id; [f_equal; lia|]. unfold in_i64, i64_min, i64_max. lia. Qed.
