(* ===== verification/Base64.v ===== *)
(** [encoding/base64]: the padded standard encoding of unseal shares and the
  unpadded URL encoding of JWT segments. *)
From Stdlib Require Import ZArith Lia Ascii.
From S2P Require Import Prelude GoStrings.
From stdpp Require Import options.

Inductive alphabet := StdAlphabet | URLAlphabet.
Definition sextet (a : alphabet) (d : Z) : ascii :=
  ascii_of_byte
    (if d <? 26 then 65 + d else if d <? 52 then 71 + d else if d <? 62 then d - 4
     else if d =? 62 then (match a with StdAlphabet => 43 | URLAlphabet => 45 end)
     else (match a with StdAlphabet => 47 | URLAlphabet => 95 end)).
Definition sextet_val (a : alphabet) (c : ascii) : option Z :=
  let b := byte_of_ascii c in
  if (65 <=? b) && (b <=? 90) then Some (b - 65)
  else if (97 <=? b) && (b <=? 122) then Some (b - 71)
  else if (48 <=? b) && (b <=? 57) then Some (b + 4)
  else match a with
       | StdAlphabet => if b =? 43 then Some 62 else if b =? 47 then Some 63 else None
       | URLAlphabet => if b =? 45 then Some 62 else if b =? 95 then Some 63 else None
       end.

Definition pad_char : ascii := "="%char.
Fixpoint encode64 (a : alphabet) (padded : bool) (b : list Z) : string :=
  match b with
  | [] => ""
  | [x] => String (sextet a (x / 4)) (String (sextet a (x mod 4 * 16))
             (if padded then String pad_char (String pad_char "") else ""))
  | [x; y] => String (sextet a (x / 4)) (String (sextet a (x mod 4 * 16 + y / 16)) (String (sextet a (y mod 16 * 4))
             (if padded then String pad_char "" else "")))
  | x :: y :: z :: b =>
      String (sextet a (x / 4)) (String (sextet a (x mod 4 * 16 + y / 16))
        (String (sextet a (y mod 16 * 4 + z / 64)) (String (sextet a (z mod 64)) (encode64 a padded b))))
  end.

(** Line breaks are skipped wherever they are. *)
Fixpoint drop_newlines (s : string) : string :=
  match s with
  | EmptyString => ""
  | String c r => if (byte_of_ascii c =? 10) || (byte_of_ascii c =? 13) then drop_newlines r else String c (drop_newlines r)
  end.
Fixpoint decode_quanta (a : alphabet) (padded : bool) (s : string) : option (list Z) :=
  match s with
  | EmptyString => Some []
  | String c1 (String c2 r2) =>
      x ← sextet_val a c1; y ← sextet_val a c2;
      match r2 with
      | EmptyString => if padded then None else Some [x * 4 + y / 16]
      | String c3 r3 =>
          if padded && Ascii.eqb c3 pad_char
          then match r3 with
               | String c4 EmptyString => if Ascii.eqb c4 pad_char then Some [x * 4 + y / 16] else None
               | _ => None
               end
          else
            z ← sextet_val a c3;
            match r3 with
            | EmptyString => if padded then None else Some [x * 4 + y / 16; y mod 16 * 16 + z / 4]
            | String c4 r4 =>
                if padded && Ascii.eqb c4 pad_char
                then match r4 with EmptyString => Some [x * 4 + y / 16; y mod 16 * 16 + z / 4] | _ => None end
                else
                  u ← sextet_val a c4; rest ← decode_quanta a padded r4;
                  Some (x * 4 + y / 16 :: y mod 16 * 16 + z / 4 :: z mod 4 * 64 + u :: rest)
            end
      end
  | _ => None
  end.
Definition decode64 (a : alphabet) (padded : bool) (s : string) : option (list Z) :=
  decode_quanta a padded (drop_newlines s).

Definition StdEncode : list Z → string := encode64 StdAlphabet true.
Definition StdDecode : string → option (list Z) := decode64 StdAlphabet true.
Definition RawURLDecode : string → option (list Z) := decode64 URLAlphabet false.
Definition RawURLEncode : list Z → string := encode64 URLAlphabet false.

Definition sextet_ok (a : alphabet) (d : Z) : bool :=
  bool_decide (sextet_val a (sextet a d) = Some d) &&
  negb (Ascii.eqb (sextet a d) pad_char) &&
  negb ((byte_of_ascii (sextet a d) =? 10) || (byte_of_ascii (sextet a d) =? 13)).
Lemma sextet_spec a d : 0 ≤ d < 64 →
  sextet_val a (sextet a d) = Some d ∧ Ascii.eqb (sextet a d) pad_char = false ∧
  (byte_of_ascii (sextet a d) =? 10) || (byte_of_ascii (sextet a d) =? 13) = false.
Proof.
  intros Hd. assert (sextet_ok a d = true) as H.
  { destruct a; (apply (check_from_spec (sextet_ok _) 64 0); [by vm_compute|lia]). }
  unfold sextet_ok in H. apply andb_true_iff in H as [[H1 H2]%andb_true_iff H3].
  apply bool_decide_eq_true in H1. apply negb_true_iff in H2, H3. done.
Qed.

Lemma list3_ind (P : list Z → Prop) :
  P [] → (∀ x, P [x]) → (∀ x y, P [x; y]) → (∀ x y z l, P l → P (x :: y :: z :: l)) → ∀ l, P l.
Proof.
  intros H0 H1 H2 H3 l. assert (∀ n l, (length l <= n)%nat → P l) as H; [|by eapply H].
  clear l. induction n as [|n IH]; intros l Hl; [by destruct l; [|simpl in Hl; lia]|].
  destruct l as [|x [|y [|z l]]]; auto. apply H3, IH. simpl in Hl. lia.
Qed.

Lemma drop_sextet a d r : 0 ≤ d < 64 →
  drop_newlines (String (sextet a d) r) = String (sextet a d) (drop_newlines r).
Proof. intros Hd. destruct (sextet_spec a d Hd) as (_&_&E). cbn [drop_newlines]. by rewrite E. Qed.
Lemma val_sextet a d : 0 ≤ d < 64 → sextet_val a (sextet a d) = Some d.
Proof. intros Hd. apply (sextet_spec a d Hd). Qed.
Lemma pad_sextet a d b : 0 ≤ d < 64 → b && Ascii.eqb (sextet a d) pad_char = false.
Proof. intros Hd. destruct (sextet_spec a d Hd) as (_&->&_). apply andb_false_r. Qed.

(** The four sextets of three bytes, and back. *)
Lemma sextets x y z : byte_ok x → byte_ok y → byte_ok z →
  (0 ≤ x / 4 < 64) ∧ (0 ≤ x mod 4 * 16 < 64) ∧ (0 ≤ x mod 4 * 16 + y / 16 < 64) ∧ (0 ≤ y mod 16 * 4 < 64) ∧
  (0 ≤ y mod 16 * 4 + z / 64 < 64) ∧ (0 ≤ z mod 64 < 64).
Proof.
  unfold byte_ok. intros Hx Hy Hz.
  pose proof (Z.div_mod x 4 ltac:(lia)); pose proof (Z.mod_pos_bound x 4 ltac:(lia)).
  pose proof (Z.div_mod y 16 ltac:(lia)); pose proof (Z.mod_pos_bound y 16 ltac:(lia)).
  pose proof (Z.div_mod z 64 ltac:(lia)); pose proof (Z.mod_pos_bound z 64 ltac:(lia)). lia.
Qed.
Lemma rejoin p q k n : 0 < k → 0 < n → 0 ≤ q < n → (p * n + q) / n = p ∧ (p * n + q) mod n = q.
Proof.
  intros Hk Hn Hq. split.
  - rewrite Z.div_add_l by lia. rewrite Z.div_small by lia. lia.
  - rewrite Z.add_comm, Z.mod_add by lia. by apply Z.mod_small.
Qed.
Lemma first_byte x y : byte_ok x → byte_ok y →
  x / 4 * 4 + (x mod 4 * 16 + y / 16) / 16 = x ∧ (x mod 4 * 16 + y / 16) mod 16 * 16 = y / 16 * 16.
Proof.
  unfold byte_ok. intros Hx Hy.
  assert (0 ≤ y / 16 < 16) by (split; [apply Z.div_pos; lia|apply Z.div_lt_upper_bound; lia]).
  destruct (rejoin (x mod 4) (y / 16) 1 16 ltac:(lia) ltac:(lia) ltac:(lia)) as [-> ->].
  pose proof (Z.div_mod x 4 ltac:(lia)). lia.
Qed.
Lemma second_byte y z : byte_ok y → byte_ok z →
  y / 16 * 16 + (y mod 16 * 4 + z / 64) / 4 = y ∧ (y mod 16 * 4 + z / 64) mod 4 * 64 + z mod 64 = z.
Proof.
  unfold byte_ok. intros Hy Hz.
  assert (0 ≤ z / 64 < 4) by (split; [apply Z.div_pos; lia|apply Z.div_lt_upper_bound; lia]).
  destruct (rejoin (y mod 16) (z / 64) 1 4 ltac:(lia) ltac:(lia) ltac:(lia)) as [-> ->].
  pose proof (Z.div_mod y 16 ltac:(lia)). pose proof (Z.div_mod z 64 ltac:(lia)). lia.
Qed.

Lemma decode_encode64 a padded b : Forall byte_ok b → decode64 a padded (encode64 a padded b) = Some b.
Proof.
  assert (byte_ok 0) as H0 by done.
  unfold decode64. induction b as [|x|x y|x y z b IH] using list3_ind; intros Hb.
  - done.
  - apply Forall_cons in Hb as [Hx _]. destruct (sextets x 0 0 Hx H0 H0) as (S1&S2&_).
    destruct (first_byte x 0 Hx H0) as [F _]. rewrite Z.add_0_r in F.
    cbn [encode64]. rewrite !drop_sextet by done.
    assert (drop_newlines (if padded then String pad_char (String pad_char "") else "") =
      if padded then String pad_char (String pad_char "") else "") as -> by by destruct padded.
    cbn [decode_quanta]. rewrite !val_sextet by done. cbn [mbind option_bind]. by destruct padded; cbn; rewrite F.
  - apply Forall_cons in Hb as [Hx Hb]. apply Forall_cons in Hb as [Hy _].
    destruct (sextets x y 0 Hx Hy H0) as (S1&_&S3&S4&_).
    destruct (first_byte x y Hx Hy) as [F1 F2]. destruct (second_byte y 0 Hy H0) as [F3 _]. rewrite Z.add_0_r in F3.
    cbn [encode64]. rewrite !drop_sextet by done.
    assert (drop_newlines (if padded then String pad_char "" else "") =
      if padded then String pad_char "" else "") as -> by by destruct padded.
    cbn [decode_quanta]. rewrite !val_sextet by done. cbn [mbind option_bind].
    rewrite pad_sextet by done. by destruct padded; cbn; rewrite F1, F2, F3.
  - apply Forall_cons in Hb as [Hx Hb]. apply Forall_cons in Hb as [Hy Hb]. apply Forall_cons in Hb as [Hz Hb].
    destruct (sextets x y z Hx Hy Hz) as (S1&_&S3&_&S5&S6).
    destruct (first_byte x y Hx Hy) as [F1 F2]. destruct (second_byte y z Hy Hz) as [F3 F4].
    cbn [encode64]. rewrite !drop_sextet by done. cbn [decode_quanta]. rewrite !val_sextet by done.
    cbn [mbind option_bind]. rewrite !pad_sextet by done. cbn [mbind option_bind].
    rewrite IH by done. cbn [mbind option_bind]. by rewrite F1, F2, F3, F4.
Qed.
Lemma StdDecode_StdEncode b : Forall byte_ok b → StdDecode (StdEncode b) = Some b.
Proof. apply decode_encode64. Qed.
