(* ===== verification/Json.v ===== *)
(** Go's [encoding/json] as the server uses it: the text of a value as
  [json.Marshal] writes it, and the parser behind [json.Unmarshal].

  A Go string is any sequence of bytes and JSON text is UTF-8: marshalling
  replaces every byte that does not start a valid UTF-8 sequence by U+FFFD.
  [sanitize] is that loss, and the round trip theorem says it is the only one. *)
From Stdlib Require Import ZArith Lia Ascii.
From Stdlib Require String.
From S2P Require Import Prelude GoStrings GoTime.
From stdpp Require Import options.

(** ** UTF-8, [unicode/utf8] *)
Definition within (lo hi : Z) (c : ascii) : bool := (lo <=? byte_of_ascii c) && (byte_of_ascii c <=? hi).
Definition cont (c : ascii) : bool := within 128 191 c.

(** The length of the valid sequence at the head of [s], if there is one. *)
Definition rune_width (s : string) : option nat :=
  match s with
  | EmptyString => None
  | String a s1 =>
      if within 0 127 a then Some 1%nat else
      match s1 with
      | EmptyString => None
      | String b s2 =>
          if within 194 223 a && cont b then Some 2%nat else
          match s2 with
          | EmptyString => None
          | String c s3 =>
              if ((within 224 224 a && within 160 191 b) || (within 225 236 a && cont b)
                  || (within 237 237 a && within 128 159 b) || (within 238 239 a && cont b)) && cont c
              then Some 3%nat else
              match s3 with
              | EmptyString => None
              | String d _ =>
                  if ((within 240 240 a && within 144 191 b) || (within 241 243 a && cont b)
                      || (within 244 244 a && within 128 143 b)) && cont c && cont d
                  then Some 4%nat else None
              end
          end
      end
  end.

Fixpoint split_at (n : nat) (s : string) : string * string :=
  match n, s with
  | S n, String a s => let '(p, r) := split_at n s in (String a p, r)
  | _, _ => ("", s)
  end.

(** The first rune of a non-empty string: whether it is valid, its bytes, the rest. *)
Definition chunk (s : string) : bool * string * string :=
  match rune_width s with
  | Some n => let '(p, r) := split_at n s in (true, p, r)
  | None => let '(p, r) := split_at 1 s in (false, p, r)
  end.
Fixpoint chunks (fuel : nat) (s : string) : list (bool * string) :=
  match fuel, s with
  | S fuel, String _ _ => let '(v, p, r) := chunk s in (v, p) :: chunks fuel r
  | _, _ => []
  end.
Definition runes (s : string) : list (bool * string) := chunks (String.length s) s.
Definition concat_str (l : list string) : string := foldr String.append "" l.

Definition replacement : string := string_of_bytes [239; 191; 189].
Definition sanitize_chunk (vc : bool * string) : string := if fst vc then snd vc else replacement.
Definition sanitize (s : string) : string := concat_str (sanitize_chunk <$> runes s).
Definition utf8_valid (s : string) : bool := forallb fst (runes s).

Definition encode_rune (r : Z) : string :=
  string_of_bytes
    (if r <? 128 then [r]
     else if r <? 2048 then [192 + r / 64; 128 + r mod 64]
     else if r <? 65536 then [224 + r / 4096; 128 + r / 64 mod 64; 128 + r mod 64]
     else [240 + r / 262144; 128 + r / 4096 mod 64; 128 + r / 64 mod 64; 128 + r mod 64]).

(** ** Writing strings *)
Definition dquote : ascii := ascii_of_byte 34.
Definition backslash : ascii := ascii_of_byte 92.
Definition hex_digit (d : Z) : ascii := if d <? 10 then ascii_of_byte (48 + d) else ascii_of_byte (87 + d).
Definition unicode_escape (r : Z) : string :=
  String backslash (String (ascii_of_byte 117) (String (hex_digit (r / 4096 mod 16))
    (String (hex_digit (r / 256 mod 16)) (String (hex_digit (r / 16 mod 16)) (String (hex_digit (r mod 16)) ""))))).

Definition escape_ascii (c : ascii) : string :=
  let b := byte_of_ascii c in
  if (b =? 34) || (b =? 92) then String backslash (String c "")
  else if b =? 8 then String backslash "b"
  else if b =? 12 then String backslash "f"
  else if b =? 10 then String backslash "n"
  else if b =? 13 then String backslash "r"
  else if b =? 9 then String backslash "t"
  else if (b <? 32) || (b =? 60) || (b =? 62) || (b =? 38) then unicode_escape b
  else String c "".

Definition escape_chunk (vc : bool * string) : string :=
  let '(v, p) := vc in
  if negb v then unicode_escape 65533
  else if String.eqb p (encode_rune 8232) then unicode_escape 8232
  else if String.eqb p (encode_rune 8233) then unicode_escape 8233
  else match p with String c EmptyString => escape_ascii c | _ => p end.
Definition print_string (s : string) : string :=
  String dquote (concat_str (escape_chunk <$> runes s) +:+ String dquote "").

(** ** Reading strings: the text after the opening quote *)
Definition hex_val (c : ascii) : option Z :=
  let b := byte_of_ascii c in
  if (48 <=? b) && (b <=? 57) then Some (b - 48)
  else if (97 <=? b) && (b <=? 102) then Some (b - 87)
  else if (65 <=? b) && (b <=? 70) then Some (b - 55) else None.
Definition take_hex4 (s : string) : option (Z * string) :=
  match s with
  | String a (String b (String c (String d r))) =>
      match hex_val a, hex_val b, hex_val c, hex_val d with
      | Some a, Some b, Some c, Some d => Some (((a * 16 + b) * 16 + c) * 16 + d, r)
      | _, _, _, _ => None
      end
  | _ => None
  end.
(** A [\u] escape: a surrogate pair is one rune, a lone surrogate is U+FFFD. *)
Definition take_unicode (s : string) : option (string * string) :=
  match take_hex4 s with
  | None => None
  | Some (r, rest) =>
      if (55296 <=? r) && (r <? 57344) then
        match CutPrefix rest (String backslash "u") with
        | Some rest' =>
            match take_hex4 rest' with
            | Some (r2, rest'') =>
                if (r <? 56320) && (56320 <=? r2) && (r2 <? 57344)
                then Some (encode_rune ((r - 55296) * 1024 + (r2 - 56320) + 65536), rest'')
                else Some (replacement, rest)
            | None => Some (replacement, rest)
            end
        | None => Some (replacement, rest)
        end
      else Some (encode_rune r, rest)
  end.
Definition simple_escape (c : ascii) : option ascii :=
  let b := byte_of_ascii c in
  if (b =? 34) || (b =? 92) || (b =? 47) then Some c
  else if b =? 98 then Some (ascii_of_byte 8) else if b =? 102 then Some (ascii_of_byte 12)
  else if b =? 110 then Some (ascii_of_byte 10) else if b =? 114 then Some (ascii_of_byte 13)
  else if b =? 116 then Some (ascii_of_byte 9) else None.

Fixpoint parse_string (fuel : nat) (s : string) : option (string * string) :=
  match fuel with
  | O => None
  | S fuel =>
      let continue (p r : string) :=
        match parse_string fuel r with Some (t, r') => Some (p +:+ t, r') | None => None end in
      match s with
      | EmptyString => None
      | String c r =>
          if Ascii.eqb c dquote then Some ("", r)
          else if Ascii.eqb c backslash then
            match r with
            | EmptyString => None
            | String e r' =>
                if Ascii.eqb e "u"%char then
                  match take_unicode r' with Some (p, r'') => continue p r'' | None => None end
                else match simple_escape e with Some d => continue (String d "") r' | None => None end
            end
          else if byte_of_ascii c <? 32 then None
          else let '(v, p, r') := chunk s in continue (sanitize_chunk (v, p)) r'
      end
  end.

(** ** Strings round trip *)
Lemma split_at_app p r : split_at (String.length p) (p +:+ r) = (p, r).
Proof. induction p as [|a p IH]; [by destruct r|]. rewrite str_app_cons. simpl. by rewrite IH. Qed.

Lemma rune_width_prefix s n : rune_width s = Some n →
  ∃ p r, s = p +:+ r ∧ String.length p = n ∧ (0 < n)%nat ∧ ∀ t, rune_width (p +:+ t) = Some n.
Proof.
  destruct s as [|a s1]; cbn [rune_width]; [done|].
  destruct (within 0 127 a) eqn:E1.
  { intros [= <-]. exists (String a ""), s1. split_and!; [done|done|lia|]. intros t. simpl. by rewrite E1. }
  destruct s1 as [|b s2]; [done|]. destruct (within 194 223 a && cont b) eqn:E2.
  { intros [= <-]. exists (String a (String b "")), s2. split_and!; [done|done|lia|].
    intros t. simpl. by rewrite E1, E2. }
  destruct s2 as [|c s3]; [done|].
  destruct ((_ || _) && cont c) eqn:E3.
  { intros [= <-]. exists (String a (String b (String c ""))), s3. split_and!; [done|done|lia|].
    intros t. simpl. by rewrite E1, E2, E3. }
  destruct s3 as [|d s4]; [done|]. destruct (_ && cont d) eqn:E4; [|done].
  intros [= <-]. exists (String a (String b (String c (String d "")))), s4. split_and!; [done|done|lia|].
  intros t. simpl. by rewrite E1, E2, E3, E4.
Qed.

Lemma chunk_spec s v p r : s ≠ "" → chunk s = (v, p, r) →
  s = p +:+ r ∧ (0 < String.length p)%nat ∧ (v = true → ∀ t, chunk (p +:+ t) = (true, p, t)).
Proof.
  intros Hs. unfold chunk. destruct (rune_width s) as [n|] eqn:E.
  - destruct (rune_width_prefix s n E) as (q&r'&->&Hl&Hn&Ht). rewrite <- Hl, split_at_app.
    intros [= <- <- <-]. split_and!; [done|lia|]. intros _ t. by rewrite Ht, <- Hl, split_at_app.
  - destruct s as [|a s]; [done|]. cbn [split_at]. replace (split_at 0 s) with ("", s) by (by destruct s).
    intros [= <- <- <-]. split_and!; [done|simpl; lia|done].
Qed.

Lemma chunk_single c r : chunk (String c "") = (true, String c "", r) → byte_of_ascii c < 128.
Proof.
  unfold chunk. cbn [rune_width]. destruct (within 0 127 c) eqn:E; [|done]. intros _.
  unfold within in E. reflect_bools. lia.
Qed.

Lemma parse_escaped_ascii f c t : byte_of_ascii c < 128 →
  parse_string (S f) (escape_ascii c +:+ t) =
  match parse_string f t with Some (q, r) => Some (String c q, r) | None => None end.
Proof.
  intros Hc. destruct c as [b0 b1 b2 b3 b4 b5 b6 b7].
  destruct b7; [exfalso; destruct b0, b1, b2, b3, b4, b5, b6; by vm_compute in Hc|].
  clear Hc. destruct b0, b1, b2, b3, b4, b5, b6; by destruct t.
Qed.

Lemma parse_string_chunk f v p r s t : s ≠ "" → chunk s = (v, p, r) →
  parse_string (S f) (escape_chunk (v, p) +:+ t) =
  match parse_string f t with Some (q, r') => Some (sanitize_chunk (v, p) +:+ q, r') | None => None end.
Proof.
  intros Hs Hc. destruct (chunk_spec _ _ _ _ Hs Hc) as (_&Hp&Ht).
  unfold escape_chunk. destruct v; cbn [negb]; [|reflexivity]. specialize (Ht eq_refl).
  unfold sanitize_chunk; cbn [fst snd].
  destruct (String.eqb_spec p (encode_rune 8232)) as [->|_]; [reflexivity|].
  destruct (String.eqb_spec p (encode_rune 8233)) as [->|_]; [reflexivity|].
  destruct p as [|a p]; [simpl in Hp; lia|]. destruct p as [|b p].
  - rewrite parse_escaped_ascii; [done|]. eapply chunk_single. rewrite <- (Ht ""). by rewrite str_app_nil_r.
  - specialize (Ht t). assert (194 <= byte_of_ascii a) as Ha.
    { rewrite str_app_cons in Ht. unfold chunk in Ht. destruct (rune_width _) as [n|] eqn:E; [|done].
      cbn [rune_width] in E. destruct (within 0 127 a) eqn:E1.
      { by simplify_eq. }
      unfold within in *. rewrite str_app_cons in E. clear Ht Hc Hs.
      repeat case_match; simplify_eq; reflect_bools;
      repeat match goal with H : _ || _ = true |- _ => apply orb_true_iff in H as [H|H]; reflect_bools end; lia. }
    rewrite str_app_cons in *. cbn [parse_string].
    destruct (Ascii.eqb_spec a dquote) as [->|_]; [by vm_compute in Ha|].
    destruct (Ascii.eqb_spec a backslash) as [->|_]; [by vm_compute in Ha|].
    destruct (Z.ltb_spec (byte_of_ascii a) 32); [lia|]. rewrite Ht. done.
Qed.

Lemma chunks_fuel f f' s : (String.length s <= f)%nat → (String.length s <= f')%nat →
  chunks f s = chunks f' s.
Proof.
  revert f' s. induction f as [|f IH]; intros f' s H1 H2.
  { destruct s; [by destruct f'|simpl in H1; lia]. }
  destruct s as [|a s]; [by destruct f'|]. destruct f' as [|f']; [simpl in H2; lia|].
  cbn [chunks]. destruct (chunk (String a s)) as [[v p] r] eqn:E.
  destruct (chunk_spec (String a s) v p r ltac:(done) E) as (Es&Hp&_). f_equal.
  apply (f_equal String.length) in Es. rewrite length_app_string in Es. apply IH; lia.
Qed.
Lemma runes_cons s v p r : s ≠ "" → chunk s = (v, p, r) → runes s = (v, p) :: runes r.
Proof.
  intros Hs E. unfold runes. destruct s as [|a s]; [done|]. cbn [String.length chunks]. rewrite E.
  destruct (chunk_spec _ _ _ _ Hs E) as (Es&Hp&_). f_equal.
  apply (f_equal String.length) in Es. rewrite length_app_string in Es. simpl in Es. apply chunks_fuel; lia.
Qed.
(** Induction on a string rune by rune. *)
Lemma rune_ind (P : string → Prop) :
  P "" → (∀ s v p r, s ≠ "" → chunk s = (v, p, r) → s = p +:+ r → P r → P s) → ∀ s, P s.
Proof.
  intros H0 Hs s. assert (∀ n s, (String.length s <= n)%nat → P s) as Hn; [|by eapply Hn].
  clear s. induction n as [|n IH]; intros s Hl; [by destruct s; [|simpl in Hl; lia]|].
  destruct (decide (s = "")) as [->|Hne]; [done|]. destruct (chunk s) as [[v p] r] eqn:E.
  destruct (chunk_spec _ _ _ _ Hne E) as (Es&Hp&_). apply (Hs s v p r Hne E Es). apply IH.
  apply (f_equal String.length) in Es. rewrite length_app_string in Es. lia.
Qed.

Lemma parse_print_string s t f : (String.length s < f)%nat →
  parse_string f (concat_str (escape_chunk <$> runes s) +:+ String dquote t) = Some (sanitize s, t).
Proof.
  revert f. induction s as [|s v p r Hne E Es IH] using rune_ind; intros f Hf.
  - destruct f; [lia|]. reflexivity.
  - destruct f as [|f]; [lia|]. unfold sanitize. rewrite (runes_cons s v p r) by done.
    cbn [fmap list_fmap concat_str foldr]. rewrite <- str_app_assoc, (parse_string_chunk f v p r s) by done.
    destruct (chunk_spec _ _ _ _ Hne E) as (_&Hp&_).
    fold (concat_str (escape_chunk <$> runes r)). rewrite IH; [done|].
    apply (f_equal String.length) in Es. rewrite length_app_string in Es. lia.
Qed.

Lemma sanitize_valid s : utf8_valid s = true → sanitize s = s.
Proof.
  unfold utf8_valid, sanitize. induction s as [|s v p r Hne E Es IH] using rune_ind; [done|].
  rewrite (runes_cons s v p r) by done. cbn [forallb fst]. intros [Hv Hr]%andb_true_iff.
  cbn [fmap list_fmap concat_str foldr]. fold (concat_str (sanitize_chunk <$> runes r)).
  rewrite IH by done. unfold sanitize_chunk. cbn [fst snd]. subst v. done.
Qed.

(** Sanitizing leaves valid text. *)
Lemma sanitize_valid_chunk p t : (∀ r, chunk (p +:+ r) = (true, p, r)) → p ≠ "" → sanitize (p +:+ t) = p +:+ sanitize t.
Proof.
  intros Hp Hne. unfold sanitize. rewrite (runes_cons (p +:+ t) true p t); [done| |done]. by destruct p.
Qed.
Lemma sanitize_idemp s : sanitize (sanitize s) = sanitize s.
Proof.
  induction s as [|s v p r Hne E Es IH] using rune_ind; [done|].
  assert (sanitize s = sanitize_chunk (v, p) +:+ sanitize r) as ->.
  { unfold sanitize at 1. by rewrite (runes_cons s v p r). }
  destruct (chunk_spec _ _ _ _ Hne E) as (_&Hp&Hc). destruct v; cbn [sanitize_chunk fst snd].
  - rewrite sanitize_valid_chunk; [by rewrite IH|exact (Hc eq_refl)|]. intros ->. cbn in Hp. lia.
  - by rewrite sanitize_valid_chunk, IH.
Qed.

Lemma sanitize_nonempty s : sanitize s = "" → s = "".
Proof.
  intros H. destruct (decide (s = "")) as [|Hne]; [done|exfalso]. destruct (chunk s) as [[v p] r] eqn:E.
  destruct (chunk_spec _ _ _ _ Hne E) as (_&Hp&_). unfold sanitize in H. rewrite (runes_cons s v p r) in H by done.
  cbn [fmap list_fmap concat_str foldr] in H. unfold sanitize_chunk in H. cbn [fst snd] in H.
  apply (f_equal String.length) in H. rewrite length_app_string in H. destruct v; simpl in H; lia.
Qed.

(** ** Values *)
Inductive json :=
| JNull
| JBool (b : bool)
| JNum (literal : string)
| JStr (s : string)
| JArr (l : list json)
| JObj (l : list (string * json)).

Fixpoint print (v : json) : string :=
  match v with
  | JNull => "null"
  | JBool b => if b then "true" else "false"
  | JNum literal => literal
  | JStr s => print_string s
  | JArr l => "[" +:+ Join (List.map print l) "," +:+ "]"
  | JObj l => "{" +:+ Join (List.map (fun m => print_string (fst m) +:+ ":" +:+ print (snd m)) l) "," +:+ "}"
  end.

Definition is_ws (c : ascii) : bool :=
  Ascii.eqb c " "%char || Ascii.eqb c (ascii_of_byte 9) || Ascii.eqb c (ascii_of_byte 10) || Ascii.eqb c (ascii_of_byte 13).
Fixpoint skip_ws (s : string) : string :=
  match s with
  | String c r => if is_ws c then skip_ws r else s
  | EmptyString => ""
  end.

Fixpoint take_digits (s : string) : string * string :=
  match s with
  | String c r =>
      match digit_val c with
      | Some _ => let '(d, r') := take_digits r in (String c d, r')
      | None => ("", s)
      end
  | EmptyString => ("", "")
  end.
Definition take_head (c : ascii) (s : string) : string * string :=
  match s with
  | String a r => if Ascii.eqb a c then (String a "", r) else ("", s)
  | EmptyString => ("", "")
  end.
Definition take_fraction (s : string) : option (string * string) :=
  match take_head "."%char s with
  | ("", r) => Some ("", r)
  | (p, r) => match take_digits r with ("", _) => None | (d, r') => Some (p +:+ d, r') end
  end.
Definition take_exponent (s : string) : option (string * string) :=
  match s with
  | String e r =>
      if Ascii.eqb e "e"%char || Ascii.eqb e "E"%char then
        let '(sign, r1) := match take_head "+"%char r with ("", r1) => take_head "-"%char r1 | x => x end in
        match take_digits r1 with ("", _) => None | (d, r') => Some (String e (sign +:+ d), r') end
      else Some ("", s)
  | EmptyString => Some ("", "")
  end.
(** A number literal: the grammar of RFC 8259. *)
Definition parse_number (s : string) : option (string * string) :=
  let '(sign, s1) := take_head "-"%char s in
  let '(d, s2) := take_digits s1 in
  match d with
  | EmptyString => None
  | String z (String _ _) => if Ascii.eqb z "0"%char then None else
      '(f, s3) ← take_fraction s2; '(e, s4) ← take_exponent s3; Some (sign +:+ d +:+ f +:+ e, s4)
  | _ => '(f, s3) ← take_fraction s2; '(e, s4) ← take_exponent s3; Some (sign +:+ d +:+ f +:+ e, s4)
  end.

Fixpoint parse_value (fuel : nat) (s0 : string) {struct fuel} : option (json * string) :=
  match fuel with
  | O => None
  | S fuel =>
      match skip_ws s0 with
      | EmptyString => None
      | String c r as s =>
          if Ascii.eqb c dquote then
            '(x, r') ← parse_string (S (String.length r)) r; Some (JStr x, r')
          else if Ascii.eqb c "["%char then
            match take_head "]"%char (skip_ws r) with
            | ("", r1) => '(l, r') ← parse_elems fuel r1; Some (JArr l, r')
            | (_, r1) => Some (JArr [], r1)
            end
          else if Ascii.eqb c "{"%char then
            match take_head "}"%char (skip_ws r) with
            | ("", r1) => '(l, r') ← parse_members fuel r1; Some (JObj l, r')
            | (_, r1) => Some (JObj [], r1)
            end
          else if Ascii.eqb c "n"%char then r' ← CutPrefix s "null"; Some (JNull, r')
          else if Ascii.eqb c "t"%char then r' ← CutPrefix s "true"; Some (JBool true, r')
          else if Ascii.eqb c "f"%char then r' ← CutPrefix s "false"; Some (JBool false, r')
          else '(x, r') ← parse_number s; Some (JNum x, r')
      end
  end
with parse_elems (fuel : nat) (s : string) {struct fuel} : option (list json * string) :=
  match fuel with
  | O => None
  | S fuel =>
      '(v, r) ← parse_value fuel s;
      match skip_ws r with
      | String c r1 =>
          if Ascii.eqb c ","%char then '(l, r2) ← parse_elems fuel r1; Some (v :: l, r2)
          else if Ascii.eqb c "]"%char then Some ([v], r1) else None
      | EmptyString => None
      end
  end
with parse_members (fuel : nat) (s : string) {struct fuel} : option (list (string * json) * string) :=
  match fuel with
  | O => None
  | S fuel =>
      match skip_ws s with
      | String q r =>
          if negb (Ascii.eqb q dquote) then None else
          '(k, r1) ← parse_string (S (String.length r)) r;
          match skip_ws r1 with
          | String c r2 =>
              if negb (Ascii.eqb c ":"%char) then None else
              '(v, r3) ← parse_value fuel r2;
              match skip_ws r3 with
              | String d r4 =>
                  if Ascii.eqb d ","%char then '(l, r5) ← parse_members fuel r4; Some ((k, v) :: l, r5)
                  else if Ascii.eqb d "}"%char then Some ([(k, v)], r4) else None
              | EmptyString => None
              end
          | EmptyString => None
          end
      | EmptyString => None
      end
  end.

(** [json.Unmarshal]: one value and nothing after it. The fuel bounds the depth
  of the recursion, which every call pays with at least one byte of the text. *)
Definition parse (s : string) : option json :=
  match parse_value (S (2 * String.length s)) s with
  | Some (v, r) => if String.eqb (skip_ws r) "" then Some v else None
  | None => None
  end.

(** ** Values round trip, up to invalid UTF-8 *)
Fixpoint clean (v : json) : json :=
  match v with
  | JStr s => JStr (sanitize s)
  | JArr l => JArr (List.map clean l)
  | JObj l => JObj (List.map (fun m => (sanitize (fst m), clean (snd m))) l)
  | _ => v
  end.
Fixpoint jsize (v : json) : nat :=
  match v with
  | JArr l => S (list_sum (List.map (fun v => S (jsize v)) l))
  | JObj l => S (list_sum (List.map (fun m => S (jsize (snd m))) l))
  | _ => 1
  end.
(** Text that may follow a value: the end, or a separator. *)
Definition tail_ok (t : string) : Prop :=
  match t with
  | EmptyString => True
  | String c _ => c = ","%char ∨ c = "]"%char ∨ c = "}"%char
  end.
(** A number literal that the parser takes in full. *)
Definition literal_ok (l : string) : Prop := ∀ t, tail_ok t →
  parse_number (l +:+ t) = Some (l, t) ∧
  match l with String c _ => is_ws c = false ∧ (digit_val c ≠ None ∨ c = "-"%char) | EmptyString => False end.
Fixpoint numbers_ok (v : json) : Prop :=
  match v with
  | JNum l => literal_ok l
  | JArr l => foldr (fun v acc => numbers_ok v ∧ acc) True l
  | JObj l => foldr (fun m acc => numbers_ok (snd m) ∧ acc) True l
  | _ => True
  end.

Lemma print_string_parse s t f : (String.length s + 2 <= f)%nat →
  parse_string f (concat_str (escape_chunk <$> runes s) +:+ String dquote "" +:+ t) = Some (sanitize s, t).
Proof. intros. rewrite <- (parse_print_string s t f) by lia. done. Qed.

Lemma runes_concat_length s : (String.length s <= String.length (concat_str (escape_chunk <$> runes s)))%nat.
Proof.
  induction s as [|s v p r Hne E Es IH] using rune_ind; [done|].
  rewrite (runes_cons s v p r) by done. cbn [fmap list_fmap concat_str foldr].
  fold (concat_str (escape_chunk <$> runes r)). rewrite length_app_string.
  apply (f_equal String.length) in Es. rewrite length_app_string in Es.
  assert (String.length p <= String.length (escape_chunk (v, p)))%nat; [|lia].
  destruct (chunk_spec _ _ _ _ Hne E) as (_&Hp&Ht). unfold escape_chunk.
  destruct v; cbn [negb].
  - destruct (String.eqb_spec p (encode_rune 8232)) as [->|_]; [by vm_compute; lia|].
    destruct (String.eqb_spec p (encode_rune 8233)) as [->|_]; [by vm_compute; lia|].
    destruct p as [|a [|b p]]; [simpl; lia| |lia]. unfold escape_ascii.
    repeat case_match; simpl; lia.
  - unfold chunk in E. destruct (rune_width s); [by destruct (split_at _ _)|].
    destruct s as [|a s]; [done|]. cbn in E. destruct s; simplify_eq/=; lia.
Qed.
Lemma parse_quoted s t f :
  (String.length (print_string s +:+ t) <= f)%nat →
  parse_string f (concat_str (escape_chunk <$> runes s) +:+ String dquote "" +:+ t) = Some (sanitize s, t).
Proof.
  intros Hf. apply print_string_parse. pose proof (runes_concat_length s).
  unfold print_string in Hf. rewrite str_app_cons in Hf. simpl in Hf. rewrite !length_app_string in Hf. simpl in Hf. lia.
Qed.
Lemma print_string_app s t :
  print_string s +:+ t = String dquote (concat_str (escape_chunk <$> runes s) +:+ String dquote "" +:+ t).
Proof. unfold print_string. by rewrite str_app_cons, <- str_app_assoc. Qed.

Lemma Join_more x y l sep : Join (x :: y :: l) sep = x +:+ sep +:+ Join (y :: l) sep.
Proof. done. Qed.

Lemma print_no_ws v t : numbers_ok v → skip_ws (print v +:+ t) = print v +:+ t.
Proof.
  destruct v as [|b|l|s|l|l]; intros Hn; try done.
  - by destruct b.
  - cbn in Hn. destruct (Hn "" I) as [_ H]. destruct l as [|c l]; [done|].
    cbn [print]. rewrite str_app_cons. cbn [skip_ws]. by rewrite (proj1 H).
Qed.
Lemma print_nonempty v : numbers_ok v → ∃ c r, print v = String c r ∧ c ≠ "]"%char ∧ c ≠ "}"%char.
Proof.
  destruct v as [|b|l|s|l|l]; intros Hn; try (by eexists _, _; split_and!).
  - destruct b; by eexists _, _; split_and!.
  - cbn in Hn. destruct (Hn "" I) as [_ H]. destruct l as [|c l]; [done|]. exists c, l.
    split; [done|]. destruct H as [_ [H| ->]]; [|done]. split; intros ->; by vm_compute in H.
Qed.

Definition members_text (l : list (string * json)) : string :=
  Join (List.map (fun m => print_string (fst m) +:+ ":" +:+ print (snd m)) l) ",".

Lemma take_head_ne c a s : a ≠ c → take_head c (String a s) = ("", String a s).
Proof. intros H. cbn. by destruct (Ascii.eqb_spec a c). Qed.

Lemma parse_literal l t f : literal_ok l → tail_ok t →
  parse_value (S f) (l +:+ t) = Some (JNum l, t).
Proof.
  intros Hl Ht. destruct (Hl t Ht) as [Hp Hc]. destruct l as [|c l]; [done|]. destruct Hc as [Hw Hc].
  rewrite str_app_cons in *. cbn [parse_value skip_ws]. rewrite Hw.
  assert (∀ d, digit_val d = None → d ≠ "-"%char → Ascii.eqb c d = false) as Hne.
  { intros d Hd Hm. destruct (Ascii.eqb_spec c d) as [->|]; [|done]. by destruct Hc. }
  rewrite !Hne by done. by rewrite Hp.
Qed.

(** Only a number needs to be told from what follows. *)
Definition follow_ok (v : json) (t : string) : Prop := match v with JNum _ => tail_ok t | _ => True end.
Lemma tail_follow v t : tail_ok t → follow_ok v t.
Proof. by destruct v. Qed.
Lemma parse_print_all f :
  (∀ v t, (jsize v <= f)%nat → numbers_ok v → follow_ok v t → parse_value f (print v +:+ t) = Some (clean v, t)) ∧
  (∀ l t, l ≠ [] → (list_sum (List.map (fun v => S (jsize v)) l) <= f)%nat →
     foldr (fun v acc => numbers_ok v ∧ acc) True l →
     parse_elems f (Join (List.map print l) "," +:+ String "]"%char t) = Some (List.map clean l, t)) ∧
  (∀ l t, l ≠ [] → (list_sum (List.map (fun m => S (jsize (snd m))) l) <= f)%nat →
     foldr (fun m acc => numbers_ok (snd m) ∧ acc) True l →
     parse_members f (members_text l +:+ String "}"%char t) =
       Some (List.map (fun m => (sanitize (fst m), clean (snd m))) l, t)).
Proof.
  induction f as [|f (IHv&IHe&IHm)].
  { split_and!; [intros [] ?; simpl; lia|intros [|? ?] ? ?; simpl; (done || lia)..]. }
  split_and!.
  - intros v t Hf Hn Ht. destruct v as [|b|l|s|l|l].
    + done.
    + by destruct b.
    + by apply parse_literal.
    + cbn [print parse_value]. rewrite print_string_app. cbn [skip_ws].
      change (is_ws dquote) with false. cbn [Ascii.eqb]. change (Ascii.eqb dquote dquote) with true.
      cbv iota. rewrite parse_quoted; [done|]. rewrite print_string_app. simpl. lia.
    + cbn [print]. rewrite !str_app_cons, str_app_nil_l, <- str_app_assoc.
      change ("]" +:+ t) with (String "]"%char t). cbn [parse_value skip_ws].
      change (is_ws "[") with false. cbv iota. change (Ascii.eqb "[" dquote) with false.
      change (Ascii.eqb "[" "[") with true. cbv iota.
      destruct l as [|x l]; [done|]. destruct Hn as [Hx Hn].
      assert (take_head "]" (skip_ws (Join (List.map print (x :: l)) "," +:+ String "]"%char t)) =
        ("", Join (List.map print (x :: l)) "," +:+ String "]"%char t)) as ->.
      { destruct (print_nonempty x Hx) as (c&r&Ec&Hc&_). cbn [List.map]. pose proof (print_no_ws x) as Hw.
        destruct l as [|y l]; cbn [List.map].
        - cbn [Join]. rewrite Hw, Ec by done. rewrite str_app_cons. by apply take_head_ne.
        - rewrite Join_more, <- str_app_assoc, Hw, Ec by done. rewrite str_app_cons. by apply take_head_ne. }
      rewrite IHe; [done|done| |done]. simpl in Hf |- *. lia.
    + cbn [print]. rewrite !str_app_cons, str_app_nil_l, <- str_app_assoc.
      change ("}" +:+ t) with (String "}"%char t). cbn [parse_value skip_ws].
      change (is_ws "{") with false. cbv iota. change (Ascii.eqb "{" dquote) with false.
      change (Ascii.eqb "{" "[") with false. change (Ascii.eqb "{" "{") with true. cbv iota.
      destruct l as [|[k x] l]; [done|]. fold (members_text ((k, x) :: l)).
      assert (∃ r, members_text ((k, x) :: l) +:+ String "}"%char t = String dquote r) as [r Hr].
      { unfold members_text. destruct l; cbn [List.map Join fst snd];
          rewrite <- !str_app_assoc, print_string_app; eauto. }
      rewrite Hr. change (take_head "}" (skip_ws (String dquote r))) with ("", String dquote r). cbv iota beta.
      rewrite <- Hr, IHm; [done|done| |done]. simpl in Hf |- *. lia.
  - intros l t Hl Hf Hn. destruct l as [|x l]; [done|]. destruct Hn as [Hx Hn]. simpl in Hf.
    destruct l as [|y l].
    + cbn [List.map Join parse_elems]. rewrite IHv; [|lia|done|apply tail_follow; cbn; auto]. done.
    + cbn [List.map]. rewrite Join_more, <- !str_app_assoc, str_app_cons, str_app_nil_l. cbn [parse_elems].
      rewrite IHv; [|lia|done|apply tail_follow; cbn; auto]. cbn [mbind option_bind skip_ws].
      change (is_ws ",") with false. cbv iota. change (Ascii.eqb "," ",") with true. cbv iota.
      pose proof (IHe (y :: l) t ltac:(done) ltac:(simpl in *; lia) Hn) as E.
      cbn [List.map] in E. by rewrite E.
  - intros l t Hl Hf Hn. destruct l as [|[k x] l]; [done|]. destruct Hn as [Hx Hn]. simpl in Hf, Hx.
    set (rest := match l with
                 | [] => String "}"%char t
                 | _ :: _ => String ","%char (members_text l +:+ String "}"%char t)
                 end).
    assert (members_text ((k, x) :: l) +:+ String "}"%char t = print_string k +:+ String ":"%char (print x +:+ rest)) as ->.
    { unfold members_text, rest. destruct l as [|m l]; cbn [List.map fst snd].
      - cbn [Join]. by rewrite <- !str_app_assoc, !str_app_cons, str_app_nil_l.
      - rewrite Join_more, <- !str_app_assoc, !str_app_cons, !str_app_nil_l. done. }
    assert (tail_ok rest) as Hr by (unfold rest; destruct l; cbn; auto).
    cbn [parse_members]. rewrite print_string_app. cbn [skip_ws].
    change (is_ws dquote) with false. cbv iota. change (Ascii.eqb dquote dquote) with true. cbn [negb].
    rewrite parse_quoted by (rewrite print_string_app; simpl; lia). cbn [mbind option_bind skip_ws].
    change (is_ws ":") with false. cbv iota. change (Ascii.eqb ":" ":") with true. cbn [negb].
    rewrite IHv; [|lia|done|by apply tail_follow]. cbn [mbind option_bind]. unfold rest. destruct l as [|m l].
    + reflexivity.
    + cbn [skip_ws]. change (is_ws ",") with false. cbv iota. change (Ascii.eqb "," ",") with true. cbv iota.
      rewrite (IHm (m :: l) t); [done|done|simpl in *; lia|done].
Qed.

Lemma jsize_length v : numbers_ok v → (jsize v <= 2 * String.length (print v))%nat.
Proof.
  revert v. fix IH 1. intros v Hn. destruct v as [|b|l|s|l|l]; cbn [jsize print].
  - simpl. lia.
  - destruct b; simpl; lia.
  - destruct (print_nonempty (JNum l) Hn) as (c&r&E&_). cbn in E. subst l. simpl. lia.
  - unfold print_string. simpl. lia.
  - assert (list_sum (List.map (fun v => S (jsize v)) l) <= 2 * String.length (Join (List.map print l) ",") + 1)%nat as H.
    { induction l as [|x l IHl]; [simpl; lia|]. destruct Hn as [Hx Hn]. specialize (IHl Hn).
      pose proof (IH x Hx). cbn [List.map]. destruct l as [|y l].
      - simpl. lia.
      - cbn [List.map] in *. rewrite Join_more, !length_app_string. simpl in *. lia. }
    rewrite !length_app_string. simpl. lia.
  - assert (list_sum (List.map (fun m => S (jsize (snd m))) l) <= 2 * String.length (members_text l) + 1)%nat as H.
    { unfold members_text. induction l as [|x l IHl]; [simpl; lia|]. destruct Hn as [Hx Hn]. specialize (IHl Hn).
      pose proof (IH (snd x) Hx). cbn [List.map]. destruct l as [|y l].
      - cbn [Join List.map list_sum foldr]. rewrite !length_app_string. simpl. lia.
      - cbn [List.map] in *. rewrite Join_more, !length_app_string. simpl in *. lia. }
    rewrite !length_app_string. unfold members_text in H. simpl. lia.
Qed.

(** Printing a value and parsing the text gives the value with its strings
  sanitized, whatever white space follows. *)
Lemma parse_print_then v t : numbers_ok v → follow_ok v t → skip_ws t = "" → parse (print v +:+ t) = Some (clean v).
Proof.
  intros Hn Ht Hw. unfold parse. pose proof (jsize_length v Hn) as Hl. set (fuel := S (2 * String.length (print v +:+ t))).
  destruct (parse_print_all fuel) as [Hv _]. rewrite (Hv v t); [by rewrite Hw|subst fuel; rewrite length_app_string; lia|done|done].
Qed.
Lemma parse_print v : numbers_ok v → parse (print v) = Some (clean v).
Proof. intros Hn. rewrite <- (str_app_nil_r (print v)). apply parse_print_then; [done| |done]. by destruct v. Qed.

(** ** Integers *)

(** [strconv.Atoi] and [strconv.ParseInt (_, 10, 64)]. *)
Definition Atoi (s : string) : option Z :=
  let '(neg, d) := match s with
                   | String c r => if Ascii.eqb c "-"%char then (true, r)
                                   else if Ascii.eqb c "+"%char then (false, r) else (false, s)
                   | EmptyString => (false, s)
                   end in
  if String.eqb d "" then None else
  '(v, r) ← take_num (String.length d) 0 d;
  let x := if neg then - v else v in
  if (i64_min <=? x) && (x <=? i64_max) then Some x else None.

Lemma ndigits_spec fuel x : 0 ≤ x < 10 ^ Z.of_nat fuel →
  (1 <= ndigits fuel x)%nat ∧ x < 10 ^ Z.of_nat (ndigits fuel x) ∧
  (ndigits fuel x = 1%nat ∨ 10 ^ Z.of_nat (ndigits fuel x - 1) ≤ x).
Proof.
  revert x. induction fuel as [|fuel IH]; intros x Hx; cbn [ndigits].
  { change (10 ^ Z.of_nat 0) with 1 in Hx. split_and!; [lia| |by left]. change (10 ^ Z.of_nat 1) with 10. lia. }
  destruct (Z.ltb_spec x 10).
  { split_and!; [lia|change (10 ^ Z.of_nat 1) with 10; lia|by left]. }
  rewrite Nat2Z.inj_succ, Z.pow_succ_r in Hx by lia.
  destruct (IH (x / 10)) as (H1&H2&H3).
  { split; [apply Z.div_pos; lia|apply Z.div_lt_upper_bound; lia]. }
  set (n := ndigits fuel (x / 10)) in *. pose proof (Z.div_mod x 10 ltac:(lia)).
  pose proof (Z.mod_pos_bound x 10 ltac:(lia)). split_and!.
  - lia.
  - rewrite Nat2Z.inj_succ, Z.pow_succ_r by lia. lia.
  - right. replace (S n - 1)%nat with (S (n - 1)) by lia.
    rewrite Nat2Z.inj_succ, Z.pow_succ_r by lia. destruct H3 as [E|H3]; [|lia].
    rewrite E. change (10 ^ Z.of_nat (1 - 1)) with 1. lia.
Qed.

Lemma take_digits_pad w x t : match t with String c _ => digit_val c = None | EmptyString => True end →
  take_digits (pad w x +:+ t) = (pad w x, t).
Proof.
  intros Ht. induction w as [|w IH]; cbn [pad].
  - rewrite str_app_nil_l. destruct t as [|c t]; [done|]. cbn. by rewrite Ht.
  - rewrite str_app_cons. cbn [take_digits].
    rewrite digit_val_digit by (apply Z.mod_pos_bound; lia). by rewrite IH.
Qed.
Lemma tail_no_digit t : tail_ok t → match t with String c _ => digit_val c = None | EmptyString => True end.
Proof. destruct t; [done|]. by intros [->|[->| ->]]. Qed.
Lemma tail_no_fraction t : tail_ok t → take_fraction t = Some ("", t).
Proof. destruct t; [done|]. by intros [->|[->| ->]]. Qed.
Lemma tail_no_exponent t : tail_ok t → take_exponent t = Some ("", t).
Proof. destruct t; [done|]. by intros [->|[->| ->]]. Qed.

Lemma parse_number_pad sign x t : 0 ≤ x < 10 ^ 64 → tail_ok t → sign = "" ∨ sign = "-" →
  parse_number (sign +:+ pad (ndigits 64 x) x +:+ t) = Some (sign +:+ pad (ndigits 64 x) x, t).
Proof.
  intros Hx Ht Hs. destruct (ndigits_spec 64 x Hx) as (H1&H2&H3). set (n := ndigits 64 x) in *.
  destruct n as [|n]; [lia|].
  assert (0 ≤ x / 10 ^ Z.of_nat n mod 10 < 10) as Hd by (apply Z.mod_pos_bound; lia).
  unfold parse_number.
  assert (take_head "-" (sign +:+ pad (S n) x +:+ t) = (sign, pad (S n) x +:+ t)) as ->.
  { destruct Hs as [-> | ->]; [|done]. rewrite str_app_nil_l. cbn [pad]. rewrite str_app_cons. apply take_head_ne.
    intros E. apply (f_equal digit_val) in E. rewrite digit_val_digit in E by done. done. }
  rewrite take_digits_pad by by apply tail_no_digit. cbn [pad].
  set (d := digit (x / 10 ^ Z.of_nat n mod 10)).
  assert ((f ← take_fraction t; let '(f, s3) := f in e ← take_exponent s3; let '(e, s4) := e in
    Some (sign +:+ String d (pad n x) +:+ f +:+ e, s4)) = Some (sign +:+ String d (pad n x), t)) as Hend.
  { rewrite tail_no_fraction by done. cbn [mbind option_bind]. rewrite tail_no_exponent by done.
    cbn [mbind option_bind]. by rewrite !str_app_nil_r. }
  destruct n as [|n].
  - cbn [pad] in *. exact Hend.
  - cbn [pad] in *. destruct (Ascii.eqb_spec d "0"%char) as [E|_]; [|exact Hend].
    exfalso. subst d. apply (f_equal digit_val) in E. rewrite digit_val_digit in E by done.
    change (digit_val "0") with (Some 0) in E. injection E as E.
    destruct H3 as [H3|H3]; [lia|]. replace (S (S n) - 1)%nat with (S n) in H3 by lia.
    rewrite (Nat2Z.inj_succ (S n)), Z.pow_succ_r in H2 by lia.
    assert (x / 10 ^ Z.of_nat (S n) < 10) by (apply Z.div_lt_upper_bound; lia).
    assert (1 ≤ x / 10 ^ Z.of_nat (S n)) by (apply Z.div_le_lower_bound; lia).
    rewrite Z.mod_small in E by lia. lia.
Qed.

Lemma Itoa_literal z : - 10 ^ 64 < z < 10 ^ 64 → literal_ok (Itoa z).
Proof.
  intros Hz t Ht. unfold Itoa. destruct (Z.ltb_spec z 0).
  - rewrite <- str_app_assoc. split; [apply parse_number_pad; auto; lia|]. rewrite str_app_cons. auto.
  - pose proof (parse_number_pad "" z t ltac:(lia) Ht (or_introl eq_refl)) as E.
    rewrite !str_app_nil_l in E. split; [done|].
    destruct (ndigits_spec 64 z ltac:(lia)) as (H1&_&_). destruct (ndigits 64 z) as [|n]; [lia|]. cbn [pad].
    assert (0 ≤ z / 10 ^ Z.of_nat n mod 10 < 10) as Hd by (apply Z.mod_pos_bound; lia).
    rewrite digit_val_digit by done. split; [|auto].
    generalize dependent (z / 10 ^ Z.of_nat n mod 10). intros d Hd.
    assert (negb (is_ws (digit d)) = true) as Hw; [|by apply negb_true_iff].
    by apply (check_from_spec (fun d => negb (is_ws (digit d))) 10 0).
Qed.

Lemma i64_literal z : in_i64 z → literal_ok (Itoa z).
Proof. unfold in_i64, i64_min, i64_max. intros. apply Itoa_literal. lia. Qed.
Lemma Atoi_Itoa z : in_i64 z → Atoi (Itoa z) = Some z.
Proof.
  unfold in_i64, i64_min, i64_max. intros Hz.
  assert (∀ x, 0 ≤ x < 10 ^ 64 → take_num (String.length (pad (ndigits 64 x) x)) 0 (pad (ndigits 64 x) x) = Some (x, "") ∧
    ∃ d r, pad (ndigits 64 x) x = String (digit d) r ∧ 0 ≤ d < 10) as Hpad.
  { intros x Hx. destruct (ndigits_spec 64 x Hx) as (H1&H2&_). split.
    - rewrite length_pad. rewrite <- (str_app_nil_r (pad _ x)), take_num_pad. rewrite Z.mod_small by lia. f_equal.
    - destruct (ndigits 64 x) as [|n]; [lia|]. eexists _, _. split; [done|]. apply Z.mod_pos_bound. lia. }
  unfold Itoa, Atoi. destruct (Z.ltb_spec z 0).
  - destruct (Hpad (- z)) as [E (d&r&Ed&_)]; [lia|]. rewrite str_app_cons, str_app_nil_l.
    change (Ascii.eqb "-" "-") with true. cbv iota. rewrite Ed. cbn [String.eqb]. rewrite <- Ed, E.
    cbn [mbind option_bind]. rewrite Z.opp_involutive. unfold i64_min, i64_max.
    destruct (Z.leb_spec (- 2 ^ 63) z); [|lia]. destruct (Z.leb_spec z (2 ^ 63 - 1)); [done|lia].
  - destruct (Hpad z) as [E (d&r&Ed&Hd)]; [lia|]. rewrite Ed.
    assert (∀ c, digit_val c = None → Ascii.eqb (digit d) c = false) as Hne.
    { intros c Hc. destruct (Ascii.eqb_spec (digit d) c) as [<-|]; [|done]. by rewrite digit_val_digit in Hc. }
    rewrite !Hne by done. cbn [String.eqb]. rewrite <- Ed, E. cbn [mbind option_bind]. unfold i64_min, i64_max.
    destruct (Z.leb_spec (- 2 ^ 63) z); [|lia]. destruct (Z.leb_spec z (2 ^ 63 - 1)); [done|lia].
Qed.

(** ** Structs: a member goes to the field with its name, or else to the field
  with its name up to case; [null] leaves a field alone; the last member wins. *)
Definition fold_char (c : ascii) : ascii :=
  let b := byte_of_ascii c in if (65 <=? b) && (b <=? 90) then ascii_of_byte (b + 32) else c.
Fixpoint fold_name (s : string) : string :=
  match s with
  | EmptyString => ""
  | String c r =>
      match CutPrefix s (string_of_bytes [197; 191]), r with
      | Some _, String _ r' => String "s"%char (fold_name r')
      | _, _ =>
          match CutPrefix s (string_of_bytes [226; 132; 170]), r with
          | Some _, String _ (String _ r') => String "k"%char (fold_name r')
          | _, _ => String (fold_char c) (fold_name r)
          end
      end
  end.
Definition field_of (names : list string) (key : string) : option string :=
  if bool_decide (key ∈ names) then Some key
  else first_some (fun n => if String.eqb (fold_name n) (fold_name key) then Some n else None) names.

Definition field_value {A} (names : list string) (name : string) (conv : json → option A) (zero : A)
  (l : list (string * json)) : option A :=
  foldl (fun acc m =>
    a ← acc;
    if bool_decide (field_of names (fst m) = Some name)
    then match snd m with JNull => Some a | v => conv v end else Some a) (Some zero) l.

Definition to_str (v : json) : option string := match v with JStr s => Some s | _ => None end.
Definition to_int (v : json) : option Z := match v with JNum l => Atoi l | _ => None end.
Definition to_bool (v : json) : option bool := match v with JBool b => Some b | _ => None end.

(** [omitempty] *)
Definition omit_str (name s : string) : list (string * json) :=
  if String.eqb s "" then [] else [(name, JStr s)].
Definition omit_int (name : string) (z : Z) : list (string * json) :=
  if z =? 0 then [] else [(name, JNum (Itoa z))].

Section fields.
Context {A : Type} (names : list string) (name : string) (conv : json → option A).
Lemma field_value_app zero a l l' :
  field_value names name conv zero l = Some a →
  field_value names name conv zero (l ++ l') = field_value names name conv a l'.
Proof. unfold field_value. rewrite foldl_app. by intros ->. Qed.
Lemma field_value_other key v zero :
  field_of names key ≠ Some name → field_value names name conv zero [(key, v)] = Some zero.
Proof. intros H. unfold field_value. cbn. by rewrite bool_decide_eq_false_2. Qed.
Lemma field_value_same v zero : field_of names name = Some name → v ≠ JNull →
  field_value names name conv zero [(name, v)] = conv v.
Proof. intros H Hv. unfold field_value. cbn. rewrite bool_decide_eq_true_2 by done. by destruct v. Qed.
Lemma field_value_omit_other key s zero :
  field_of names key ≠ Some name → field_value names name conv zero (omit_str key s) = Some zero.
Proof. intros H. unfold omit_str. destruct (String.eqb s ""); [done|]. by apply field_value_other. Qed.
Lemma field_value_omit_int_other key z zero :
  field_of names key ≠ Some name → field_value names name conv zero (omit_int key z) = Some zero.
Proof. intros H. unfold omit_int. destruct (z =? 0); [done|]. by apply field_value_other. Qed.
End fields.
Lemma field_value_omit_str names name s : field_of names name = Some name →
  field_value names name to_str "" (omit_str name s) = Some s.
Proof.
  intros H. unfold omit_str. destruct (String.eqb_spec s "") as [->|]; [done|]. by rewrite field_value_same.
Qed.
Lemma field_value_omit_int names name z : field_of names name = Some name → in_i64 z →
  field_value names name to_int 0 (omit_int name z) = Some z.
Proof.
  intros H Hz. unfold omit_int. destruct (Z.eqb_spec z 0) as [->|]; [done|].
  rewrite field_value_same by done. by apply Atoi_Itoa.
Qed.

(** ASCII text survives sanitizing. *)
Fixpoint ascii_only (s : string) : bool :=
  match s with EmptyString => true | String c r => (byte_of_ascii c <? 128) && ascii_only r end.
Lemma ascii_only_app s t : ascii_only (s +:+ t) = ascii_only s && ascii_only t.
Proof. induction s as [|c s IH]; [done|]. rewrite str_app_cons. cbn. by rewrite IH, andb_assoc. Qed.
Lemma ascii_valid s : ascii_only s = true → utf8_valid s = true.
Proof.
  induction s as [|c s IH]; [done|]. cbn [ascii_only]. intros [Hc Hs]%andb_true_iff. reflect_bools.
  assert (chunk (String c s) = (true, String c "", s)) as E.
  { unfold chunk. cbn [rune_width]. pose proof (byte_of_ascii_ok c) as Hb. unfold byte_ok in Hb.
    assert (within 0 127 c = true) as -> by (unfold within; apply andb_true_iff; lia).
    cbn [split_at]. by destruct s. }
  unfold utf8_valid. rewrite (runes_cons (String c s) true _ s ltac:(done) E). cbn. by apply IH.
Qed.
Lemma sanitize_ascii s : ascii_only s = true → sanitize s = s.
Proof. intros. by apply sanitize_valid, ascii_valid. Qed.
Lemma ascii_only_pad w x : ascii_only (pad w x) = true.
Proof.
  induction w as [|w IH]; [done|]. cbn [pad ascii_only]. rewrite IH, andb_true_r.
  pose proof (Z.mod_pos_bound (x / 10 ^ Z.of_nat w) 10 ltac:(lia)).
  unfold digit. rewrite byte_of_ascii_of_byte by (unfold byte_ok; lia). lia.
Qed.
Lemma ascii_only_Itoa x : ascii_only (Itoa x) = true.
Proof. unfold Itoa. case_match; [rewrite ascii_only_app|]; by rewrite ascii_only_pad. Qed.
Lemma ascii_only_strip s : ascii_only s = true → ascii_only (strip_zeros s) = true.
Proof.
  induction s as [|c s IH]; [done|]. cbn [ascii_only strip_zeros]. intros [Hc Hs]%andb_true_iff. specialize (IH Hs).
  destruct (strip_zeros s) as [|a s']; [case_match; cbn; by rewrite ?Hc|].
  cbn [ascii_only] in *. by rewrite Hc.
Qed.
Lemma ascii_only_FormatTime t : ascii_only (FormatTime t) = true.
Proof.
  unfold FormatTime, format_seconds, format_frac. cbv zeta. rewrite !ascii_only_app.
  assert (∀ x w, ascii_only (appendInt x w) = true) as Ha.
  { intros x w. unfold appendInt. rewrite ascii_only_app. do 2 case_match; by rewrite ?ascii_only_pad, ?ascii_only_Itoa. }
  rewrite !Ha. pose proof (ascii_only_strip (pad 9 (t mod Second)) (ascii_only_pad _ _)) as Hs.
  destruct (strip_zeros (pad 9 (t mod Second))); [done|]. by rewrite ascii_only_app, Hs.
Qed.
#[global] Arguments sanitize : simpl never.
#[global] Arguments field_value : simpl never.
#[global] Arguments field_of : simpl never.
