(* ===== verification/World.v ===== *)
(** The state of the running server and the effects its code performs on it.

  [Db] is the SQLite database: one field per table of the modules' migrations,
  keyed by the table's primary key, columns in the order of the DDL.  A column
  that holds a time holds its text, as the code stores it.  [World] adds what
  the process keeps in memory and the three things the code reads from outside:
  the clock, the random source, and whether the next database call fails. *)
From Stdlib Require Import ZArith Lia SpecFloat.
From S2P Require Import Prelude GoStrings GoTime.
From stdpp Require Import options.

(** ** Tables *)

(** seal/migrations.go: [seal_config], whose only key is 1. *)
Record SealConfigRow := MkSealConfig {
  shamir_shares : Z; shamir_threshold : Z; key_check : list Z;
  sc_created_at : string; sc_kek_version : Z }.
(** secret/migrations.go *)
Record SecretMetadataRow := MkSecretMetadata {
  current_version : Z; max_versions : Z; sm_created_at : string; sm_updated_at : string }.
Record SecretVersionRow := MkSecretVersion {
  sv_kek_version : Z; sv_wrapped_dek : list Z; sv_ciphertext : list Z;
  sv_created_at : string; sv_deleted_at : option string; sv_destroyed_at : option string }.
(** param/migrations.go *)
Record ParamRow := MkParam {
  pv_kind : string; pv_kek_version : Z; pv_wrapped_dek : list Z; pv_ciphertext : list Z;
  pv_updated_at : string; pv_updated_by : string }.
(** policy/migrations.go; [policy_bindings] maps its key to [created_at]. *)
Record PolicyRow := MkPolicyRow {
  pd_rules : string; pd_created_at : string; pd_updated_at : string }.
(** auth/migrations.go *)
Record IdentityRow := MkIdentityRow {
  ai_kind : string; ai_tenant : string; ai_created_at : string; ai_disabled_at : option string }.
Record TokenRow := MkToken {
  tk_identity_id : string; tk_binding : string; tk_issued_at : string; tk_expires_at : string;
  tk_revoked_at : option string; tk_single_use : Z; tk_consumed_at : option string }.
Record SpentRow := MkSpent {
  sp_identity : string; sp_spent_at : string; sp_expires_at : string }.
(** lease/migrations.go *)
Record LeaseRow := MkLease {
  lr_tenant : string; lr_identity_id : string; lr_path : string; lr_version : Z;
  lr_issued_at : string; lr_expires_at : string; lr_revoked_at : option string }.
(** platform/sqlite/migrate.go *)
Record MigrationRow := MkMigration { mg_checksum : string; mg_applied_at : string }.

Record Db := MkDb {
  seal_config : option SealConfigRow;
  secret_metadata : gmap (string * string) SecretMetadataRow;
  secret_versions : gmap (string * string * Z) SecretVersionRow;
  param_values : gmap (string * string) ParamRow;
  policy_definitions : gmap (string * string) PolicyRow;
  policy_bindings : gmap (string * string * string) string;
  auth_identities : gmap string IdentityRow;
  auth_tokens : gmap (list Z) TokenRow;
  auth_spent_assertions : gmap string SpentRow;
  lease_records : gmap string LeaseRow;
  schema_migrations : gmap (string * string) MigrationRow }.

Definition set_seal_config (v : option SealConfigRow) (d : Db) : Db :=
  {| seal_config := v; secret_metadata := secret_metadata d; secret_versions := secret_versions d; param_values := param_values d; policy_definitions := policy_definitions d; policy_bindings := policy_bindings d; auth_identities := auth_identities d; auth_tokens := auth_tokens d; auth_spent_assertions := auth_spent_assertions d; lease_records := lease_records d; schema_migrations := schema_migrations d |}.
Definition set_secret_metadata (v : gmap (string * string) SecretMetadataRow) (d : Db) : Db :=
  {| seal_config := seal_config d; secret_metadata := v; secret_versions := secret_versions d; param_values := param_values d; policy_definitions := policy_definitions d; policy_bindings := policy_bindings d; auth_identities := auth_identities d; auth_tokens := auth_tokens d; auth_spent_assertions := auth_spent_assertions d; lease_records := lease_records d; schema_migrations := schema_migrations d |}.
Definition set_secret_versions (v : gmap (string * string * Z) SecretVersionRow) (d : Db) : Db :=
  {| seal_config := seal_config d; secret_metadata := secret_metadata d; secret_versions := v; param_values := param_values d; policy_definitions := policy_definitions d; policy_bindings := policy_bindings d; auth_identities := auth_identities d; auth_tokens := auth_tokens d; auth_spent_assertions := auth_spent_assertions d; lease_records := lease_records d; schema_migrations := schema_migrations d |}.
Definition set_param_values (v : gmap (string * string) ParamRow) (d : Db) : Db :=
  {| seal_config := seal_config d; secret_metadata := secret_metadata d; secret_versions := secret_versions d; param_values := v; policy_definitions := policy_definitions d; policy_bindings := policy_bindings d; auth_identities := auth_identities d; auth_tokens := auth_tokens d; auth_spent_assertions := auth_spent_assertions d; lease_records := lease_records d; schema_migrations := schema_migrations d |}.
Definition set_policy_definitions (v : gmap (string * string) PolicyRow) (d : Db) : Db :=
  {| seal_config := seal_config d; secret_metadata := secret_metadata d; secret_versions := secret_versions d; param_values := param_values d; policy_definitions := v; policy_bindings := policy_bindings d; auth_identities := auth_identities d; auth_tokens := auth_tokens d; auth_spent_assertions := auth_spent_assertions d; lease_records := lease_records d; schema_migrations := schema_migrations d |}.
Definition set_policy_bindings (v : gmap (string * string * string) string) (d : Db) : Db :=
  {| seal_config := seal_config d; secret_metadata := secret_metadata d; secret_versions := secret_versions d; param_values := param_values d; policy_definitions := policy_definitions d; policy_bindings := v; auth_identities := auth_identities d; auth_tokens := auth_tokens d; auth_spent_assertions := auth_spent_assertions d; lease_records := lease_records d; schema_migrations := schema_migrations d |}.
Definition set_auth_identities (v : gmap string IdentityRow) (d : Db) : Db :=
  {| seal_config := seal_config d; secret_metadata := secret_metadata d; secret_versions := secret_versions d; param_values := param_values d; policy_definitions := policy_definitions d; policy_bindings := policy_bindings d; auth_identities := v; auth_tokens := auth_tokens d; auth_spent_assertions := auth_spent_assertions d; lease_records := lease_records d; schema_migrations := schema_migrations d |}.
Definition set_auth_tokens (v : gmap (list Z) TokenRow) (d : Db) : Db :=
  {| seal_config := seal_config d; secret_metadata := secret_metadata d; secret_versions := secret_versions d; param_values := param_values d; policy_definitions := policy_definitions d; policy_bindings := policy_bindings d; auth_identities := auth_identities d; auth_tokens := v; auth_spent_assertions := auth_spent_assertions d; lease_records := lease_records d; schema_migrations := schema_migrations d |}.
Definition set_auth_spent_assertions (v : gmap string SpentRow) (d : Db) : Db :=
  {| seal_config := seal_config d; secret_metadata := secret_metadata d; secret_versions := secret_versions d; param_values := param_values d; policy_definitions := policy_definitions d; policy_bindings := policy_bindings d; auth_identities := auth_identities d; auth_tokens := auth_tokens d; auth_spent_assertions := v; lease_records := lease_records d; schema_migrations := schema_migrations d |}.
Definition set_lease_records (v : gmap string LeaseRow) (d : Db) : Db :=
  {| seal_config := seal_config d; secret_metadata := secret_metadata d; secret_versions := secret_versions d; param_values := param_values d; policy_definitions := policy_definitions d; policy_bindings := policy_bindings d; auth_identities := auth_identities d; auth_tokens := auth_tokens d; auth_spent_assertions := auth_spent_assertions d; lease_records := v; schema_migrations := schema_migrations d |}.
Definition set_schema_migrations (v : gmap (string * string) MigrationRow) (d : Db) : Db :=
  {| seal_config := seal_config d; secret_metadata := secret_metadata d; secret_versions := secret_versions d; param_values := param_values d; policy_definitions := policy_definitions d; policy_bindings := policy_bindings d; auth_identities := auth_identities d; auth_tokens := auth_tokens d; auth_spent_assertions := auth_spent_assertions d; lease_records := lease_records d; schema_migrations := v |}.

(** ** Memory of the process *)

(** seal.Manager: the fields under its mutex. *)
Record SealMemory := MkSealMemory {
  root : option (list Z); kekVersion : Z; collected : list (list Z) }.
Definition sealed_memory : SealMemory := MkSealMemory None 0 [].

(** audit.Log: the lines of the file and the fields under its mutex. *)
Record AuditLog := MkAuditLog {
  al_lines : list string; al_sequence : Z; al_previous : string; al_closed : bool;
  (** the buffered writer has failed: [bufio.Writer] keeps returning its first error *)
  al_failed : bool }.

(** ratelimit.bucket: the tokens, a float64, and when it was last filled. *)
Record Bucket := MkBucket { tokens : spec_float; seen : Z }.

Record World := MkWorld {
  database : Db;
  seal_memory : SealMemory;
  audit_log : AuditLog;
  rotation_busy : bool;
  login_buckets : gmap string Bucket;
  request_buckets : gmap string Bucket;
  (** app.telemetry: the values of the two counters, by joined labels. *)
  request_counts : gmap string spec_float;
  audit_counts : gmap string spec_float;
  clock : nat → Z;
  entropy : nat → Z;
  faults : nat → bool }.

Definition set_database (v : Db) (d : World) : World :=
  {| database := v; seal_memory := seal_memory d; audit_log := audit_log d; rotation_busy := rotation_busy d; login_buckets := login_buckets d; request_buckets := request_buckets d; request_counts := request_counts d; audit_counts := audit_counts d; clock := clock d; entropy := entropy d; faults := faults d |}.
Definition set_seal_memory (v : SealMemory) (d : World) : World :=
  {| database := database d; seal_memory := v; audit_log := audit_log d; rotation_busy := rotation_busy d; login_buckets := login_buckets d; request_buckets := request_buckets d; request_counts := request_counts d; audit_counts := audit_counts d; clock := clock d; entropy := entropy d; faults := faults d |}.
Definition set_audit_log (v : AuditLog) (d : World) : World :=
  {| database := database d; seal_memory := seal_memory d; audit_log := v; rotation_busy := rotation_busy d; login_buckets := login_buckets d; request_buckets := request_buckets d; request_counts := request_counts d; audit_counts := audit_counts d; clock := clock d; entropy := entropy d; faults := faults d |}.
Definition set_rotation_busy (v : bool) (d : World) : World :=
  {| database := database d; seal_memory := seal_memory d; audit_log := audit_log d; rotation_busy := v; login_buckets := login_buckets d; request_buckets := request_buckets d; request_counts := request_counts d; audit_counts := audit_counts d; clock := clock d; entropy := entropy d; faults := faults d |}.
Definition set_login_buckets (v : gmap string Bucket) (d : World) : World :=
  {| database := database d; seal_memory := seal_memory d; audit_log := audit_log d; rotation_busy := rotation_busy d; login_buckets := v; request_buckets := request_buckets d; request_counts := request_counts d; audit_counts := audit_counts d; clock := clock d; entropy := entropy d; faults := faults d |}.
Definition set_request_buckets (v : gmap string Bucket) (d : World) : World :=
  {| database := database d; seal_memory := seal_memory d; audit_log := audit_log d; rotation_busy := rotation_busy d; login_buckets := login_buckets d; request_buckets := v; request_counts := request_counts d; audit_counts := audit_counts d; clock := clock d; entropy := entropy d; faults := faults d |}.
Definition set_request_counts (v : gmap string spec_float) (d : World) : World :=
  {| database := database d; seal_memory := seal_memory d; audit_log := audit_log d; rotation_busy := rotation_busy d; login_buckets := login_buckets d; request_buckets := request_buckets d; request_counts := v; audit_counts := audit_counts d; clock := clock d; entropy := entropy d; faults := faults d |}.
Definition set_audit_counts (v : gmap string spec_float) (d : World) : World :=
  {| database := database d; seal_memory := seal_memory d; audit_log := audit_log d; rotation_busy := rotation_busy d; login_buckets := login_buckets d; request_buckets := request_buckets d; request_counts := request_counts d; audit_counts := v; clock := clock d; entropy := entropy d; faults := faults d |}.
Definition set_clock (v : nat → Z) (d : World) : World :=
  {| database := database d; seal_memory := seal_memory d; audit_log := audit_log d; rotation_busy := rotation_busy d; login_buckets := login_buckets d; request_buckets := request_buckets d; request_counts := request_counts d; audit_counts := audit_counts d; clock := v; entropy := entropy d; faults := faults d |}.
Definition set_entropy (v : nat → Z) (d : World) : World :=
  {| database := database d; seal_memory := seal_memory d; audit_log := audit_log d; rotation_busy := rotation_busy d; login_buckets := login_buckets d; request_buckets := request_buckets d; request_counts := request_counts d; audit_counts := audit_counts d; clock := clock d; entropy := v; faults := faults d |}.
Definition set_faults (v : nat → bool) (d : World) : World :=
  {| database := database d; seal_memory := seal_memory d; audit_log := audit_log d; rotation_busy := rotation_busy d; login_buckets := login_buckets d; request_buckets := request_buckets d; request_counts := request_counts d; audit_counts := audit_counts d; clock := clock d; entropy := entropy d; faults := v |}.

(** ** Effects *)

(** The error of a database call that failed in the driver. *)
Definition ErrDriver : string := "sql: the driver reported an error".

Definition next_fault (w : World) : bool * World :=
  (faults w 0%nat, set_faults (fun n => faults w (S n)) w).

(** A [SELECT]: the caller receives a function of the database, or an error. *)
Definition query {A} (f : Db → A) : M World A := fun w =>
  let '(b, w') := next_fault w in
  if b then (Err [ErrDriver], w') else (Ok (f (database w')), w').

(** A statement that changes the database; [f] also gives what it reports (the
  number of affected rows, or a constraint violation). A statement that fails
  changes nothing. *)
Definition exec {A} (f : Db → result A * Db) : M World A := fun w =>
  let '(b, w') := next_fault w in
  if b then (Err [ErrDriver], w')
  else let '(r, d) := f (database w') in
       match r with
       | Ok a => (Ok a, set_database d w')
       | Err e => (Err e, w')
       end.
Definition exec_ (f : Db → Db) : M World unit := exec (fun d => (Ok tt, f d)).

(** [BeginTx] ... [Commit] with the deferred [Rollback]: an error anywhere
  restores the database the transaction started from. *)
Definition with_tx {A} (body : M World A) : M World A := fun w =>
  let '(b, w1) := next_fault w in
  if b then (Err [ErrDriver], w1)
  else match body w1 with
       | (Err e, w2) => (Err e, set_database (database w1) w2)
       | (Ok a, w2) =>
           let '(b, w3) := next_fault w2 in
           if b then (Err [ErrDriver], set_database (database w1) w3) else (Ok a, w3)
       end.

(** [m.now()] *)
Definition now : M World Z := fun w =>
  (Ok (clock w 0%nat), set_clock (fun n => clock w (S n)) w).

(** [rand.Read] into a slice of [n] bytes; since Go 1.24 it never fails. *)
Fixpoint draw (n : nat) (e : nat → Z) : list Z :=
  match n with
  | O => []
  | S n => e 0%nat mod 256 :: draw n (fun k => e (S k))
  end.
Definition rand_read (n : nat) : M World (list Z) := fun w =>
  (Ok (draw n (entropy w)), set_entropy (fun k => entropy w (n + k)%nat) w).

Lemma draw_length n e : length (draw n e) = n.
Proof. revert e. induction n; simpl; auto. Qed.
Lemma draw_ok n e : Forall byte_ok (draw n e).
Proof.
  revert e. induction n; intros e; constructor; auto. by apply Z.mod_pos_bound.
Qed.

(** No database call fails from here on. *)
Definition no_faults (w : World) : Prop := ∀ n, faults w n = false.

Lemma query_ok {A} (f : Db → A) w : no_faults w →
  query f w = (Ok (f (database w)), set_faults (fun n => faults w (S n)) w).
Proof. unfold query, next_fault. intros H. by rewrite (H 0%nat). Qed.
Lemma no_faults_tail w : no_faults w → no_faults (set_faults (fun n => faults w (S n)) w).
Proof. intros H n. apply H. Qed.

(** ** What a computation may touch

  [same_db m]: whatever the outcome, the database is left as it was. *)
Definition same_db {A} (m : M World A) : Prop := ∀ w, database (snd (m w)) = database w.

Lemma same_db_query {A} (f : Db → A) : same_db (query f).
Proof. intros w. unfold query, next_fault. by case_match. Qed.
Lemma same_db_now : same_db now.
Proof. done. Qed.
Lemma same_db_rand n : same_db (rand_read n).
Proof. done. Qed.
Lemma same_db_ret {A} (a : A) : same_db (ret a).
Proof. done. Qed.
Lemma same_db_fail {A} e : same_db (fail (A:=A) e).
Proof. done. Qed.
Lemma same_db_lift {A} (r : result A) : same_db (lift_result r).
Proof. done. Qed.
Lemma same_db_get : same_db get.
Proof. done. Qed.
Lemma same_db_bind {A B} (m : M World A) (k : A → M World B) :
  same_db m → (∀ a, same_db (k a)) → same_db (bind m k).
Proof.
  intros Hm Hk w. unfold bind. specialize (Hm w).
  destruct (m w) as [[a|e] w']; simpl in *; [by rewrite Hk|done].
Qed.
Lemma same_db_attempt {A} (m : M World A) : same_db m → same_db (attempt m).
Proof. intros Hm w. specialize (Hm w). unfold attempt. by destruct (m w). Qed.
Create HintDb world.
#[export] Hint Resolve same_db_query same_db_now same_db_rand same_db_ret same_db_fail
  same_db_lift same_db_get same_db_bind same_db_attempt : world.

(** Goes through a computation. *)
Ltac solve_same_db := repeat (
  match goal with
  | |- same_db (bind _ _) => apply same_db_bind; [|intros ?]
  | |- same_db (attempt _) => apply same_db_attempt
  | |- same_db (match ?x with _ => _ end) => destruct x
  | |- same_db _ => solve [eauto 2 with world]
  end; cbv beta zeta).

(** A transaction that ends in an error leaves the database unchanged. *)
Lemma with_tx_err {A} (body : M World A) w e w' :
  with_tx body w = (Err e, w') → database w' = database w.
Proof.
  unfold with_tx, next_fault. intros H. repeat case_match; simplify_eq/=; done.
Qed.

(** With no fault a transaction is its body, rolled back on error. *)
Lemma with_tx_ok {A} (body : M World A) w a w' :
  with_tx body w = (Ok a, w') →
  ∃ w1 w2, w1 = set_faults (fun n => faults w (S n)) w ∧ body w1 = (Ok a, w2) ∧
    w' = set_faults (fun n => faults w2 (S n)) w2.
Proof.
  unfold with_tx, next_fault. intros H. repeat case_match; simplify_eq/=; eauto.
Qed.

(** ** Running computations

  [tick] is the world after one database call that did not fail. *)
Definition tick (w : World) : World := set_faults (fun n => faults w (S n)) w.

Lemma query_cases {A} (f : Db → A) w :
  query f w = (Err [ErrDriver], tick w) ∨ query f w = (Ok (f (database w)), tick w).
Proof. unfold query, next_fault. destruct (faults w 0%nat); auto. Qed.
Lemma query_Ok {A} (f : Db → A) w a w' : query f w = (Ok a, w') → a = f (database w) ∧ w' = tick w.
Proof. intros E. destruct (query_cases f w) as [E'|E']; rewrite E' in E; by simplify_eq. Qed.
Lemma query_nf {A} (f : Db → A) w : no_faults w → query f w = (Ok (f (database w)), tick w).
Proof. apply query_ok. Qed.
Lemma exec_cases {A} (f : Db → result A * Db) w :
  (∃ e, exec f w = (Err e, tick w) ∧ (e = [ErrDriver] ∨ fst (f (database w)) = Err e)) ∨
  ∃ a d, f (database w) = (Ok a, d) ∧ exec f w = (Ok a, set_database d (tick w)).
Proof.
  unfold exec, next_fault. destruct (faults w 0%nat); [left; eauto|].
  change (database (set_faults _ w)) with (database w).
  destruct (f (database w)) as [[a|e] d]; [right; eauto|left; eauto].
Qed.
Lemma exec_Ok {A} (f : Db → result A * Db) w a w' : exec f w = (Ok a, w') →
  ∃ d, f (database w) = (Ok a, d) ∧ w' = set_database d (tick w).
Proof. intros E. destruct (exec_cases f w) as [(e&E'&_)|(a'&d&Hf&E')]; rewrite E' in E; simplify_eq; eauto. Qed.
Lemma exec_nf {A} (f : Db → result A * Db) w : no_faults w →
  exec f w = match f (database w) with
             | (Ok a, d) => (Ok a, set_database d (tick w))
             | (Err e, _) => (Err e, tick w)
             end.
Proof. unfold exec, next_fault. intros H. rewrite (H 0%nat). by destruct (f _) as [[]]. Qed.
Lemma exec__nf (f : Db → Db) w : no_faults w → exec_ f w = (Ok tt, set_database (f (database w)) (tick w)).
Proof. unfold exec_. intros H. by rewrite exec_nf. Qed.
Lemma no_faults_tick w : no_faults w → no_faults (tick w).
Proof. intros H n. apply H. Qed.
Lemma no_faults_set_database w d : no_faults w → no_faults (set_database d w).
Proof. intros H n. apply H. Qed.
Lemma no_faults_set_clock w c : no_faults w → no_faults (set_clock c w).
Proof. intros H n. apply H. Qed.
Lemma no_faults_set_entropy w c : no_faults w → no_faults (set_entropy c w).
Proof. intros H n. apply H. Qed.
#[export] Hint Resolve no_faults_tick no_faults_set_database no_faults_set_clock no_faults_set_entropy : world.

(** With no fault a transaction commits exactly when its body succeeds. *)
Lemma with_tx_nf {A} (body : M World A) w a w' : no_faults w → body (tick w) = (Ok a, w') → no_faults w' →
  with_tx body w = (Ok a, tick w').
Proof.
  intros H Hb H'. unfold with_tx, next_fault. rewrite (H 0%nat). change (set_faults _ w) with (tick w). rewrite Hb.
  by rewrite (H' 0%nat).
Qed.
Lemma with_tx_cases {A} (body : M World A) w :
  (∃ e v, with_tx body w = (Err e, v) ∧ database v = database w ∧
     ((e = [ErrDriver]) ∨ fst (body (tick w)) = Err e)) ∨
  ∃ a v, body (tick w) = (Ok a, v) ∧ with_tx body w = (Ok a, tick v).
Proof.
  unfold with_tx, next_fault. destruct (faults w 0%nat); [left; eauto 10|]. change (set_faults _ w) with (tick w).
  destruct (body (tick w)) as [[a|e] v]; [|left; eauto 10].
  destruct (faults v 0%nat); [left; eauto 10|right; eauto].
Qed.

Lemma bind_lift {A B} (r : result A) (k : A → M World B) w a : r = Ok a → bind (lift_result r) k w = k a w.
Proof. by intros ->. Qed.
Lemma bind_query_nf {A B} (f : Db → A) (k : A → M World B) w : no_faults w →
  bind (query f) k w = k (f (database w)) (tick w).
Proof. intros H. by rewrite (bind_ok _ _ _ _ _ (query_nf _ _ H)). Qed.
Lemma bind_now {B} (k : Z → M World B) w : bind now k w = k (clock w 0%nat) (set_clock (fun n => clock w (S n)) w).
Proof. done. Qed.

(** Takes a successful computation apart. *)
Ltac run_inv :=
  repeat match goal with
  | H : bind _ _ _ = (Ok _, _) |- _ => apply bind_ok_inv in H as (?&?&?&?)
  | H : query _ _ = (Ok _, _) |- _ => apply query_Ok in H as [? ?]
  | H : exec _ _ = (Ok _, _) |- _ => apply exec_Ok in H as (?&?&?)
  | H : exec_ _ _ = (Ok _, _) |- _ => apply exec_Ok in H as (?&?&?)
  | H : ret _ _ = (Ok _, _) |- _ => unfold ret in H
  | H : fail _ _ = (Ok _, _) |- _ => discriminate H
  | H : now _ = (Ok _, _) |- _ => unfold now in H
  | H : lift_result _ _ = (Ok _, _) |- _ => unfold lift_result in H
  | _ => progress simplify_eq
  end.

(** ** What a computation keeps of the database *)
Definition keeps_db {A} (P : Db → Prop) (m : M World A) : Prop := keeps (fun w => P (database w)) m.
Section keeps_db.
Context (P : Db → Prop).
Lemma keeps_db_same {A} (m : M World A) : same_db m → keeps_db P m.
Proof. intros Hm w Hw. by rewrite (Hm w). Qed.
Lemma keeps_db_exec {A} (f : Db → result A * Db) :
  (∀ d a d', P d → f d = (Ok a, d') → P d') → keeps_db P (exec f).
Proof.
  intros Hf w Hw. destruct (exec_cases f w) as [(e&E&_)|(a&d&Hd&E)]; rewrite E; [done|]. by eapply Hf.
Qed.
Lemma keeps_db_exec_ (f : Db → Db) : (∀ d, P d → P (f d)) → keeps_db P (exec_ f).
Proof. intros Hf. apply keeps_db_exec. intros d a d' Hd [= <- <-]. auto. Qed.
Lemma keeps_db_with_tx {A} (body : M World A) : keeps_db P body → keeps_db P (with_tx body).
Proof.
  intros Hb w Hw. destruct (with_tx_cases body w) as [(e&v&E&Hv&_)|(a&v&Hv&E)]; rewrite E; cbn [snd].
  - by rewrite Hv.
  - specialize (Hb (tick w) Hw). by rewrite Hv in Hb.
Qed.
Lemma keeps_db_bind {A B} (m : M World A) (k : A → M World B) :
  keeps_db P m → (∀ a, keeps_db P (k a)) → keeps_db P (bind m k).
Proof. apply keeps_bind. Qed.
End keeps_db.

(** ** Computations that leave the seal's memory alone *)
Definition same_mem {A} (m : M World A) : Prop := ∀ w, seal_memory (snd (m w)) = seal_memory w.
Lemma same_mem_query {A} (f : Db → A) : same_mem (query f).
Proof. intros w. unfold query, next_fault. by case_match. Qed.
Lemma same_mem_exec {A} (f : Db → result A * Db) : same_mem (exec f).
Proof. intros w. destruct (exec_cases f w) as [(e&E&_)|(a&d&_&E)]; by rewrite E. Qed.
Lemma same_mem_exec_ (f : Db → Db) : same_mem (exec_ f).
Proof. apply same_mem_exec. Qed.
Lemma same_mem_now : same_mem now.
Proof. done. Qed.
Lemma same_mem_rand n : same_mem (rand_read n).
Proof. done. Qed.
Lemma same_mem_ret {A} (a : A) : same_mem (ret a).
Proof. done. Qed.
Lemma same_mem_fail {A} e : same_mem (fail (A:=A) e).
Proof. done. Qed.
Lemma same_mem_lift {A} (r : result A) : same_mem (lift_result r).
Proof. done. Qed.
Lemma same_mem_bind {A B} (m : M World A) (k : A → M World B) :
  same_mem m → (∀ a, same_mem (k a)) → same_mem (bind m k).
Proof.
  intros Hm Hk w. unfold bind. specialize (Hm w).
  destruct (m w) as [[a|e] w']; simpl in *; [by rewrite Hk|done].
Qed.
Lemma same_mem_if {A} (b : bool) (m k : M World A) : same_mem m → same_mem k → same_mem (if b then m else k).
Proof. by destruct b. Qed.
Lemma same_mem_with_tx {A} (body : M World A) : same_mem body → same_mem (with_tx body).
Proof.
  intros Hb w. specialize (Hb (tick w)). unfold with_tx, next_fault. destruct (faults w 0%nat); [done|].
  change (set_faults _ w) with (tick w). destruct (body (tick w)) as [[a|e] v]; cbn in Hb |- *; [|done].
  by destruct (faults v 0%nat).
Qed.
#[export] Hint Resolve same_mem_query same_mem_exec same_mem_exec_ same_mem_now same_mem_rand same_mem_ret same_mem_fail
  same_mem_lift same_mem_bind same_mem_if same_mem_with_tx : world.

(** ** Computations that only use the database, the clock and the random source *)
Record same_process (w w' : World) : Prop := {
  sp_memory : seal_memory w' = seal_memory w; sp_log : audit_log w' = audit_log w;
  sp_busy : rotation_busy w' = rotation_busy w; sp_logins : login_buckets w' = login_buckets w;
  sp_requests : request_buckets w' = request_buckets w }.
#[export] Instance same_process_preorder : PreOrder same_process.
Proof. split; [by split|]. intros w1 w2 w3 [] []. split; congruence. Qed.
Definition quiet {A} (m : M World A) : Prop := ∀ w, same_process w (snd (m w)).
Lemma quiet_query {A} (f : Db → A) : quiet (query f).
Proof. intros w. by destruct (query_cases f w) as [->| ->]. Qed.
Lemma quiet_exec {A} (f : Db → result A * Db) : quiet (exec f).
Proof. intros w. by destruct (exec_cases f w) as [(e&->&_)|(a&d&_&->)]. Qed.
Lemma quiet_exec_ (f : Db → Db) : quiet (exec_ f).
Proof. apply quiet_exec. Qed.
Lemma quiet_now : quiet now.
Proof. done. Qed.
Lemma quiet_rand n : quiet (rand_read n).
Proof. done. Qed.
Lemma quiet_ret {A} (a : A) : quiet (ret a).
Proof. done. Qed.
Lemma quiet_fail {A} e : quiet (fail (A:=A) e).
Proof. done. Qed.
Lemma quiet_lift {A} (r : result A) : quiet (lift_result r).
Proof. done. Qed.
Lemma quiet_bind {A B} (m : M World A) (k : A → M World B) : quiet m → (∀ a, quiet (k a)) → quiet (bind m k).
Proof.
  intros Hm Hk w. unfold bind. specialize (Hm w). destruct (m w) as [[a|e] w']; cbn [snd] in *; [|done]. etrans; [exact Hm|apply Hk].
Qed.
Lemma quiet_attempt {A} (m : M World A) : quiet m → quiet (attempt m).
Proof. intros Hm w. specialize (Hm w). unfold attempt. by destruct (m w). Qed.
Lemma quiet_if {A} (b : bool) (m k : M World A) : quiet m → quiet k → quiet (if b then m else k).
Proof. by destruct b. Qed.
Lemma quiet_with_tx {A} (body : M World A) : quiet body → quiet (with_tx body).
Proof.
  intros Hb w. specialize (Hb (tick w)). unfold with_tx, next_fault. destruct (faults w 0%nat); [done|].
  change (set_faults _ w) with (tick w). destruct (body (tick w)) as [[a|e] v]; cbn [snd] in *; [|by destruct Hb].
  destruct (faults v 0%nat); by destruct Hb.
Qed.
#[export] Hint Resolve quiet_query quiet_exec quiet_exec_ quiet_now quiet_rand quiet_ret quiet_fail quiet_lift quiet_bind
  quiet_attempt quiet_if quiet_with_tx : world.
(** Goes through a computation. *)
Ltac quiet_step :=
  match goal with
  | |- quiet (bind _ _) => apply quiet_bind; [|intros ?]
  | |- quiet (with_tx _) => apply quiet_with_tx
  | |- quiet (attempt _) => apply quiet_attempt
  | |- quiet (match ?x with _ => _ end) => destruct x
  | |- quiet _ => solve [eauto 2 with world]
  end.
Ltac solve_quiet := repeat (quiet_step; cbv beta zeta).

(** ** Computations that consume no failure that is not there *)
Definition stays_up {A} (m : M World A) : Prop := ∀ w, no_faults w → no_faults (snd (m w)).
Lemma stays_up_query {A} (f : Db → A) : stays_up (query f).
Proof. intros w Hw. destruct (query_cases f w) as [->| ->]; by apply no_faults_tick. Qed.
Lemma stays_up_exec {A} (f : Db → result A * Db) : stays_up (exec f).
Proof. intros w Hw. destruct (exec_cases f w) as [(e&->&_)|(a&d&_&->)]; by apply no_faults_tick. Qed.
Lemma stays_up_exec_ (f : Db → Db) : stays_up (exec_ f).
Proof. apply stays_up_exec. Qed.
Lemma stays_up_now : stays_up now.
Proof. by intros w. Qed.
Lemma stays_up_ret {A} (a : A) : stays_up (ret a).
Proof. by intros w. Qed.
Lemma stays_up_fail {A} e : stays_up (fail (A:=A) e).
Proof. by intros w. Qed.
Lemma stays_up_lift {A} (r : result A) : stays_up (lift_result r).
Proof. by intros w. Qed.
Lemma stays_up_bind {A B} (m : M World A) (k : A → M World B) : stays_up m → (∀ a, stays_up (k a)) → stays_up (bind m k).
Proof.
  intros Hm Hk w Hw. unfold bind. specialize (Hm w Hw). destruct (m w) as [[a|e] w']; cbn [snd] in *; [by apply Hk|done].
Qed.
Lemma stays_up_if {A} (b : bool) (m k : M World A) : stays_up m → stays_up k → stays_up (if b then m else k).
Proof. by destruct b. Qed.
#[export] Hint Resolve stays_up_query stays_up_exec stays_up_exec_ stays_up_now stays_up_ret stays_up_fail stays_up_lift
  stays_up_bind stays_up_if : world.
(** With no failure a transaction ends as its body does. *)
Lemma with_tx_fst {A} (body : M World A) w : no_faults w → stays_up body → fst (with_tx body w) = fst (body (tick w)).
Proof.
  intros Hw Hb. unfold with_tx, next_fault. rewrite (Hw 0%nat). change (set_faults _ w) with (tick w).
  specialize (Hb (tick w) (no_faults_tick _ Hw)). destruct (body (tick w)) as [[a|e] w']; [|done]. cbn [snd] in Hb. by rewrite (Hb 0%nat).
Qed.

(** An [UPDATE] of a row that is there. *)
Lemma alter_Some `{FinMap K Mp} {A} (f : A → A) (k : K) (m : Mp A) x : m !! k = Some x → alter f k m = <[k := f x]> m.
Proof.
  intros E. apply map_eq. intros j. destruct (decide (k = j)) as [<-|Hne].
  - by rewrite lookup_insert_eq, lookup_alter_eq, E.
  - by rewrite lookup_insert_ne, lookup_alter_ne.
Qed.

(** ** [ORDER BY] several columns *)
Definition sort_with {A} (le : A → A → bool) (l : list A) : list A := merge_sort (fun a b => Is_true (le a b)) l.
Section sort_with.
Context {A : Type} (le : A → A → bool).
Lemma sort_with_Permutation l : sort_with le l ≡ₚ l.
Proof. apply merge_sort_Permutation. Qed.
Lemma sort_with_Sorted l : (∀ a b c, le a b = true → le b c = true → le a c = true) →
  (∀ a b, le a b = true ∨ le b a = true) → StronglySorted (fun a b => le a b = true) (sort_with le l).
Proof.
  intros Ht Hto. assert (Transitive (fun a b => Is_true (le a b))) as Htr.
  { intros a b c H1 H2. apply Is_true_eq_true in H1, H2. apply Is_true_eq_left. by eapply Ht. }
  assert (Total (fun a b => Is_true (le a b))) as Htot.
  { intros a b. destruct (Hto a b); [left|right]; by apply Is_true_eq_left. }
  assert (StronglySorted (fun a b => Is_true (le a b)) (sort_with le l)) as H by by apply (StronglySorted_merge_sort _).
  induction H as [|a l' _ IH Hf]; constructor; [done|]. eapply Forall_impl; [exact Hf|]. intros b. apply Is_true_eq_true.
Qed.
End sort_with.

(** ** [ORDER BY] a text column *)
Definition order_by {A} (key : A → string) (l : list A) : list A :=
  merge_sort (fun a b => Is_true (str_le (key a) (key b))) l.
Lemma order_by_Permutation {A} (key : A → string) (l : list A) : order_by key l ≡ₚ l.
Proof. apply merge_sort_Permutation. Qed.
Lemma elem_of_order_by {A} (key : A → string) (l : list A) x : x ∈ order_by key l ↔ x ∈ l.
Proof. by rewrite order_by_Permutation. Qed.
Lemma order_by_Sorted {A} (key : A → string) (l : list A) :
  StronglySorted (fun a b => Is_true (str_le (key a) (key b))) (order_by key l).
Proof.
  assert (Transitive (fun a b => Is_true (str_le (key a) (key b)))) as Htr.
  { intros a b c H1 H2. apply Is_true_eq_true in H1, H2. apply Is_true_eq_left. by eapply str_le_trans. }
  assert (Total (fun a b => Is_true (str_le (key a) (key b)))) as Hto.
  { intros a b. destruct (str_le (key a) (key b)) eqn:E; [by left|right].
    apply Is_true_eq_left, str_lt_le. by rewrite str_lt_not_le, E. }
  by apply (StronglySorted_merge_sort _).
Qed.

(** The process after start-up on an empty database; nothing fails. *)
Definition empty_db : Db := MkDb None ∅ ∅ ∅ ∅ ∅ ∅ ∅ ∅ ∅ ∅.
Definition fresh_world (time : nat → Z) (random : nat → Z) : World :=
  MkWorld empty_db sealed_memory (MkAuditLog [] 0 "" false false) false ∅ ∅ ∅ ∅ time random (fun _ => false).
