(* ===== verification/Policy.v ===== *)
(** The policy engine: platform/authz (capabilities and decisions) and
  modules/policy/policy.go (rules, validation and [Set.Evaluate]). *)
From Stdlib Require Import ZArith Lia Ascii.
From S2P Require Import Prelude GoStrings GoTime World.
From stdpp Require Import options.

Module authz.
Definition Read : string := "read".
Definition Write : string := "write".
Definition List : string := "list".
Definition Delete : string := "delete".
Definition Destroy : string := "destroy".
Definition Deny : string := "deny".
(** A [Capability] is a string; the map holds the six known ones. *)
Definition capabilities : list string := [Read; Write; List; Delete; Destroy; Deny].
Definition Valid (c : string) : bool := bool_decide (c ∈ capabilities).
Definition Grantable (c : string) : bool := Valid c && negb (String.eqb c Deny).

Record Decision := MkDecision {
  Allowed : bool; Policy : string; Rule : string; Reason : string }.
Definition refuse (reason : string) : Decision := MkDecision false "" "" reason.
End authz.

Module authn.
Definition KindBootstrap : string := "bootstrap".
Definition KindInstance : string := "instance".
Definition KindOIDC : string := "oidc".
Definition KindService : string := "service".
Definition kinds : list string := [KindBootstrap; KindInstance; KindOIDC; KindService].
Definition KindValid (k : string) : bool := bool_decide (k ∈ kinds).

Record Identity := MkIdentity {
  ID : string; Kind : string; Tenant : string; CreatedAt : Z; Disabled : bool }.
End authn.

Module policy.
Definition maxNameLen : Z := 128.
Definition maxPatternLen : Z := 512.
Definition maxRules : Z := 256.
Definition wildcard : string := "*".

Definition ErrEmptyName : string := "policy: name must not be empty".
Definition ErrLongName : string := "policy: name is too long".
Definition ErrNoRules : string := "policy: at least one rule is required".
Definition ErrTooManyRules : string := "policy: too many rules".
Definition ErrEmptyPattern : string := "policy: rule path must not be empty".
Definition ErrLongPattern : string := "policy: rule path is too long".
Definition ErrBadPattern : string := "policy: rule path may only use a trailing wildcard".
Definition ErrTraversal : string := "policy: rule path must not contain a traversal or an empty segment".
Definition ErrNoCapabilities : string := "policy: rule grants no capabilities".
Definition ErrBadCapability : string := "policy: unknown capability".
Definition ErrDenyWithGrant : string := "policy: a rule that denies must not also grant".
Definition ErrDuplicatePath : string := "policy: the same path appears twice in one policy".
Definition ErrInvalidPath : string := "policy: path is empty, too long, or contains a traversal".

Record Rule := MkRule { Path : string; Capabilities : list string }.
Record Policy := MkPolicy { Name : string; Rules : list Rule }.
Definition Set_ := list Policy.

#[export] Instance Rule_eq_dec : EqDecision Rule.
Proof. solve_decision. Defined.
#[export] Instance Policy_eq_dec : EqDecision Policy.
Proof. solve_decision. Defined.

(** The loop body returns from the function on a traversal segment or on a
  segment with surrounding white space. *)
Definition safe_segment (segment : string) : bool :=
  negb (String.eqb segment ".." || String.eqb segment ".")
  && String.eqb (TrimSpace segment) segment.
Definition safeSegments (path : string) : bool :=
  if String.eqb path "" then true
  else if Contains path "//" || HasPrefix path "/" then false
  else forallb safe_segment (Split path "/"%char).

Definition ValidatePath (path : string) : result unit :=
  if String.eqb path "" || (maxPatternLen <? len path) || negb (safeSegments path)
  then Err [ErrInvalidPath] else Ok tt.

Fixpoint scan_capabilities (denies grantsSomething : bool) (l : list string)
  : result (bool * bool) :=
  match l with
  | [] => Ok (denies, grantsSomething)
  | capability :: l =>
      if negb (authz.Valid capability) then Err [ErrBadCapability]
      else if String.eqb capability authz.Deny
      then scan_capabilities true grantsSomething l
      else scan_capabilities denies true l
  end.

Definition validateRule (rule : Rule) : result unit :=
  let pattern := Path rule in
  if String.eqb pattern "" then Err [ErrEmptyPattern]
  else if maxPatternLen <? len pattern then Err [ErrLongPattern]
  else if 1 <? Count pattern "*"%char then Err [ErrBadPattern]
  else if Contains pattern wildcard && negb (HasSuffix pattern wildcard) then Err [ErrBadPattern]
  else if negb (safeSegments (TrimSuffix pattern wildcard)) then Err [ErrTraversal]
  else if bool_decide (Capabilities rule = []) then Err [ErrNoCapabilities]
  else let? scanned := scan_capabilities false false (Capabilities rule) in
       if fst scanned && snd scanned then Err [ErrDenyWithGrant] else Ok tt.

(** The loop of [New] with its [seen] map. *)
Fixpoint check_rules (seen : list string) (rules : list Rule) : result unit :=
  match rules with
  | [] => Ok tt
  | rule :: rules =>
      let? _ := validateRule rule in
      if bool_decide (Path rule ∈ seen) then Err [ErrDuplicatePath]
      else check_rules (Path rule :: seen) rules
  end.

Definition New (name : string) (rules : list Rule) : result Policy :=
  if String.eqb name "" then Err [ErrEmptyName]
  else if maxNameLen <? len name then Err [ErrLongName]
  else if bool_decide (rules = []) then Err [ErrNoRules]
  else if maxRules <? blen rules then Err [ErrTooManyRules]
  else let? _ := check_rules [] rules in Ok (MkPolicy name rules).

Definition matches (pattern path : string) : bool :=
  match CutSuffix pattern wildcard with
  | Some prefix => HasPrefix path prefix
  | None => String.eqb pattern path
  end.

Definition grants (rule : Rule) (requested : string) : bool :=
  existsb (fun granted => String.eqb granted requested) (Capabilities rule).

Record candidate := MkCandidate { c_policy : string; c_rule : Rule }.
Definition exact (c : candidate) : bool := negb (HasSuffix (Path (c_rule c)) wildcard).
Definition reach (c : candidate) : Z := len (TrimSuffix (Path (c_rule c)) wildcard).
Definition beats (c other : candidate) : bool :=
  if negb (Bool.eqb (exact c) (exact other)) then exact c
  else if negb (reach c =? reach other) then reach other <? reach c
  else false.

Definition reason_grantable : string := "the requested capability cannot be granted".
Definition reason_path : string := "the requested path is not acceptable".
Definition reason_denied : string := "an explicitly denying rule matched, and denial always wins".
Definition reason_default : string := "no rule matched, and the default is to deny".
(** [%q] of a capability that has passed [Grantable] only adds the quotes. *)
Definition quoted (s : string) : string := String (ascii_of_byte 34) s +:+ String (ascii_of_byte 34) "".

(** The inner loop: [inl] is the early return, [inr] the best candidate left. *)
Fixpoint eval_rules (name path : string) (best : option candidate) (rules : list Rule)
  : authz.Decision + option candidate :=
  match rules with
  | [] => inr best
  | rule :: rules =>
      if negb (matches (Path rule) path) then eval_rules name path best rules
      else if grants rule authz.Deny
      then inl (authz.MkDecision false name (Path rule) reason_denied)
      else let current := MkCandidate name rule in
           let best' := match best with
                        | None => Some current
                        | Some b => if beats current b then Some current else Some b
                        end in
           eval_rules name path best' rules
  end.

Fixpoint eval_policies (path : string) (best : option candidate) (s : Set_)
  : authz.Decision + option candidate :=
  match s with
  | [] => inr best
  | p :: s =>
      match eval_rules (Name p) path best (Rules p) with
      | inl d => inl d
      | inr best => eval_policies path best s
      end
  end.

Definition Evaluate (s : Set_) (path requested : string) : authz.Decision :=
  if negb (authz.Grantable requested) then authz.refuse reason_grantable
  else if negb (is_ok (ValidatePath path)) then authz.refuse reason_path
  else match eval_policies path None s with
       | inl d => d
       | inr None => authz.refuse reason_default
       | inr (Some best) =>
           if negb (grants (c_rule best) requested)
           then authz.MkDecision false (c_policy best) (Path (c_rule best))
                  ("the most specific matching rule does not grant " +:+ quoted requested)
           else authz.MkDecision true (c_policy best) (Path (c_rule best))
                  ("the most specific matching rule grants " +:+ quoted requested)
       end.

(** ** The specification: candidates flattened, the first most specific one *)

Definition candidates (s : Set_) : list candidate :=
  s ≫= fun p => MkCandidate (Name p) <$> Rules p.
Definition matching (s : Set_) (path : string) : list candidate :=
  filter (fun c => matches (Path (c_rule c)) path) (candidates s).
Definition denied (s : Set_) (path : string) : bool :=
  existsb (fun c => grants (c_rule c) authz.Deny) (matching s path).
Definition better (best : option candidate) (c : candidate) : option candidate :=
  match best with
  | None => Some c
  | Some b => if beats c b then Some c else Some b
  end.
Definition most_specific (l : list candidate) : option candidate := foldl better None l.

(** ** The loops compute the specification *)
Section evaluation.
  Context (path : string).
Let picked (l : list candidate) : list candidate :=
    filter (fun c => matches (Path (c_rule c)) path) l.
Let denies (l : list candidate) : bool := existsb (fun c => grants (c_rule c) authz.Deny) l.

Lemma eval_rules_spec name best rules :
    let l := picked (MkCandidate name <$> rules) in
    match eval_rules name path best rules with
    | inl d => denies l = true ∧ authz.Allowed d = false ∧
        ∃ c, c ∈ l ∧ grants (c_rule c) authz.Deny = true ∧
             d = authz.MkDecision false (c_policy c) (Path (c_rule c)) reason_denied
    | inr best' => denies l = false ∧ best' = foldl better best l
    end.
  Proof.
    subst picked denies. revert best. induction rules as [|r rules IH]; intros best; [done|].
    cbn [eval_rules]. rewrite fmap_cons, filter_cons. cbn [c_rule].
    destruct (matches (Path r) path) eqn:Em.
    - rewrite decide_True by done. cbn. destruct (grants r authz.Deny) eqn:Eg; cbn [negb].
      + split; [done|]. split; [done|]. exists (MkCandidate name r). split; [left|done].
      + specialize (IH (better best (MkCandidate name r))). cbn in IH. unfold better in IH at 1.
        destruct (eval_rules _ _ _ _) as [d|b'] eqn:E; cbn in *.
        * destruct IH as (?&?&c&?&?&?). split; [done|]. split; [done|]. exists c. split; [by right|done].
        * done.
    - rewrite decide_False by (intros []). cbn [negb]. apply IH.
  Qed.

Lemma candidates_cons p s : candidates (p :: s) = (MkCandidate (Name p) <$> Rules p) ++ candidates s.
  Proof. done. Qed.

Lemma eval_policies_spec best s :
    match eval_policies path best s with
    | inl d => denied s path = true ∧ authz.Allowed d = false ∧
        ∃ c, c ∈ matching s path ∧ grants (c_rule c) authz.Deny = true ∧
             d = authz.MkDecision false (c_policy c) (Path (c_rule c)) reason_denied
    | inr best' => denied s path = false ∧ best' = foldl better best (matching s path)
    end.
  Proof.
    revert best. induction s as [|p s IH]; intros best; [done|].
    unfold denied, matching. rewrite candidates_cons, filter_app, existsb_app. cbn [eval_policies].
    pose proof (eval_rules_spec (Name p) best (Rules p)) as H. cbn zeta in H.
    subst picked denies. cbn beta in H.
    destruct (eval_rules _ _ _ _) as [d|b'].
    - destruct H as (->&?&c&?&?&?). split; [done|]. split; [done|].
      exists c. rewrite elem_of_app. auto.
    - destruct H as [-> ->]. rewrite foldl_app. cbn [orb].
      specialize (IH (foldl better best (filter (fun c => matches (Path (c_rule c)) path) (MkCandidate (Name p) <$> Rules p)))).
      destruct (eval_policies _ _ _) as [d|b].
      + destruct IH as (?&?&c&?&?&?). split; [done|]. split; [done|].
        exists c. rewrite elem_of_app. auto.
      + done.
  Qed.
End evaluation.

(** ** Specificity is a strict weak order *)
Definition rank (c : candidate) : Z := (if exact c then 1 else 0) * 2 ^ 64 + reach c.

Lemma beats_irrefl c : beats c c = false.
Proof. unfold beats. by rewrite eqb_reflx, Z.eqb_refl. Qed.
Lemma beats_exact c d : exact c = true → exact d = false → beats c d = true.
Proof. unfold beats. by intros -> ->. Qed.
Lemma beats_spec c d : beats c d = true ↔
  (exact c = true ∧ exact d = false) ∨ (exact c = exact d ∧ reach d < reach c).
Proof.
  unfold beats. destruct (exact c), (exact d); cbn [Bool.eqb negb];
    destruct (Z.eqb_spec (reach c) (reach d)); cbn [negb]; try rewrite Z.ltb_lt;
    intuition (try done; try lia).
Qed.
Lemma beats_trans c d e : beats c d = true → beats d e = true → beats c e = true.
Proof.
  rewrite !beats_spec. intros [[? ?]|[? ?]] [[? ?]|[? ?]]; try (left; split; congruence);
    try congruence. right. split; [congruence|lia].
Qed.
Lemma not_beats_trans c d e : beats c d = false → beats d e = false → beats c e = false.
Proof.
  intros H1 H2. apply not_true_iff_false. intros H3. apply not_true_iff_false in H1, H2.
  rewrite beats_spec in *. destruct (exact c), (exact d), (exact e);
    destruct (Z.lt_ge_cases (reach d) (reach c)); intuition (try done; try lia).
Qed.

(** [most_specific] is the first candidate no other beats. *)
Lemma most_specific_from b l :
  ∃ l1 c l2, b :: l = l1 ++ c :: l2 ∧ foldl better (Some b) l = Some c ∧
    (∀ d, d ∈ l1 → beats c d = true) ∧ (∀ d, d ∈ l2 → beats d c = false).
Proof.
  revert b. induction l as [|a l IH]; intros b.
  - exists [], b, []. split_and!; try done; intros d Hd; by apply elem_of_nil in Hd.
  - cbn [foldl better]. destruct (beats a b) eqn:E.
    + destruct (IH a) as (l1&c&l2&Hl&->&H1&H2). exists (b :: l1), c, l2.
      split_and!; [by rewrite Hl|done| |done].
      intros d [->|Hd]%elem_of_cons; [|by apply H1].
      destruct l1 as [|a' l1]; [by simplify_eq/=|]. simplify_eq/=.
      apply beats_trans with a'; [|done]. apply H1. left.
    + destruct (IH b) as (l1&c&l2&Hl&->&H1&H2). destruct l1 as [|b' l1]; simplify_eq/=.
      * exists [], c, (a :: l2). split_and!; [done|done|intros d Hd; by apply elem_of_nil in Hd|].
        intros d [->|Hd]%elem_of_cons; [done|by apply H2].
      * exists (b' :: a :: l1), c, l2. split_and!; [done|done| |done].
        intros d [->|[->|Hd]%elem_of_cons]%elem_of_cons; [apply H1; left| |apply H1; by right].
        specialize (H1 b' ltac:(left)). destruct (beats c a) eqn:Eca; [done|].
        by rewrite (not_beats_trans c a b' Eca E) in H1.
Qed.

Lemma most_specific_spec l c :
  most_specific l = Some c ↔
  ∃ l1 l2, l = l1 ++ c :: l2 ∧ (∀ d, d ∈ l1 → beats c d = true) ∧ (∀ d, d ∈ l2 → beats d c = false).
Proof.
  unfold most_specific. destruct l as [|b l]; cbn [foldl better].
  { split; [done|]. intros (l1&l2&H&_). by destruct l1. }
  destruct (most_specific_from b l) as (l1&c'&l2&Hl&->&H1&H2). split.
  - intros [= ->]. eauto.
  - intros (k1&k2&Hk&K1&K2). f_equal. rewrite Hl in Hk. clear Hl b l.
    destruct (app_eq_inv _ _ _ _ Hk) as [(k&Ek&Ek')|(k&Ek&Ek')];
    destruct k as [|x k]; try (by simplify_eq/=); injection Ek' as <- Ek'; subst.
  + specialize (H1 c ltac:(set_solver)). specialize (K2 c' ltac:(set_solver)). congruence.
  + specialize (K1 c' ltac:(set_solver)). specialize (H2 c ltac:(set_solver)). congruence.
Qed.

Lemma most_specific_None l : most_specific l = None ↔ l = [].
Proof.
  destruct l as [|b l]; [done|]. split; [|done]. unfold most_specific. cbn [foldl better].
  destruct (most_specific_from b l) as (?&?&?&?&->&_). done.
Qed.
Lemma beats_asym c d : beats c d = true → beats d c = false.
Proof.
  intros H. apply not_true_iff_false. intros H'. pose proof (beats_trans _ _ _ H H') as Hc.
  by rewrite beats_irrefl in Hc.
Qed.
Lemma most_specific_unbeaten l c d :
  most_specific l = Some c → d ∈ l → beats d c = false.
Proof.
  intros (l1&l2&->&H1&H2)%most_specific_spec. rewrite elem_of_app, elem_of_cons.
  intros [?|[->|?]]; [by apply beats_asym, H1|apply beats_irrefl|by apply H2].
Qed.
Lemma most_specific_elem l c : most_specific l = Some c → c ∈ l.
Proof. intros (l1&l2&->&_)%most_specific_spec. set_solver. Qed.

(** Two rules that match one path and do not beat each other are the same pattern. *)
Lemma tie_same_pattern c d path :
  matches (Path (c_rule c)) path = true → matches (Path (c_rule d)) path = true →
  beats c d = false → beats d c = false → Path (c_rule c) = Path (c_rule d).
Proof.
  intros Hc Hd H1 H2. apply not_true_iff_false in H1, H2. rewrite beats_spec in H1, H2.
  unfold exact, reach, HasSuffix, TrimSuffix, matches in *.
  destruct (CutSuffix (Path (c_rule c)) wildcard) as [p|] eqn:Ep;
    destruct (CutSuffix (Path (c_rule d)) wildcard) as [q|] eqn:Eq; cbn [negb] in *.
  - apply HasPrefix_spec in Hc as [r Hr], Hd as [r' Hr'].
    apply CutSuffix_Some in Ep as ->, Eq as ->. f_equal. subst path.
    assert (len p = len q) by (destruct (Z.lt_total (len p) (len q)) as [?|[?|?]]; [|done|]; exfalso; auto).
    symmetry. unfold len in *. by destruct (app_inj_len q r' p r) as [-> _]; [lia|symmetry|].
  - exfalso. apply H2. auto.
  - exfalso. apply H1. auto.
  - apply String.eqb_eq in Hc, Hd. congruence.
Qed.

Lemma elem_of_matching s path c :
  c ∈ matching s path ↔ matches (Path (c_rule c)) path = true ∧ c ∈ candidates s.
Proof. unfold matching. rewrite list_elem_of_filter. by rewrite Is_true_true. Qed.
Lemma denied_spec s path :
  denied s path = true ↔ ∃ c, c ∈ matching s path ∧ grants (c_rule c) authz.Deny = true.
Proof.
  unfold denied. rewrite existsb_exists.
  split; intros [c [H1 H2]]; exists c; rewrite list_elem_of_In in *; auto.
Qed.

(** The decision of [Evaluate] in terms of the specification. *)
Lemma Evaluate_cases s path requested :
  authz.Grantable requested = true → is_ok (ValidatePath path) = true →
  (denied s path = true ∧ ∃ c, c ∈ matching s path ∧ grants (c_rule c) authz.Deny = true ∧
     Evaluate s path requested = authz.MkDecision false (c_policy c) (Path (c_rule c)) reason_denied) ∨
  (denied s path = false ∧ matching s path = [] ∧ Evaluate s path requested = authz.refuse reason_default) ∨
  (denied s path = false ∧ ∃ c, most_specific (matching s path) = Some c ∧
     authz.Allowed (Evaluate s path requested) = grants (c_rule c) requested ∧
     authz.Policy (Evaluate s path requested) = c_policy c ∧
     authz.Rule (Evaluate s path requested) = Path (c_rule c)).
Proof.
  intros Hg Hv. unfold Evaluate. rewrite Hg, Hv. cbn [negb].
  pose proof (eval_policies_spec path None s) as H.
  change (foldl better None (matching s path)) with (most_specific (matching s path)) in H.
  destruct (eval_policies path None s) as [d|[b|]].
  - left. destruct H as (?&?&c&?&?&->). eauto.
  - right; right. destruct H as [? ?]. split; [done|]. exists b. split; [done|].
    by destruct (grants (c_rule b) requested).
  - right; left. destruct H as [? H]. split; [done|]. split; [|done].
    by apply most_specific_None.
Qed.

(** C13. Denial always wins: whatever the other rules grant and in whatever
  order policies and rules are listed, one rule that matches the path and
  carries [deny] makes the decision a refusal, and the refusal names a rule
  that denies. *)
Theorem Evaluate_deny_wins (s : Set_) (path requested : string) (p : Policy) (r : Rule)
  (Hp : p ∈ s) (Hr : r ∈ Rules p) (Hm : matches (Path r) path = true)
  (Hd : grants r authz.Deny = true) :
  authz.Allowed (Evaluate s path requested) = false ∧
  (authz.Grantable requested = true → is_ok (ValidatePath path) = true →
   ∃ p' r', p' ∈ s ∧ r' ∈ Rules p' ∧ matches (Path r') path = true ∧
     grants r' authz.Deny = true ∧
     Evaluate s path requested = authz.MkDecision false (Name p') (Path r') reason_denied).
Proof.
  assert (denied s path = true) as Hden.
  { apply denied_spec. exists (MkCandidate (Name p) r). split; [|done].
    apply elem_of_matching. split; [done|]. unfold candidates. apply list_elem_of_bind.
    exists p. split; [|done]. apply list_elem_of_fmap. eauto. }
  assert (authz.Grantable requested = true → is_ok (ValidatePath path) = true →
   ∃ p' r', p' ∈ s ∧ r' ∈ Rules p' ∧ matches (Path r') path = true ∧
     grants r' authz.Deny = true ∧
     Evaluate s path requested = authz.MkDecision false (Name p') (Path r') reason_denied) as H.
  { intros Hg Hv.
    destruct (Evaluate_cases s path requested Hg Hv) as [(_&c&Hc&Hcd&HE)|[(?&_)|(?&_)]]; try congruence.
    apply elem_of_matching in Hc as [Hcm Hcc]. unfold candidates in Hcc.
    apply list_elem_of_bind in Hcc as (p'&Hcc&Hp'). apply list_elem_of_fmap in Hcc as (r'&->&Hr').
    exists p', r'. auto. }
  split; [|done].
  destruct (authz.Grantable requested) eqn:Hg; [|unfold Evaluate; by rewrite Hg].
  destruct (is_ok (ValidatePath path)) eqn:Hv; [|unfold Evaluate; by rewrite Hg, Hv].
  destruct (H eq_refl eq_refl) as (?&?&_&_&_&_&->). done.
Qed.

(** C14. What is allowed, exactly: the capability is one that can be granted,
  the path is acceptable, no matching rule denies, and the first among the
  most specific matching rules (exact before wildcard, then the longer
  prefix; listing order only between equals) grants the capability. *)
Theorem Evaluate_allowed_iff (s : Set_) (path requested : string) :
  authz.Allowed (Evaluate s path requested) = true ↔
  authz.Grantable requested = true ∧ ValidatePath path = Ok tt ∧ denied s path = false ∧
  ∃ l1 c l2, matching s path = l1 ++ c :: l2 ∧
    (∀ d, d ∈ l1 → beats c d = true) ∧ (∀ d, d ∈ l2 → beats d c = false) ∧
    grants (c_rule c) requested = true.
Proof.
  assert (ValidatePath path = Ok tt ↔ is_ok (ValidatePath path) = true) as ->.
  { unfold ValidatePath. by destruct (_ || _). }
  destruct (authz.Grantable requested) eqn:Hg; [|unfold Evaluate; rewrite Hg; naive_solver].
  destruct (is_ok (ValidatePath path)) eqn:Hv; [|unfold Evaluate; rewrite Hg, Hv; naive_solver].
  destruct (Evaluate_cases s path requested Hg Hv) as [(Hd&c&_&_&->)|[(Hd&Hn&->)|(Hd&c&Hc&->&_)]].
  - split; [done|]. intros (_&_&H&_). congruence.
  - split; [done|]. intros (_&_&_&l1&c&l2&H&_). rewrite Hn in H. by destruct l1.
  - apply most_specific_spec in Hc as Hc'. destruct Hc' as (l1&l2&Hl&H1&H2). split.
    + intros Hgr. split_and!; try done. exists l1, c, l2. auto.
    + intros (_&_&_&k1&c'&k2&Hk&K1&K2&Hgr).
      assert (most_specific (matching s path) = Some c') as Hc' by (apply most_specific_spec; eauto).
      congruence.
Qed.

(** The order in which policies and rules are listed changes nothing,
  as long as equal patterns of different policies agree on the capability. *)
Theorem Evaluate_order_independent (s s' : Set_) (path requested : string)
  (Hperm : candidates s ≡ₚ candidates s')
  (Hagree : ∀ c d, c ∈ candidates s → d ∈ candidates s → Path (c_rule c) = Path (c_rule d) →
     grants (c_rule c) requested = grants (c_rule d) requested) :
  authz.Allowed (Evaluate s path requested) = authz.Allowed (Evaluate s' path requested).
Proof.
  destruct (authz.Grantable requested) eqn:Hg; [|unfold Evaluate; by rewrite Hg].
  destruct (is_ok (ValidatePath path)) eqn:Hv; [|unfold Evaluate; by rewrite Hg, Hv].
  assert (matching s path ≡ₚ matching s' path) as Hmp by (unfold matching; by rewrite Hperm).
  assert (denied s path = denied s' path) as Hden.
  { apply eq_true_iff_eq. rewrite !denied_spec. by setoid_rewrite Hmp. }
  destruct (Evaluate_cases s path requested Hg Hv) as [(Hd&c&_&_&->)|[(Hd&Hn&->)|(Hd&c&Hc&->&_)]];
    destruct (Evaluate_cases s' path requested Hg Hv) as [(Hd'&c'&_&_&->)|[(Hd'&Hn'&->)|(Hd'&c'&Hc'&->&_)]];
    try done; try congruence.
  - apply most_specific_elem in Hc'. rewrite <- Hmp, Hn in Hc'. by apply elem_of_nil in Hc'.
  - apply most_specific_elem in Hc. rewrite Hmp, Hn' in Hc. by apply elem_of_nil in Hc.
  - apply most_specific_elem in Hc as E, Hc' as E'. rewrite <- Hmp in E'.
    pose proof (most_specific_unbeaten _ _ _ Hc E') as U.
    rewrite Hmp in E. pose proof (most_specific_unbeaten _ _ _ Hc' E) as U'. rewrite <- Hmp in E.
    apply elem_of_matching in E as [? ?], E' as [? ?].
    apply Hagree; [done..|]. by apply (tie_same_pattern c c' path).
Qed.

(** The order does matter when two policies give one path different grants:
  the policy listed first decides. *)
Lemma Evaluate_order_matters :
  let reader := MkPolicy "a" [MkRule "db/main" [authz.Read]] in
  let lister := MkPolicy "b" [MkRule "db/main" [authz.List]] in
  authz.Allowed (Evaluate [reader; lister] "db/main" authz.Read) = true ∧
  authz.Allowed (Evaluate [lister; reader] "db/main" authz.Read) = false.
Proof. by vm_compute. Qed.

Lemma Evaluate_deny_wins_witness :
  let s := [MkPolicy "a" [MkRule "db/*" [authz.Read]; MkRule "db/main" [authz.Read]];
            MkPolicy "b" [MkRule "*" [authz.Deny]]] in
  authz.Allowed (Evaluate s "db/main" authz.Read) = false.
Proof.
  intros s. apply (Evaluate_deny_wins s "db/main" authz.Read
    (MkPolicy "b" [MkRule "*" [authz.Deny]]) (MkRule "*" [authz.Deny])).
  - right; left.
  - left.
  - reflexivity.
  - reflexivity.
Defined.

Lemma Evaluate_order_independent_witness :
  let a := MkPolicy "a" [MkRule "db/*" [authz.Read]; MkRule "db/main" [authz.List]] in
  let b := MkPolicy "b" [MkRule "app/x" [authz.Write]] in
  authz.Allowed (Evaluate [a; b] "db/x" authz.Read) = authz.Allowed (Evaluate [b; a] "db/x" authz.Read).
Proof.
  intros a b. apply (Evaluate_order_independent [a; b] [b; a] "db/x" authz.Read).
  - vm_compute. apply (Permutation_app_comm [_; _] [_]).
  - intros c d Hc Hd. vm_compute in Hc, Hd.
    repeat (apply elem_of_cons in Hc as [->|Hc] || apply elem_of_nil in Hc as []);
    repeat (apply elem_of_cons in Hd as [->|Hd] || apply elem_of_nil in Hd as []);
    vm_compute; congruence.
Defined.

(** ** What [New] accepts *)

(** A rule as the documentation describes it: at most one wildcard, at the
  end; no traversal before it; known capabilities; [deny] only alone. *)
Record rule_ok (r : Rule) : Prop := {
  ro_path : Path r ≠ "" ∧ len (Path r) ≤ maxPatternLen;
  ro_shape : ∃ p, Count p "*"%char = 0 ∧ (Path r = p ∨ Path r = p +:+ wildcard) ∧
                  safeSegments p = true;
  ro_caps : Capabilities r ≠ [] ∧ ∀ c, c ∈ Capabilities r → c ∈ authz.capabilities;
  ro_deny : authz.Deny ∈ Capabilities r → ∀ c, c ∈ Capabilities r → c = authz.Deny }.

Lemma Count_zero_Contains s c : Count s c = 0 ↔ Contains s (String c "") = false.
Proof.
  rewrite <- not_true_iff_false, Contains_spec. split.
  - intros H (l&r&->). rewrite !Count_app in H. cbn [Count] in H. rewrite Ascii.eqb_refl in H.
    pose proof (Count_nonneg l c). pose proof (Count_nonneg r c). lia.
  - induction s as [|a s IH]; intros H; [done|]. cbn [Count].
    destruct (Ascii.eqb_spec a c) as [->|Hne].
    + destruct H. by exists "", s.
    + rewrite IH; [done|]. intros (l&r&->). apply H. by exists (String a l), r.
Qed.

Lemma scan_capabilities_spec dn gs l :
  scan_capabilities dn gs l =
  if forallb authz.Valid l
  then Ok (dn || existsb (fun c => String.eqb c authz.Deny) l,
           gs || existsb (fun c => negb (String.eqb c authz.Deny)) l)
  else Err [ErrBadCapability].
Proof.
  revert dn gs. induction l as [|c l IH]; intros dn gs; cbn [scan_capabilities forallb existsb].
  { by rewrite !orb_false_r. }
  destruct (authz.Valid c); cbn [negb andb]; [|done].
  destruct (String.eqb c authz.Deny); rewrite IH; cbn [negb orb];
    by destruct (forallb _ _), dn, gs.
Qed.

Lemma wildcard_shape path :
  (1 <? Count path "*"%char) = false ∧ (Contains path wildcard && negb (HasSuffix path wildcard)) = false ↔
  ∃ p, Count p "*"%char = 0 ∧ (path = p ∨ path = p +:+ wildcard) ∧ TrimSuffix path wildcard = p.
Proof.
  rewrite Z.ltb_ge. unfold HasSuffix, TrimSuffix.
  destruct (CutSuffix path wildcard) as [p|] eqn:E; cbn [negb]; rewrite ?andb_false_r, ?andb_true_r.
  - apply CutSuffix_Some in E as ->. rewrite Count_app. change (Count wildcard "*"%char) with 1.
    pose proof (Count_nonneg p "*"%char). split.
    + intros [? _]. exists p. split; [lia|]. auto.
    + intros (p'&?&_&<-). split; [lia|done].
  - split.
    + intros [_ H]. apply Count_zero_Contains in H. eauto.
    + intros (p'&?&_&<-). split; [lia|]. by apply Count_zero_Contains.
Qed.

Lemma Valid_spec c : authz.Valid c = true ↔ c ∈ authz.capabilities.
Proof. unfold authz.Valid. apply bool_decide_eq_true. Qed.

Lemma validateRule_ok r : validateRule r = Ok tt ↔ rule_ok r.
Proof.
  unfold validateRule. rewrite scan_capabilities_spec. cbn [orb].
  split.
  - intros H. destruct (String.eqb_spec (Path r) ""); [done|].
    destruct (Z.ltb_spec maxPatternLen (len (Path r))); [done|].
    destruct (1 <? _) eqn:E1; [done|]. destruct (_ && negb (HasSuffix _ _)) eqn:E2; [done|].
    destruct (safeSegments _) eqn:E3; [|done]. case_bool_decide as E4; [done|]. cbn [negb] in H.
    destruct (forallb _ _) eqn:E5; [|done]. cbn [result_bind fst snd] in H.
    destruct (existsb _ _ && _) eqn:E6; [done|]. rewrite forallb_forall in E5. split.
    + auto.
    + destruct (proj1 (wildcard_shape (Path r))) as (p&?&?&Ht); [auto|]. exists p. by rewrite Ht in E3.
    + split; [done|]. intros c Hc. apply Valid_spec, E5. by apply list_elem_of_In.
    + intros Hd c Hc. apply andb_false_iff in E6 as [E6|E6].
      * apply not_true_iff_false in E6. destruct E6. apply existsb_exists. exists authz.Deny.
        split; [by apply list_elem_of_In|]. by apply String.eqb_eq.
      * destruct (String.eqb_spec c authz.Deny); [done|]. apply not_true_iff_false in E6. destruct E6.
        apply existsb_exists. exists c. split; [by apply list_elem_of_In|].
        by apply negb_true_iff, String.eqb_neq.
  - intros [[? ?] (p&Hp&Hs&Hsafe) [Hn Hc] Hd].
    destruct (String.eqb_spec (Path r) ""); [done|].
    destruct (Z.ltb_spec maxPatternLen (len (Path r))); [lia|].
    assert (TrimSuffix (Path r) wildcard = p) as Ht.
    { unfold TrimSuffix. destruct (CutSuffix (Path r) wildcard) as [q|] eqn:E.
      - apply CutSuffix_Some in E. destruct Hs as [Hs|Hs]; rewrite Hs in E.
        + exfalso. rewrite E, Count_app in Hp. change (Count wildcard "*"%char) with 1 in Hp.
          pose proof (Count_nonneg q "*"%char). lia.
        + apply (f_equal (fun s => CutSuffix s wildcard)) in E.
          rewrite (proj2 (CutSuffix_Some _ wildcard p)), (proj2 (CutSuffix_Some _ wildcard q)) in E by done.
          congruence.
      - destruct Hs as [Hs|Hs]; [done|]. by apply (proj1 (CutSuffix_None _ _) E p) in Hs. }
    destruct (proj2 (wildcard_shape (Path r))) as [-> ->]; [eauto|].
    rewrite Ht, Hsafe. cbn [negb]. rewrite bool_decide_eq_false_2 by done.
    rewrite (proj2 (forallb_forall _ _)) by (intros c Hin; apply Valid_spec, Hc; by apply list_elem_of_In).
    cbn [result_bind fst snd]. destruct (existsb _ _ && _) eqn:E; [|done]. exfalso.
    apply andb_true_iff in E as [(c&Hc1&Hc2)%existsb_exists (d&Hd1&Hd2)%existsb_exists].
    rewrite <- list_elem_of_In in Hc1, Hd1.
    apply String.eqb_eq in Hc2 as ->. apply negb_true_iff, String.eqb_neq in Hd2. auto.
Qed.

Lemma check_rules_ok seen rules :
  check_rules seen rules = Ok tt ↔
  Forall rule_ok rules ∧ NoDup (Path <$> rules) ∧ ∀ r, r ∈ rules → Path r ∉ seen.
Proof.
  revert seen. induction rules as [|r rules IH]; intros seen; cbn [check_rules].
  { split; [|done]. intros _. split; [constructor|]. split; [constructor|].
    intros r Hr. by apply elem_of_nil in Hr. }
  rewrite Forall_cons, fmap_cons, NoDup_cons. destruct (validateRule r) as [[]|e] eqn:E; cbn [result_bind].
  - apply validateRule_ok in E. case_bool_decide as Hin.
    + split; [done|]. intros (_&_&H). destruct (H r); [left|done].
    + rewrite IH. setoid_rewrite elem_of_cons. split.
      * intros (HF&HN&H). refine (conj (conj E HF) (conj (conj _ HN) _)).
        -- intros (r'&Er&Hr')%list_elem_of_fmap. apply (H r' Hr'). rewrite Er. auto.
        -- intros r' [->|Hr']; [done|]. specialize (H r' Hr'). tauto.
      * intros ([_ HF]&[Hn HN]&H). refine (conj HF (conj HN _)). intros r' Hr' [Er|Hs].
        -- apply Hn. apply list_elem_of_fmap. eauto.
        -- apply (H r'); [by right|done].
  - split; [done|]. intros ([H _]&_). apply validateRule_ok in H. congruence.
Qed.

(** [New] accepts exactly the well-formed policies: name and rule
  count within bounds, every rule well formed, no path twice; and the policy
  it returns is the one it was given. *)
Theorem New_ok_iff (name : string) (rules : list Rule) (p : Policy) :
  New name rules = Ok p ↔
  p = MkPolicy name rules ∧ name ≠ "" ∧ len name ≤ maxNameLen ∧ rules ≠ [] ∧
  blen rules ≤ maxRules ∧ Forall rule_ok rules ∧ NoDup (Path <$> rules).
Proof.
  unfold New. destruct (String.eqb_spec name ""); [naive_solver|].
  destruct (Z.ltb_spec maxNameLen (len name)); [split; [done|intros; lia]|].
  case_bool_decide; [naive_solver|].
  destruct (Z.ltb_spec maxRules (blen rules)); [split; [done|intros; lia]|].
  destruct (check_rules [] rules) as [[]|e] eqn:E; cbn [result_bind].
  - apply check_rules_ok in E as (?&?&_). split; [intros [= <-]; auto 10|]. intros (->&_). done.
  - split; [done|]. intros (_&_&_&_&_&HF&HN). assert (check_rules [] rules = Ok tt); [|congruence].
    apply check_rules_ok. split_and!; [done|done|]. intros r _. apply not_elem_of_nil.
Qed.
End policy.
