(* ===== verification/Httpx.v ===== *)
(** platform/httpx: requests, responses, reading a JSON body, and the
  middleware the server puts in front of its handlers.

  A request carries what [net/http] hands to a handler: the path and its escaped
  form, the path values of the matched pattern, the query parameters, the body, the identity and request id
  that earlier middleware put in the context.  A handler is a function of the
  request and the state that always answers. *)
From Stdlib Require Import ZArith Lia Ascii.
From S2P Require Import Prelude GoStrings GoTime Json World Policy.
From stdpp Require Import options.

Record Response := MkResponse {
  status : Z; headers : list (string * string); body : option json;
  (** text that is no JSON document: a page *)
  page : option string }.
Record Request := MkRequest {
  Method : string; URLPath : string; EscapedPath : string; PathValue : string → string; Query : string → string; RawQuery : string;
  Header : string → string; Body : string; RemoteAddr : string;
  Identity : option authn.Identity; RequestID : string }.
Definition Handler := Request → World → Response * World.

Definition StatusOK : Z := 200.
Definition StatusNoContent : Z := 204.
Definition StatusBadRequest : Z := 400.
Definition StatusUnauthorized : Z := 401.
Definition StatusForbidden : Z := 403.
Definition StatusNotFound : Z := 404.
Definition StatusConflict : Z := 409.
Definition StatusPreconditionFailed : Z := 412.
Definition StatusUnprocessableEntity : Z := 422.
Definition StatusTooManyRequests : Z := 429.
Definition StatusInternalServerError : Z := 500.
Definition StatusServiceUnavailable : Z := 503.

Definition StatusTemporaryRedirect : Z := 307.
(** [http.StatusText]; a status that is not listed has none. *)
Definition status_texts : list (Z * string) :=
  [(100, "Continue"); (101, "Switching Protocols"); (102, "Processing"); (103, "Early Hints"); (200, "OK"); (201, "Created");
   (202, "Accepted"); (203, "Non-Authoritative Information"); (204, "No Content"); (205, "Reset Content"); (206, "Partial Content");
   (207, "Multi-Status"); (208, "Already Reported"); (226, "IM Used"); (300, "Multiple Choices"); (301, "Moved Permanently"); (302, "Found");
   (303, "See Other"); (304, "Not Modified"); (305, "Use Proxy"); (307, "Temporary Redirect"); (308, "Permanent Redirect");
   (400, "Bad Request"); (401, "Unauthorized"); (402, "Payment Required"); (403, "Forbidden"); (404, "Not Found");
   (405, "Method Not Allowed"); (406, "Not Acceptable"); (407, "Proxy Authentication Required"); (408, "Request Timeout"); (409, "Conflict");
   (410, "Gone"); (411, "Length Required"); (412, "Precondition Failed"); (413, "Request Entity Too Large"); (414, "Request URI Too Long");
   (415, "Unsupported Media Type"); (416, "Requested Range Not Satisfiable"); (417, "Expectation Failed"); (418, "I'm a teapot");
   (421, "Misdirected Request"); (422, "Unprocessable Entity"); (423, "Locked"); (424, "Failed Dependency"); (425, "Too Early");
   (426, "Upgrade Required"); (428, "Precondition Required"); (429, "Too Many Requests"); (431, "Request Header Fields Too Large");
   (451, "Unavailable For Legal Reasons"); (500, "Internal Server Error"); (501, "Not Implemented"); (502, "Bad Gateway");
   (503, "Service Unavailable"); (504, "Gateway Timeout"); (505, "HTTP Version Not Supported"); (506, "Variant Also Negotiates");
   (507, "Insufficient Storage"); (508, "Loop Detected"); (510, "Not Extended"); (511, "Network Authentication Required")].
Definition StatusText (st : Z) : string :=
  match List.find (fun p => fst p =? st) status_texts with Some (_, text) => text | None => "" end.

(** [v, err := m; if err != nil { ... }] in a handler. *)
Definition run_or {A} (m : M World A) (on_error : list string → World → Response * World)
  (k : A → World → Response * World) : World → Response * World :=
  fun w => match m w with
           | (Ok a, w') => k a w'
           | (Err e, w') => on_error e w'
           end.
Definition reply (r : Response) : World → Response * World := fun w => (r, w).

Module httpx.
Definition maxRequestBody : nat := Z.to_nat (Z.shiftl 1 20).
Definition ErrMalformedBody : string := "httpx: request body is missing or malformed".

Definition JSON (st : Z) (b : json) : Response :=
  MkResponse st [("Content-Type", "application/json")] (Some b) None.
Definition Problem (st : Z) (code : string) : Response :=
  JSON st (JObj [("error", JObj [("code", JStr code)])]).
Definition no_content : Response := MkResponse StatusNoContent [] None None.

(** [decoder.Decode] of a struct whose fields are [names], with unknown fields
  refused; then [decoder.More]: text after the value is an error unless it
  starts with a closing bracket, or lies beyond the size limit. *)
Definition DecodeJSON {A} (names : list string) (conv : list (string * json) → option A) (text : string) : result A :=
  let text := String.substring 0 maxRequestBody text in
  match parse_value (S (2 * String.length text)) text with
  | None => Err [ErrMalformedBody]
  | Some (v, rest) =>
      let members := match v with JObj l => Some l | JNull => Some [] | _ => None end in
      match l ← members; if forallb (fun m => match field_of names (fst m) with Some _ => true | None => false end) l
                         then conv l else None with
      | None => Err [ErrMalformedBody]
      | Some a =>
          match skip_ws rest with
          | EmptyString => Ok a
          | String c _ => if Ascii.eqb c "]"%char || Ascii.eqb c "}"%char then Ok a else Err [ErrMalformedBody]
          end
      end
  end.

(** ** Middleware *)
Definition Middleware := Handler → Handler.
(** [for i := len - 1; i >= 0; i--]: the first middleware is the outermost. *)
Definition Chain (handler : Handler) (middlewares : list Middleware) : Handler :=
  foldl (fun h m => m h) handler (rev middlewares).

Definition set_header (key value : string) (r : Response) : Response :=
  MkResponse (status r) ((key, value) :: headers r) (body r) (page r).
Definition with_request_id (id : string) (r : Request) : Request :=
  MkRequest (Method r) (URLPath r) (EscapedPath r) (PathValue r) (Query r) (RawQuery r) (Header r) (Body r) (RemoteAddr r) (Identity r) id.
Definition with_path_values (values : string → string) (r : Request) : Request :=
  MkRequest (Method r) (URLPath r) (EscapedPath r) values (Query r) (RawQuery r) (Header r) (Body r) (RemoteAddr r) (Identity r) (RequestID r).
Definition with_identity (i : authn.Identity) (r : Request) : Request :=
  MkRequest (Method r) (URLPath r) (EscapedPath r) (PathValue r) (Query r) (RawQuery r) (Header r) (Body r) (RemoteAddr r) (Some i) (RequestID r).

(** [rand.Text]: 26 letters of base 32, one random byte each. *)
Definition base32_letter (b : Z) : ascii :=
  let d := b mod 32 in if d <? 26 then ascii_of_byte (65 + d) else ascii_of_byte (24 + d).
Definition rand_Text (b : list Z) : string := string_of_bytes (byte_of_ascii ∘ base32_letter <$> b).

Definition RequestID_ : Middleware := fun next r w =>
  match rand_read 26 w with
  | (Ok b, w') =>
      let id := rand_Text b in
      let '(resp, w'') := next (with_request_id id r) w' in (set_header "X-Request-Id" id resp, w'')
  | (Err _, w') => (Problem StatusInternalServerError "internal_error", w')
  end.
Definition SecurityHeaders : Middleware := fun next r w =>
  let '(resp, w') := next r w in
  (set_header "Cache-Control" "no-store" (set_header "X-Content-Type-Options" "nosniff"
    (set_header "X-Frame-Options" "DENY" (set_header "Referrer-Policy" "no-referrer" resp))), w').
Definition RateLimit (allow : string → World → bool * World) (key : Request → string) : Middleware := fun next r w =>
  let '(allowed, w') := allow (key r) w in
  if negb allowed
  then (set_header "Retry-After" "1" (Problem StatusTooManyRequests "rate_limited"), w')
  else next r w'.

(** [net.SplitHostPort]: the host of "host:port" or "[host]:port". *)
Fixpoint last_colon (s : string) : option (string * string) :=
  match s with
  | EmptyString => None
  | String c r =>
      match last_colon r with
      | Some (h, p) => Some (String c h, p)
      | None => if Ascii.eqb c ":"%char then Some ("", r) else None
      end
  end.
Definition SplitHost (hostport : string) : option string :=
  match hostport with
  | String "[" r =>
      let '(host, rest, found) := Cut r "]"%char in
      if negb found then None
      else match rest with
           | String ":" port => if Contains host "[" || Contains port "[" || Contains port "]" || Contains port ":" then None else Some host
           | _ => None
           end
  | _ =>
      match last_colon hostport with
      | None => None
      | Some (host, port) =>
          if Contains host ":" || Contains host "[" || Contains host "]" || Contains port "[" || Contains port "]" then None else Some host
      end
  end.
Definition RemoteIP (r : Request) : string :=
  match SplitHost (RemoteAddr r) with Some host => host | None => RemoteAddr r end.

Lemma Chain_cons handler m ms : Chain handler (m :: ms) = m (Chain handler ms).
Proof. unfold Chain. cbn [rev]. by rewrite foldl_app. Qed.
End httpx.
