(* ===== verification/Threads.v ===== *)
(** Goroutines that share a state and take turns at locks: the connection of the
  database pool, of which there is one (SetMaxOpenConns(1) in
  platform/sqlite/sqlite.go), the RWMutex of the seal (modules/seal/manager.go) and
  the Mutex of rotations (modules/rotate/rotate.go).

  A thread is a program: steps on the shared state, and taking and giving back of
  locks in between.  A pool is the threads with the state; one of them moves at a
  time.  Two facts about every pool are proved here: a program that takes its locks
  in order of rank can always be finished, and assertions that others keep may be
  used across their steps (rely and guarantee). *)
From Stdlib Require Import ZArith Lia.
From S2P Require Import Prelude.

Module threads.
Inductive resource := Connection | SealMutex | RunningMutex.
Inductive lock := Exclusive (r : resource) | Shared (r : resource).
#[export] Instance resource_eq : EqDecision resource.
Proof. solve_decision. Defined.
#[export] Instance lock_eq : EqDecision lock.
Proof. solve_decision. Defined.
Definition of_lock (l : lock) : resource := match l with Exclusive r | Shared r => r end.

(** [Take l k]: [k true] with the lock, [k false] when the wait was given up, which
  is what the context of a request may do to a wait for the connection. *)
Inductive prog (S A : Type) : Type :=
| Done (x : A)
| Act {B : Type} (m : S → B * S) (k : B → prog S A)
| Take (l : lock) (k : bool → prog S A)
| Give (l : lock) (k : prog S A).
Arguments Done {S A} x.
Arguments Act {S A B} m k.
Arguments Take {S A} l k.
Arguments Give {S A} l k.

Section programs.
Context {S : Type}.
Fixpoint and_then {A B} (p : prog S A) (k : A → prog S B) : prog S B :=
  match p with
  | Done x => k x
  | Act m c => Act m (fun b => and_then (c b) k)
  | Take l c => Take l (fun b => and_then (c b) k)
  | Give l c => Give l (and_then c k)
  end.
Definition act {A} (m : S → A * S) : prog S A := Act m Done.
(** Alone, a program is a function of the state: nobody is in its way. *)
Fixpoint solo {A} (p : prog S A) (s : S) : A * S :=
  match p with
  | Done x => (x, s)
  | Act m k => let '(b, s) := m s in solo (k b) s
  | Take _ k => solo (k true) s
  | Give _ k => solo k s
  end.
Lemma solo_and_then {A B} (p : prog S A) (k : A → prog S B) s : solo (and_then p k) s = let '(x, s) := solo p s in solo (k x) s.
Proof. revert s. induction p as [x|C m c IH|l c IH|l c IH]; intros s; cbn; [done| |apply IH|apply IH]. destruct (m s). apply IH. Qed.
Lemma solo_act {A} (m : S → A * S) s : solo (act m) s = m s.
Proof. cbn. by destruct (m s). Qed.

(** ** The pool *)
Fixpoint remove_lock (l : lock) (h : list lock) : list lock :=
  match h with [] => [] | l' :: h => if decide (l' = l) then h else l' :: remove_lock l h end.
Context {A : Type}.
(** [announced]: at the door of a lock it takes exclusively, which keeps new
  readers out ([sync.RWMutex]). *)
Record thread := MkThread { code : prog S A; held : list lock; announced : bool }.
Record pool := MkPool { members : list thread; state : S }.
Definition starting (p : prog S A) : thread := MkThread p [] false.
Definition claims (r : resource) (t : thread) : bool :=
  bool_decide (Exclusive r ∈ held t) ||
  announced t && match code t with Take (Exclusive r') _ => bool_decide (r' = r) | _ => false end.
Definition reads (r : resource) (t : thread) : bool := bool_decide (Shared r ∈ held t).
Definition advance (l : list thread) (t : thread) (s : S) : option (thread * S) :=
  match code t with
  | Done _ => None
  | Act m k => let '(b, s) := m s in Some (MkThread (k b) (held t) false, s)
  | Take (Shared r) k =>
      if existsb (claims r) l then None else Some (MkThread (k true) (Shared r :: held t) false, s)
  | Take (Exclusive r) k =>
      if announced t then if existsb (reads r) l then None else Some (MkThread (k true) (Exclusive r :: held t) false, s)
      else if existsb (claims r) l then None else Some (MkThread (code t) (held t) true, s)
  | Give l k => Some (MkThread k (remove_lock l (held t)) false, s)
  end.
Definition move (i : nat) (p : pool) : option pool :=
  t ← members p !! i;
  '(t, s) ← advance (members p) t (state p);
  Some (MkPool (<[i := t]> (members p)) s).
(** A request whose context is done does not wait for the connection any longer. *)
Definition hang_up (i : nat) (p : pool) : option pool :=
  t ← members p !! i;
  match code t with
  | Take (Exclusive Connection) k => Some (MkPool (<[i := MkThread (k false) (held t) false]> (members p)) (state p))
  | _ => None
  end.
Inductive step (p p' : pool) : Prop :=
| step_move i : move i p = Some p' → step p p'
| step_hang_up i : hang_up i p = Some p' → step p p'.
Definition step_by (i : nat) (p p' : pool) : Prop := move i p = Some p' ∨ hang_up i p = Some p'.
(** A run: who went on, and what came of it. *)
Inductive run : pool → list (nat * pool) → Prop :=
| run_nil p : run p []
| run_cons p i p' trace : step_by i p p' → run p' trace → run p ((i, p') :: trace).
Definition reached (p : pool) (trace : list (nat * pool)) : pool := match last trace with Some (_, p') => p' | None => p end.
Lemma reached_cons p i p' trace : reached p ((i, p') :: trace) = reached p' trace.
Proof. unfold reached. destruct trace as [|y trace]; [done|]. rewrite last_cons_cons. destruct (last (y :: trace)) eqn:E; [done|]. by apply last_None in E. Qed.
Lemma step_of i p p' : step_by i p p' → step p p'.
Proof. intros [?|?]; [by eapply step_move|by eapply step_hang_up]. Qed.
Lemma run_steps p trace : run p trace → rtc step p (reached p trace).
Proof. induction 1 as [p|p i p' trace Hs _ IH]; [done|]. rewrite reached_cons. eapply rtc_l; [by eapply step_of|done]. Qed.
(** The moves of a schedule, as long as they can be made. *)
Fixpoint play (schedule : list nat) (p : pool) : option pool :=
  match schedule with
  | [] => Some p
  | i :: schedule => p ← move i p; play schedule p
  end.
Definition is_done (t : thread) : bool := match code t with Done _ => true | _ => false end.
Definition answer (t : thread) : option A := match code t with Done x => Some x | _ => None end.
(** Nobody has [l]. *)
Definition at_rest (l : lock) (p : pool) : bool := forallb (fun t => negb (bool_decide (l ∈ held t))) (members p).
Lemma at_rest_free l p : at_rest l p = true → ∀ i t, members p !! i = Some t → l ∉ held t.
Proof.
  unfold at_rest. rewrite forallb_forall. intros Hall i t Hi. apply list_elem_of_lookup_2, list_elem_of_In, Hall, negb_true_iff in Hi. by apply bool_decide_eq_false in Hi.
Qed.
Definition stuck (p : pool) : Prop := ∀ i, move i p = None.
Lemma play_steps schedule p p' : play schedule p = Some p' → rtc step p p'.
Proof.
  revert p. induction schedule as [|i schedule IH]; intros p; cbn; [by intros [= ->]|]. destruct (move i p) as [p1|] eqn:E; [|done].
  intros E'. eapply rtc_l; [by eapply step_move|by apply IH].
Qed.

(** The run of a schedule; a turn that cannot be taken passes. *)
Fixpoint trace_of (schedule : list nat) (p : pool) : list (nat * pool) :=
  match schedule with
  | [] => []
  | i :: schedule => match move i p with Some p' => (i, p') :: trace_of schedule p' | None => trace_of schedule p end
  end.
Lemma trace_of_run schedule p : run p (trace_of schedule p).
Proof.
  revert p. induction schedule as [|i schedule IH]; intros p; cbn; [constructor|]. destruct (move i p) as [p'|] eqn:E; [|apply IH].
  constructor; [by left|apply IH].
Qed.

(** ** Every execution ends *)
Definition successor (t' t : thread) : Prop :=
  match code t with
  | Done _ => False
  | Act m k => ∃ b, code t' = k b
  | Take _ k => (∃ b, code t' = k b) ∨ announced t = false ∧ announced t' = true ∧ code t' = code t
  | Give _ k => code t' = k
  end.
Lemma successor_wf t : Acc successor t.
Proof.
  destruct t as [c h a]. revert h a. induction c as [x|B m k IH|l k IH|l k IH]; intros h a.
  - constructor. by intros t'.
  - constructor. intros [c' h' a'] [b E]. cbn in E. subst. apply IH.
  - assert (∀ h, Acc successor (MkThread (Take l k) h true)) as Hdoor.
    { intros h'. constructor. intros [c' h'' a'] [[b E]|(?&_&_)]; [|done]. cbn in E. subst. apply IH. }
    constructor. intros [c' h' a'] [[b E]|(_&E&Ec)]; cbn in *; subst; [apply IH|apply Hdoor].
  - constructor. intros [c' h' a'] E. cbn in E. subst. apply IH.
Qed.
Definition list_successor (l' l : list thread) : Prop := ∃ i t t', l !! i = Some t ∧ l' = <[i := t']> l ∧ successor t' t.
Lemma list_successor_wf l : Acc list_successor l.
Proof.
  induction l as [|t l IHl].
  { constructor. intros l' (i&t&t'&Hi&_). by rewrite lookup_nil in Hi. }
  pose proof (successor_wf t) as Ht. revert l IHl. induction Ht as [t _ IHt]. intros l Hl. induction Hl as [l Hl IHl].
  constructor. intros l' ([|i]&u&u'&Hi&->&Hu); cbn in *.
  - injection Hi as ->. apply IHt; [done|]. by constructor.
  - apply IHl. by exists i, u, u'.
Qed.
Lemma advance_successor l t s t' s' : advance l t s = Some (t', s') → successor t' t.
Proof.
  unfold advance, successor. destruct (code t) as [x|B m k|[r|r] k|l' k] eqn:Ec; [done|..].
  - destruct (m s) as [b s1]. intros [= <- _]. by exists b.
  - destruct (announced t) eqn:Ea; destruct (existsb _ l); try done; intros [= <- _]; [left; by exists true|right; by rewrite <- Ec].
  - destruct (existsb _ l); [done|]. intros [= <- _]. left. by exists true.
  - by intros [= <- _].
Qed.
Lemma move_inv i p p' : move i p = Some p' → ∃ t t' s, members p !! i = Some t ∧ advance (members p) t (state p) = Some (t', s) ∧
  p' = MkPool (<[i := t']> (members p)) s.
Proof.
  unfold move. destruct (members p !! i) as [t|] eqn:E; [|done]. cbn. destruct (advance _ _ _) as [[t' s]|] eqn:Ea; [|done].
  intros [= <-]. by exists t, t', s.
Qed.
(** One turn after the other. *)
Lemma play_step i schedule p p1 p' : move i p = Some p1 → play schedule p1 = Some p' → play (i :: schedule) p = Some p'.
Proof. cbn. by intros ->. Qed.
Lemma move_to_door i p t r k : members p !! i = Some t → code t = Take (Exclusive r) k → announced t = false → existsb (claims r) (members p) = false →
  move i p = Some (MkPool (<[i := MkThread (Take (Exclusive r) k) (held t) true]> (members p)) (state p)).
Proof. intros Hi Hc Ha Hf. unfold move. rewrite Hi. cbn. unfold advance. by rewrite Hc, Ha, Hf. Qed.
Lemma move_through_door i p t r k : members p !! i = Some t → code t = Take (Exclusive r) k → announced t = true → existsb (reads r) (members p) = false →
  move i p = Some (MkPool (<[i := MkThread (k true) (Exclusive r :: held t) false]> (members p)) (state p)).
Proof. intros Hi Hc Ha Hf. unfold move. rewrite Hi. cbn. unfold advance. by rewrite Hc, Ha, Hf. Qed.
Lemma move_to_read i p t r k : members p !! i = Some t → code t = Take (Shared r) k → existsb (claims r) (members p) = false →
  move i p = Some (MkPool (<[i := MkThread (k true) (Shared r :: held t) false]> (members p)) (state p)).
Proof. intros Hi Hc Hf. unfold move. rewrite Hi. cbn. unfold advance. by rewrite Hc, Hf. Qed.
Lemma move_act {B} i p t (m : S → B * S) k b s : members p !! i = Some t → code t = Act m k → m (state p) = (b, s) →
  move i p = Some (MkPool (<[i := MkThread (k b) (held t) false]> (members p)) s).
Proof. intros Hi Hc Hm. unfold move. rewrite Hi. cbn. unfold advance. by rewrite Hc, Hm. Qed.
Lemma move_to_give i p t l k : members p !! i = Some t → code t = Give l k →
  move i p = Some (MkPool (<[i := MkThread k (remove_lock l (held t)) false]> (members p)) (state p)).
Proof. intros Hi Hc. unfold move. rewrite Hi. cbn. unfold advance. by rewrite Hc. Qed.
Lemma hang_up_inv i p p' : hang_up i p = Some p' → ∃ t k, members p !! i = Some t ∧ code t = Take (Exclusive Connection) k ∧
  p' = MkPool (<[i := MkThread (k false) (held t) false]> (members p)) (state p).
Proof.
  unfold hang_up. destruct (members p !! i) as [t|] eqn:E; [|done]. cbn. destruct (code t) as [|? m k|[[]|] k|] eqn:Ec; try done.
  intros [= <-]. by exists t, k.
Qed.
(** Who has answered has answered. *)
Lemma step_by_answered i p p' j t : step_by i p p' → members p !! j = Some t → answer t ≠ None → members p' !! j = Some t.
Proof.
  unfold answer. intros [(u&u'&s&Hi&Ha&->)%move_inv|(u&k&Hi&Hc&->)%hang_up_inv] Hj Hans; cbn; (destruct (decide (i = j)) as [<-|Hne]; [assert (u = t) as -> by congruence|by rewrite list_lookup_insert_ne]).
  - unfold advance in Ha. by destruct (code t).
  - by rewrite Hc in Hans.
Qed.
Lemma run_app p pre post : run p (pre ++ post) → run p pre ∧ run (reached p pre) post.
Proof.
  revert p. induction pre as [|[i p'] pre IH]; intros p Hrun; [split; [constructor|done]|]. inversion Hrun; subst. rewrite reached_cons.
  destruct (IH p') as [Hpre Hpost]; [done|]. split; [by constructor|done].
Qed.
Lemma reached_app p pre post : reached p (pre ++ post) = reached (reached p pre) post.
Proof. revert p. induction pre as [|[i p'] pre IH]; intros p; [done|]. cbn [app]. by rewrite !reached_cons. Qed.
Lemma run_answered p trace j t : run p trace → members p !! j = Some t → answer t ≠ None → members (reached p trace) !! j = Some t.
Proof. induction 1 as [p|p i p' trace Hs _ IH]; intros Hj Hans; [done|]. rewrite reached_cons. apply IH; [|done]. by eapply step_by_answered. Qed.
(** However the threads are scheduled and whoever gives up, the steps come to an end. *)
Lemma step_wf p : Acc (fun p' p => step p p') p.
Proof.
  destruct p as [l s]. revert s. induction (list_successor_wf l) as [l _ IH]. intros s. constructor. intros p' Hstep.
  destruct Hstep as [i (t&t'&s'&Hi&Ha&->)%move_inv|i (t&k&Hi&Hc&->)%hang_up_inv]; cbn in *; apply IH.
  - exists i, t, t'. split_and!; [done..|]. by eapply advance_successor.
  - eexists i, t, _. split_and!; [done..|]. unfold successor. rewrite Hc. left. by exists false.
Qed.
End programs.
Arguments thread : clear implicits.
Arguments pool : clear implicits.
(** ** Locks exclude *)
Section exclusion.
Context {S A : Type}.
Implicit Types (p : pool S A) (t u : thread S A).
(** Nobody else is at the door of what a thread claims, or reads what it holds. *)
Definition apart t u : Prop := ∀ r, (claims r t = true → claims r u = false) ∧ (Exclusive r ∈ held t → Shared r ∉ held u).
Definition excluding p : Prop := ∀ i j t u, i ≠ j → members p !! i = Some t → members p !! j = Some u → apart t u.
Lemma claims_held r t : Exclusive r ∈ held t → claims r t = true.
Proof. intros Hr. unfold claims. by rewrite bool_decide_true. Qed.
Lemma in_remove_lock l l' (h : list lock) : l ∈ remove_lock l' h → l ∈ h.
Proof.
  induction h as [|x h IH]; [done|]. cbn. destruct (decide (x = l')); [by right|]. intros [->|?]%elem_of_cons; [by left|right; auto].
Qed.
Lemma nobody {l : list (thread S A)} {f} : existsb f l = false → ∀ i t, l !! i = Some t → f t = false.
Proof.
  intros E i t Hi. apply not_true_iff_false. intros Ht. apply not_true_iff_false in E. apply E, existsb_exists. exists t. split; [|done].
  by eapply list_elem_of_In, list_elem_of_lookup_2.
Qed.
Lemma apart_step p i j t u t' s : excluding p → i ≠ j → members p !! i = Some t → members p !! j = Some u →
  advance (members p) t (state p) = Some (t', s) → apart t' u ∧ apart u t'.
Proof.
  intros Hp Hij Hi Hj Ha. assert (apart t u) as Htu by by apply (Hp i j). assert (apart u t) as Hut by by apply (Hp j i).
  assert (∀ k h, (∀ x, x ∈ h → x ∈ held t) → apart (MkThread k h false) u ∧ apart u (MkThread k h false)) as Hless.
  { intros k h Hh. split; intros r; split.
    - unfold claims. cbn. rewrite orb_false_r. intros ?%bool_decide_eq_true. apply Htu, claims_held, Hh. done.
    - cbn. intros ?. by apply Htu, Hh.
    - intros Hr. unfold claims. cbn. rewrite orb_false_r. apply bool_decide_eq_false. intros Hx. apply Hut in Hr.
      by rewrite (claims_held r t) in Hr by by apply Hh.
    - cbn. intros Hr Hx. destruct (Hut r) as [_ Hs]. by apply (Hs Hr), Hh. }
  unfold advance in Ha. destruct (code t) as [x|B m k|[r|r] k|l k] eqn:Ec; [done|..].
  - destruct (m (state p)) as [b s1]. injection Ha as <- <-. by apply Hless.
  - destruct (announced t) eqn:Ean; destruct (existsb _ (members p)) eqn:Ex; try done; injection Ha as <- <-; pose proof (nobody Ex) as Hn.
    + assert (claims r t = true) as Hclaim by (unfold claims; rewrite Ean, Ec; apply orb_true_iff; right; by apply bool_decide_eq_true).
      assert (∀ r', claims r' (MkThread (k true) (Exclusive r :: held t) false) = true → claims r' t = true) as Hc.
      { intros r'. unfold claims. cbn. rewrite orb_false_r. intros [[= ->]|?]%bool_decide_eq_true%elem_of_cons; [done|by apply claims_held]. }
      split; intros r'; split.
      * intros Hr. by apply Htu, Hc.
      * cbn. intros [[= ->]|?]%elem_of_cons; [|by apply Htu]. specialize (Hn j u Hj). unfold reads in Hn. by apply bool_decide_eq_false in Hn.
      * intros Hr. apply not_true_iff_false. intros Hx%Hc. apply Hut in Hr. congruence.
      * cbn. intros Hr [?|?]%elem_of_cons; [done|]. destruct (Hut r') as [_ Hs]. by apply (Hs Hr).
    + assert (∀ r', claims r' (MkThread (Take (Exclusive r) k) (held t) true) = true → claims r' t = true ∨ r' = r) as Hc.
      { intros r'. unfold claims. cbn. intros [Hx|Hx]%orb_true_iff; [left; rewrite Hx; done|right]. by apply bool_decide_eq_true in Hx. }
      split; intros r'; split.
      * intros [Hx| ->]%Hc; [by apply Htu|]. by apply (Hn j u).
      * cbn. apply Htu.
      * intros Hr. apply not_true_iff_false. intros [Hx| ->]%Hc; [apply Hut in Hr; congruence|]. by rewrite (Hn j u) in Hr.
      * cbn. apply Hut.
  - destruct (existsb _ (members p)) eqn:Ex; [done|]. injection Ha as <- <-. pose proof (nobody Ex) as Hn.
    destruct (Hless (k true) (held t) ltac:(done)) as [Hl1 Hl2].
    assert (∀ r', claims r' (MkThread (k true) (Shared r :: held t) false) = claims r' (MkThread (k true) (held t) false)) as Hc.
    { intros r'. unfold claims. cbn. f_equal. apply bool_decide_ext. rewrite elem_of_cons. naive_solver. }
    split; intros r'; split; rewrite ?Hc.
    + apply Hl1.
    + cbn. intros [?|?]%elem_of_cons; [done|by apply Htu].
    + apply Hl2.
    + cbn. intros Hr [[= ->]|?]%elem_of_cons; [|by eapply Hut]. apply claims_held in Hr. by rewrite (Hn j u) in Hr.
  - injection Ha as <- <-. apply Hless. intros x. apply in_remove_lock.
Qed.
Lemma excluding_insert p i t' s : excluding p → (∀ j u, i ≠ j → members p !! j = Some u → apart t' u ∧ apart u t') →
  excluding (MkPool (<[i := t']> (members p)) s).
Proof.
  intros Hp Ht a b t u Hab. cbn. rewrite !list_lookup_insert_Some. intros [(<-&<-&_)|[Ha Hta]] [(<-&<-&_)|[Hb Hub]]; try done.
  - by apply (Ht b).
  - by apply (Ht a).
  - by apply (Hp a b).
Qed.
Lemma step_excluding p p' : excluding p → step p p' → excluding p'.
Proof.
  intros Hp [i (t&t'&s&Hi&Ha&->)%move_inv|i (t&k&Hi&Hc&->)%hang_up_inv]; apply excluding_insert; try done; intros j u Hij Hj.
  - by apply (apart_step p i j t u t' s).
  - destruct (Hp i j t u Hij Hi Hj (Connection)) as [_ _]. assert (apart t u) as Htu by by apply (Hp i j). assert (apart u t) as Hut by by apply (Hp j i).
    assert (∀ r, claims r (MkThread (k false) (held t) false) = true → claims r t = true) as Hcl.
    { intros r. unfold claims. cbn. rewrite orb_false_r. by intros ->. }
    split; intros r; split; cbn; try apply Htu; try apply Hut; [intros ?%Hcl; by apply Htu|].
    intros Hr. apply not_true_iff_false. intros Hx%Hcl. apply Hut in Hr. congruence.
Qed.
Lemma starting_excluding (ps : list (prog S A)) s : excluding (MkPool (map starting ps) s).
Proof.
  intros i j t u _ Hi Hj r. cbn in *. apply list_lookup_fmap_Some in Hi as (?&->&_). apply list_lookup_fmap_Some in Hj as (?&->&_).
  split; [done|]. by intros ?%elem_of_nil.
Qed.
End exclusion.

(** ** Locks in order *)
Definition rank (r : resource) : nat := match r with RunningMutex => 0 | SealMutex => 1 | Connection => 2 end.
Section order.
(** The resources that nobody takes exclusively: readers of those never wait. *)
Context {S A : Type} (free : resource → bool).
Definition ranked (l : lock) : bool := match l with Exclusive _ => true | Shared r => negb (free r) end.
Definition below (l l' : lock) : Prop := ranked l' = true → (rank (of_lock l') < rank (of_lock l))%nat.
Definition allowed (l : lock) : Prop := match l with Exclusive r => free r = false | Shared _ => True end.
(** From [h] to [e]: takes what ranks above all it holds, gives back what it holds. *)
Fixpoint orderly {B} (e h : list lock) (p : prog S B) : Prop :=
  match p with
  | Done _ => h = e
  | Act m k => ∀ b, orderly e h (k b)
  | Take l k => allowed l ∧ (ranked l = true → Forall (below l) h) ∧ orderly e (l :: h) (k true) ∧ (l = Exclusive Connection → orderly e h (k false))
  | Give l k => orderly e (remove_lock l h) k
  end.
Lemma orderly_and_then {B C} e f h (p : prog S B) (k : B → prog S C) : orderly e h p → (∀ x, orderly f e (k x)) → orderly f h (and_then p k).
Proof.
  intros Hp Hk. revert h Hp. induction p as [x|D m c IH|l c IH|l c IH]; intros h; cbn; [by intros ->|..].
  - intros Hc b. by apply IH.
  - intros (Ha&Hr&Ht&Hf). split_and!; [done|done|by apply IH|]. intros Hl. by apply IH, Hf.
  - apply IH.
Qed.
Definition in_order (t : thread S A) : Prop := orderly [] (held t) (code t) ∧ Forall allowed (held t).
Lemma allowed_remove l h : Forall allowed h → Forall allowed (remove_lock l h).
Proof. intros Hh. apply Forall_forall. intros x Hx. by apply (proj1 (Forall_forall _ _) Hh), (in_remove_lock x l). Qed.
Lemma move_in_order i p p' : move i p = Some p' → Forall in_order (members p) → Forall in_order (members p').
Proof.
  intros (t&t'&s&Hi&Ha&->)%move_inv Hall. cbn. apply Forall_insert; [done|]. destruct (Forall_lookup_1 _ _ _ _ Hall Hi) as [Ht Hh]. revert Ht Ha.
  unfold in_order, advance. destruct (code t) as [x|B m k|[r|r] k|l k] eqn:Ec; cbn; [done|..].
  - destruct (m (state p)) as [b s1]. intros Ht [= <- <-]. by split; [apply Ht|].
  - intros Hfull. destruct (announced t); destruct (existsb _ _); try done; intros [= <- <-]; cbn; [|by split].
    destruct Hfull as (Hr&_&Ht&_). split; [done|]. by constructor.
  - intros (_&_&Ht&_). destruct (existsb _ _); [done|]. intros [= <- <-]. split; [done|]. by constructor.
  - intros Ht [= <- <-]. split; [done|]. by apply allowed_remove.
Qed.
Lemma step_in_order p p' : step p p' → Forall in_order (members p) → Forall in_order (members p').
Proof.
  intros [i E|i (t&k&Hi&Hc&->)%hang_up_inv] Hall; [by eapply move_in_order|]. cbn. apply Forall_insert; [done|].
  destruct (Forall_lookup_1 _ _ _ _ Hall Hi) as [Ht Hh]. rewrite Hc in Ht. cbn in *. destruct Ht as (_&_&_&Hf). split; [by apply Hf|done].
Qed.
Section stuck.
Context (p : pool S A) (Hall : Forall in_order (members p)) (Hstuck : stuck p).
Lemma somebody f : existsb f (members p) = true → ∃ j u, members p !! j = Some u ∧ f u = true ∧ in_order u.
Proof.
  intros (u&Hu&Hf)%existsb_exists. apply list_elem_of_In, list_elem_of_lookup in Hu as [j Hj]. exists j, u. split_and!; [done|done|]. by eapply Forall_lookup_1.
Qed.
Lemma claimed_not_free r u : in_order u → claims r u = true → free r = false.
Proof.
  intros [Ho Ha] [Hr|[_ Hr]%andb_true_iff]%orb_true_iff.
  - apply bool_decide_eq_true in Hr. by apply (proj1 (Forall_forall _ _) Ha) in Hr.
  - destruct (code u) as [|? ? ?|[r'|r'] k|]; try done. apply bool_decide_eq_true in Hr. subst. by destruct Ho as [? _].
Qed.
(** What a thread waits for is ranked: readers of the rest go on. *)
Lemma waits_ranked i t l k : members p !! i = Some t → code t = Take l k → ranked l = true.
Proof.
  intros Hi Hc. destruct l as [r|r]; [done|]. cbn. pose proof (Hstuck i) as Hm. unfold move in Hm. rewrite Hi in Hm. cbn in Hm. unfold advance in Hm. rewrite Hc in Hm.
  destruct (existsb (claims r) (members p)) eqn:Ex; [|done]. apply somebody in Ex as (j&u&Hj&Hcl&Hu). by rewrite (claimed_not_free r u).
Qed.
(** A thread that holds something has not ended; it waits for more, of a higher rank. *)
Lemma holder_waits i t l : members p !! i = Some t → l ∈ held t → ranked l = true → ∃ j u l' k', members p !! j = Some u ∧
  code u = Take l' k' ∧ (rank (of_lock l) < rank (of_lock l'))%nat.
Proof.
  intros Hi Hl Hr. destruct (Forall_lookup_1 _ _ _ _ Hall Hi) as [Ho _]. pose proof (Hstuck i) as Hm. unfold move in Hm. rewrite Hi in Hm. cbn in Hm. unfold advance in Hm.
  destruct (code t) as [x|B m k|l' k|l' k] eqn:Ec; cbn in Ho.
  - by rewrite Ho in Hl; apply elem_of_nil in Hl.
  - by destruct (m (state p)).
  - exists i, t, l', k. split_and!; [done|done|]. destruct Ho as (_&Hrk&_). specialize (Hrk (waits_ranked _ _ _ _ Hi Ec)).
    apply (proj1 (Forall_forall _ _) Hrk _ Hl Hr).
  - done.
Qed.
Lemma reader_waits l r j u : reads r u = true → members p !! j = Some u → r = of_lock l → free r = false → ∃ j u l' k', members p !! j = Some u ∧
  code u = Take l' k' ∧ (rank (of_lock l) < rank (of_lock l'))%nat.
Proof.
  intros Hr%bool_decide_eq_true Hj -> Hf. apply (holder_waits j u (Shared (of_lock l)) Hj Hr). cbn. by rewrite Hf.
Qed.
Lemma claimer_waits l r j u : claims r u = true → members p !! j = Some u → in_order u → r = of_lock l → ∃ j u l' k', members p !! j = Some u ∧
  code u = Take l' k' ∧ (rank (of_lock l) < rank (of_lock l'))%nat.
Proof.
  intros Hcl Hj Hu ->. pose proof (claimed_not_free _ _ Hu Hcl) as Hf. unfold claims in Hcl. apply orb_true_iff in Hcl as [Hr|Hr].
  { apply bool_decide_eq_true in Hr. by apply (holder_waits j u (Exclusive (of_lock l)) Hj Hr). }
  apply andb_true_iff in Hr as [Ha Hr]. pose proof (Hstuck j) as Hm. unfold move in Hm. rewrite Hj in Hm. cbn in Hm. unfold advance in Hm.
  destruct (code u) as [|? ? ?|[r|r] k'|] eqn:Ecu; try done. apply bool_decide_eq_true in Hr. subst. rewrite Ha in Hm.
  destruct (existsb (reads (of_lock l)) (members p)) eqn:Ex; [|done]. apply somebody in Ex as (b&v&Hb&Hrv&_). by eapply reader_waits.
Qed.
Lemma higher_waits i t l k : members p !! i = Some t → code t = Take l k →
  ∃ j u l' k', members p !! j = Some u ∧ code u = Take l' k' ∧ (rank (of_lock l) < rank (of_lock l'))%nat.
Proof.
  intros Hi Hc. pose proof (Hstuck i) as Hm. unfold move in Hm. rewrite Hi in Hm. cbn in Hm. unfold advance in Hm. rewrite Hc in Hm.
  destruct (Forall_lookup_1 _ _ _ _ Hall Hi) as [Ho _]. rewrite Hc in Ho. destruct Ho as [Hal _].
  destruct l as [r|r]; [destruct (announced t)|]; (match type of Hm with context [existsb ?f _] => destruct (existsb f (members p)) eqn:Ex end);
    try done; apply somebody in Ex as (j&u&Hj&Hf&Hu).
  - by eapply (reader_waits (Exclusive r) r).
  - by eapply (claimer_waits (Exclusive r) r).
  - by eapply (claimer_waits (Shared r) r).
Qed.
(** Threads that take their locks in order are never all stuck, unless they have ended. *)
Lemma orderly_progress : Forall (fun t => is_done t = true) (members p).
Proof.
  assert (∀ n i t l k, members p !! i = Some t → code t = Take l k → (2 - rank (of_lock l) < n)%nat → False) as Hno.
  { induction n as [|n IH]; intros i t l k Hi Hc Hn; [lia|]. destruct (higher_waits i t l k Hi Hc) as (j&u&l'&k'&Hj&Hcu&Hr).
    eapply (IH j u l' k'); [done|done|]. destruct (of_lock l), (of_lock l'); cbn in *; lia. }
  apply Forall_lookup_2. intros i t Hi. unfold is_done. pose proof (Hstuck i) as Hm. unfold move in Hm. rewrite Hi in Hm. cbn in Hm. unfold advance in Hm.
  destruct (code t) as [x|B m k|l k|l k] eqn:Ec; [done| | |done].
  - by destruct (m (state p)).
  - exfalso. by eapply (Hno _ i t l k Hi Ec (Nat.lt_succ_diag_r _)).
Qed.
End stuck.
Lemma reachable_in_order (ps : list (prog S A)) s p : Forall (orderly [] []) ps → rtc step (MkPool (map starting ps) s) p → Forall in_order (members p).
Proof.
  intros Hps Hreach. remember (MkPool (map starting ps) s) as p0 eqn:E0. assert (Forall in_order (members p0)) as Hall.
  { subst. cbn. apply Forall_fmap. eapply Forall_impl; [exact Hps|]. intros q Hq. split; [done|]. apply Forall_nil_2. }
  clear E0. induction Hreach as [|p0 p1 p2 Hs _ IH]; [done|]. apply IH. by eapply step_in_order.
Qed.
(** Wherever such threads have got to, however they were scheduled and whatever was
  given up, all of them can still end. *)
Lemma orderly_ends (ps : list (prog S A)) s : Forall (orderly [] []) ps → ∀ p, rtc step (MkPool (map starting ps) s) p →
  ∃ p', rtc step p p' ∧ Forall (fun t => is_done t = true) (members p').
Proof.
  intros Hps p Hreach. assert (Forall in_order (members p)) as Hall by by eapply reachable_in_order.
  clear Hreach. induction (step_wf p) as [p _ IH]. destruct (decide (Exists (fun i => is_Some (move i p)) (seq 0 (length (members p))))) as [Hmove|Hnone].
  - apply Exists_exists in Hmove as (i&_&[p1 E]). destruct (IH p1) as (p2&Hr&Hd); [by eapply step_move|by eapply move_in_order|].
    exists p2. split; [|done]. eapply rtc_l; [by eapply step_move|done].
  - exists p. split; [done|]. apply orderly_progress; [done|]. intros i. destruct (move i p) as [p1|] eqn:E; [|done]. exfalso. apply Hnone.
    apply Exists_exists. exists i. split; [|by eexists]. pose proof E as (t&_&_&Hi&_)%move_inv. apply elem_of_seq. apply lookup_lt_Some in Hi. lia.
Qed.
End order.

(** ** Rely and guarantee

  [inv r] holds whenever nobody holds [r] exclusively; a thread that takes [r] may
  use it, one that gives it back must restore it.  [rely i h] is what thread [i]
  may expect of the others while it holds [h], [guar i h] what it owes them.  The
  second state is a ghost, what the steps mean, and [evolves] how it may change;
  [always] is what every step keeps, whoever makes it. *)
Class Discipline (S X : Type) := {
  inv : resource → S → X → Prop;
  rely : nat → list lock → S → X → S → X → Prop;
  guar : nat → list lock → S → X → S → X → Prop;
  evolves : X → X → Prop;
  always : S → X → Prop }.
(** Locks that two threads may hold at once. *)
Definition compatible (h h' : list lock) : Prop := ∀ r, (Exclusive r ∈ h → Exclusive r ∉ h' ∧ Shared r ∉ h') ∧ (Exclusive r ∈ h' → Shared r ∉ h).
Class DisciplineLaws (S X : Type) `{Discipline S X} := {
  rely_refl : ∀ i h s x, rely i h s x s x;
  rely_trans : ∀ i h s x s1 x1 s2 x2, rely i h s x s1 x1 → rely i h s1 x1 s2 x2 → rely i h s x s2 x2;
  guar_rely : ∀ i j h h' s x s1 x1, i ≠ j → compatible h h' → guar i h s x s1 x1 → rely j h' s x s1 x1;
  guar_inv : ∀ i h s x s1 x1 r, guar i h s x s1 x1 → Exclusive r ∉ h → inv r s x → inv r s1 x1;
  guar_evolves : ∀ i h s x s1 x1, guar i h s x s1 x1 → evolves x x1;
  guar_always : ∀ i h s x s1 x1, guar i h s x s1 x1 → always s x → always s1 x1 }.
Section rely_guarantee.
Context {S A X : Type} `{DisciplineLaws S X}.
Fixpoint safe {B} (i : nat) (Q : list lock → B → S → X → Prop) (h : list lock) (p : prog S B) (s : S) (x : X) {struct p} : Prop :=
  ∀ s1 x1, rely i h s x s1 x1 →
  match p with
  | Done b => Q h b s1 x1
  | Act m k => let '(b, s2) := m s1 in ∃ x2, guar i h s1 x1 s2 x2 ∧ safe i Q h (k b) s2 x2
  | Take l k => (inv (of_lock l) s1 x1 → safe i Q (l :: h) (k true) s1 x1) ∧ (l = Exclusive Connection → safe i Q h (k false) s1 x1)
  | Give l k => (∀ r, l = Exclusive r → inv r s1 x1) ∧ safe i Q (remove_lock l h) k s1 x1
  end.
Lemma safe_rely {B} i Q h (p : prog S B) s x s1 x1 : rely i h s x s1 x1 → safe i Q h p s x → safe i Q h p s1 x1.
Proof. intros Hr. destruct p; cbn; intros Hp s2 x2 Hr2; apply Hp; by eapply rely_trans. Qed.
Lemma safe_mono {B} i (Q Q' : list lock → B → S → X → Prop) h (p : prog S B) s x : (∀ h b s x, Q h b s x → Q' h b s x) → safe i Q h p s x → safe i Q' h p s x.
Proof.
  intros HQ. revert h s x. induction p as [b|C m k IH|l k IH|l k IH]; intros h s x; cbn; intros Hp s1 x1 Hr; specialize (Hp s1 x1 Hr).
  - by apply HQ.
  - destruct (m s1) as [c s2]. destruct Hp as (x2&Hg&Hp). exists x2. split; [done|]. by apply IH.
  - destruct Hp as [Ht Hf]. split; intros ?; apply IH; auto.
  - destruct Hp as [Hi Hp]. split; [done|]. by apply IH.
Qed.
Lemma safe_and_then {B C} i (Q : list lock → C → S → X → Prop) h (p : prog S B) (k : B → prog S C) s x :
  safe i (fun h b s x => safe i Q h (k b) s x) h p s x → safe i Q h (and_then p k) s x.
Proof.
  revert h s x. induction p as [b|D m c IH|l c IH|l c IH]; intros h s x; cbn [and_then safe].
  - intros Hp. apply Hp, rely_refl.
  - intros Hp s1 x1 Hr. specialize (Hp s1 x1 Hr). destruct (m s1) as [b s2]. destruct Hp as (x2&Hg&Hp). exists x2. split; [done|]. by apply IH.
  - intros Hp s1 x1 Hr. destruct (Hp s1 x1 Hr) as [Ht Hf]. split; intros ?; apply IH; auto.
  - intros Hp s1 x1 Hr. destruct (Hp s1 x1 Hr) as [Hi Hk]. split; [done|]. by apply IH.
Qed.

Context (Q : nat → list lock → A → S → X → Prop).
Implicit Types p : pool S A.
Record pool_safe p (x : X) : Prop := {
  ps_excluding : excluding p;
  ps_always : always (state p) x;
  ps_waiting : ∀ i t r k, members p !! i = Some t → announced t = true → code t = Take (Exclusive r) k → Exclusive r ∉ held t;
  ps_threads : ∀ i t, members p !! i = Some t → safe i (Q i) (held t) (code t) (state p) x;
  ps_inv : ∀ r, (∀ i t, members p !! i = Some t → Exclusive r ∉ held t) → inv r (state p) x }.
Lemma excluding_compatible p i j t u : excluding p → i ≠ j → members p !! i = Some t → members p !! j = Some u → compatible (held t) (held u).
Proof.
  intros Hp Hij Hi Hj r. destruct (Hp i j t u Hij Hi Hj r) as [Hc Hs]. destruct (Hp j i u t (not_eq_sym Hij) Hj Hi r) as [Hc' Hs']. split.
  - intros Hr. split; [|by apply Hs]. intros Hr'%claims_held. by rewrite Hc in Hr' by by apply claims_held.
  - intros Hr. by apply Hs'.
Qed.
(** A thread that goes on without changing the state. *)
Lemma pool_safe_insert p i t t' x : pool_safe p x → members p !! i = Some t → step p (MkPool (<[i := t']> (members p)) (state p)) →
  (∀ r k, announced t' = true → code t' = Take (Exclusive r) k → Exclusive r ∉ held t') → safe i (Q i) (held t') (code t') (state p) x →
  (∀ r, Exclusive r ∈ held t → Exclusive r ∉ held t' → inv r (state p) x) → pool_safe (MkPool (<[i := t']> (members p)) (state p)) x.
Proof.
  intros [He Hal Hw Ht Hi] Hmem Hstep Hw' Hsafe Hinv. split; cbn.
  - by eapply step_excluding.
  - done.
  - intros j u r k. rewrite list_lookup_insert_Some. intros [(<-&<-&_)|[_ Hj]]; eauto.
  - intros j u. rewrite list_lookup_insert_Some. intros [(<-&<-&_)|[_ Hj]]; eauto.
  - intros r Hr. assert (Exclusive r ∉ held t') as Hr'.
    { apply (Hr i). apply list_lookup_insert_eq. by eapply lookup_lt_Some. }
    destruct (decide (Exclusive r ∈ held t)) as [Hin|Hout]; [by apply Hinv|]. apply Hi. intros j u Hj.
    destruct (decide (i = j)) as [<-|Hij]; [by simplify_eq|]. apply (Hr j). by rewrite list_lookup_insert_ne.
Qed.
(** What thread [i] may have done to the ghost. *)
Definition by_thread (i : nat) (x x' : X) : Prop := x' = x ∨ ∃ h s s', guar i h s x s' x'.
Lemma by_thread_evolves i x x' : by_thread i x x' → rtc evolves x x'.
Proof. intros [->|(h&s&s'&Hg)]; [done|]. by eapply rtc_once, guar_evolves. Qed.
Lemma step_by_safe i p p' x : pool_safe p x → step_by i p p' → ∃ x', by_thread i x x' ∧ pool_safe p' x'.
Proof.
  intros Hp Hby. pose proof (step_of _ _ _ Hby) as Hstep. pose proof Hp as [He Hal Hw Ht Hi]. destruct Hby as [(t&t'&s&Hmem&Ha&->)%move_inv|(t&k&Hmem&Hc&->)%hang_up_inv].
  2: { exists x. split; [by left|]. eapply pool_safe_insert; [done|done|done|done| |done]. specialize (Ht i t Hmem). rewrite Hc in Ht. cbn in *.
       destruct (Ht (state p) x (rely_refl _ _ _ _)) as [_ Hf]. by apply Hf. }
  pose proof (Ht i t Hmem) as Hsafe. unfold advance in Ha. destruct t as [c h a]. cbn in Ha, Hsafe.
  destruct c as [b|B m k|[r|r] k|l k]; [done|..]; cbn in Ha, Hsafe.
  - pose proof (Hsafe _ _ (rely_refl _ _ _ _)) as Hs. destruct (m (state p)) as [b s2]. injection Ha as <- <-. destruct Hs as (x2&Hg&Hs).
    exists x2. split; [right; by exists h, (state p), s2|]. split; cbn.
    + by eapply step_excluding.
    + by eapply guar_always.
    + intros j u r k'. rewrite list_lookup_insert_Some. intros [(<-&<-&_)|[_ Hj]]; [done|eauto].
    + intros j u. rewrite list_lookup_insert_Some. intros [(<-&<-&_)|[Hij Hj]]; [done|]. eapply safe_rely; [|by apply Ht].
      eapply guar_rely; [exact Hij| |exact Hg]. by apply (excluding_compatible p i j _ _ He Hij Hmem).
    + intros r Hr. eapply guar_inv; [exact Hg| |].
      * specialize (Hr i (MkThread (k b) h false)). cbn in Hr. apply Hr. apply list_lookup_insert_eq. by eapply lookup_lt_Some.
      * apply Hi. intros j u Hj. destruct (decide (i = j)) as [<-|Hij].
        -- simplify_eq. cbn. specialize (Hr i (MkThread (k b) h false)). cbn in Hr. apply Hr. apply list_lookup_insert_eq. by eapply lookup_lt_Some.
        -- apply (Hr j). by rewrite list_lookup_insert_ne.
  - destruct (Hsafe _ _ (rely_refl _ _ _ _)) as [Hs _]. destruct a; destruct (existsb _ _) eqn:Ex; try done; injection Ha as <- <-; exists x; (split; [by left|]).
    + eapply pool_safe_insert; [done|done|done|done| |].
      * apply Hs, Hi. intros j u Hj Hr. destruct (decide (i = j)) as [<-|Hij].
        -- simplify_eq. by apply (Hw i _ r k Hmem).
        -- destruct (He i j _ u Hij Hmem Hj r) as [Hcl _]. apply claims_held in Hr. rewrite Hcl in Hr; [done|]. unfold claims. cbn. apply orb_true_iff. right. by apply bool_decide_eq_true.
      * cbn. intros r' Hr' Hn. destruct Hn. by right.
    + eapply pool_safe_insert; [done|done|done| |exact Hsafe|by intros]. cbn. intros r' k' _ [= <- _] Hr. pose proof (nobody Ex _ _ Hmem) as Hno. by rewrite claims_held in Hno.
  - destruct (Hsafe _ _ (rely_refl _ _ _ _)) as [Hs _]. destruct (existsb _ _) eqn:Ex; [done|]. injection Ha as <- <-. exists x. split; [by left|].
    eapply pool_safe_insert; [done|done|done|done| |].
    + apply Hs, Hi. intros j u Hj Hr%claims_held. pose proof (nobody Ex _ _ Hj). congruence.
    + cbn. intros r' Hr' Hn. destruct Hn. by right.
  - destruct (Hsafe _ _ (rely_refl _ _ _ _)) as [Hinv Hs]. injection Ha as <- <-. exists x. split; [by left|].
    eapply pool_safe_insert; [done|done|done|done|exact Hs|]. cbn. intros r Hr Hn. destruct (decide (l = Exclusive r)) as [->|Hne]; [by apply Hinv|].
    destruct Hn. clear - Hr Hne. induction h as [|y h IH]; [done|]. cbn. apply elem_of_cons in Hr as [Hr|Hr]; destruct (decide _) as [Heq|]; [congruence|rewrite Hr; by left|exact Hr|right; by apply IH].
Qed.
(** What is proved of each thread by itself holds of them together. *)
Lemma pool_safe_starting (ps : list (prog S A)) s x : always s x → (∀ r, inv r s x) → (∀ i q, ps !! i = Some q → safe i (Q i) [] q s x) → pool_safe (MkPool (map starting ps) s) x.
Proof.
  intros Hal Hi Hps. split; cbn.
  - apply starting_excluding.
  - done.
  - intros i t r k Hm. by apply list_lookup_fmap_Some in Hm as (q&->&_).
  - intros i t Hm. apply list_lookup_fmap_Some in Hm as (q&->&Hq). by apply Hps.
  - auto.
Qed.
(** A run has a ghost for every moment of it; that of a later moment comes from that
  of an earlier one by what the threads did that went on in between. *)
Lemma run_safe p trace x : run p trace → pool_safe p x → ∃ x', rtc evolves x x' ∧ pool_safe (reached p trace) x' ∧
  ∀ pre post, trace = pre ++ post → ∃ x1, pool_safe (reached p pre) x1 ∧ rtc evolves x1 x' ∧ rtc (fun y y' => ∃ i, i ∈ pre.*1 ∧ by_thread i y y') x x1.
Proof.
  intros Hrun. revert x. induction Hrun as [p|p i p' trace Hs _ IH]; intros x Hp.
  { exists x. split_and!; [done|done|]. intros [|] post; [|done]. intros _. by exists x. }
  destruct (step_by_safe i p p' x Hp Hs) as (x1&Hx1&Hp1). destruct (IH x1 Hp1) as (x'&He&Hp'&Hall). exists x'. rewrite reached_cons.
  pose proof (by_thread_evolves _ _ _ Hx1) as He1. split_and!; [by etrans|done|]. intros [|[i' p1] pre] post E.
  { exists x. split_and!; [done|by etrans|done]. }
  cbn in E. injection E as <- <- E. destruct (Hall pre post E) as (x2&Hp2&He2&Hb). exists x2. rewrite reached_cons. split_and!; [done|done|].
  eapply rtc_l; [exists i; split; [by left|done]|]. eapply rtc_subrel; [|exact Hb]. intros y y' (j&Hj&Hy). exists j. split; [by right|done].
Qed.
(** What a thread that has ended answered is what was promised for it. *)
Lemma pool_safe_answer p x i t b : pool_safe p x → members p !! i = Some t → answer t = Some b → Q i (held t) b (state p) x.
Proof.
  intros [_ _ _ Ht _] Hm Ha. specialize (Ht i t Hm). unfold answer in Ha. destruct (code t); try done. injection Ha as ->. apply Ht, rely_refl.
Qed.
End rely_guarantee.

(** ** Turn by turn
  A program that nobody is in the way of runs to its end, and then another one. *)
Section undisturbed.
Context {S A : Type}.
Definition ranked_all : resource → bool := fun _ => false.
Definition idle (t : thread S A) : Prop := held t = [] ∧ announced t = false.
Lemma not_below r h : Forall (below ranked_all (Exclusive r)) h → ∀ l, l ∈ h → of_lock l ≠ r.
Proof. intros Hh l Hl <-. pose proof (proj1 (Forall_forall _ _) Hh l Hl) as Hr. specialize (Hr ltac:(by destruct l)). cbn in Hr. lia. Qed.
Lemma nobody_in_the_way i t r (l : list (thread S A)) : (∀ j u, j ≠ i → l !! j = Some u → idle u) → (∀ x, x ∈ held t → of_lock x ≠ r) →
  existsb (reads r) (<[i := t]> l) = false ∧ (announced t = false → existsb (claims r) (<[i := t]> l) = false).
Proof.
  intros Hl Ht. assert (∀ f, (∀ u, idle u → f u = false) → f t = false → existsb f (<[i := t]> l) = false) as Hall.
  { intros f Hi Hft. apply not_true_iff_false. intros (u&Hu&Hf)%existsb_exists. apply list_elem_of_In, list_elem_of_lookup in Hu as [j Hj].
    apply list_lookup_insert_Some in Hj as [(<-&<-&_)|[Hne Hj]]; [congruence|]. rewrite (Hi u) in Hf; [done|]. by eapply Hl, Hj. }
  split; [|intros Ha]; apply Hall; unfold reads, claims.
  - intros u [-> _]. apply bool_decide_eq_false. by intros ?%elem_of_nil.
  - apply bool_decide_eq_false. intros Hr. by apply (Ht _ Hr).
  - intros u [-> ->]. by rewrite bool_decide_false by by intros ?%elem_of_nil.
  - rewrite Ha, orb_false_r. apply bool_decide_eq_false. intros Hr. by apply (Ht _ Hr).
Qed.
(** The frame of a program is what it is the first part of, or nothing. *)
Record frame {B} (K : prog S B → prog S A) : Prop := {
  fr_act : ∀ C (m : S → C * S) c, K (Act m c) = Act m (fun b => K (c b));
  fr_take : ∀ l c, K (Take l c) = Take l (fun b => K (c b));
  fr_give : ∀ l c, K (Give l c) = Give l (K c) }.
Lemma undisturbed {B} K (p : prog S B) e h i l s x s' : frame K → (∀ j u, j ≠ i → l !! j = Some u → idle u) → (i < length l)%nat →
  orderly ranked_all e h p → solo p s = (x, s') →
  rtc step (MkPool (<[i := MkThread (K p) h false]> l) s) (MkPool (<[i := MkThread (K (Done x)) e false]> l) s').
Proof.
  intros HK Hl Hi. revert h s. induction p as [y|C m c IH|lk c IH|lk c IH]; intros h s; cbn [orderly solo].
  - by intros -> [= -> ->].
  - intros Hc. destruct (m s) as [b s1] eqn:Em. intros Hs. rewrite (fr_act _ HK). eapply rtc_l; [|by apply (IH b h s1)]. apply (step_move _ _ i).
    rewrite (move_act i _ (MkThread (Act m (fun b => K (c b))) h false) m (fun b => K (c b)) b s1); [|by apply list_lookup_insert_eq|done..].
    cbn. by rewrite list_insert_insert_eq.
  - intros (_&Hr&Hc&_) Hs. rewrite (fr_take _ HK). assert (∀ y, y ∈ h → of_lock y ≠ of_lock lk) as Hn.
    { apply not_below. eapply Forall_impl; [apply Hr; by destruct lk|]. intros y Hy. exact Hy. }
    destruct lk as [r|r].
    + eapply rtc_l; [apply (step_move _ _ i); eapply move_to_door; [by apply list_lookup_insert_eq|done..|];
        by apply (nobody_in_the_way i (MkThread _ h false) r l Hl Hn)|]. cbn. rewrite list_insert_insert_eq.
      eapply rtc_l; [apply (step_move _ _ i); eapply move_through_door; [by apply list_lookup_insert_eq|done..|];
        by apply (nobody_in_the_way i (MkThread _ h true) r l Hl Hn)|]. cbn. rewrite list_insert_insert_eq. by apply IH.
    + eapply rtc_l; [apply (step_move _ _ i); eapply move_to_read; [by apply list_lookup_insert_eq|done|];
        by apply (nobody_in_the_way i (MkThread _ h false) r l Hl Hn)|]. cbn. rewrite list_insert_insert_eq. by apply IH.
  - intros Hc Hs. rewrite (fr_give _ HK). eapply rtc_l; [apply (step_move _ _ i); eapply move_to_give; [by apply list_lookup_insert_eq|done]|].
    cbn. rewrite list_insert_insert_eq. by apply IH.
Qed.
(** [q] between [p] and what follows it. *)
Lemma in_between {B} K (p : prog S B) (q : prog S A) s x s1 y s2 z s3 : frame K →
  orderly ranked_all [] [] p → orderly ranked_all [] [] (K (Done x)) → orderly ranked_all [] [] q →
  solo p s = (x, s1) → solo q s1 = (y, s2) → solo (K (Done x)) s2 = (z, s3) →
  rtc step (MkPool [starting (K p); starting q] s) (MkPool [starting (Done z); starting (Done y)] s3).
Proof.
  intros HK Hp Hk Hq Ep Eq Ek. assert (∀ i (t u : thread S A), idle t → idle u → ∀ j v, j ≠ i → [t; u] !! j = Some v → idle v) as Hidle.
  { intros i t u Ht Hu [|[|j]] v _ Hv; simplify_eq/=; done. }
  etrans; [apply (undisturbed K p [] [] 0 [starting (Done z); starting q] s x s1); [done|by apply Hidle|cbn; lia|done..]|].
  etrans; [apply (undisturbed (fun p => p) q [] [] 1 [starting (K (Done x)); starting (Done z)] s1 y s2); [done|by apply Hidle|cbn; lia|done..]|].
  apply (undisturbed (fun p => p) (K (Done x)) [] [] 0 [starting (Done z); starting (Done y)] s2 z s3); [done|by apply Hidle|cbn; lia|done..].
Qed.
End undisturbed.
End threads.
