(* ===== verification/Polynomials.v ===== *)
(** Polynomials over a field as lists of coefficients, lowest degree first:
  evaluation by Horner's rule, division by a linear factor, the bound on the
  number of roots, and Lagrange interpolation.  Used for the secret sharing of
  platform/crypto/shamir.go over the field of [Shamir]. *)
From Stdlib Require Import Ring Lia.
From S2P Require Import Prelude.

Class FieldOps (F : Type) := {
  f0 : F; f1 : F; fadd : F → F → F; fmul : F → F → F; fsub : F → F → F; fopp : F → F;
  finv : F → F; f_eq_dec :: EqDecision F }.
Class FieldLaws (F : Type) `{FieldOps F} := {
  f_ring : ring_theory f0 f1 fadd fmul fsub fopp (@eq F);
  f_one_zero : f1 ≠ f0;
  f_inv_l : ∀ x : F, x ≠ f0 → fmul (finv x) x = f1 }.

Section polynomials.
Local Open Scope nat_scope.
Context {F : Type} `{FieldLaws F}.
Add Ring Fring : f_ring.
Local Infix "⊕" := fadd (at level 50, left associativity).
Local Infix "⊖" := fsub (at level 50, left associativity).
Local Infix "⊗" := fmul (at level 40, left associativity).

Fixpoint peval (p : list F) (x : F) : F :=
  match p with [] => f0 | c :: p => c ⊕ x ⊗ peval p x end.

Lemma peval_at_0 c p : peval (c :: p) f0 = c.
Proof. cbn [peval]. ring. Qed.
Lemma mul_eq_0 a b : a ⊗ b = f0 → a = f0 ∨ b = f0.
Proof.
  intros E. destruct (decide (a = f0)) as [|Ha]; [by left|right].
  replace b with (finv a ⊗ a ⊗ b) by (rewrite f_inv_l by done; ring).
  replace (finv a ⊗ a ⊗ b) with (finv a ⊗ (a ⊗ b)) by ring. rewrite E. ring.
Qed.
Lemma sub_eq_0 a b : a ⊖ b = f0 ↔ a = b.
Proof.
  split; [|intros ->; ring]. intros E.
  replace a with ((a ⊖ b) ⊕ b) by ring. rewrite E. ring.
Qed.

(** ** Roots *)
Fixpoint synth (p : list F) (a : F) : list F :=
  match p with
  | [] => []
  | c :: p' => match p' with [] => [] | _ :: _ => peval p' a :: synth p' a end
  end.

Lemma synth_length p a : length (synth p a) = pred (length p).
Proof.
  induction p as [|c p IH]; [done|]. destruct p as [|d p]; [done|].
  cbn [synth length] in *. by rewrite IH.
Qed.
Lemma synth_spec p a x : peval p x = peval p a ⊕ (x ⊖ a) ⊗ peval (synth p a) x.
Proof.
  induction p as [|c p IH]; cbn [peval synth]; [ring|]. destruct p as [|d p]; cbn [peval] in *; [ring|].
  rewrite IH. ring.
Qed.
Lemma synth_zero p a :
  peval p a = f0 → Forall (eq f0) (synth p a) → Forall (eq f0) p.
Proof.
  induction p as [|c p IH]; intros E Hs; [done|]. destruct p as [|d p].
  - cbn [peval] in E. constructor; [|done]. rewrite <- E. ring.
  - cbn [synth] in Hs. apply Forall_cons in Hs as [Hd Hs].
    constructor; [|by apply IH]. cbn [peval] in E, Hd. rewrite <- Hd in E. rewrite <- E. ring.
Qed.

(** A polynomial with at most as many coefficients as it has distinct roots is zero. *)
Lemma roots_zero p xs :
  NoDup xs → length p ≤ length xs → (∀ x, x ∈ xs → peval p x = f0) → Forall (eq f0) p.
Proof.
  revert p. induction xs as [|a xs IH]; intros p Hnd Hl Hr.
  { destruct p; [done|simpl in Hl; lia]. }
  apply NoDup_cons in Hnd as [Ha Hnd]. assert (peval p a = f0) as Ea by (apply Hr; left).
  apply synth_zero with a; [done|]. apply IH; [done|rewrite synth_length; simpl in Hl; lia|].
  intros x Hx. pose proof (synth_spec p a x) as E. rewrite Ea, Hr in E by (by right).
  destruct (mul_eq_0 (x ⊖ a) (peval (synth p a) x)) as [E'|E']; [rewrite E at 1; ring| |done].
  apply sub_eq_0 in E' as ->. done.
Qed.

Fixpoint psub (p q : list F) : list F :=
  match p, q with a :: p, b :: q => (a ⊖ b) :: psub p q | _, _ => [] end.
Lemma psub_length p q : length p = length q → length (psub p q) = length p.
Proof. revert q. induction p; intros [|? q] ?; simplify_eq/=; auto. Qed.
Lemma psub_eval p q x : length p = length q → peval (psub p q) x = peval p x ⊖ peval q x.
Proof.
  revert q. induction p as [|c p IH]; intros [|d q] Hl; simplify_eq/=; [ring|].
  rewrite IH by done. ring.
Qed.

(** Two polynomials of [n] coefficients that agree at [n] points are the same. *)
Lemma poly_unique p q xs :
  NoDup xs → length p = length q → length p ≤ length xs →
  (∀ x, x ∈ xs → peval p x = peval q x) → p = q.
Proof.
  intros Hnd Hpq Hl Hx.
  assert (Forall (eq f0) (psub p q)) as Hz.
  { apply roots_zero with xs; [done|by rewrite psub_length|]. intros x Hin.
    rewrite psub_eval, Hx by done. ring. }
  clear Hl Hx. revert q Hpq Hz.
  induction p as [|c p IH]; intros [|d q] Hpq Hz; simplify_eq/=; [done|].
  apply Forall_cons in Hz as [E Hz]. symmetry in E. apply sub_eq_0 in E as ->. f_equal. auto.
Qed.

(** ** Lagrange interpolation *)

(** [Π_{x_j ∈ ds} (t - x_j) / (x - x_j)] *)
Fixpoint basis_at (ds : list F) (x t : F) : F :=
  match ds with
  | [] => f1
  | d :: ds => ((t ⊖ d) ⊗ finv (x ⊖ d)) ⊗ basis_at ds x t
  end.
Definition lagrange (xs ys : list F) (t : F) : F :=
  foldr (fun i acc => default f0 (ys !! i) ⊗ basis_at (delete i xs) (default f0 (xs !! i)) t ⊕ acc)
    f0 (seq 0 (length xs)).

Fixpoint padd (p q : list F) : list F :=
  match p, q with
  | [], _ => q
  | _, [] => p
  | a :: p, b :: q => (a ⊕ b) :: padd p q
  end.
Definition pscale (k : F) (p : list F) : list F := fmul k <$> p.
Definition pmul_lin (d k : F) (p : list F) : list F :=
  padd (pscale (fopp (d ⊗ k)) p) (f0 :: pscale k p).

Lemma padd_eval p q x : peval (padd p q) x = peval p x ⊕ peval q x.
Proof.
  revert q. induction p as [|c p IH]; intros [|d q]; cbn [padd peval]; [ring..|].
  rewrite IH. ring.
Qed.
Lemma padd_length p q : length (padd p q) = length p `max` length q.
Proof. revert q. induction p; intros [|? q]; simpl; auto. Qed.
Lemma pscale_eval k p x : peval (pscale k p) x = k ⊗ peval p x.
Proof. induction p as [|c p IH]; cbn; [ring|]. unfold pscale in IH. rewrite IH. ring. Qed.
Lemma pmul_lin_eval d k p x : peval (pmul_lin d k p) x = ((x ⊖ d) ⊗ k) ⊗ peval p x.
Proof. unfold pmul_lin. rewrite padd_eval. cbn [peval]. rewrite !pscale_eval. ring. Qed.
Lemma pmul_lin_length d k p : length (pmul_lin d k p) = S (length p).
Proof. unfold pmul_lin, pscale. rewrite padd_length. simpl. rewrite !length_fmap. lia. Qed.

Fixpoint basis_poly (ds : list F) (x : F) : list F :=
  match ds with
  | [] => [f1]
  | d :: ds => pmul_lin d (finv (x ⊖ d)) (basis_poly ds x)
  end.
Lemma basis_poly_eval ds x t : peval (basis_poly ds x) t = basis_at ds x t.
Proof.
  induction ds as [|d ds IH]; cbn [basis_poly basis_at]; [cbn; ring|].
  by rewrite pmul_lin_eval, IH.
Qed.
Lemma basis_poly_length ds x : length (basis_poly ds x) = S (length ds).
Proof. induction ds; simpl; [done|]. by rewrite pmul_lin_length, IHds. Qed.

Definition lagrange_poly (xs ys : list F) : list F :=
  foldr (fun i acc => padd (pscale (default f0 (ys !! i))
     (basis_poly (delete i xs) (default f0 (xs !! i)))) acc) (replicate (length xs) f0)
    (seq 0 (length xs)).

Lemma replicate_eval n t : peval (replicate n f0) t = f0.
Proof. induction n as [|n IH]; cbn; [done|]. rewrite IH. ring. Qed.
Lemma pad_zeros_eval p n t : peval (p ++ replicate n f0) t = peval p t.
Proof. induction p as [|c p IH]; cbn; [apply replicate_eval|]. by rewrite IH. Qed.
Lemma lagrange_poly_eval xs ys t : peval (lagrange_poly xs ys) t = lagrange xs ys t.
Proof.
  unfold lagrange_poly, lagrange. generalize (seq 0 (length xs)) as l.
  induction l as [|i l IH]; cbn [foldr]; [apply replicate_eval|].
  by rewrite padd_eval, pscale_eval, basis_poly_eval, IH.
Qed.
Lemma lagrange_poly_length xs ys : length (lagrange_poly xs ys) = length xs.
Proof.
  unfold lagrange_poly.
  assert (∀ i, i ∈ seq 0 (length xs) → (i < length xs)%nat) as Hi by (intros i ?%elem_of_seq; lia).
  revert Hi. generalize (seq 0 (length xs)) as l. induction l as [|i l IH]; intros Hi; cbn [foldr].
  { apply length_replicate. }
  rewrite padd_length, IH by (intros; apply Hi; by right).
  unfold pscale. rewrite length_fmap, basis_poly_length.
  assert (i < length xs)%nat by (apply Hi; left).
  rewrite length_delete by (by apply lookup_lt_is_Some). lia.
Qed.

Lemma basis_at_other ds x t : t ∈ ds → basis_at ds x t = f0.
Proof.
  induction ds as [|d ds IH]; [by intros ?%elem_of_nil|].
  intros [->|Ht]%elem_of_cons; cbn [basis_at]; [ring|]. rewrite IH by done. ring.
Qed.
Lemma basis_at_self ds x : x ∉ ds → basis_at ds x x = f1.
Proof.
  induction ds as [|d ds IH]; intros Hx; [done|]. apply not_elem_of_cons in Hx as [Hd Hx].
  cbn [basis_at]. rewrite IH by done.
  replace ((x ⊖ d) ⊗ finv (x ⊖ d)) with (finv (x ⊖ d) ⊗ (x ⊖ d)) by ring.
  rewrite f_inv_l; [ring|]. by rewrite sub_eq_0.
Qed.

Lemma NoDup_delete_notin (xs : list F) i x : NoDup xs → xs !! i = Some x → x ∉ delete i xs.
Proof.
  intros Hnd Hi Hin. apply list_elem_of_lookup in Hin as [k Hk].
  destruct (decide (k < i)%nat).
  - rewrite list_lookup_delete_lt in Hk by done. pose proof (NoDup_lookup _ _ _ _ Hnd Hi Hk). lia.
  - rewrite list_lookup_delete_ge in Hk by lia. pose proof (NoDup_lookup _ _ _ _ Hnd Hi Hk). lia.
Qed.

Lemma foldr_single (f : nat → F) (l : list nat) k :
  NoDup l → k ∈ l → (∀ i, i ∈ l → i ≠ k → f i = f0) → foldr (fun i acc => f i ⊕ acc) f0 l = f k.
Proof.
  induction l as [|i l IH]; intros Hnd Hk Hf; [by apply elem_of_nil in Hk|].
  apply NoDup_cons in Hnd as [Hi Hnd]. cbn [foldr]. destruct (decide (i = k)) as [->|Hne].
  - assert (foldr (fun i acc => f i ⊕ acc) f0 l = f0) as ->; [|ring].
    assert (∀ j, j ∈ l → f j = f0) as Hz by (intros j Hj; apply Hf; [by right|intros ->; done]).
    clear IH Hf Hi Hnd Hk. induction l as [|j l IH]; [done|]. cbn [foldr].
    rewrite IH by (intros j' ?; apply Hz; by right). rewrite Hz by left. ring.
  - apply elem_of_cons in Hk as [->|Hk]; [done|]. rewrite (Hf i) by (by left || done).
    rewrite IH; [ring|done..|]. intros j Hj ?. apply Hf; [by right|done].
Qed.

Lemma lagrange_at xs ys k x y :
  NoDup xs → xs !! k = Some x → ys !! k = Some y → lagrange xs ys x = y.
Proof.
  intros Hnd Hx Hy. unfold lagrange.
  rewrite (foldr_single (fun i => default f0 (ys !! i) ⊗
             basis_at (delete i xs) (default f0 (xs !! i)) x) _ k).
  - rewrite Hx, Hy. cbn. rewrite basis_at_self; [ring|]. by apply (NoDup_delete_notin xs k x).
  - apply NoDup_seq.
  - apply elem_of_seq. apply lookup_lt_Some in Hx. lia.
  - intros i Hi Hne. rewrite basis_at_other; [ring|]. apply list_elem_of_lookup.
    destruct (decide (k < i)%nat).
    + exists k. by rewrite list_lookup_delete_lt.
    + exists (pred k). rewrite list_lookup_delete_ge by lia. by replace (S (pred k)) with k by lia.
Qed.

(** Interpolating the values of a short enough polynomial gives the polynomial. *)
Lemma lagrange_correct p xs t :
  NoDup xs → length p ≤ length xs → lagrange xs (peval p <$> xs) t = peval p t.
Proof.
  intros Hnd Hl. rewrite <- lagrange_poly_eval.
  assert (lagrange_poly xs (peval p <$> xs) = p ++ replicate (length xs - length p) f0) as ->.
  { apply poly_unique with xs; [done| | |].
    - rewrite lagrange_poly_length, length_app, length_replicate. lia.
    - by rewrite lagrange_poly_length.
    - intros x Hx. apply list_elem_of_lookup in Hx as [k Hk]. rewrite lagrange_poly_eval.
      rewrite (lagrange_at _ _ k x (peval p x)); [|done|done|by rewrite list_lookup_fmap, Hk].
      by rewrite pad_zeros_eval. }
  by apply pad_zeros_eval.
Qed.

(** Through [n] points with distinct abscissas goes exactly one polynomial of
  [n] coefficients. *)
Lemma interpolation_exists xs ys :
  NoDup xs → length xs = length ys →
  ∃ p, length p = length xs ∧ peval p <$> xs = ys ∧
       ∀ q, length q = length xs → peval q <$> xs = ys → q = p.
Proof.
  intros Hnd Hl. exists (lagrange_poly xs ys). split; [apply lagrange_poly_length|].
  assert (peval (lagrange_poly xs ys) <$> xs = ys) as Hev.
  { apply list_eq. intros i. rewrite list_lookup_fmap. destruct (xs !! i) as [x|] eqn:Hx.
    - destruct (lookup_lt_is_Some_2 ys i) as [y Hy]; [apply lookup_lt_Some in Hx; lia|].
      rewrite Hy. cbn. rewrite lagrange_poly_eval. f_equal. by apply lagrange_at with i.
    - apply lookup_ge_None in Hx. symmetry. apply lookup_ge_None. lia. }
  split; [done|]. intros q Hq Hev'. apply poly_unique with xs; [done| | |].
  - by rewrite lagrange_poly_length.
  - by rewrite Hq.
  - intros x Hx. rewrite <- Hev in Hev'. apply list_elem_of_lookup in Hx as [k Hk].
    apply (f_equal (.!! k)) in Hev'. rewrite !list_lookup_fmap, Hk in Hev'. by simplify_eq/=.
Qed.
End polynomials.
