(* ===== verification/Shamir.v ===== *)
(** platform/crypto/shamir.go: arithmetic of GF(2^8), splitting a key into
  shares and combining them.  The field laws are proved of the shift-and-xor
  code; the properties of [Split] and [Combine] are those of [Polynomials]. *)
From Stdlib Require Import ZArith Lia Ring.
From S2P Require Import Prelude GoStrings GoTime World Polynomials.

Module shamir.
Definition MinShares : Z := 2.
Definition MaxShares : Z := 255.

Definition ErrShareCount : string := "crypto: share count must be between 2 and 255".
Definition ErrThreshold : string := "crypto: threshold must be between 2 and the share count".
Definition ErrEmptySecret : string := "crypto: secret must not be empty".
Definition ErrShareLength : string := "crypto: every share must have the same length".
Definition ErrMalformedShare : string := "crypto: share is malformed".
Definition ErrDuplicateShare : string := "crypto: the same share was supplied twice".
Definition ErrTooFewShares : string := "crypto: at least two shares are required".

(** ** Field arithmetic on bytes *)

Definition u8 (z : Z) : Z := z mod 256.

(** [a <<= 1; a ^= 0x1b & high], with [high] all ones when the top bit was set. *)
Definition xtime (a : Z) : Z :=
  let high := u8 (- Z.land (Z.shiftr a 7) 1) in
  Z.lxor (u8 (Z.shiftl a 1)) (Z.land 27 high).

Fixpoint fieldMul_loop (n : nat) (product a b : Z) : Z :=
  match n with
  | O => product
  | S n => fieldMul_loop n (Z.lxor product (Z.land a (u8 (- Z.land b 1)))) (xtime a) (Z.shiftr b 1)
  end.
Definition fieldMul (a b : Z) : Z := fieldMul_loop 8 0 a b.

(** [for exponent := 254; exponent > 0; exponent >>= 1]: 64 rounds of fuel are
  the width of an int, and the loop leaves after eight. *)
Fixpoint fieldInverse_loop (fuel : nat) (exponent result base : Z) : Z :=
  match fuel with
  | O => result
  | S fuel =>
      if exponent <=? 0 then result
      else let result := if Z.land exponent 1 =? 1 then fieldMul result base else result in
           fieldInverse_loop fuel (Z.shiftr exponent 1) result (fieldMul base base)
  end.
Definition fieldInverse (a : Z) : Z := fieldInverse_loop 64 254 1 a.
Definition fieldDiv (a b : Z) : Z := fieldMul a (fieldInverse b).

(** Horner's rule from the last coefficient down. *)
Definition evaluate (coefficients : list Z) (x : Z) : Z :=
  match rev coefficients with
  | [] => 0
  | c :: cs => foldl (fun result c => Z.lxor (fieldMul result x) c) c cs
  end.

(** The two loops of [interpolate] over the indices of [xs]. *)
Definition basis_loop (xs : list Z) (i : nat) : Z :=
  foldl (fun basis j =>
    if Nat.eqb i j then basis
    else fieldMul basis (fieldDiv (default 0 (xs !! j)) (Z.lxor (default 0 (xs !! i)) (default 0 (xs !! j)))))
    1 (seq 0 (length xs)).
Definition interpolate (xs ys : list Z) : Z :=
  foldl (fun result i => Z.lxor result (fieldMul (default 0 (ys !! i)) (basis_loop xs i)))
    0 (seq 0 (length xs)).

(** ** Splitting and combining *)

Definition set_position (position : nat) (coefficients : list Z) (split : list (list Z)) : list (list Z) :=
  imap (fun index share =>
    <[position := evaluate coefficients (u8 (Z.of_nat index + 1))]> share) split.

Fixpoint split_loop (position : nat) (threshold : nat) (secret : list Z) (split : list (list Z))
  : M World (list (list Z)) :=
  match secret with
  | [] => ret split
  | value :: secret =>
      let! random := rand_read (threshold - 1) in
      split_loop (S position) threshold secret (set_position position (value :: random) split)
  end.

Definition empty_shares (width shares : nat) : list (list Z) :=
  (fun index => replicate width 0 ++ [u8 (Z.of_nat index + 1)]) <$> seq 0 shares.

Definition Split (secret : list Z) (shares threshold : Z) : M World (list (list Z)) :=
  if bool_decide (secret = []) then fail [ErrEmptySecret]
  else if (shares <? MinShares) || (MaxShares <? shares) then fail [ErrShareCount]
  else if (threshold <? MinShares) || (shares <? threshold) then fail [ErrThreshold]
  else split_loop 0 (Z.to_nat threshold) secret (empty_shares (length secret) (Z.to_nat shares)).

(** The loop of [Combine] over the shares with its [seen] map; the result is [xs]. *)
Fixpoint combine_loop (width : nat) (seen : list Z) (shares : list (list Z)) : result (list Z) :=
  match shares with
  | [] => Ok []
  | share :: shares =>
      if negb (Nat.eqb (length share) width) then Err [ErrShareLength]
      else let x := default 0 (share !! (width - 1)%nat) in
           if x =? 0 then Err [ErrMalformedShare]
           else if bool_decide (x ∈ seen) then Err [ErrDuplicateShare]
           else let? xs := combine_loop width (x :: seen) shares in Ok (x :: xs)
  end.

Definition column (position : nat) (shares : list (list Z)) : list Z :=
  (fun share => default 0 (share !! position)) <$> shares.

Definition Combine (shares : list (list Z)) : result (list Z) :=
  if blen shares <? MinShares then Err [ErrTooFewShares]
  else let width := length (default [] (shares !! 0%nat)) in
       if (width <? 2)%nat then Err [ErrMalformedShare]
       else let? xs := combine_loop width [] shares in
            Ok ((fun position => interpolate xs (column position shares)) <$> seq 0 (width - 1)).

#[local] Arguments fieldMul : simpl never.
#[local] Arguments fieldInverse : simpl never.

(** ** The field *)

Lemma land_1 x : Z.land x 1 = if Z.testbit x 0 then 1 else 0.
Proof.
  replace (Z.land x 1) with (x mod 2) by (symmetry; apply (Z.land_ones x 1); lia).
  rewrite <- Z.bit0_mod. by destruct (Z.testbit x 0).
Qed.
Lemma u8_land a : u8 a = Z.land a 255.
Proof. unfold u8. change 255 with (Z.ones 8). by rewrite Z.land_ones by lia. Qed.
Lemma byte_land a : byte_ok a ↔ Z.land a 255 = a.
Proof.
  rewrite <- u8_land. unfold byte_ok, u8. split; intros H; [by apply Z.mod_small|].
  rewrite <- H. by apply Z.mod_pos_bound.
Qed.
Lemma land_lxor a b c : Z.land (Z.lxor a b) c = Z.lxor (Z.land a c) (Z.land b c).
Proof. apply Z.bits_inj'. intros n _. rewrite !Z.lxor_spec, !Z.land_spec, !Z.lxor_spec. by destruct (Z.testbit a n), (Z.testbit b n), (Z.testbit c n). Qed.
Lemma byte_lxor a b : byte_ok a → byte_ok b → byte_ok (Z.lxor a b).
Proof. rewrite !byte_land, land_lxor. by intros -> ->. Qed.

Lemma xtime_spec a :
  xtime a = Z.lxor (Z.land (Z.shiftl a 1) 255) (if Z.testbit a 7 then 27 else 0).
Proof.
  unfold xtime. cbn zeta. rewrite land_1, Z.shiftr_spec by lia. rewrite (u8_land (Z.shiftl a 1)).
  change (0 + 7) with 7. by destruct (Z.testbit a 7).
Qed.
Lemma bit_mask b a : byte_ok a → Z.land a (u8 (- Z.land b 1)) = if Z.testbit b 0 then a else 0.
Proof.
  intros Ha. rewrite land_1. destruct (Z.testbit b 0).
  - by apply byte_land.
  - apply Z.land_0_r.
Qed.
Lemma xtime_byte a : byte_ok (xtime a).
Proof.
  rewrite xtime_spec. apply byte_lxor.
  - apply byte_land. by rewrite <- Z.land_assoc.
  - by case_match.
Qed.

(** A function on bytes that commutes with xor is fixed by its values on the
  eight bits. *)
Definition additive (f : Z → Z) : Prop := ∀ x y, f (Z.lxor x y) = Z.lxor (f x) (f y).

Lemma additive_0 f : additive f → f 0 = 0.
Proof. intros H. specialize (H 0 0). rewrite Z.lxor_0_l, Z.lxor_nilpotent in H. done. Qed.
Lemma lxor_swap a b c d : Z.lxor (Z.lxor a b) (Z.lxor c d) = Z.lxor (Z.lxor a c) (Z.lxor b d).
Proof. rewrite !Z.lxor_assoc. f_equal. rewrite <- !Z.lxor_assoc. f_equal. apply Z.lxor_comm. Qed.
Lemma additive_xtime : additive xtime.
Proof.
  intros x y. rewrite !xtime_spec, Z.shiftl_lxor, land_lxor, Z.lxor_spec, lxor_swap. f_equal.
  by destruct (Z.testbit x 7), (Z.testbit y 7).
Qed.
Lemma additive_compose f g : additive f → additive g → additive (fun x => f (g x)).
Proof. intros Hf Hg x y. by rewrite Hg, Hf. Qed.
Lemma additive_lxor f g : additive f → additive g → additive (fun x => Z.lxor (f x) (g x)).
Proof. intros Hf Hg x y. rewrite Hf, Hg. apply lxor_swap. Qed.

Fixpoint bits_sum (n : nat) (b : Z) : Z :=
  match n with
  | O => 0
  | S n => Z.lxor (if Z.testbit b (Z.of_nat n) then 2 ^ Z.of_nat n else 0) (bits_sum n b)
  end.
Lemma bits_sum_byte b : byte_ok b → bits_sum 8 b = b.
Proof.
  intros Hb. apply Z.eqb_eq.
  apply (check_from_spec (fun b => bits_sum 8 b =? b) 256 0); [by vm_compute|done].
Qed.
Lemma additive_agree f g : additive f → additive g →
  (∀ n, (n < 8)%nat → f (2 ^ Z.of_nat n) = g (2 ^ Z.of_nat n)) → ∀ b, byte_ok b → f b = g b.
Proof.
  intros Hf Hg Hn b Hb. rewrite <- (bits_sum_byte b Hb).
  assert (∀ n, (n <= 8)%nat → f (bits_sum n b) = g (bits_sum n b)) as H; [|by apply H].
  induction n as [|n IH]; intros Hle; cbn [bits_sum]; [by rewrite !additive_0|].
  rewrite Hf, Hg, IH by lia. f_equal. case_match; [apply Hn; lia|by rewrite !additive_0].
Qed.
Lemma below_8 (P : nat → Prop) :
  P 0%nat → P 1%nat → P 2%nat → P 3%nat → P 4%nat → P 5%nat → P 6%nat → P 7%nat → ∀ n, (n < 8)%nat → P n.
Proof. intros. do 8 (destruct n as [|n]; [done|]). lia. Qed.

(** ** Multiplication is bilinear *)
Fixpoint mul_spec (n : nat) (a b : Z) : Z :=
  match n with
  | O => 0
  | S n => Z.lxor (if Z.testbit b 0 then a else 0) (mul_spec n (xtime a) (Z.shiftr b 1))
  end.
Lemma fieldMul_loop_spec n p a b : byte_ok a → fieldMul_loop n p a b = Z.lxor p (mul_spec n a b).
Proof.
  revert p a b. induction n as [|n IH]; intros p a b Ha; cbn [fieldMul_loop mul_spec].
  { by rewrite Z.lxor_0_r. }
  rewrite IH by apply xtime_byte. by rewrite bit_mask, Z.lxor_assoc.
Qed.
Lemma fieldMul_spec a b : byte_ok a → fieldMul a b = mul_spec 8 a b.
Proof. intros Ha. unfold fieldMul. rewrite fieldMul_loop_spec by done. apply Z.lxor_0_l. Qed.
Lemma mul_spec_additive_l n b : additive (fun a => mul_spec n a b).
Proof.
  revert b. induction n as [|n IH]; intros b x y; cbn [mul_spec]; [done|].
  rewrite additive_xtime, IH, <- lxor_swap. f_equal. by destruct (Z.testbit b 0).
Qed.
Lemma mul_spec_additive_r n a : additive (fun b => mul_spec n a b).
Proof.
  revert a. induction n as [|n IH]; intros a x y; cbn [mul_spec]; [done|].
  rewrite Z.shiftr_lxor, IH, <- lxor_swap, Z.lxor_spec. f_equal.
  destruct (Z.testbit x 0), (Z.testbit y 0); cbn [xorb];
    by rewrite ?Z.lxor_0_r, ?Z.lxor_0_l, ?Z.lxor_nilpotent.
Qed.
Lemma mul_spec_byte n a b : byte_ok a → byte_ok (mul_spec n a b).
Proof.
  revert a b. induction n as [|n IH]; intros a b Ha; cbn [mul_spec]; [done|].
  apply byte_lxor; [by case_match|]. apply IH, xtime_byte.
Qed.
Lemma byte_pow n : (n < 8)%nat → byte_ok (2 ^ Z.of_nat n).
Proof. revert n. by apply below_8. Qed.

Lemma mul_spec_comm a b : byte_ok a → byte_ok b → mul_spec 8 a b = mul_spec 8 b a.
Proof.
  intros Ha Hb. revert a Ha.
  apply (additive_agree (fun a => mul_spec 8 a b) (fun a => mul_spec 8 b a));
    [apply mul_spec_additive_l|apply mul_spec_additive_r|]. intros n Hn. revert b Hb.
  apply (additive_agree (fun b => mul_spec 8 _ b) (fun b => mul_spec 8 b _));
    [apply mul_spec_additive_r|apply mul_spec_additive_l|]. revert n Hn.
  apply (below_8 (fun n => ∀ m, (m < 8)%nat → mul_spec 8 (2 ^ Z.of_nat n) (2 ^ Z.of_nat m) = mul_spec 8 (2 ^ Z.of_nat m) (2 ^ Z.of_nat n)));
    by apply below_8.
Qed.
Lemma mul_spec_assoc a b c : byte_ok a → byte_ok b → byte_ok c →
  mul_spec 8 a (mul_spec 8 b c) = mul_spec 8 (mul_spec 8 a b) c.
Proof.
  intros Ha Hb Hc. revert a Ha.
  apply (additive_agree (fun a => mul_spec 8 a (mul_spec 8 b c)) (fun a => mul_spec 8 (mul_spec 8 a b) c));
    [apply mul_spec_additive_l
    |apply (additive_compose (fun x => mul_spec 8 x c) (fun a => mul_spec 8 a b)); apply mul_spec_additive_l|].
  intros n Hn. revert b Hb.
  apply (additive_agree (fun b => mul_spec 8 _ (mul_spec 8 b c)) (fun b => mul_spec 8 (mul_spec 8 _ b) c));
    [apply (additive_compose (mul_spec 8 _) (fun b => mul_spec 8 b c)); [apply mul_spec_additive_r|apply mul_spec_additive_l]
    |apply (additive_compose (fun x => mul_spec 8 x c) (mul_spec 8 _)); [apply mul_spec_additive_l|apply mul_spec_additive_r]|].
  intros m Hm. revert c Hc.
  apply (additive_agree (fun c => mul_spec 8 _ (mul_spec 8 _ c)) (mul_spec 8 (mul_spec 8 _ _)));
    [apply (additive_compose (mul_spec 8 _) (mul_spec 8 _)); apply mul_spec_additive_r|apply mul_spec_additive_r|].
  revert m Hm n Hn.
  set (P n m k := mul_spec 8 (2 ^ Z.of_nat n) (mul_spec 8 (2 ^ Z.of_nat m) (2 ^ Z.of_nat k)) =
                  mul_spec 8 (mul_spec 8 (2 ^ Z.of_nat n) (2 ^ Z.of_nat m)) (2 ^ Z.of_nat k)).
  apply (below_8 (fun m => ∀ n, (n < 8)%nat → ∀ k, (k < 8)%nat → P n m k));
    (apply (below_8 (fun n => ∀ k, (k < 8)%nat → P n _ k)); apply below_8; vm_compute; reflexivity).
Qed.
Lemma fieldInverse_ok a : byte_ok a → a ≠ 0 → byte_ok (fieldInverse a) ∧ fieldMul (fieldInverse a) a = 1.
Proof.
  intros Ha Hn.
  pose proof (check_from_spec (fun a => let i := fieldInverse a in
    (0 <=? i) && (i <? 256) && (fieldMul i a =? 1)) 255 1 ltac:(by vm_compute) a) as H.
  unfold byte_ok in *. specialize (H ltac:(lia)). cbn zeta in H. reflect_bools. lia.
Qed.

(** ** GF(2^8) as a field *)
Definition byteb (z : Z) : bool := (0 <=? z) && (z <? 256).
Lemma byteb_ok z : byteb z = true ↔ byte_ok z.
Proof. unfold byteb, byte_ok. rewrite andb_true_iff. lia. Qed.
Definition gf : Type := { z : Z | byteb z = true }.
Definition gv (a : gf) : Z := proj1_sig a.
Definition mk (z : Z) (H : byte_ok z) : gf := exist _ z (proj2 (byteb_ok z) H).

Lemma gv_ok a : byte_ok (gv a).
Proof. apply byteb_ok, (proj2_sig a). Qed.
Lemma gv_inj a b : gv a = gv b → a = b.
Proof. destruct a as [a Ha], b as [b Hb]. simpl. intros ->. f_equal. apply proof_irrel. Qed.
Lemma fieldMul_byte a b : byte_ok a → byte_ok (fieldMul a b).
Proof. intros Ha. rewrite fieldMul_spec by done. by apply mul_spec_byte. Qed.
Lemma fieldInverse_byte a : byte_ok a → byte_ok (fieldInverse a).
Proof.
  intros Ha. destruct (decide (a = 0)) as [->|]; [by vm_compute|]. by apply fieldInverse_ok.
Qed.

#[local] Opaque fieldMul fieldInverse fieldDiv.
#[global] Instance gf_eq_dec : EqDecision gf.
Proof.
  intros a b. destruct (decide (gv a = gv b)) as [E|E]; [left; by apply gv_inj|right; by intros ->].
Defined.
#[global] Instance gf_ops : FieldOps gf := {
  f0 := mk 0 ltac:(done);
  f1 := mk 1 ltac:(done);
  fadd a b := mk (Z.lxor (gv a) (gv b)) (byte_lxor _ _ (gv_ok a) (gv_ok b));
  fmul a b := mk (fieldMul (gv a) (gv b)) (fieldMul_byte _ _ (gv_ok a));
  fsub a b := mk (Z.lxor (gv a) (gv b)) (byte_lxor _ _ (gv_ok a) (gv_ok b));
  fopp a := a;
  finv a := mk (fieldInverse (gv a)) (fieldInverse_byte _ (gv_ok a));
  f_eq_dec := gf_eq_dec }.

Lemma fieldMul_comm a b : byte_ok a → byte_ok b → fieldMul a b = fieldMul b a.
Proof. intros. rewrite !fieldMul_spec by done. by apply mul_spec_comm. Qed.
Lemma fieldMul_assoc a b c : byte_ok a → byte_ok b → byte_ok c →
  fieldMul a (fieldMul b c) = fieldMul (fieldMul a b) c.
Proof. intros. rewrite !fieldMul_spec by auto using mul_spec_byte, fieldMul_byte. by apply mul_spec_assoc. Qed.
Lemma fieldMul_lxor_l a b c : byte_ok a → byte_ok b →
  fieldMul (Z.lxor a b) c = Z.lxor (fieldMul a c) (fieldMul b c).
Proof. intros. rewrite !fieldMul_spec by auto using byte_lxor. apply mul_spec_additive_l. Qed.
Lemma fieldMul_1_l a : byte_ok a → fieldMul 1 a = a.
Proof.
  intros Ha. rewrite fieldMul_spec by done. revert a Ha.
  apply (additive_agree (mul_spec 8 1) (fun a => a)); [apply mul_spec_additive_r|done|].
  by apply below_8.
Qed.

#[global] Instance gf_laws : FieldLaws gf.
Proof.
  split.
  - split; intros; apply gv_inj; cbn [fadd fmul fsub fopp f0 f1 gf_ops gv proj1_sig mk].
    + apply Z.lxor_0_l.
    + apply Z.lxor_comm.
    + by rewrite Z.lxor_assoc.
    + apply fieldMul_1_l, gv_ok.
    + apply fieldMul_comm; apply gv_ok.
    + apply fieldMul_assoc; apply gv_ok.
    + apply fieldMul_lxor_l; apply gv_ok.
    + done.
    + apply Z.lxor_nilpotent.
  - intros E. by apply (f_equal gv) in E.
  - intros x Hx. apply gv_inj. refine (proj2 (fieldInverse_ok (gv x) (gv_ok x) _)).
    intros E. by apply Hx, gv_inj.
Qed.

Add Ring gf_ring : (f_ring (F:=gf)).

(** The bytes of a list as field elements. *)
Lemma lift_bytes l : Forall byte_ok l → ∃ g, l = gv <$> g.
Proof.
  induction 1 as [|z l Hz _ [g ->]]; [by exists []|]. by exists (mk z Hz :: g).
Qed.
Lemma lift_byte z : byte_ok z → ∃ g, z = gv g.
Proof. intros Hz. by exists (mk z Hz). Qed.
Lemma gv_NoDup g : NoDup g → NoDup (gv <$> g).
Proof. intros. apply NoDup_fmap; [|done]. intros x y. apply gv_inj. Qed.

(** ** The loops are the field's operations *)
Lemma foldl_rev {A B} (f : A → B → A) a l : foldl f a (rev l) = foldr (fun b r => f r b) a l.
Proof. induction l as [|b l IH]; [done|]. cbn [rev foldr]. by rewrite foldl_app, IH. Qed.
Lemma evaluate_peval p x : p ≠ [] → evaluate (gv <$> p) (gv x) = gv (peval p x).
Proof.
  intros Hp. destruct (exists_last Hp) as (l&c&->). unfold evaluate. clear Hp.
  rewrite fmap_app, rev_app_distr. cbn [fmap list_fmap rev app].
  rewrite foldl_rev.
  induction l as [|d l IH]; cbn [fmap list_fmap foldr app peval].
  - cbn [fadd fmul f0 gf_ops gv proj1_sig mk]. rewrite fieldMul_comm by (apply gv_ok || done).
    replace (fieldMul 0 (gv x)) with 0; [by rewrite Z.lxor_0_r|]. rewrite fieldMul_spec by done.
    symmetry. apply (additive_0 (fun a => mul_spec 8 a _)), mul_spec_additive_l.
  - rewrite IH, Z.lxor_comm. cbn [fadd fmul gf_ops gv proj1_sig mk]. f_equal. apply fieldMul_comm; apply gv_ok.
Qed.

Lemma evaluate_byte p x : Forall byte_ok p → byte_ok x → byte_ok (evaluate p x).
Proof.
  intros (g&->)%lift_bytes (y&->)%lift_byte. destruct g as [|c g]; [done|].
  rewrite evaluate_peval by done. apply gv_ok.
Qed.

Lemma gv_mul a b : fieldMul (gv a) (gv b) = gv (fmul a b).
Proof. reflexivity. Qed.
Lemma gv_add a b : Z.lxor (gv a) (gv b) = gv (fadd a b).
Proof. reflexivity. Qed.
Lemma gv_div a b c : fieldDiv (gv a) (Z.lxor (gv b) (gv c)) = gv (fmul a (finv (fsub b c))).
Proof. with_strategy transparent [fieldDiv] unfold fieldDiv. reflexivity. Qed.
Lemma lookup_gv (g : list gf) i : default 0 ((gv <$> g) !! i) = gv (default f0 (g !! i)).
Proof. rewrite list_lookup_fmap. by destruct (g !! i). Qed.

(** The inner loop skips the index [i]: it runs over the other points. *)
Lemma basis_loop_spec g i : (i < length g)%nat →
  basis_loop (gv <$> g) i = gv (basis_at (delete i g) (default f0 (g !! i)) f0).
Proof.
  intros Hi. unfold basis_loop. rewrite length_fmap, lookup_gv. generalize (default f0 (g !! i)) as x. intros x.
  set (step := fun basis j => if Nat.eqb i j then basis else _).
  assert (∀ l k acc, (∀ j, j < length l → g !! (k + j) = l !! j)%nat → (k <= i → i < k + length l)%nat →
    foldl step (gv acc) (seq k (length l)) =
    gv (fmul acc (basis_at (if (k <=? i)%nat then delete (i - k)%nat l else l) x f0))) as Hgen.
  { induction l as [|d l IH]; intros k acc Hl Hk.
    - replace (if (k <=? i)%nat then delete (i - k)%nat [] else []) with (@nil gf) by (by case_match).
      cbn [length seq foldl basis_at]. f_equal. ring.
    - cbn [length seq foldl]. unfold step at 2. rewrite lookup_gv.
      assert (g !! k = Some d) as Hd by (specialize (Hl 0%nat ltac:(simpl; lia)); by rewrite Nat.add_0_r in Hl).
      assert (∀ j, j < length l → g !! (S k + j) = l !! j)%nat as Hl'
        by (intros j Hj; specialize (Hl (S j) ltac:(simpl; lia)); by rewrite Nat.add_succ_r in Hl).
      rewrite Hd. cbn [from_option]. unfold id. destruct (Nat.eqb_spec i k) as [->|Hne].
      + rewrite IH by (done || lia). do 2 f_equal.
        rewrite (proj2 (Nat.leb_gt (S k) k)), (proj2 (Nat.leb_le k k)), Nat.sub_diag by lia. done.
      + rewrite gv_div, gv_mul. rewrite IH; [|done|simpl in Hk; lia].
        assert (fsub f0 d = d) as E0 by (apply gv_inj; done).
        destruct (Nat.leb_spec (S k) i) as [Hlt|Hge].
        * rewrite (proj2 (Nat.leb_le k i)) by lia. replace (i - k)%nat with (S (i - S k))%nat by lia.
          cbn [delete list_delete basis_at]. rewrite E0.
          f_equal. symmetry. apply (Rmul_assoc (f_ring (F:=gf))).
        * rewrite (proj2 (Nat.leb_gt k i)) by lia. cbn [basis_at]. rewrite E0. f_equal.
          symmetry. apply (Rmul_assoc (f_ring (F:=gf))). }
  change 1 with (gv f1). rewrite (Hgen g 0%nat f1) by (done || lia). cbn [Nat.leb].
  rewrite Nat.sub_0_r. f_equal. ring.
Qed.

Lemma interpolate_spec g h : interpolate (gv <$> g) (gv <$> h) = gv (lagrange g h f0).
Proof.
  unfold interpolate, lagrange. rewrite length_fmap.
  assert (∀ i, i ∈ seq 0 (length g) → (i < length g)%nat) as Hi by (intros i ?%elem_of_seq; lia).
  revert Hi. generalize (seq 0 (length g)) as l. intros l Hi.
  assert (∀ acc, foldl (fun result i => Z.lxor result (fieldMul (default 0 ((gv <$> h) !! i)) (basis_loop (gv <$> g) i))) (gv acc) l =
    gv (fadd acc (foldr (fun i acc => fadd (fmul (default f0 (h !! i)) (basis_at (delete i g) (default f0 (g !! i)) f0)) acc) f0 l))) as Hgen.
  { induction l as [|i l IH]; intros acc; cbn [foldl foldr].
    - f_equal. ring.
    - rewrite basis_loop_spec by (apply Hi; left). rewrite lookup_gv.
      rewrite gv_mul, gv_add. rewrite IH by (intros; apply Hi; by right).
      f_equal. ring. }
  refine (eq_trans (Hgen f0) _). f_equal.
Qed.

(** ** What [Split] returns *)

(** The coefficients of each byte, as the loop draws them. *)
Fixpoint columns (threshold : nat) (secret : list Z) (e : nat → Z) : list (list Z) :=
  match secret with
  | [] => []
  | value :: secret =>
      (value :: draw (threshold - 1) e) :: columns threshold secret (fun k => e (threshold - 1 + k)%nat)
  end.
Definition share_at (cols : list (list Z)) (x : Z) : list Z :=
  ((fun col => evaluate col x) <$> cols) ++ [x].
Definition abscissa (index : nat) : Z := u8 (Z.of_nat index + 1).

Lemma set_position_map position col (f : nat → list Z) n :
  set_position position col (f <$> seq 0 n) =
  (fun index => <[position := evaluate col (abscissa index)]> (f index)) <$> seq 0 n.
Proof.
  unfold set_position. apply list_eq. intros i. rewrite list_lookup_imap, !list_lookup_fmap.
  destruct (decide (i < n)%nat).
  - rewrite lookup_seq_lt by done. done.
  - by rewrite lookup_seq_ge by lia.
Qed.

Lemma split_loop_spec (position : nat) threshold secret (done : nat → list Z) n w :
  (∀ i, length (done i) = position) →
  ∃ e, split_loop position threshold secret
    ((fun i => done i ++ replicate (length secret) 0 ++ [abscissa i]) <$> seq 0 n) w =
  (Ok ((fun i => done i ++ share_at (columns threshold secret (entropy w)) (abscissa i)) <$> seq 0 n),
   set_entropy e w) ∧
  ∀ k, e k = entropy w (length secret * (threshold - 1) + k)%nat.
Proof.
  revert position done w. induction secret as [|value secret IH]; intros position f w Hf.
  - exists (entropy w). destruct w; done.
  - cbn [split_loop]. unfold bind, rand_read. cbn [length columns].
    rewrite set_position_map.
    set (col := value :: draw (threshold - 1) (entropy w)).
    assert (∀ i, <[position:=evaluate col (abscissa i)]> (f i ++ replicate (S (length secret)) 0 ++ [abscissa i]) =
      (f i ++ [evaluate col (abscissa i)]) ++ replicate (length secret) 0 ++ [abscissa i]) as Hins.
    { intros i. rewrite <- (Nat.add_0_r position), <- (Hf i), insert_app_r, <- app_assoc. done. }
    rewrite (list_fmap_ext _ (fun i => (f i ++ [evaluate col (abscissa i)]) ++ replicate (length secret) 0 ++ [abscissa i]))
      by (intros; apply Hins).
    edestruct (IH (S position) (fun i => f i ++ [evaluate col (abscissa i)])) as (e&->&He);
      [intros i; rewrite length_app, Hf; simpl; lia|].
    exists e. split.
    + f_equal. f_equal. apply list_fmap_ext. intros. unfold share_at. rewrite fmap_cons, <- app_assoc. done.
    + intros k. rewrite He. cbn. f_equal. lia.
Qed.

Definition split_ok (secret : list Z) (shares threshold : Z) : Prop :=
  secret ≠ [] ∧ MinShares ≤ shares ≤ MaxShares ∧ MinShares ≤ threshold ≤ shares.

Lemma Split_spec secret shares threshold w : split_ok secret shares threshold →
  ∃ e, Split secret shares threshold w =
  (Ok ((fun i => share_at (columns (Z.to_nat threshold) secret (entropy w)) (abscissa i)) <$> seq 0 (Z.to_nat shares)),
   set_entropy e w).
Proof.
  intros (Hs&Hn&Ht). unfold Split. rewrite bool_decide_eq_false_2 by done.
  destruct (Z.ltb_spec shares MinShares); [lia|]. destruct (Z.ltb_spec MaxShares shares); [lia|].
  destruct (Z.ltb_spec threshold MinShares); [lia|]. destruct (Z.ltb_spec shares threshold); [lia|].
  cbn [orb].
  destruct (split_loop_spec 0 (Z.to_nat threshold) secret (fun _ => []) (Z.to_nat shares) w) as (e&He&_);
    [done|by exists e].
Qed.

(** ** What [Combine] returns *)

Definition share_x (width : nat) (share : list Z) : Z := default 0 (share !! (width - 1)%nat).
Lemma combine_loop_ok width seen shares :
  (∀ s, s ∈ shares → length s = width) →
  (∀ s, s ∈ shares → share_x width s ≠ 0 ∧ share_x width s ∉ seen) →
  NoDup (share_x width <$> shares) →
  combine_loop width seen shares = Ok (share_x width <$> shares).
Proof.
  revert seen. induction shares as [|s shares IH]; intros seen Hl Hx Hnd; [done|].
  cbn [combine_loop]. rewrite (Hl s) by left. rewrite Nat.eqb_refl. cbn [negb].
  change (default 0 (s !! (width - 1)%nat)) with (share_x width s).
  destruct (Hx s ltac:(left)) as [H0 Hseen]. rewrite fmap_cons in *. apply NoDup_cons in Hnd as [Hn Hnd].
  destruct (Z.eqb_spec (share_x width s) 0); [done|].
  rewrite bool_decide_eq_false_2 by done. rewrite IH; [done|intros; apply Hl; by right| |done].
  intros s' Hs'. split; [apply Hx; by right|]. rewrite not_elem_of_cons. split.
  - intros E. apply Hn. rewrite <- E. by apply list_elem_of_fmap_2.
  - apply Hx. by right.
Qed.

Lemma abscissa_small i : (i < 255)%nat → abscissa i = Z.of_nat i + 1.
Proof. intros. unfold abscissa, u8. apply Z.mod_small. lia. Qed.
Lemma abscissa_byte i : byte_ok (abscissa i).
Proof. by apply Z.mod_pos_bound. Qed.

Lemma columns_length t secret e : length (columns t secret e) = length secret.
Proof. revert e. induction secret; intros; simpl; auto. Qed.
Lemma columns_shape t secret e col : (1 <= t)%nat → Forall byte_ok secret →
  col ∈ columns t secret e → Forall byte_ok col ∧ length col = t.
Proof.
  intros Ht. revert e. induction secret as [|v secret IH]; intros e Hb Hc; [by apply elem_of_nil in Hc|].
  apply Forall_cons in Hb as [Hv Hb]. cbn [columns] in Hc. apply elem_of_cons in Hc as [->|Hc]; [|eauto].
  split; [constructor; [done|apply draw_ok]|]. simpl. rewrite draw_length. lia.
Qed.
Lemma columns_head t secret e k : columns t secret e !! k ≫= head = secret !! k.
Proof. revert e k. induction secret as [|v secret IH]; intros e [|k]; simpl; auto. Qed.

(** Interpolating the column of any set of enough distinct points. *)
Lemma interpolate_evaluate col xs : Forall byte_ok col → Forall byte_ok xs → NoDup xs →
  col ≠ [] → (length col <= length xs)%nat →
  interpolate xs (evaluate col <$> xs) = default 0 (head col).
Proof.
  intros (p&->)%lift_bytes (g&->)%lift_bytes Hnd Hp Hl. rewrite !length_fmap in Hl.
  assert (p ≠ []) as Hp' by (by intros ->).
  assert (evaluate (gv <$> p) <$> (gv <$> g) = gv <$> (peval p <$> g)) as ->.
  { rewrite <- !list_fmap_compose. apply list_fmap_ext. intros i x _. by apply evaluate_peval. }
  rewrite interpolate_spec, lagrange_correct; [|by apply NoDup_fmap_1 in Hnd|done].
  destruct p as [|c p]; [done|]. rewrite peval_at_0. done.
Qed.

Section split.
Context (secret : list Z) (shares threshold : Z) (Hok : split_ok secret shares threshold)
  (Hb : Forall byte_ok secret).
Let t := Z.to_nat threshold.

Lemma share_at_length e x : length (share_at (columns t secret e) x) = S (length secret).
Proof. unfold share_at. rewrite length_app, length_fmap, columns_length. simpl. lia. Qed.
Lemma share_at_x e x : share_x (S (length secret)) (share_at (columns t secret e) x) = x.
Proof.
  unfold share_x, share_at. rewrite lookup_app_r; rewrite length_fmap, columns_length; [|lia].
  by replace (S (length secret) - 1 - length secret)%nat with 0%nat by lia.
Qed.
Lemma share_at_column e xs k col : columns t secret e !! k = Some col →
  column k (share_at (columns t secret e) <$> xs) = evaluate col <$> xs.
Proof.
  intros Hk. unfold column. rewrite <- list_fmap_compose. apply list_fmap_ext. intros i x _. cbn.
  unfold share_at. rewrite lookup_app_l by (rewrite length_fmap; by apply lookup_lt_Some in Hk).
  by rewrite list_lookup_fmap, Hk.
Qed.

(** Enough shares at distinct points give the secret back. *)
Lemma Combine_shares e xs :
  NoDup xs → (∀ x, x ∈ xs → byte_ok x ∧ x ≠ 0) → (t <= length xs)%nat →
  Combine (share_at (columns t secret e) <$> xs) = Ok secret.
Proof.
  intros Hnd Hx Hl. destruct Hok as (Hs&Hn&Ht). unfold MinShares in *.
  assert (2 <= t)%nat as Ht2 by (subst t; lia).
  assert (0 < length secret)%nat as Hlen by (destruct secret; [done|simpl; lia]).
  unfold Combine, blen. rewrite length_fmap.
  destruct (Z.ltb_spec (Z.of_nat (length xs)) MinShares) as [Hlt|_]; [unfold MinShares in Hlt; lia|].
  destruct xs as [|x xs]; [simpl in Hl; lia|].
  change (default [] ((share_at (columns t secret e) <$> x :: xs) !! 0%nat)) with (share_at (columns t secret e) x).
  rewrite share_at_length. destruct (Nat.ltb_spec (S (length secret)) 2); [lia|].
  set (points := x :: xs) in *. clearbody points. clear x xs.
  assert (share_x (S (length secret)) <$> (share_at (columns t secret e) <$> points) = points) as Hpts.
  { rewrite <- list_fmap_compose. rewrite <- (list_fmap_id points) at 2. apply list_fmap_ext.
    intros i x _. apply share_at_x. }
  rewrite combine_loop_ok.
  - rewrite Hpts. cbn [result_bind]. f_equal. apply list_eq. intros k.
    rewrite list_lookup_fmap, Nat.sub_succ, Nat.sub_0_r. destruct (secret !! k) as [v|] eqn:Hk.
    + pose proof (lookup_lt_Some _ _ _ Hk). rewrite lookup_seq_lt by done. cbn [fmap option_fmap option_map].
      f_equal. pose proof (columns_head t secret e k) as Hh. rewrite Hk in Hh.
      destruct (columns t secret e !! k) as [col|] eqn:Hc; [cbn in Hh|done].
      destruct (columns_shape t secret e col) as [Hcb Hcl]; [lia|done|by eapply list_elem_of_lookup_2|].
      rewrite Nat.add_0_l, (share_at_column e points k col) by done.
      rewrite interpolate_evaluate; [by rewrite Hh|done| |done| |lia].
      * apply Forall_forall. intros x Hin. by apply Hx.
      * intros ->. simpl in Hcl. lia.
    + apply lookup_ge_None in Hk. by rewrite lookup_seq_ge.
  - intros s (x&->&_)%list_elem_of_fmap. apply share_at_length.
  - intros s (x&->&Hin)%list_elem_of_fmap. rewrite share_at_x. split; [by apply Hx|apply not_elem_of_nil].
  - by rewrite Hpts.
Qed.
End split.

Lemma sublist_of_map {A B} (f : A → B) (l : list A) (chosen : list B) :
  (∀ s, s ∈ chosen → s ∈ f <$> l) → ∃ k, chosen = f <$> k ∧ ∀ a, a ∈ k → a ∈ l.
Proof.
  induction chosen as [|s chosen IH]; intros H.
  { exists []. split; [done|]. by intros a ?%elem_of_nil. }
  destruct IH as (k&->&Hk); [intros; apply H; by right|].
  destruct (proj1 (list_elem_of_fmap f l s) (H s ltac:(left))) as (a&->&Ha).
  exists (a :: k). split; [done|]. intros b [->|?]%elem_of_cons; auto.
Qed.

Lemma Combine_of_Split (secret : list Z) (shares threshold : Z) (w : World) (split : list (list Z)) (w' : World)
  (Hok : split_ok secret shares threshold) (Hb : Forall byte_ok secret)
  (Hs : Split secret shares threshold w = (Ok split, w')) chosen :
  NoDup chosen → (∀ s, s ∈ chosen → s ∈ split) → threshold ≤ blen chosen → Combine chosen = Ok secret.
Proof.
  destruct (Split_spec _ _ _ w Hok) as [e E]. rewrite E in Hs. injection Hs as <- <-. clear E.
  intros Hnd Hin Hl. destruct (sublist_of_map _ _ _ Hin) as (k&->&Hk).
  assert (∀ i, i ∈ k → (i < 255)%nat) as Hk255.
  { intros i Hi. apply Hk, elem_of_seq in Hi. destruct Hok as (_&?&_). unfold MaxShares in *. lia. }
  unfold blen in Hl. rewrite length_fmap in Hl.
  change (NoDup (share_at (columns (Z.to_nat threshold) secret (entropy w)) ∘ abscissa <$> k)) in Hnd.
  rewrite list_fmap_compose in Hnd. apply NoDup_fmap_1 in Hnd.
  change (Combine (share_at (columns (Z.to_nat threshold) secret (entropy w)) ∘ abscissa <$> k) = Ok secret).
  rewrite list_fmap_compose.
  apply (Combine_shares secret shares threshold); [done|done|done| |rewrite length_fmap; lia].
  intros x (i&->&Hi)%list_elem_of_fmap. split; [apply abscissa_byte|].
  rewrite abscissa_small by auto. lia.
Qed.

(** The last byte tells the shares of one split apart. *)
Lemma Split_last_byte secret shares threshold w split w' s s' :
  split_ok secret shares threshold → Split secret shares threshold w = (Ok split, w') →
  s ∈ split → s' ∈ split →
  length s = S (length secret) ∧
  (default 0 (s !! (length s - 1)%nat) = default 0 (s' !! (length s' - 1)%nat) → s = s').
Proof.
  intros Hok Hs H1 H2. destruct (Split_spec _ _ _ w Hok) as [e E]. rewrite E in Hs. injection Hs as <- <-.
  apply list_elem_of_fmap in H1 as (i&->&Hi), H2 as (j&->&Hj).
  rewrite !(share_at_length secret threshold). split; [done|].
  pose proof (share_at_x secret threshold) as Hx. unfold share_x in Hx. rewrite !Hx.
  apply elem_of_seq in Hi, Hj. assert (shares ≤ MaxShares) by apply Hok. unfold MaxShares in *.
  rewrite !abscissa_small by lia. intros Eij. by replace i with j by lia.
Qed.

Lemma Split_cases secret shares threshold w :
  (split_ok secret shares threshold ∧ ∃ split e, Split secret shares threshold w = (Ok split, set_entropy e w) ∧ blen split = shares) ∨
  (¬ split_ok secret shares threshold ∧ ∃ err, Split secret shares threshold w = (Err err, w)).
Proof.
  unfold split_ok. destruct (decide (secret = [])) as [->|Hs].
  { right. split; [tauto|]. eauto. }
  destruct (decide (MinShares ≤ shares ≤ MaxShares)) as [Hn|Hn]; [destruct (decide (MinShares ≤ threshold ≤ shares)) as [Ht|Ht]|].
  - left. split; [done|]. destruct (Split_spec secret shares threshold w) as [e ->]; [done|].
    eexists _, _. split; [done|]. unfold blen, MinShares in *. rewrite length_fmap, length_seq. lia.
  - right. split; [tauto|]. unfold Split. rewrite bool_decide_eq_false_2 by done.
    destruct (Z.ltb_spec shares MinShares); [lia|]. destruct (Z.ltb_spec MaxShares shares); [lia|].
    destruct (Z.ltb_spec threshold MinShares); [eauto|]. destruct (Z.ltb_spec shares threshold); [eauto|lia].
  - right. split; [tauto|]. unfold Split. rewrite bool_decide_eq_false_2 by done.
    destruct (Z.ltb_spec shares MinShares); [eauto|]. destruct (Z.ltb_spec MaxShares shares); [eauto|lia].
Qed.

(** C16. Splitting always succeeds within the documented bounds, and any
  choice of at least [threshold] different shares, in any order, combines to
  the secret. *)
Theorem Combine_Split (secret : list Z) (shares threshold : Z) (w : World)
  (Hok : split_ok secret shares threshold) (Hb : Forall byte_ok secret) :
  ∃ split w', Split secret shares threshold w = (Ok split, w') ∧ blen split = shares ∧
    ∀ chosen, NoDup chosen → (∀ s, s ∈ chosen → s ∈ split) → threshold ≤ blen chosen →
      Combine chosen = Ok secret.
Proof.
  destruct (Split_cases secret shares threshold w) as [(_&split&e&E&Hn)|[? _]]; [|done].
  exists split, (set_entropy e w). split; [done|]. split; [done|].
  intros chosen. by apply (Combine_of_Split secret shares threshold w split (set_entropy e w)).
Qed.

(** ** Fewer shares say nothing *)

Lemma draw_lookup n e k : (k < n)%nat → draw n e !! k = Some (e k mod 256).
Proof.
  revert e k. induction n as [|n IH]; intros e [|k] Hk; [lia..|done|]. cbn. rewrite IH by lia. done.
Qed.
Lemma draw_eq n e (d : list Z) :
  length d = n → (∀ k, (k < n)%nat → d !! k = Some (e k mod 256)) → draw n e = d.
Proof.
  intros Hl Hd. apply list_eq. intros k. destruct (decide (k < n)%nat).
  - by rewrite draw_lookup, Hd.
  - rewrite !lookup_ge_None_2; [done|lia|rewrite draw_length; lia].
Qed.
Lemma draw_ext n e e' : (∀ k, e k = e' k) → draw n e = draw n e'.
Proof. intros H. apply draw_eq; [apply draw_length|]. intros. rewrite draw_lookup by done. by rewrite H. Qed.
Lemma columns_ext t secret e e' : (∀ k, e k = e' k) → columns t secret e = columns t secret e'.
Proof.
  revert e e'. induction secret as [|v secret IH]; intros e e' H; [done|]. cbn [columns].
  rewrite (draw_ext _ e e') by done. f_equal. apply IH. auto.
Qed.

(** For any value of the secret byte exactly one choice of the other
  coefficients explains the values seen at fewer than [threshold] points. *)
Lemma column_alternative v xs ys :
  byte_ok v → Forall byte_ok xs → Forall byte_ok ys → NoDup xs → 0 ∉ xs → length xs = length ys →
  ∃ d, length d = length xs ∧ Forall byte_ok d ∧ evaluate (v :: d) <$> xs = ys ∧
    ∀ d', length d' = length xs → Forall byte_ok d' → evaluate (v :: d') <$> xs = ys → d' = d.
Proof.
  intros (gv0&->)%lift_byte (g&->)%lift_bytes (h&->)%lift_bytes Hnd H0 Hl.
  rewrite !length_fmap in *. apply NoDup_fmap_1 in Hnd.
  assert (NoDup (f0 :: g)) as Hnd0.
  { apply NoDup_cons. split; [|done]. intros Hin. apply H0. apply list_elem_of_fmap. by exists f0. }
  destruct (interpolation_exists (f0 :: g) (gv0 :: h) Hnd0) as (p&Hp&Hev&Hu); [simpl; lia|].
  assert (∀ q, evaluate (gv <$> q) <$> (gv <$> g) = gv <$> (peval q <$> g) ∨ q = []) as Hq.
  { intros q. destruct (decide (q = [])); [by right|left].
    rewrite <- !list_fmap_compose. apply list_fmap_ext. intros i x _. by apply evaluate_peval. }
  destruct p as [|c d]; [done|]. rewrite fmap_cons, peval_at_0 in Hev.
  pose proof (f_equal (hd c) Hev) as E0. apply (f_equal tail) in Hev. cbn [hd tail] in E0, Hev. subst c.
  exists (gv <$> d). rewrite length_fmap. simpl in Hp. split; [lia|]. split; [apply Forall_fmap, Forall_true; intros; apply gv_ok|].
  split.
  - destruct (Hq (gv0 :: d)) as [E|E]; [|done]. by rewrite fmap_cons in E; rewrite E, Hev.
  - intros d' Hd' (d2&->)%lift_bytes Hev'. rewrite length_fmap in Hd'.
    destruct (Hq (gv0 :: d2)) as [E|E]; [|done]. rewrite fmap_cons in E. rewrite E in Hev'.
    apply list_fmap_eq_inj in Hev'; [|intros ? ?; apply gv_inj].
    f_equal. enough (gv0 :: d2 = gv0 :: d) by congruence. apply Hu; [simpl; lia|].
    rewrite fmap_cons. f_equal; [apply peval_at_0|done].
Qed.

Definition rows (cols : list (list Z)) (xs : list Z) : list (list Z) :=
  (fun col => evaluate col <$> xs) <$> cols.
Lemma columns_alternative t xs secret secret' e :
  length xs = (t - 1)%nat → Forall byte_ok xs → NoDup xs → 0 ∉ xs →
  Forall byte_ok secret → Forall byte_ok secret' → length secret = length secret' →
  ∃ e', (∀ n, byte_ok (e' n)) ∧
    rows (columns t secret' e') xs = rows (columns t secret e) xs ∧
    ∀ e'', (∀ n, byte_ok (e'' n)) → rows (columns t secret' e'') xs = rows (columns t secret e) xs →
      ∀ k, (k < length secret * (t - 1))%nat → e'' k = e' k.
Proof.
  intros Ht Hx Hnd H0. revert secret' e.
  induction secret as [|v secret IH]; intros [|v' secret'] e Hb Hb' Hl; simplify_eq/=.
  { exists (fun _ => 0). split; [done|]. split; [done|]. intros. lia. }
  apply Forall_cons in Hb as [Hv Hb], Hb' as [Hv' Hb'].
  destruct (IH secret' (fun k => e (t - 1 + k)%nat)) as (e1&Hb1&Hr1&Hu1); [done..|].
  destruct (column_alternative v' xs (evaluate (v :: draw (t - 1) e) <$> xs)) as (d&Hd&Hdb&Hev&Hu);
    [done|done| |done|done|by rewrite length_fmap|].
  { apply Forall_fmap. apply (Forall_impl _ _ _ Hx). intros x Hxb. apply evaluate_byte; [|done].
    constructor; [done|apply draw_ok]. }
  set (e' := fun k => match d !! k with Some b => b | None => e1 (k - (t - 1))%nat end).
  exists e'.
  assert (draw (t - 1) e' = d) as Hdr.
  { apply draw_eq; [lia|]. intros k Hk. subst e'. cbn. destruct (lookup_lt_is_Some_2 d k) as [b Hb1']; [lia|].
    rewrite Hb1'. f_equal. rewrite Forall_forall in Hdb. symmetry. apply Z.mod_small, Hdb.
    by apply list_elem_of_lookup_2 with k. }
  assert (∀ k, e' (t - 1 + k)%nat = e1 k) as Hsh.
  { intros k. subst e'. cbn. rewrite lookup_ge_None_2 by lia. f_equal. lia. }
  split_and!.
  - intros n. subst e'. cbn. destruct (d !! n) eqn:E; [|done]. rewrite Forall_forall in Hdb.
    apply Hdb. by apply list_elem_of_lookup_2 with n.
  - unfold rows in *. cbn [columns]. rewrite ?fmap_cons. rewrite Hdr, Hev. f_equal. rewrite <- Hr1. f_equal. by apply columns_ext.
  - intros e'' Hb'' Hr k Hk. unfold rows in *. cbn [columns] in Hr. rewrite ?fmap_cons in Hr.
    pose proof (f_equal (hd []) Hr) as Hr0. apply (f_equal tail) in Hr. cbn [hd tail] in Hr0, Hr.
    destruct (decide (k < t - 1)%nat) as [Hlt|Hge].
    + assert (draw (t - 1) e'' = d) as Hd'' by (apply Hu; [by rewrite draw_length|apply draw_ok|done]).
      pose proof (draw_lookup (t - 1) e'' k Hlt) as E. rewrite Hd'' in E. subst e'. cbn. rewrite E.
      symmetry. apply Z.mod_small, Hb''.
    + replace k with (t - 1 + (k - (t - 1)))%nat by lia. rewrite Hsh.
      apply (Hu1 (fun k => e'' (t - 1 + k)%nat)); [intros; apply Hb''|done|lia].
Qed.

(** What the holders of the shares with these indices see of a split. *)
Definition held (holders : list nat) (r : result (list (list Z)) * World) : list (option (list Z)) :=
  match fst r with Ok split => (fun i => split !! i) <$> holders | Err _ => [] end.

Lemma share_at_rows t s s' e e' xs : length s = length s' →
  (rows (columns t s e) xs = rows (columns t s' e') xs ↔
   ∀ x, x ∈ xs → share_at (columns t s e) x = share_at (columns t s' e') x).
Proof.
  intros Hl. split.
  - intros Hr x (i&Hi)%list_elem_of_lookup. unfold share_at. f_equal. apply list_eq. intros k.
    apply (f_equal (.!! k)) in Hr. unfold rows in Hr. rewrite !list_lookup_fmap in *.
    destruct (columns t s e !! k), (columns t s' e' !! k); simplify_eq/=; [|done].
    apply (f_equal (.!! i)) in Hr. rewrite !list_lookup_fmap, Hi in Hr.
    cbn in Hr |- *. congruence.
  - intros Hx. unfold rows. apply list_eq. intros k. rewrite !list_lookup_fmap.
    destruct (columns t s e !! k) as [c|] eqn:Ec, (columns t s' e' !! k) as [c'|] eqn:Ec'; cbn.
    + f_equal. apply list_eq. intros i. rewrite !list_lookup_fmap. destruct (xs !! i) as [x|] eqn:Ei; [|done].
      cbn. f_equal. specialize (Hx x (list_elem_of_lookup_2 _ _ _ Ei)). unfold share_at in Hx.
      apply app_inj_tail in Hx as [Hx _]. apply (f_equal (.!! k)) in Hx. rewrite !list_lookup_fmap, Ec, Ec' in Hx.
      by simplify_eq/=.
    + apply lookup_lt_Some in Ec. apply lookup_ge_None in Ec'. rewrite !columns_length in *. lia.
    + apply lookup_lt_Some in Ec'. apply lookup_ge_None in Ec. rewrite !columns_length in *. lia.
    + done.
Qed.

Lemma held_Split secret shares threshold w holders :
  split_ok secret shares threshold → (∀ i, i ∈ holders → (i < Z.to_nat shares)%nat) →
  held holders (Split secret shares threshold w) =
  Some ∘ share_at (columns (Z.to_nat threshold) secret (entropy w)) ∘ abscissa <$> holders.
Proof.
  intros Hok Hi. destruct (Split_spec _ _ _ w Hok) as [e ->]. unfold held. cbn [fst].
  apply list_fmap_ext. intros k i Hk. apply list_elem_of_lookup_2, Hi in Hk.
  by rewrite list_lookup_fmap, lookup_seq_lt.
Qed.

Lemma Split_secrecy_full (secret secret' : list Z) (shares threshold : Z) (w : World) (holders : list nat)
  (Hok : split_ok secret shares threshold) (Hb : Forall byte_ok secret) (Hb' : Forall byte_ok secret')
  (Hl : length secret = length secret') (Hnd : NoDup holders)
  (Hh : ∀ i, i ∈ holders → (i < Z.to_nat shares)%nat) (Hn : blen holders = threshold - 1) :
  ∃ e', (∀ n, byte_ok (e' n)) ∧
    held holders (Split secret' shares threshold (set_entropy e' w)) = held holders (Split secret shares threshold w) ∧
    ∀ e'', (∀ n, byte_ok (e'' n)) →
      held holders (Split secret' shares threshold (set_entropy e'' w)) = held holders (Split secret shares threshold w) →
      ∀ k, (k < length secret * Z.to_nat (threshold - 1))%nat → e'' k = e' k.
Proof.
  assert (split_ok secret' shares threshold) as Hok'.
  { destruct Hok as (Hs&?&?). split; [|done]. intros ->. by destruct secret. }
  assert (∀ i, i ∈ holders → abscissa i = Z.of_nat i + 1) as Habs.
  { intros i Hi. apply abscissa_small. apply Hh in Hi. destruct Hok as (_&?&_). unfold MaxShares in *. lia. }
  destruct (columns_alternative (Z.to_nat threshold) (abscissa <$> holders) secret secret' (entropy w))
    as (e'&Hbe&Hr&Hu).
  - rewrite length_fmap. unfold blen in Hn. lia.
  - apply Forall_fmap, Forall_true. intros. apply abscissa_byte.
  - apply NoDup_fmap_2_strong; [|done]. intros i j Hi Hj E. rewrite !Habs in E by done. lia.
  - intros (i&E&Hi)%list_elem_of_fmap. rewrite Habs in E by done. lia.
  - done.
  - done.
  - done.
  - assert (∀ e, held holders (Split secret' shares threshold (set_entropy e w)) = held holders (Split secret shares threshold w) ↔
      rows (columns (Z.to_nat threshold) secret' e) (abscissa <$> holders) =
      rows (columns (Z.to_nat threshold) secret (entropy w)) (abscissa <$> holders)) as Heq.
    { intros e. rewrite !held_Split by done. rewrite share_at_rows by done. cbn [entropy set_entropy].
      setoid_rewrite list_elem_of_fmap. split.
      - intros Hf x (i&->&(k&Hk)%list_elem_of_lookup). apply (f_equal (.!! k)) in Hf.
        rewrite !list_lookup_fmap, Hk in Hf. by simplify_eq/=.
      - intros Hf. apply list_fmap_ext. intros k i Hk. cbn. f_equal. apply Hf. exists i.
        split; [done|]. by apply list_elem_of_lookup_2 with k. }
    exists e'. split; [done|]. split; [by apply Heq|]. intros e'' Hb'' E k Hk. apply Hu; [done|by apply Heq|].
    by replace (Z.to_nat threshold - 1)%nat with (Z.to_nat (threshold - 1)) by lia.
Qed.

(** Holders can be joined by others, up to any number there are shares for. *)
Lemma holders_join (holders : list nat) (n k : nat) : NoDup holders → (∀ i, i ∈ holders → (i < n)%nat) → (length holders <= k)%nat → (k <= n)%nat →
  ∃ others, NoDup (holders ++ others) ∧ (∀ i, i ∈ holders ++ others → (i < n)%nat) ∧ length (holders ++ others) = k.
Proof.
  intros Hnd Hh Hk Hn. set (rest := list_difference (seq 0 n) holders). exists (take (k - length holders) rest).
  assert (∀ i, i ∈ take (k - length holders) rest → i ∈ seq 0 n ∧ i ∉ holders) as Hin.
  { intros i Hi. apply list_elem_of_difference. exact (sublist_subseteq _ _ (sublist_take _ _) _ Hi). }
  assert (length (seq 0 n) <= length (holders ++ rest))%nat as Hlen.
  { apply submseteq_length, NoDup_submseteq; [apply NoDup_seq|]. intros i Hi. apply elem_of_app. destruct (decide (i ∈ holders)); [by left|right].
    by apply list_elem_of_difference. }
  rewrite length_seq, length_app in Hlen. split_and!.
  - apply NoDup_app. split_and!; [done|intros i Hi Hi'; by apply (proj2 (Hin i Hi'))|]. eapply sublist_NoDup; [|apply sublist_take]. apply NoDup_list_difference, NoDup_seq.
  - intros i [Hi|Hi]%elem_of_app; [by apply Hh|]. apply Hin in Hi as [Hi _]. apply elem_of_seq in Hi. lia.
  - rewrite length_app, length_take. lia.
Qed.
(** C15. Perfect secrecy: whatever fewer than [threshold] holders see, every other
  secret of the same length is explained by some sequence of random bytes; and what
  [threshold - 1] of them see is explained by exactly one, so that each secret is
  equally likely given those shares. *)
Theorem Split_secrecy (secret secret' : list Z) (shares threshold : Z) (w : World) (holders : list nat)
  (Hok : split_ok secret shares threshold) (Hb : Forall byte_ok secret) (Hb' : Forall byte_ok secret')
  (Hl : length secret = length secret') (Hnd : NoDup holders)
  (Hh : ∀ i, i ∈ holders → (i < Z.to_nat shares)%nat) (Hn : blen holders < threshold) :
  ∃ e', (∀ n, byte_ok (e' n)) ∧
    held holders (Split secret' shares threshold (set_entropy e' w)) = held holders (Split secret shares threshold w) ∧
    (blen holders = threshold - 1 → ∀ e'', (∀ n, byte_ok (e'' n)) →
      held holders (Split secret' shares threshold (set_entropy e'' w)) = held holders (Split secret shares threshold w) →
      ∀ k, (k < length secret * Z.to_nat (threshold - 1))%nat → e'' k = e' k).
Proof.
  pose proof Hok as (_&Ht&Hs). unfold blen in *.
  destruct (holders_join holders (Z.to_nat shares) (Z.to_nat (threshold - 1)) Hnd Hh) as (others&Hnd'&Hh'&Hlen); [lia|lia|].
  destruct (Split_secrecy_full secret secret' shares threshold w _ Hok Hb Hb' Hl Hnd' Hh') as (e'&He&Hheld&Hu); [unfold blen; lia|].
  exists e'. split; [done|]. split.
  - assert (split_ok secret' shares threshold) as Hok' by (destruct Hok as (Hne&?&?); split; [by intros ->; destruct secret|done]).
    destruct (Split_spec _ _ _ (set_entropy e' w) Hok') as [e1 E1], (Split_spec _ _ _ w Hok) as [e2 E2]. rewrite E1, E2 in *. unfold held in *. cbn [fst] in *.
    rewrite !fmap_app in Hheld. apply app_inj_1 in Hheld as [Hheld _]; [done|by rewrite !length_fmap].
  - intros Hn'. rewrite length_app in Hlen. destruct others as [|i others]; [by rewrite app_nil_r in Hu|cbn in Hlen; lia].
Qed.

(** The shift-and-xor arithmetic on bytes is a field in which addition
  is xor: multiplication is closed, commutative, associative, distributes over
  xor, has unit 1, and dividing undoes multiplying by any non-zero byte. *)
Theorem byte_field (a b c : Z) (Ha : byte_ok a) (Hb : byte_ok b) (Hc : byte_ok c) :
  byte_ok (fieldMul a b) ∧ fieldMul a b = fieldMul b a ∧
  fieldMul a (fieldMul b c) = fieldMul (fieldMul a b) c ∧
  fieldMul (Z.lxor a b) c = Z.lxor (fieldMul a c) (fieldMul b c) ∧
  fieldMul 1 a = a ∧ (b ≠ 0 → fieldDiv (fieldMul a b) b = a ∧ fieldMul (fieldDiv a b) b = a).
Proof.
  split_and!; [by apply fieldMul_byte|by apply fieldMul_comm|by apply fieldMul_assoc
    |by apply fieldMul_lxor_l|by apply fieldMul_1_l|]. intros Hn.
  destruct (fieldInverse_ok b Hb Hn) as [Hib Hi].
  with_strategy transparent [fieldDiv] unfold fieldDiv.
  rewrite <- !fieldMul_assoc, (fieldMul_comm b), Hi by done.
  by rewrite fieldMul_comm, fieldMul_1_l.
Qed.

Lemma Combine_Split_witness :
  let w := fresh_world (fun _ => 0) (fun n => Z.of_nat (7 * n + 3)) in
  ∃ split w', Split [11; 0; 255] 5 3 w = (Ok split, w') ∧ blen split = 5 ∧
    ∀ chosen, NoDup chosen → (∀ s, s ∈ chosen → s ∈ split) → 3 ≤ blen chosen →
      Combine chosen = Ok [11; 0; 255].
Proof.
  intros w. apply (Combine_Split [11; 0; 255] 5 3 w).
  - split; [done|]. unfold MinShares, MaxShares. lia.
  - repeat constructor; lia.
Defined.

Lemma Split_secrecy_witness :
  let w := fresh_world (fun _ => 0) (fun n => Z.of_nat (7 * n + 3)) in
  ∃ e', (∀ n, byte_ok (e' n)) ∧
    held [0%nat; 4%nat] (Split [200; 100] 5 3 (set_entropy e' w)) = held [0%nat; 4%nat] (Split [11; 0] 5 3 w) ∧
    (blen [0%nat; 4%nat] = 3 - 1 → ∀ e'', (∀ n, byte_ok (e'' n)) →
      held [0%nat; 4%nat] (Split [200; 100] 5 3 (set_entropy e'' w)) = held [0%nat; 4%nat] (Split [11; 0] 5 3 w) →
      ∀ k, (k < 4)%nat → e'' k = e' k).
Proof.
  intros w. apply (Split_secrecy [11; 0] [200; 100] 5 3 w [0%nat; 4%nat]).
  - split; [done|]. unfold MinShares, MaxShares. lia.
  - repeat constructor; lia.
  - repeat constructor; lia.
  - reflexivity.
  - repeat constructor; set_solver.
  - intros i Hi. simpl. set_solver by lia.
  - reflexivity.
Defined.

Lemma byte_field_witness : fieldMul (fieldDiv 83 202) 202 = 83.
Proof. apply (byte_field 83 202 1); [unfold byte_ok; lia..|done]. Defined.
End shamir.
