(* ===== verification/Envelope.v ===== *)
(** platform/crypto: keys, key derivation, the associated data that binds a
  ciphertext to its place, and the two-layer envelope.

  AES-256-GCM, HKDF-SHA-256, HMAC-SHA-256 and SHA-256 are parameters, the
  operations of [Primitives]; [PrimitiveLaws] is what the code relies on.  No
  law says that anything is hard to forge: theorems about tampering exhibit the
  forgery or the collision that a successful attack would be. *)
From Stdlib Require Import ZArith Lia.
From S2P Require Import Prelude GoStrings GoTime World.

Class Primitives := {
  (** [cipher.AEAD.Seal(nil, nonce, plaintext, aad)] and [Open] *)
  gcm_seal : ∀ (key nonce plaintext aad : list Z), list Z;
  gcm_open : ∀ (key nonce ciphertext aad : list Z), option (list Z);
  (** [hkdf.Key(sha256.New, secret, nil, info, length)] *)
  hkdf_key : ∀ (secret : list Z) (info : string) (length : nat), list Z;
  (** HMAC and hash sums *)
  hmac_sha256 : ∀ (key message : list Z), list Z;
  sha256_sum : list Z → list Z }.
Class PrimitiveLaws `{Primitives} := {
  gcm_open_seal : ∀ key nonce plaintext aad, length key = 32%nat → length nonce = 12%nat →
    gcm_open key nonce (gcm_seal key nonce plaintext aad) aad = Some plaintext;
  gcm_seal_length : ∀ key nonce plaintext aad,
    length (gcm_seal key nonce plaintext aad) = (length plaintext + 16)%nat;
  (** a ciphertext that opens is the one sealing produces: the tag is recomputed *)
  gcm_open_inv : ∀ key nonce ciphertext aad plaintext,
    gcm_open key nonce ciphertext aad = Some plaintext → ciphertext = gcm_seal key nonce plaintext aad;
  hkdf_length : ∀ secret info n, length (hkdf_key secret info n) = n;
  hmac_length : ∀ key message, length (hmac_sha256 key message) = 32%nat;
  sha256_length : ∀ message, length (sha256_sum message) = 32%nat;
  sha256_bytes : ∀ message, Forall byte_ok (sha256_sum message) }.

(** A concrete instance, used to run the definitions on examples: a checksum in
  the place of every keyed function.  It has no cryptographic value. *)
Module sample.
Definition checksum (parts : list (list Z)) : Z :=
  foldl (fun h b => (h * 16777619 + b + 1) mod 2 ^ 127) 2166136261 (parts ≫= fun l => blen l :: l).
Definition seal (key nonce plaintext aad : list Z) : list Z :=
  plaintext ++ big_endian 16 (checksum [key; nonce; plaintext; aad]).
#[export] Instance primitives : Primitives := {
  gcm_seal := seal;
  gcm_open key nonce c aad :=
    let p := take (length c - 16) c in if decide (c = seal key nonce p aad) then Some p else None;
  hkdf_key secret info n := big_endian n (checksum [secret; bytes_of_string info]);
  hmac_sha256 key message := big_endian 32 (checksum [key; message]);
  sha256_sum message := big_endian 32 (checksum [message]) }.
#[export] Instance primitive_laws : PrimitiveLaws.
Proof.
  split; intros; cbn; try apply big_endian_length.
  - assert (take (length (seal key nonce plaintext aad) - 16) (seal key nonce plaintext aad) = plaintext) as ->.
    { unfold seal. rewrite length_app, big_endian_length. apply take_app_length'. lia. }
    by rewrite decide_True.
  - unfold seal. by rewrite length_app, big_endian_length.
  - cbn in *. by case_decide; simplify_eq/=.
  - done.
  - done.
  - apply (big_endian_ok 32).
Qed.
(** An instance whose tag is constant, so that forgeries exist. *)
Definition weak_tag : list Z := replicate 16 0.
Definition weak_primitives : Primitives := {|
  gcm_seal key nonce plaintext aad := plaintext ++ weak_tag;
  gcm_open key nonce c aad :=
    let p := take (length c - 16) c in if decide (c = p ++ weak_tag) then Some p else None;
  hkdf_key secret info n := replicate n 0;
  hmac_sha256 key message := replicate 32 0;
  sha256_sum message := replicate 32 0 |}.
Lemma weak_laws : @PrimitiveLaws weak_primitives.
Proof.
  assert (∀ l : list Z, take (length (l ++ weak_tag) - 16) (l ++ weak_tag) = l) as Ht.
  { intros l. rewrite length_app. apply take_app_length'. change (length weak_tag) with 16%nat. lia. }
  split; intros; unfold gcm_seal, gcm_open, weak_primitives in *.
  - cbn zeta. by rewrite Ht, decide_True.
  - by rewrite length_app.
  - cbn zeta in *. by case_decide; simplify_eq/=.
  - apply length_replicate.
  - done.
  - done.
  - repeat constructor; lia.
Qed.
End sample.

Module crypto.
(** ** Associated data (aad.go) *)
Definition ErrEmptyTenant : string := "crypto: tenant must not be empty".
Definition ErrEmptyPath : string := "crypto: path must not be empty".
Definition ErrBadVersion : string := "crypto: version must be greater than zero".
Definition ErrKEKVersion : string := "crypto: kek version must be greater than zero".
Definition ErrFieldTooLong : string := "crypto: tenant or path exceeds the encodable length".
Definition maxFieldLen : Z := Z.shiftl 1 20.

Record AAD := MkAAD { aad_Tenant : string; aad_Path : string; aad_Version : Z }.

Definition AAD_Validate (a : AAD) : result unit :=
  if String.eqb (aad_Tenant a) "" then Err [ErrEmptyTenant]
  else if String.eqb (aad_Path a) "" then Err [ErrEmptyPath]
  else if aad_Version a <? 1 then Err [ErrBadVersion]
  else if (maxFieldLen <? len (aad_Tenant a)) || (maxFieldLen <? len (aad_Path a)) then Err [ErrFieldTooLong]
  else Ok tt.

Definition AAD_encode (a : AAD) : result (list Z) :=
  let? _ := AAD_Validate a in
  Ok (framed (aad_Tenant a) ++ framed (aad_Path a) ++ big_endian 8 (aad_Version a)).

(** ** Keys (key.go) *)
Definition KeySize : Z := 32.
Definition ErrKeySize : string := "crypto: key must be 32 bytes".
Definition NewKey : M World (list Z) := rand_read (Z.to_nat KeySize).
Definition Key_Validate (k : list Z) : result unit :=
  if negb (blen k =? KeySize) then Err [ErrKeySize] else Ok tt.
Definition Key_Zero (k : list Z) : list Z := (fun _ => 0) <$> k.
Definition redacted : string := "[redacted]".
Definition Key_String (k : list Z) : string := redacted.
Definition Sensitive_Zero (s : list Z) : list Z := (fun _ => 0) <$> s.
Definition Sensitive_String (s : list Z) : string := redacted.

(** ** Derivation (derive.go) *)
Section derivation.
Context `{Primitives}.
Definition keyCheckLabel : string := "marstack-secrets/key-check/v1".
Definition ErrEmptyLabel : string := "crypto: derivation label must not be empty".
Definition ErrKeyCheck : string := "crypto: key check value does not match".
Definition ErrLabelPart : string := "crypto: a label part exceeds the encodable length".

Definition DeriveKey (root : list Z) (label : string) : result (list Z) :=
  let? _ := Key_Validate root in
  if String.eqb label "" then Err [ErrEmptyLabel]
  else Ok (hkdf_key root label (Z.to_nat KeySize)).

Fixpoint label_bytes (parts : list string) : result (list Z) :=
  match parts with
  | [] => Ok []
  | part :: parts =>
      if maxFieldLen <? len part then Err [ErrLabelPart]
      else let? rest := label_bytes parts in Ok (framed part ++ rest)
  end.
Definition Label (parts : list string) : result string :=
  result_map string_of_bytes (label_bytes parts).
Definition LabelInt (value : Z) : string := Itoa value.

Definition KeyCheckValue (root : list Z) : result (list Z) :=
  let? _ := Key_Validate root in
  Ok (hmac_sha256 root (bytes_of_string keyCheckLabel)).
Definition VerifyKeyCheckValue (root expected : list Z) : result unit :=
  let? actual := KeyCheckValue root in
  if bool_decide (actual = expected) then Ok tt else Err [ErrKeyCheck].
End derivation.

(** ** Envelopes (envelope.go) *)
Definition ErrDecrypt : string := "crypto: decryption failed".
Record Envelope := MkEnvelope { KEKVersion : Z; WrappedDEK : list Z; Ciphertext : list Z }.

Section envelope.
Context `{Primitives}.
Definition NonceSize : nat := 12.
Definition Overhead : nat := 16.

Definition newAEAD (key : list Z) : result unit := Key_Validate key.

Definition sealWith (key plaintext encodedAAD : list Z) : M World (list Z) :=
  let! _ := lift_result (newAEAD key) in
  let! nonce := rand_read NonceSize in
  ret (nonce ++ gcm_seal key nonce plaintext encodedAAD).

Definition openWith (key blob encodedAAD : list Z) : result (list Z) :=
  let? _ := newAEAD key in
  if (length blob <? NonceSize + Overhead)%nat then Err [ErrDecrypt]
  else match gcm_open key (take NonceSize blob) (drop NonceSize blob) encodedAAD with
       | Some plaintext => Ok plaintext
       | None => Err [ErrDecrypt]
       end.

Definition unwrapDEK (kek wrapped encodedAAD : list Z) : result (list Z) :=
  let? plaintext := openWith kek wrapped encodedAAD in
  match Key_Validate plaintext with
  | Ok _ => Ok plaintext
  | Err _ => Err [ErrDecrypt]
  end.

Definition Seal (kek : list Z) (kekVersion : Z) (plaintext : list Z) (aad : AAD) : M World Envelope :=
  let! _ := lift_result (Key_Validate kek) in
  if kekVersion <? 1 then fail [ErrKEKVersion]
  else
    let! encodedAAD := lift_result (AAD_encode aad) in
    let! dek := NewKey in
    let! ciphertext := sealWith dek plaintext encodedAAD in
    let! wrappedDEK := sealWith kek dek encodedAAD in
    ret (MkEnvelope kekVersion wrappedDEK ciphertext).

Definition Open (kek : list Z) (envelope : Envelope) (aad : AAD) : result (list Z) :=
  let? _ := Key_Validate kek in
  let? encodedAAD := AAD_encode aad in
  let? dek := unwrapDEK kek (WrappedDEK envelope) encodedAAD in
  openWith dek (Ciphertext envelope) encodedAAD.

Definition Rewrap (current next : list Z) (nextVersion : Z) (envelope : Envelope) (aad : AAD)
  : M World Envelope :=
  let! _ := lift_result (Key_Validate current) in
  let! _ := lift_result (Key_Validate next) in
  if nextVersion <? 1 then fail [ErrKEKVersion]
  else
    let! encodedAAD := lift_result (AAD_encode aad) in
    let! dek := lift_result (unwrapDEK current (WrappedDEK envelope) encodedAAD) in
    let! wrappedDEK := sealWith next dek encodedAAD in
    ret (MkEnvelope nextVersion wrappedDEK (Ciphertext envelope)).
End envelope.

(** ** Encodings are injective *)
Definition aad_ok (a : AAD) : Prop :=
  aad_Tenant a ≠ "" ∧ aad_Path a ≠ "" ∧ 1 ≤ aad_Version a ∧
  len (aad_Tenant a) ≤ maxFieldLen ∧ len (aad_Path a) ≤ maxFieldLen.

Lemma AAD_Validate_ok a : AAD_Validate a = Ok tt ↔ aad_ok a.
Proof.
  unfold AAD_Validate, aad_ok. destruct (String.eqb_spec (aad_Tenant a) ""); [split; [done|tauto]|].
  destruct (String.eqb_spec (aad_Path a) ""); [split; [done|tauto]|].
  destruct (Z.ltb_spec (aad_Version a) 1); [split; [done|lia]|].
  destruct (Z.ltb_spec maxFieldLen (len (aad_Tenant a))); [split; [done|lia]|].
  destruct (Z.ltb_spec maxFieldLen (len (aad_Path a))); cbn [orb]; [split; [done|lia]|].
  by split.
Qed.
Lemma AAD_encode_ok a : aad_ok a →
  AAD_encode a = Ok (framed (aad_Tenant a) ++ framed (aad_Path a) ++ big_endian 8 (aad_Version a)).
Proof. intros Ha. unfold AAD_encode. by rewrite (proj2 (AAD_Validate_ok a) Ha). Qed.

Lemma label_bytes_inj parts parts' b : length parts = length parts' →
  label_bytes parts = Ok b → label_bytes parts' = Ok b → parts = parts'.
Proof.
  revert parts' b. induction parts as [|p parts IH]; intros [|p' parts'] b Hl; simplify_eq/=; [done|].
  destruct (Z.ltb_spec maxFieldLen (len p)) as [|Hp]; [done|].
  destruct (Z.ltb_spec maxFieldLen (len p')) as [|Hp']; [done|].
  destruct (label_bytes parts) as [r|] eqn:E; [|done]. destruct (label_bytes parts') as [r'|] eqn:E'; [|done].
  cbn [result_bind]. intros E1%(inj Ok) E2%(inj Ok). rewrite <- E2 in E1. rename E1 into Eb.
  apply framed_inj in Eb as [-> ->]; [|change maxFieldLen with (2 ^ 20) in *; lia..]. f_equal. by apply IH with r'.
Qed.
Lemma label_bytes_ok parts b : label_bytes parts = Ok b → Forall byte_ok b.
Proof.
  revert b. induction parts as [|p parts IH]; intros b; cbn [label_bytes]; [by intros [= <-]|].
  destruct (_ <? _); [done|]. destruct (label_bytes parts) as [r|]; [|done].
  intros [= <-]. apply Forall_app. split; [apply framed_bytes|by apply IH].
Qed.

Lemma encode_inj (a a' : AAD) (b : list Z) : in_i64 (aad_Version a) → in_i64 (aad_Version a') →
  AAD_encode a = Ok b → AAD_encode a' = Ok b → a = a'.
Proof.
  intros Hv Hv' He He'.
  assert (∀ x, AAD_encode x = Ok b → aad_ok x) as Hok.
  { intros x Hx. apply AAD_Validate_ok. unfold AAD_encode in Hx. by destruct (AAD_Validate x) as [[]|]. }
  pose proof (Hok _ He) as Ha. pose proof (Hok _ He') as Ha'.
  rewrite AAD_encode_ok in He, He' by done.
  assert (framed (aad_Tenant a) ++ framed (aad_Path a) ++ big_endian 8 (aad_Version a) =
    framed (aad_Tenant a') ++ framed (aad_Path a') ++ big_endian 8 (aad_Version a')) as E
    by (apply (inj Ok); congruence).
  destruct Ha as (?&?&?&?&?), Ha' as (?&?&?&?&?).
  change maxFieldLen with (2 ^ 20) in *.
  apply framed_inj in E as [Et E]; [|lia..]. apply framed_inj in E as [Ep E]; [|lia..].
  unfold in_i64, i64_max in *.
  apply big_endian_inj in E; [|change (8 * Z.of_nat 8) with 64; lia..].
  destruct a, a'; simpl in *; congruence.
Qed.

(** The associated data of two places are equal only if the places are:
  tenant, path and version can be read back from it. *)
Theorem AAD_encode_inj (a a' : AAD) (b : list Z)
  (Hv : in_i64 (aad_Version a)) (Hv' : in_i64 (aad_Version a'))
  (He : AAD_encode a = Ok b) (He' : AAD_encode a' = Ok b) : a = a'.
Proof. by apply encode_inj with b. Qed.

(** A derivation label determines its parts: keys for different tenants
  or versions are derived under different labels. *)
Theorem Label_inj (parts parts' : list string) (label : string)
  (Hn : length parts = length parts') (Hl : Label parts = Ok label) (Hl' : Label parts' = Ok label) :
  parts = parts'.
Proof.
  unfold Label in *. destruct (label_bytes parts) as [b|] eqn:E; [|done].
  destruct (label_bytes parts') as [b'|] eqn:E'; [|done]. cbn in *.
  assert (b = b') as <-; [|by apply label_bytes_inj with b].
  rewrite <- (bytes_of_string_of_bytes b), <- (bytes_of_string_of_bytes b') by (by eapply label_bytes_ok).
  congruence.
Qed.

Section envelope_laws.
Context `{PrimitiveLaws}.

Lemma Key_Validate_ok k : Key_Validate k = Ok tt ↔ length k = 32%nat.
Proof.
  unfold Key_Validate, blen, KeySize. destruct (Z.eqb_spec (Z.of_nat (length k)) 32); cbn [negb];
    split; intros; try done; lia.
Qed.
Lemma openWith_sealed key nonce plaintext aad : length key = 32%nat → length nonce = NonceSize →
  openWith key (nonce ++ gcm_seal key nonce plaintext aad) aad = Ok plaintext.
Proof.
  intros Hk Hn. unfold openWith, newAEAD. rewrite (proj2 (Key_Validate_ok key) Hk). cbn [result_bind].
  rewrite length_app, gcm_seal_length, Hn. destruct (Nat.ltb_spec (NonceSize + (length plaintext + 16)) (NonceSize + Overhead)) as [Hlt|_].
  { unfold NonceSize, Overhead in Hlt. lia. }
  rewrite take_app_length', drop_app_length' by done. by rewrite gcm_open_seal.
Qed.
Lemma sealWith_spec key plaintext aad w : length key = 32%nat →
  ∃ nonce w', length nonce = NonceSize ∧ database w' = database w ∧ seal_memory w' = seal_memory w ∧
    sealWith key plaintext aad w = (Ok (nonce ++ gcm_seal key nonce plaintext aad), w').
Proof.
  intros Hk. unfold sealWith, newAEAD, lift_result, bind. rewrite (proj2 (Key_Validate_ok key) Hk).
  exists (draw NonceSize (entropy w)), (snd (rand_read NonceSize w)). split; [apply draw_length|]. done.
Qed.
Lemma unwrapDEK_sealed kek dek nonce aad :
  length kek = 32%nat → length dek = 32%nat → length nonce = NonceSize →
  unwrapDEK kek (nonce ++ gcm_seal kek nonce dek aad) aad = Ok dek.
Proof.
  intros. unfold unwrapDEK. rewrite openWith_sealed by done. cbn [result_bind].
  by rewrite (proj2 (Key_Validate_ok dek)).
Qed.
Lemma unwrapDEK_length kek wrapped aad dek : unwrapDEK kek wrapped aad = Ok dek → length dek = 32%nat.
Proof.
  unfold unwrapDEK. destruct (openWith _ _ _) as [p|]; [|done]. cbn [result_bind].
  destruct (Key_Validate p) as [[]|] eqn:E; [|done]. intros [= <-]. by apply Key_Validate_ok.
Qed.

Lemma Open_sealed (kek : list Z) (version : Z) (plaintext : list Z) (aad : AAD) (w : World)
  (Hk : length kek = 32%nat) (Hv : 1 ≤ version) (Ha : aad_ok aad) :
  ∃ env w', Seal kek version plaintext aad w = (Ok env, w') ∧ database w' = database w ∧
    seal_memory w' = seal_memory w ∧ KEKVersion env = version ∧ Open kek env aad = Ok plaintext.
Proof.
  unfold Seal, lift_result. rewrite (proj2 (Key_Validate_ok kek) Hk), AAD_encode_ok by done.
  set (enc := framed (aad_Tenant aad) ++ _). destruct (Z.ltb_spec version 1); [lia|].
  unfold bind at 1 2 3, NewKey, rand_read. set (dek := draw _ _).
  assert (length dek = 32%nat) as Hd by apply draw_length.
  edestruct (sealWith_spec dek plaintext enc) as (n1&w1&Hn1&Hw1&Hm1&E1); [done|].
  rewrite (bind_ok _ _ _ _ _ E1).
  destruct (sealWith_spec kek dek enc w1 Hk) as (n2&w2&Hn2&Hw2&Hm2&E2).
  rewrite (bind_ok _ _ _ _ _ E2). eexists _, _. split; [done|].
  split; [by rewrite Hw2, Hw1|]. split; [by rewrite Hm2, Hm1|]. split; [done|]. unfold Open. cbn [KEKVersion WrappedDEK Ciphertext].
  rewrite (proj2 (Key_Validate_ok kek) Hk), AAD_encode_ok by done. cbn [result_bind]. fold enc.
  rewrite unwrapDEK_sealed by done. cbn [result_bind]. by apply openWith_sealed.
Qed.

(** Sealing always succeeds with a 32-byte key and a well-formed place,
  and the envelope opens to the plaintext under the same key and place. *)
Theorem Open_Seal (kek : list Z) (version : Z) (plaintext : list Z) (aad : AAD) (w : World)
  (Hk : length kek = 32%nat) (Hv : 1 ≤ version) (Ha : aad_ok aad) :
  ∃ env w', Seal kek version plaintext aad w = (Ok env, w') ∧ database w' = database w ∧
    seal_memory w' = seal_memory w ∧ KEKVersion env = version ∧ Open kek env aad = Ok plaintext.
Proof. by apply Open_sealed. Qed.

Lemma Rewrap_opens (current next : list Z) (nextVersion : Z) (env : Envelope) (aad : AAD)
  (plaintext : list Z) (w : World) (Hn : length next = 32%nat) (Hv : 1 ≤ nextVersion)
  (Ho : Open current env aad = Ok plaintext) :
  ∃ env' w', Rewrap current next nextVersion env aad w = (Ok env', w') ∧ database w' = database w ∧
    seal_memory w' = seal_memory w ∧
    KEKVersion env' = nextVersion ∧ Ciphertext env' = Ciphertext env ∧ Open next env' aad = Ok plaintext.
Proof.
  unfold Open in Ho. destruct (Key_Validate current) as [[]|] eqn:Ek; [|done]. cbn [result_bind] in Ho.
  destruct (AAD_encode aad) as [enc|] eqn:Ee; [|done]. cbn [result_bind] in Ho.
  destruct (unwrapDEK current (WrappedDEK env) enc) as [dek|] eqn:Ed; [|done]. cbn [result_bind] in Ho.
  pose proof (unwrapDEK_length _ _ _ _ Ed) as Hd.
  unfold Rewrap, lift_result. rewrite Ek, (proj2 (Key_Validate_ok next) Hn), Ee.
  unfold bind at 1 2. destruct (Z.ltb_spec nextVersion 1); [lia|].
  unfold bind at 1. rewrite Ed. unfold bind at 1.
  destruct (sealWith_spec next dek enc w Hn) as (n1&w1&Hn1&Hw1&Hm1&E1).
  rewrite (bind_ok _ _ _ _ _ E1). eexists _, _. split; [done|]. split_and!; try done.
  unfold Open. cbn [WrappedDEK Ciphertext]. rewrite (proj2 (Key_Validate_ok next) Hn), Ee. cbn [result_bind].
  rewrite unwrapDEK_sealed by done. done.
Qed.

(** Rewrapping an envelope that unwraps moves it to the next key
  without touching the ciphertext, and it opens to what it opened to before. *)
Theorem Rewrap_Open (current next : list Z) (nextVersion : Z) (env : Envelope) (aad : AAD)
  (plaintext : list Z) (w : World) (Hn : length next = 32%nat) (Hv : 1 ≤ nextVersion)
  (Ho : Open current env aad = Ok plaintext) :
  ∃ env' w', Rewrap current next nextVersion env aad w = (Ok env', w') ∧ database w' = database w ∧
    seal_memory w' = seal_memory w ∧
    KEKVersion env' = nextVersion ∧ Ciphertext env' = Ciphertext env ∧ Open next env' aad = Ok plaintext.
Proof. by apply Rewrap_opens. Qed.

(** An envelope opens at one place only: if it opens at two, its wrapped
  key is one GCM ciphertext valid for two different associated data. *)
Theorem Open_binds_place (kek : list Z) (env : Envelope) (aad aad' : AAD) (p p' : list Z)
  (Hv : in_i64 (aad_Version aad)) (Hv' : in_i64 (aad_Version aad')) (Hne : aad ≠ aad')
  (Ho : Open kek env aad = Ok p) (Ho' : Open kek env aad' = Ok p') :
  ∃ nonce dek dek' enc enc', enc ≠ enc' ∧
    gcm_seal kek nonce dek enc = gcm_seal kek nonce dek' enc' ∧
    WrappedDEK env = nonce ++ gcm_seal kek nonce dek enc.
Proof.
  assert (∀ a q, Open kek env a = Ok q → ∃ enc dek, AAD_encode a = Ok enc ∧
    WrappedDEK env = take NonceSize (WrappedDEK env) ++ gcm_seal kek (take NonceSize (WrappedDEK env)) dek enc) as H1.
  { intros a q Ha. unfold Open in Ha. destruct (Key_Validate kek) as [[]|]; [|done].
    destruct (AAD_encode a) as [enc|]; [|done]. cbn [result_bind] in Ha.
    destruct (unwrapDEK kek (WrappedDEK env) enc) as [dek|] eqn:Ed; [|done].
    exists enc. unfold unwrapDEK, openWith in Ed. destruct (newAEAD kek); [|done]. cbn [result_bind] in Ed.
    destruct (_ <? _)%nat; [done|]. destruct (gcm_open _ _ _ _) as [x|] eqn:Eo; [|done].
    exists x. split; [done|]. apply gcm_open_inv in Eo. rewrite <- Eo. symmetry. apply take_drop. }
  destruct (H1 _ _ Ho) as (enc&dek&He&Hw), (H1 _ _ Ho') as (enc'&dek'&He'&Hw').
  exists (take NonceSize (WrappedDEK env)), dek, dek', enc, enc'. split_and!; [| |done].
  - intros <-. apply Hne. by apply (encode_inj aad aad' enc).
  - rewrite Hw in Hw' at 1. by apply app_inv_head in Hw'.
Qed.
End envelope_laws.

Import sample.
Definition sample_key (n : Z) : list Z := replicate 32 n.
Definition sample_world : World := fresh_world (fun _ => 0) (fun n => Z.of_nat (7 * n + 3)).
Definition sample_place : AAD := MkAAD "prod" "db/main" 3.

Lemma sample_place_ok : aad_ok sample_place.
Proof. by vm_compute. Qed.

Lemma AAD_encode_inj_witness : MkAAD "prod" "db/main" 3 = sample_place.
Proof.
  apply (AAD_encode_inj _ sample_place
    (match AAD_encode sample_place with Ok b => b | Err _ => [] end)); [by vm_compute..].
Defined.
Lemma Label_inj_witness : ["kek"; "prod"; "1"] = ["kek"; "prod"; "1"].
Proof.
  apply (Label_inj ["kek"; "prod"; "1"] ["kek"; "prod"; "1"]
    (match Label ["kek"; "prod"; "1"] with Ok b => b | Err _ => "" end)); by vm_compute.
Defined.
Lemma Open_Seal_witness : ∃ env w',
  Seal (sample_key 9) 2 [1; 2; 3] sample_place sample_world = (Ok env, w') ∧
  database w' = database sample_world ∧ seal_memory w' = seal_memory sample_world ∧
  KEKVersion env = 2 ∧ Open (sample_key 9) env sample_place = Ok [1; 2; 3].
Proof.
  apply (Open_Seal (sample_key 9) 2 [1; 2; 3] sample_place sample_world);
    [reflexivity|lia|apply sample_place_ok].
Defined.
Definition sample_envelope : Envelope :=
  match fst (Seal (sample_key 9) 2 [1; 2; 3] sample_place sample_world) with
  | Ok env => env | Err _ => MkEnvelope 0 [] []
  end.
Lemma Rewrap_Open_witness : ∃ env' w',
  Rewrap (sample_key 9) (sample_key 8) 3 sample_envelope sample_place sample_world = (Ok env', w') ∧
  database w' = database sample_world ∧ seal_memory w' = seal_memory sample_world ∧
  KEKVersion env' = 3 ∧ Ciphertext env' = Ciphertext sample_envelope ∧
  Open (sample_key 8) env' sample_place = Ok [1; 2; 3].
Proof.
  apply (Rewrap_Open (sample_key 9) (sample_key 8) 3 sample_envelope sample_place [1; 2; 3] sample_world);
    [reflexivity|lia|by vm_compute].
Defined.
Lemma Open_binds_place_witness :
  let env := MkEnvelope 1 (replicate 60 0) (replicate 30 0) in
  ∃ nonce dek dek' enc enc', enc ≠ enc' ∧
    @gcm_seal sample.weak_primitives (sample_key 9) nonce dek enc =
    @gcm_seal sample.weak_primitives (sample_key 9) nonce dek' enc' ∧
    WrappedDEK env = nonce ++ @gcm_seal sample.weak_primitives (sample_key 9) nonce dek enc.
Proof.
  intros env. apply (@Open_binds_place sample.weak_primitives sample.weak_laws (sample_key 9) env sample_place (MkAAD "dev" "db/main" 3)
    [0; 0] [0; 0]); by vm_compute.
Defined.
End crypto.
