(* ===== verification/AuditTrail.v ===== *)
(** platform/audit: the hash-chained log. [Append] writes one JSON line per
  event; [Verify] reads the lines back and checks sequence, link and hash. *)
From Stdlib Require Import ZArith Lia.
From S2P Require Import Prelude GoStrings GoTime Json World Envelope.

Module audit.
Definition ResultAllow : string := "allow".
Definition ResultDeny : string := "deny".
Definition ResultError : string := "error".
Definition Genesis : string := "".

Definition ErrNoOperation : string := "audit: an operation is required".
Definition ErrNoResult : string := "audit: an unknown result".
Definition ErrClosed : string := "audit: the log is closed".
Definition ErrBroken : string := "audit: the chain does not verify".

Definition results : list string := [ResultAllow; ResultDeny; ResultError].

Record Event := MkEvent {
  Operation : string; Identity : string; Tenant : string; Path : string; Version : Z;
  Result : string; Policy : string; Rule : string; RequestID : string; SourceIP : string }.

Definition validate (e : Event) : result unit :=
  if String.eqb (Operation e) "" then Err [ErrNoOperation]
  else if bool_decide (Result e ∈ results) then Ok tt else Err [ErrNoResult].

Record AuditRecord := MkRecord {
  Sequence : Z; Time : string; Body : Event; PrevHash : string; Hash : string }.

Definition hex_of (b : list Z) : string :=
  string_of_bytes (b ≫= fun x => [byte_of_ascii (hex_digit (x / 16)); byte_of_ascii (hex_digit (x mod 16))]).

Section chain.
Context `{Primitives}.

(** The fields in the order they are hashed. *)
Definition hashed_fields (r : AuditRecord) : list string :=
  let e := Body r in
  [Itoa (Sequence r); Time r; Operation e; Identity e; Tenant e; Path e; Itoa (Version e);
   Result e; Policy e; Rule e; RequestID e; SourceIP e].
Definition preimage (r : AuditRecord) : list Z :=
  bytes_of_string (PrevHash r) ++ (hashed_fields r ≫= framed).
Definition chain (r : AuditRecord) : string := hex_of (sha256_sum (preimage r)).

Definition newRecord (sequence at_ : Z) (event : Event) (previous : string) : AuditRecord :=
  let r := MkRecord sequence (FormatTime at_) event previous "" in
  MkRecord sequence (FormatTime at_) event previous (chain r).
End chain.

Definition not_empty (l : string) : bool := negb (String.eqb l "").

(** The JSON form, with the tags of the struct. *)
Definition field_names : list string :=
  ["seq"; "ts"; "op"; "identity"; "tenant"; "path"; "version"; "result"; "policy"; "rule";
   "request_id"; "source_ip"; "prev_hash"; "hash"].
Definition to_json (r : AuditRecord) : json :=
  let e := Body r in
  JObj ([("seq", JNum (Itoa (Sequence r)))] ++ [("ts", JStr (Time r))] ++ [("op", JStr (Operation e))] ++
    omit_str "identity" (Identity e) ++ omit_str "tenant" (Tenant e) ++ omit_str "path" (Path e) ++
    omit_int "version" (Version e) ++ [("result", JStr (Result e))] ++ omit_str "policy" (Policy e) ++
    omit_str "rule" (Rule e) ++ omit_str "request_id" (RequestID e) ++ omit_str "source_ip" (SourceIP e) ++
    [("prev_hash", JStr (PrevHash r))] ++ [("hash", JStr (Hash r))]).
Definition encode (r : AuditRecord) : string := print (to_json r).

(** [json.Unmarshal] into a zero [Record]. *)
Definition of_json (v : json) : option AuditRecord :=
  match v with
  | JObj l =>
      let str name := field_value field_names name to_str "" l in
      let int name := field_value field_names name to_int 0 l in
      seq ← int "seq"; ts ← str "ts"; op ← str "op"; identity ← str "identity"; tenant ← str "tenant";
      path ← str "path"; version ← int "version"; res ← str "result"; policy ← str "policy"; rule ← str "rule";
      request_id ← str "request_id"; source_ip ← str "source_ip"; prev ← str "prev_hash"; hash ← str "hash";
      Some (MkRecord seq ts (MkEvent op identity tenant path version res policy rule request_id source_ip) prev hash)
  | JNull => Some (MkRecord 0 "" (MkEvent "" "" "" "" 0 "" "" "" "" "") "" "")
  | _ => None
  end.
Definition decode (line : string) : option AuditRecord := v ← parse line; of_json v.

Definition maxLineSize : Z := Z.shiftl 1 20.
Record Report := MkReport { Records : Z; LastHash : string }.

Section log.
Context `{Primitives}.

(** The loop of [Verify] over the lines of the scanner: a line that does not fit
  its buffer with the newline ends the scan with an error. *)
Fixpoint verify_loop (lines : list string) (expected : Z) (previous : string) (report : Report) : result Report :=
  match lines with
  | [] => Ok (MkReport (Records report) previous)
  | line :: lines =>
      if maxLineSize <=? len line then Err [ErrBroken]
      else if String.eqb line "" then verify_loop lines expected previous report
      else match decode line with
           | None => Err [ErrBroken]
           | Some record =>
               if negb (Sequence record =? expected) then Err [ErrBroken]
               else if negb (String.eqb (PrevHash record) previous) then Err [ErrBroken]
               else if negb (String.eqb (chain record) (Hash record)) then Err [ErrBroken]
               else verify_loop lines (expected + 1) (Hash record) (MkReport (Sequence record) (LastHash report))
           end
  end.
Definition Verify (lines : list string) : result Report :=
  verify_loop lines 1 Genesis (MkReport 0 "").

(** [Open] on an existing file ([None] when there is none): the log continues
  from the report of [Verify], or does not open. *)
Definition readTip (file : option (list string)) : result Report :=
  match file with
  | None => Ok (MkReport 0 Genesis)
  | Some lines => Verify lines
  end.
Definition Open (file : option (list string)) : result AuditLog :=
  let? tip := readTip file in
  Ok (MkAuditLog (default [] file) (Records tip) (LastHash tip) false false).

(** Writing the line and flushing it: the buffered writer keeps its first error. *)
Definition write_line (line : string) : M World unit := fun w =>
  let log := audit_log w in
  if al_failed log then (Err [ErrDriver], w)
  else
    let '(b, w') := next_fault w in
    if b then (Err [ErrDriver],
      set_audit_log (MkAuditLog (al_lines log) (al_sequence log) (al_previous log) (al_closed log) true) w')
    else (Ok tt,
      set_audit_log (MkAuditLog (al_lines log ++ [line]) (al_sequence log) (al_previous log) (al_closed log) false) w').
Definition sync : M World unit := fun w =>
  let '(b, w') := next_fault w in (if b then Err [ErrDriver] else Ok tt, w').
Definition advance (r : AuditRecord) : M World unit := modify (fun w =>
  let log := audit_log w in
  set_audit_log (MkAuditLog (al_lines log) (Sequence r) (Hash r) (al_closed log) (al_failed log)) w).

Definition Append (event : Event) : M World unit :=
  let! _ := lift_result (validate event) in
  let! w := get in
  if al_closed (audit_log w) then fail [ErrClosed]
  else
    let! t := now in
    let record := newRecord (wrap64 (al_sequence (audit_log w) + 1)) t event (al_previous (audit_log w)) in
    write_line (encode record) ;!
    sync ;!
    advance record.

(** At [Close] the buffer is empty, so flushing it can only repeat the error of a
  write that failed; the file is synced and closed whatever the calls before say. *)
Definition flush : M World unit := fun w => (if al_failed (audit_log w) then Err [ErrDriver] else Ok tt, w).
Definition close_file : M World unit := fun w =>
  let '(b, w') := next_fault w in (if b then Err [ErrDriver] else Ok tt, w').
Definition mark_closed : M World unit := modify (fun w =>
  let log := audit_log w in
  set_audit_log (MkAuditLog (al_lines log) (al_sequence log) (al_previous log) true (al_failed log)) w).
Definition Close : M World unit :=
  let! w := get in
  if al_closed (audit_log w) then ret tt
  else mark_closed ;! both flush (both sync close_file).
End log.

(** ** Reading back what was written *)
Definition clean_event (e : Event) : Event :=
  MkEvent (sanitize (Operation e)) (sanitize (Identity e)) (sanitize (Tenant e)) (sanitize (Path e)) (Version e)
    (sanitize (Result e)) (sanitize (Policy e)) (sanitize (Rule e)) (sanitize (RequestID e)) (sanitize (SourceIP e)).
Definition clean_record (r : AuditRecord) : AuditRecord :=
  MkRecord (Sequence r) (sanitize (Time r)) (clean_event (Body r)) (sanitize (PrevHash r)) (sanitize (Hash r)).
Definition record_ints (r : AuditRecord) : Prop := in_i64 (Sequence r) ∧ in_i64 (Version (Body r)).

Lemma clean_omit_str name s : sanitize name = name →
  List.map (fun m => (sanitize (fst m), clean (snd m))) (omit_str name s) = omit_str name (sanitize s).
Proof.
  intros Hn. unfold omit_str. destruct (String.eqb_spec s "") as [->|Hs]; [done|].
  destruct (String.eqb_spec (sanitize s) "") as [E|]; [by apply sanitize_nonempty in E|].
  cbn. by rewrite Hn.
Qed.
Lemma clean_omit_int name z : sanitize name = name →
  List.map (fun m => (sanitize (fst m), clean (snd m))) (omit_int name z) = omit_int name z.
Proof. intros Hn. unfold omit_int. destruct (z =? 0); [done|]. cbn. by rewrite Hn. Qed.

Lemma field_names_of name : name ∈ field_names → field_of field_names name = Some name.
Proof. intros H. unfold field_of. by rewrite bool_decide_eq_true_2. Qed.

Ltac other_field := first
  [ apply field_value_other; by vm_compute
  | apply field_value_omit_other; by vm_compute
  | apply field_value_omit_int_other; by vm_compute ].
(** Skips the members before the field, reads it, skips the members after it. *)
Ltac read_field same :=
  repeat (erewrite field_value_app; [|other_field]);
  first
  [ erewrite field_value_app; [|same];
    repeat (erewrite field_value_app; [|other_field]); other_field
  | same ].

Lemma of_json_to_json r : record_ints r → of_json (clean (to_json r)) = Some (clean_record r).
Proof.
  intros [Hs Hv]. unfold to_json. cbn [clean]. rewrite !List.map_app.
  rewrite !clean_omit_str, clean_omit_int by (by vm_compute).
  cbn [List.map fst snd clean].
  change (sanitize "seq") with "seq". change (sanitize "ts") with "ts". change (sanitize "op") with "op".
  change (sanitize "result") with "result". change (sanitize "prev_hash") with "prev_hash".
  change (sanitize "hash") with "hash". unfold of_json. cbv zeta.
  destruct r as [sq ts [op id te pa ve re po ru rq so] pv ha]. unfold clean_record, clean_event.
  cbn [Sequence Time Body PrevHash Hash Operation Identity Tenant Path Version Result Policy Rule RequestID SourceIP] in *.
  set (l := _ ++ _).
  assert (∀ name s zero, name ∈ field_names → field_value field_names name to_str zero [(name, JStr s)] = Some s) as Hstr
    by (intros; by rewrite field_value_same; [|apply field_names_of|]).
  assert (∀ name s, name ∈ field_names → field_value field_names name to_str "" (omit_str name s) = Some s) as Homit
    by (intros; by apply field_value_omit_str, field_names_of).
  assert (field_value field_names "seq" to_int 0 l = Some sq) as ->.
  { subst l. erewrite field_value_app; [|rewrite field_value_same by done; by apply Atoi_Itoa].
    repeat (erewrite field_value_app; [|other_field]). other_field. }
  assert (field_value field_names "version" to_int 0 l = Some ve) as ->.
  { subst l. read_field ltac:(apply field_value_omit_int; done). }
  cbn [mbind option_bind].
  assert (field_value field_names "ts" to_str "" l = Some (sanitize ts)) as ->
    by (subst l; read_field ltac:(apply Hstr; set_solver)).
  assert (field_value field_names "op" to_str "" l = Some (sanitize op)) as ->
    by (subst l; read_field ltac:(apply Hstr; set_solver)).
  assert (field_value field_names "identity" to_str "" l = Some (sanitize id)) as ->
    by (subst l; read_field ltac:(apply Homit; set_solver)).
  assert (field_value field_names "tenant" to_str "" l = Some (sanitize te)) as ->
    by (subst l; read_field ltac:(apply Homit; set_solver)).
  assert (field_value field_names "path" to_str "" l = Some (sanitize pa)) as ->
    by (subst l; read_field ltac:(apply Homit; set_solver)).
  assert (field_value field_names "result" to_str "" l = Some (sanitize re)) as ->
    by (subst l; read_field ltac:(apply Hstr; set_solver)).
  assert (field_value field_names "policy" to_str "" l = Some (sanitize po)) as ->
    by (subst l; read_field ltac:(apply Homit; set_solver)).
  assert (field_value field_names "rule" to_str "" l = Some (sanitize ru)) as ->
    by (subst l; read_field ltac:(apply Homit; set_solver)).
  assert (field_value field_names "request_id" to_str "" l = Some (sanitize rq)) as ->
    by (subst l; read_field ltac:(apply Homit; set_solver)).
  assert (field_value field_names "source_ip" to_str "" l = Some (sanitize so)) as ->
    by (subst l; read_field ltac:(apply Homit; set_solver)).
  assert (field_value field_names "prev_hash" to_str "" l = Some (sanitize pv)) as ->
    by (subst l; read_field ltac:(apply Hstr; set_solver)).
  assert (field_value field_names "hash" to_str "" l = Some (sanitize ha)) as ->
    by (subst l; read_field ltac:(apply Hstr; set_solver)).
  done.
Qed.

Definition all_numbers (l : list (string * json)) : Prop :=
  foldr (fun m acc => numbers_ok (snd m) ∧ acc) True l.
Lemma all_numbers_app l l' : all_numbers l → all_numbers l' → all_numbers (l ++ l').
Proof. induction l as [|m l IH]; [done|]. intros [? ?] ?. split; [done|by apply IH]. Qed.
Lemma all_numbers_str name s : all_numbers [(name, JStr s)].
Proof. done. Qed.
Lemma all_numbers_omit_str name s : all_numbers (omit_str name s).
Proof. unfold omit_str. by destruct (String.eqb s ""). Qed.
Lemma all_numbers_int name z : in_i64 z → all_numbers [(name, JNum (Itoa z))].
Proof. intros. split; [by apply i64_literal|done]. Qed.
Lemma all_numbers_omit_int name z : in_i64 z → all_numbers (omit_int name z).
Proof. intros Hz. unfold omit_int. destruct (z =? 0); [done|by apply all_numbers_int]. Qed.

(** Reading back the line of a record gives the record, its strings sanitized. *)
Lemma decode_encode r : record_ints r → decode (encode r) = Some (clean_record r).
Proof.
  intros Hr. unfold decode, encode. rewrite parse_print.
  - cbn [mbind option_bind]. by apply of_json_to_json.
  - destruct Hr as [Hs Hv]. unfold to_json. cbn [numbers_ok]. fold all_numbers.
    repeat apply all_numbers_app; auto using all_numbers_str, all_numbers_omit_str, all_numbers_int, all_numbers_omit_int.
Qed.

#[global] Arguments encode : simpl never.
#[global] Arguments decode : simpl never.
#[global] Arguments newRecord : simpl never.
#[global] Arguments Append : simpl never.
Lemma filter_encode r lines : filter not_empty (encode r :: lines) = encode r :: filter not_empty lines.
Proof. by rewrite filter_cons, decide_True. Qed.

Lemma hex_digit_ok d : 0 ≤ d < 16 →
  hex_val (hex_digit d) = Some d ∧ byte_of_ascii (hex_digit d) < 128.
Proof.
  intros Hd.
  pose proof (check_from_spec (fun d => bool_decide (hex_val (hex_digit d) = Some d) && (byte_of_ascii (hex_digit d) <? 128))
    16 0 ltac:(by vm_compute) d ltac:(lia)) as H. cbv beta in H. reflect_bools. done.
Qed.
Lemma hex_digit_inj d e : 0 ≤ d < 16 → 0 ≤ e < 16 → hex_digit d = hex_digit e → d = e.
Proof.
  intros Hd He E. apply (f_equal hex_val) in E.
  rewrite (proj1 (hex_digit_ok d Hd)), (proj1 (hex_digit_ok e He)) in E. congruence.
Qed.
Lemma hex_of_cons x b : hex_of (x :: b) = String (hex_digit (x / 16)) (String (hex_digit (x mod 16)) (hex_of b)).
Proof. unfold hex_of. cbn. by rewrite !ascii_of_byte_of_ascii. Qed.
Lemma hex_halves x : byte_ok x → 0 ≤ x / 16 < 16 ∧ 0 ≤ x mod 16 < 16.
Proof. unfold byte_ok. intros. split; [|by apply Z.mod_pos_bound]. split; [apply Z.div_pos; lia|apply Z.div_lt_upper_bound; lia]. Qed.
Lemma hex_of_spec b : Forall byte_ok b → ascii_only (hex_of b) = true ∧ len (hex_of b) = 2 * blen b.
Proof.
  induction 1 as [|x b Hx _ [IHa IHl]]; [done|]. rewrite hex_of_cons. destruct (hex_halves x Hx).
  split.
  - cbn [ascii_only]. rewrite IHa, !(proj2 (Z.ltb_lt _ _)); [done|apply hex_digit_ok; lia..].
  - unfold len, blen in *. simpl. lia.
Qed.
Lemma hex_of_inj b b' : Forall byte_ok b → Forall byte_ok b' → hex_of b = hex_of b' → b = b'.
Proof.
  intros Hb. revert b'. induction Hb as [|x b Hx _ IH]; intros [|y b'] Hb' E; rewrite ?hex_of_cons in E; try done.
  apply Forall_cons in Hb' as [Hy Hb']. injection E as E1 E2 E3.
  destruct (hex_halves x Hx), (hex_halves y Hy).
  apply hex_digit_inj in E1, E2; [|done..].
  f_equal; [|by apply IH]. rewrite (Z.div_mod x 16), (Z.div_mod y 16) by lia. congruence.
Qed.

Section theory.
Context `{PrimitiveLaws}.

Lemma chain_spec r : ascii_only (chain r) = true ∧ len (chain r) = 64.
Proof.
  unfold chain. destruct (hex_of_spec (sha256_sum (preimage r)) (sha256_bytes _)) as [Ha Hl].
  split; [done|]. rewrite Hl. unfold blen. by rewrite sha256_length.
Qed.

(** ** [Verify] accepts exactly the files that hold a chain *)
Fixpoint chained (expected : Z) (previous : string) (rs : list AuditRecord) : Prop :=
  match rs with
  | [] => True
  | r :: rs => Sequence r = expected ∧ PrevHash r = previous ∧ chain r = Hash r ∧ chained (expected + 1) (Hash r) rs
  end.
Definition last_hash (previous : string) (rs : list AuditRecord) : string :=
  match last rs with Some r => Hash r | None => previous end.
Definition lines_fit (lines : list string) : Prop := Forall (fun l => len l < maxLineSize) lines.
Definition reads_as (lines : list string) (rs : list AuditRecord) : Prop :=
  Forall2 (fun l r => decode l = Some r) (filter not_empty lines) rs.

Lemma last_hash_cons p r rs : last_hash p (r :: rs) = last_hash (Hash r) rs.
Proof. unfold last_hash. destruct rs as [|r' rs]; [done|]. rewrite last_cons_cons. by destruct (last (r' :: rs)) eqn:E; [|apply last_None in E]. Qed.

Lemma verify_loop_ok lines e p rep rep' : Records rep = e - 1 →
  verify_loop lines e p rep = Ok rep' ↔
  lines_fit lines ∧ ∃ rs, reads_as lines rs ∧ chained e p rs ∧
    rep' = MkReport (e - 1 + blen rs) (last_hash p rs).
Proof.
  revert e p rep. induction lines as [|line lines IH]; intros e p rep Hrep; cbn [verify_loop].
  - split.
    + intros [= <-]. split; [constructor|]. exists []. split; [apply Forall2_nil_2|]. split; [done|].
      unfold blen. cbn. rewrite Z.add_0_r. by f_equal.
    + intros (_&rs&Hr&_&->). unfold reads_as in Hr. cbn in Hr. apply Forall2_nil_inv_l in Hr as ->.
      unfold blen. cbn. by rewrite Z.add_0_r, Hrep.
  - unfold lines_fit, reads_as. rewrite Forall_cons, filter_cons.
    destruct (Z.leb_spec maxLineSize (len line)) as [Hl|Hl]; [split; [done|intros [[? _] _]; lia]|].
    destruct (String.eqb_spec line "") as [->|Hne].
    { rewrite decide_False by (intros []). rewrite IH by done. unfold lines_fit, reads_as. tauto. }
    rewrite decide_True by (unfold not_empty; by destruct (String.eqb_spec line "")).
    destruct (decode line) as [r|] eqn:Ed.
    2: { split; [done|]. intros (_&rs&Hr&_). apply Forall2_cons_inv_l in Hr as (r&?&Hr&_). congruence. }
    assert (∀ rs, Forall2 (fun l r => decode l = Some r) (line :: filter not_empty lines) rs ↔
      ∃ rs', rs = r :: rs' ∧ reads_as lines rs') as Hrs.
    { intros rs. split.
      - intros (r'&rs'&Hr&?&->)%Forall2_cons_inv_l. exists rs'. split; [congruence|done].
      - intros (rs'&->&?). by constructor. }
    setoid_rewrite Hrs. clear Hrs.
    assert ((∃ rs, (∃ rs', rs = r :: rs' ∧ reads_as lines rs') ∧ chained e p rs ∧
        rep' = MkReport (e - 1 + blen rs) (last_hash p rs)) ↔
      (Sequence r = e ∧ PrevHash r = p ∧ chain r = Hash r) ∧
      ∃ rs', reads_as lines rs' ∧ chained (e + 1) (Hash r) rs' ∧
        rep' = MkReport (e + 1 - 1 + blen rs') (last_hash (Hash r) rs')) as ->.
    { split.
      - intros (rs&(rs'&->&Hr)&(?&?&?&?)&->). split; [done|]. exists rs'. split_and!; [done|done|].
        rewrite last_hash_cons. f_equal. unfold blen. simpl. lia.
      - intros ((?&?&?)&rs'&?&?&->). exists (r :: rs'). split; [eauto|]. split; [done|].
        rewrite last_hash_cons. f_equal. unfold blen. simpl. lia. }
    destruct (Z.eqb_spec (Sequence r) e) as [<-|]; cbn [negb]; [|split; [done|tauto]].
    destruct (String.eqb_spec (PrevHash r) p) as [<-|]; cbn [negb]; [|split; [done|tauto]].
    destruct (String.eqb_spec (chain r) (Hash r)) as [Hc|]; cbn [negb]; [|split; [done|tauto]].
    rewrite IH by (cbn; lia). unfold lines_fit. tauto.
Qed.

Lemma Verify_ok lines rep :
  Verify lines = Ok rep ↔
  lines_fit lines ∧ ∃ rs, reads_as lines rs ∧ chained 1 Genesis rs ∧
    rep = MkReport (blen rs) (last_hash Genesis rs).
Proof. unfold Verify. rewrite verify_loop_ok by done. cbn. done. Qed.

Lemma chained_app e p rs r : chained e p (rs ++ [r]) ↔
  chained e p rs ∧ Sequence r = e + blen rs ∧ PrevHash r = last_hash p rs ∧ chain r = Hash r.
Proof.
  revert e p. induction rs as [|x rs IH]; intros e p; cbn [app chained].
  - unfold blen, last_hash. cbn. rewrite Z.add_0_r. tauto.
  - rewrite IH, last_hash_cons. unfold blen. cbn [length].
    replace (e + 1 + Z.of_nat (length rs)) with (e + Z.of_nat (S (length rs))) by lia. tauto.
Qed.
Lemma last_hash_snoc p rs r : last_hash p (rs ++ [r]) = Hash r.
Proof. unfold last_hash. by rewrite last_snoc. Qed.
Lemma reads_as_snoc lines rs line r : line ≠ "" → decode line = Some r →
  reads_as lines rs → reads_as (lines ++ [line]) (rs ++ [r]).
Proof.
  intros Hne Hd Hr. unfold reads_as in *. rewrite filter_app. apply Forall2_app; [done|].
  rewrite filter_cons, decide_True by (unfold not_empty; by destruct (String.eqb_spec line "")).
  repeat constructor; done.
Qed.
Lemma Verify_snoc lines rep line r : Verify lines = Ok rep → line ≠ "" → len line < maxLineSize →
  decode line = Some r → Sequence r = Records rep + 1 → PrevHash r = LastHash rep → chain r = Hash r →
  Verify (lines ++ [line]) = Ok (MkReport (Sequence r) (Hash r)).
Proof.
  rewrite !Verify_ok. intros (Hf&rs&Hr&Hc&->) Hne Hl Hd Hs Hp Hh. cbn in Hs, Hp. split.
  { apply Forall_app. split; [done|by repeat constructor]. }
  exists (rs ++ [r]). split; [by apply reads_as_snoc|]. rewrite chained_app, last_hash_snoc. split.
  - split_and!; try done. lia.
  - rewrite Hs. f_equal. unfold blen. rewrite length_app. cbn. lia.
Qed.
Lemma Verify_bounds lines rep : Verify lines = Ok rep → 0 ≤ Records rep ∧ ascii_only (LastHash rep) = true.
Proof.
  rewrite Verify_ok. intros (_&rs&_&Hc&->). cbn. split; [unfold blen; lia|].
  destruct rs as [|r rs _] using rev_ind; [done|]. rewrite last_hash_snoc.
  apply chained_app in Hc as (_&_&_&<-). apply chain_spec.
Qed.

(** ** [Append] *)
Lemma Append_inv event w o w' : Append event w = (o, w') →
  let log := audit_log w in
  let r := newRecord (wrap64 (al_sequence log + 1)) (clock w 0) event (al_previous log) in
  match o with
  | Ok _ => validate event = Ok tt ∧ al_closed log = false ∧ al_failed log = false ∧
      audit_log w' = MkAuditLog (al_lines log ++ [encode r]) (Sequence r) (Hash r) false false
  | Err _ => al_sequence (audit_log w') = al_sequence log ∧ al_previous (audit_log w') = al_previous log ∧
      (al_lines (audit_log w') = al_lines log ∨
       faults w 0%nat = false ∧ faults w 1%nat = true ∧ al_failed log = false ∧ al_closed log = false ∧
       al_failed (audit_log w') = false ∧ al_closed (audit_log w') = false ∧
       al_lines (audit_log w') = al_lines log ++ [encode r])
  end ∧ database w' = database w.
Proof.
  cbv zeta. unfold Append, bind, lift_result, get, now, write_line, sync, advance, modify, next_fault.
  destruct (validate event) as [[]|e] eqn:Ev; [|intros [= <- <-]; auto 10].
  destruct (al_closed (audit_log w)) eqn:Ec; [intros [= <- <-]; auto 10|].
  cbn [audit_log set_clock faults]. destruct (al_failed (audit_log w)) eqn:Ef; [intros [= <- <-]; auto 10|].
  destruct (faults w 0%nat) eqn:E0; [intros [= <- <-]; auto 10|]. cbn.
  destruct (faults w 1%nat) eqn:E1; intros [= <- <-]; cbn; rewrite ?Ec; auto 20.
Qed.

Lemma Append_memory event w : seal_memory (snd (Append event w)) = seal_memory w.
Proof.
  unfold Append, bind, lift_result, get, now, write_line, sync, advance, modify, next_fault. cbv beta zeta.
  repeat (case_match; simplify_eq; try done).
Qed.

(** [Close] closes whatever fails on the way, says so, and does nothing to a log that is
  closed already. *)
Lemma Close_effect w : database (snd (Close w)) = database w ∧ seal_memory (snd (Close w)) = seal_memory w ∧
  al_closed (audit_log (snd (Close w))) = true ∧ al_lines (audit_log (snd (Close w))) = al_lines (audit_log w) ∧
  is_ok (fst (Close w)) = al_closed (audit_log w) || negb (al_failed (audit_log w)) && negb (faults w 0%nat) && negb (faults w 1%nat).
Proof.
  unfold Close, bind, get. destruct (al_closed (audit_log w)) eqn:Ec; [done|]. unfold both, mark_closed, modify, flush, sync, close_file, next_fault. cbn.
  by destruct (al_failed (audit_log w)), (faults w 0%nat), (faults w 1%nat).
Qed.

(** The log in memory is the one the file holds. *)
Definition log_ok (log : AuditLog) : Prop :=
  Verify (al_lines log) = Ok (MkReport (al_sequence log) (al_previous log)).

Lemma clean_newRecord sequence t event previous :
  clean_event event = event → ascii_only previous = true →
  clean_record (newRecord sequence t event previous) = newRecord sequence t event previous.
Proof.
  intros He Hp. unfold clean_record, newRecord. cbn [Sequence Time Body PrevHash Hash].
  rewrite He, !sanitize_ascii; [done|apply chain_spec|done|apply ascii_only_FormatTime].
Qed.
Lemma newRecord_ints sequence t event previous :
  in_i64 sequence → in_i64 (Version event) → record_ints (newRecord sequence t event previous).
Proof. done. Qed.
Lemma newRecord_Sequence sequence t event previous : Sequence (newRecord sequence t event previous) = sequence.
Proof. done. Qed.
Lemma newRecord_chain sequence t event previous :
  chain (newRecord sequence t event previous) = Hash (newRecord sequence t event previous).
Proof. done. Qed.

(** C21. A successful [Append] of an event in valid UTF-8, on a line the
  verifier can read (under 1 MiB, which [Append] does not ask for), keeps the chain verifying and adds exactly the record of
  that event: next sequence number, linked to the record before it. *)
Theorem Append_verifies (event : Event) (w w' : World)
  (Hlog : log_ok (audit_log w)) (Hrun : Append event w = (Ok tt, w'))
  (Hutf : clean_event event = event) (Hv : in_i64 (Version event))
  (Hseq : al_sequence (audit_log w) < i64_max)
  (Hfit : lines_fit (al_lines (audit_log w'))) :
  log_ok (audit_log w') ∧ database w' = database w ∧
  ∃ line r, al_lines (audit_log w') = al_lines (audit_log w) ++ [line] ∧ decode line = Some r ∧
    Body r = event ∧ Sequence r = al_sequence (audit_log w) + 1 ∧
    PrevHash r = al_previous (audit_log w) ∧ Time r = FormatTime (clock w 0).
Proof.
  destruct (Append_inv _ _ _ _ Hrun) as [(_&_&_&Hl) Hd]. cbv zeta in *.
  destruct (Verify_bounds _ _ Hlog) as [Hnn Ha]. cbn in Hnn, Ha.
  rewrite wrap64_id in Hl by (unfold in_i64, i64_min, i64_max in *; lia).
  set (r := newRecord _ _ _ _) in Hl.
  assert (decode (encode r) = Some r) as Hdec.
  { rewrite decode_encode; [f_equal; by apply clean_newRecord|].
    apply newRecord_ints; [unfold in_i64, i64_min, i64_max in *; lia|done]. }
  split.
  - unfold log_ok. rewrite Hl in Hfit |- *. cbn [al_lines al_sequence al_previous] in *. apply Forall_app in Hfit as [_ Hfit].
    apply Forall_cons in Hfit as [Hfit _]. by eapply Verify_snoc.
  - split; [done|]. exists (encode r), r. by rewrite Hl.
Qed.

(** What the chain does not show: cutting records off the end leaves a
  file that verifies. *)
Theorem Verify_prefix (l1 l2 : list string) (rep : Report) (Hv : Verify (l1 ++ l2) = Ok rep) :
  ∃ rep', Verify l1 = Ok rep'.
Proof.
  apply Verify_ok in Hv as (Hf&rs&Hr&Hc&_). unfold reads_as in Hr. rewrite filter_app in Hr.
  apply Forall2_app_inv_l in Hr as (rs1&rs2&Hr1&_&->). apply Forall_app in Hf as [Hf _].
  eexists. apply Verify_ok. split; [done|]. exists rs1. split; [done|]. split; [|done].
  clear -Hc. revert Hc. generalize Genesis, 1. induction rs1 as [|r rs1 IH]; intros p e Hc; [done|].
  cbn [app chained] in *. destruct Hc as (?&?&?&Hc). auto.
Qed.

(** Two records of one number behind a log that verifies. *)
Lemma repeated_number w lines r1 r2 : log_ok (audit_log w) → lines = al_lines (audit_log w) ++ [encode r1; encode r2] →
  record_ints r1 → record_ints r2 → Sequence r1 = Sequence r2 → is_ok (Verify lines) = false.
Proof.
  intros Hlog -> Hi1 Hi2 Hs. destruct (Verify _) as [rep|] eqn:Hv; [exfalso|done].
  apply Verify_ok in Hv as (_&rs&Hr&Hc&_). unfold reads_as in Hr. rewrite filter_app in Hr.
  apply Forall2_app_inv_l in Hr as (rs1&rs2&Hr1&Hr2&->). rewrite !filter_encode in Hr2.
  apply Forall2_cons_inv_l in Hr2 as (c1&?&Hd1&Hr2&->). apply Forall2_cons_inv_l in Hr2 as (c2&?&Hd2&Hr2&->).
  apply Forall2_nil_inv_l in Hr2 as ->. rewrite decode_encode in Hd1, Hd2 by done.
  change (rs1 ++ [c1; c2]) with (rs1 ++ [c1] ++ [c2]) in Hc. rewrite app_assoc, !chained_app in Hc.
  destruct Hc as ((_&E1&_)&E2&_). unfold blen in *. rewrite length_app in E2. simpl in E2.
  injection Hd1 as <-. injection Hd2 as <-. cbn [clean_record Sequence] in E1, E2. lia.
Qed.

(** C22. When the write reached the file but [fsync] failed, the sequence number is not
  advanced: the next successful [Append] writes a second record with the number of the
  first, and from then on the file never verifies, whatever is appended to it. *)
Theorem Append_after_failed_sync (e1 e2 : Event) (w w1 w2 : World) (err : list string)
  (H1 : Append e1 w = (Err err, w1)) (Hwritten : al_lines (audit_log w1) ≠ al_lines (audit_log w))
  (H2 : Append e2 w1 = (Ok tt, w2)) (Hlog : log_ok (audit_log w))
  (Hv1 : in_i64 (Version e1)) (Hv2 : in_i64 (Version e2)) (Hseq : al_sequence (audit_log w) < i64_max) :
  (∃ r1 r2, al_lines (audit_log w2) = al_lines (audit_log w) ++ [encode r1; encode r2] ∧ Body r1 = e1 ∧ Body r2 = e2 ∧
     Sequence r1 = al_sequence (audit_log w) + 1 ∧ Sequence r2 = al_sequence (audit_log w) + 1) ∧
  ∀ later, is_ok (Verify (al_lines (audit_log w2) ++ later)) = false.
Proof.
  destruct (Append_inv _ _ _ _ H1) as [(Hs&Hp&[Hl|(_&_&_&_&_&_&Hl1)]) _]; [by rewrite Hl in Hwritten|].
  destruct (Append_inv _ _ _ _ H2) as [(_&_&_&Hl2) _]. cbv zeta in *. destruct (Verify_bounds _ _ Hlog) as [Hnn _]. cbn in Hnn.
  rewrite Hs in Hl2. rewrite wrap64_id in Hl1, Hl2 by (unfold in_i64, i64_min, i64_max in *; lia).
  assert (in_i64 (al_sequence (audit_log w) + 1)) as Hn by (unfold in_i64, i64_min, i64_max in *; lia).
  eassert (al_lines (audit_log w2) = al_lines (audit_log w) ++ [encode _; encode _]) as Hlines.
  { rewrite Hl2. cbn [al_lines]. rewrite Hl1, <- app_assoc. reflexivity. }
  split; [by do 2 eexists|]. intros later. destruct (Verify (_ ++ later)) as [rep|] eqn:Hv; [|done].
  apply Verify_prefix in Hv as [rep' Hv]. eapply repeated_number in Hlines; [|done|by apply newRecord_ints..|done]. by rewrite Hv in Hlines.
Qed.

(** ** Tampering *)
Definition record_small (r : AuditRecord) : Prop :=
  record_ints r ∧ Forall (fun f => len f < 2 ^ 32) (hashed_fields r).
Definition collision : Prop := ∃ m m', m ≠ m' ∧ sha256_sum m = sha256_sum m'.

Lemma frames_inj l l' : length l = length l' → Forall (fun f => len f < 2 ^ 32) l → Forall (fun f => len f < 2 ^ 32) l' →
  (l ≫= framed) = (l' ≫= framed) → l = l'.
Proof.
  revert l'. induction l as [|f l IH]; intros [|f' l'] Hl Hf Hf' E; [done..|].
  apply Forall_cons in Hf as [? ?], Hf' as [? ?]. injection Hl as Hl. cbn [mbind list_bind] in E.
  apply framed_inj in E as [-> E]; [|done..]. f_equal. by apply IH.
Qed.
Lemma Itoa_inj x y : in_i64 x → in_i64 y → Itoa x = Itoa y → x = y.
Proof. intros Hx Hy E. apply (f_equal Atoi) in E. rewrite !Atoi_Itoa in E by done. congruence. Qed.

Lemma hashed_fields_inj r r' : record_ints r → record_ints r' → hashed_fields r = hashed_fields r' →
  Sequence r = Sequence r' ∧ Time r = Time r' ∧ Body r = Body r'.
Proof.
  intros [Hs Hv] [Hs' Hv']. unfold hashed_fields.
  destruct r as [sq ts [op id te pa ve re po ru rq so] pv ha], r' as [sq' ts' [op' id' te' pa' ve' re' po' ru' rq' so'] pv' ha'].
  cbn in *. intros E. injection E as Esq -> -> -> -> -> Eve -> -> -> -> ->.
  apply Itoa_inj in Esq as ->; [|done..]. apply Itoa_inj in Eve as ->; done.
Qed.

(** Two records with one hash are the same record, or exhibit a collision. *)
Lemma chain_inj r r' : record_small r → record_small r' → len (PrevHash r) = len (PrevHash r') →
  chain r = chain r' →
  (PrevHash r = PrevHash r' ∧ Sequence r = Sequence r' ∧ Time r = Time r' ∧ Body r = Body r') ∨ collision.
Proof.
  intros [Hi Hf] [Hi' Hf'] Hl E. unfold chain in E. apply hex_of_inj in E; [|apply sha256_bytes..].
  destruct (decide (preimage r = preimage r')) as [Ep|]; [left|right; by exists (preimage r), (preimage r')].
  unfold preimage in Ep. apply app_inj_1 in Ep as [Epv Ep];
    [|rewrite !length_bytes_of_string; unfold len in Hl; lia].
  apply (f_equal string_of_bytes) in Epv. rewrite !string_of_bytes_of_string in Epv. split; [done|].
  apply hashed_fields_inj; [done..|]. by apply frames_inj.
Qed.

Lemma chained_prev_len e p rs r : chained e p (rs ++ [r]) →
  len (PrevHash r) = if decide (rs = []) then len p else 64.
Proof.
  rewrite chained_app. intros (Hc&_&->&_). destruct rs as [|x rs _] using rev_ind; [done|].
  rewrite decide_False by (by destruct rs). rewrite last_hash_snoc.
  apply chained_app in Hc as (_&_&_&<-). apply chain_spec.
Qed.
Lemma chained_unique e p rs rs' : chained e p rs → chained e p rs' → length rs = length rs' →
  Forall record_small rs → Forall record_small rs' → last_hash p rs = last_hash p rs' →
  rs = rs' ∨ collision.
Proof.
  revert rs'. induction rs as [|r rs IH] using rev_ind; intros rs' Hc Hc' Hl Hf Hf' Hh.
  { left. by destruct rs'. }
  destruct rs' as [|r' rs' _] using rev_ind; [rewrite length_app in Hl; simpl in Hl; lia|].
  rewrite !length_app in Hl. simpl in Hl. assert (length rs = length rs') as Hl' by lia. clear Hl.
  apply Forall_app in Hf as [Hf Hr], Hf' as [Hf' Hr'].
  apply Forall_cons in Hr as [Hr _], Hr' as [Hr' _]. rewrite !last_hash_snoc in Hh.
  assert (len (PrevHash r) = len (PrevHash r')) as Hpl.
  { rewrite (chained_prev_len _ _ _ _ Hc), (chained_prev_len _ _ _ _ Hc').
    destruct rs, rs'; simplify_eq/=; done. }
  apply chained_app in Hc as (Hc&Hs&Hp&Hk), Hc' as (Hc'&Hs'&Hp'&Hk').
  destruct (chain_inj r r' Hr Hr' Hpl) as [(Epv&Esq&Et&Eb)|]; [congruence| |by right].
  destruct (IH rs' Hc Hc' Hl' Hf Hf') as [->|]; [congruence| |by right].
  left. f_equal. f_equal. destruct r, r'. simpl in *. congruence.
Qed.

(** Tampering: two files that verify with the same number of records and
  the same last hash hold the same records, or contain a SHA-256 collision. *)
Theorem Verify_determines_records (lines lines' : list string) (rep : Report) (rs rs' : list AuditRecord)
  (Hv : Verify lines = Ok rep) (Hv' : Verify lines' = Ok rep)
  (Hr : reads_as lines rs) (Hr' : reads_as lines' rs')
  (Hs : Forall record_small rs) (Hs' : Forall record_small rs') :
  rs = rs' ∨ collision.
Proof.
  assert (∀ ls x y, reads_as ls x → reads_as ls y → x = y) as Hfun.
  { intros ls x y Hx Hy. unfold reads_as in *. revert y Hy.
    induction Hx as [|l r ls' x' Hd _ IH]; intros y Hy.
    - by apply Forall2_nil_inv_l in Hy.
    - apply Forall2_cons_inv_l in Hy as (r2&y'&Hd2&Hy&->). f_equal; [congruence|by apply IH]. }
  apply Verify_ok in Hv as (_&q&Hq&Hc&->), Hv' as (_&q'&Hq'&Hc'&E).
  rewrite (Hfun _ _ _ Hq Hr) in *. rewrite (Hfun _ _ _ Hq' Hr') in *. injection E as El Eh.
  apply (chained_unique 1 Genesis); try done. unfold blen in El. lia.
Qed.

(** An event with a byte sequence that is not UTF-8 (a path sent as
  [%ff], say) is hashed raw but written sanitized: once it is appended the file
  verifies only if SHA-256 collides. *)
Theorem Append_invalid_utf8 (event : Event) (w w' : World) (rep : Report)
  (Hlog : log_ok (audit_log w)) (Hrun : Append event w = (Ok tt, w'))
  (Hutf : clean_event event ≠ event) (Hseq : al_sequence (audit_log w) < i64_max)
  (Hsmall : let r := newRecord (al_sequence (audit_log w) + 1) (clock w 0) event (al_previous (audit_log w)) in
     record_small r ∧ record_small (clean_record r))
  (Hv : Verify (al_lines (audit_log w')) = Ok rep) :
  collision.
Proof.
  destruct (Append_inv _ _ _ _ Hrun) as [(_&_&_&Hl) _]. cbv zeta in *.
  destruct (Verify_bounds _ _ Hlog) as [Hnn Ha]. cbn in Hnn, Ha.
  rewrite wrap64_id in Hl by (unfold in_i64, i64_min, i64_max in *; lia).
  set (r := newRecord _ _ _ _) in *. destruct Hsmall as [Hs Hs'].
  rewrite Hl in Hv. cbn [al_lines] in Hv. apply Verify_ok in Hv as (_&rs&Hr&Hc&_).
  unfold reads_as in Hr. rewrite filter_app, filter_encode in Hr.
  apply Forall2_app_inv_l in Hr as (rs1&rs2&_&Hr2&->).
  apply Forall2_cons_inv_l in Hr2 as (r'&?&Hd&Hr2&->). apply Forall2_nil_inv_l in Hr2 as ->.
  rewrite decode_encode in Hd by apply Hs. injection Hd as <-.
  apply chained_app in Hc as (_&_&_&Hk).
  assert (sanitize (al_previous (audit_log w)) = al_previous (audit_log w)) as Hp by by apply sanitize_ascii.
  destruct (chain_inj (clean_record r) r) as [(_&_&_&Eb)|]; [done|done| | |done|done].
  - unfold clean_record. cbn [PrevHash]. unfold r at 1, newRecord. cbn [PrevHash]. by rewrite Hp.
  - rewrite Hk. unfold clean_record. cbn [Hash]. unfold r, newRecord. cbn [Hash].
    apply sanitize_ascii. apply chain_spec.
Qed.
End theory.

(** ** Examples *)
Lemma lines_fit_check lines : forallb (fun l => len l <? maxLineSize) lines = true → lines_fit lines.
Proof.
  intros Hf. apply Forall_forall. intros l Hl. rewrite forallb_forall in Hf.
  apply Z.ltb_lt, Hf. by apply list_elem_of_In.
Qed.
Lemma reads_as_check lines rs : decode <$> filter not_empty lines = Some <$> rs → reads_as lines rs.
Proof.
  unfold reads_as. generalize (filter not_empty lines) as l. clear lines. intros l. revert rs.
  induction l as [|x l IH]; intros [|r rs] E; try done. injection E as E1 E2. constructor; auto.
Qed.
Definition sample_event : Event :=
  MkEvent "secret.read" "instance/web-01" "prod" "db/main" 3 ResultAllow "readers" "db/*" "r-1" "10.0.0.1".
Definition raw_event : Event :=
  MkEvent "secret.read" "" "prod" (string_of_bytes [100; 255]) 0 ResultDeny "" "" "" "".
Definition sample_start (fault : nat → bool) : World :=
  set_faults fault (fresh_world (fun n => 1700000000 * Second + Z.of_nat n) (fun n => Z.of_nat n)).
Definition no_fault : nat → bool := fun _ => false.
Definition second_fault : nat → bool := fun n => Nat.eqb n 1.

Section examples.
Import sample.
Local Definition w0 : World := sample_start no_fault.
Local Definition w1 : World := snd (Append sample_event w0).

Lemma Append_verifies_witness : log_ok (audit_log w1) ∧ database w1 = database w0 ∧
  ∃ line r, al_lines (audit_log w1) = al_lines (audit_log w0) ++ [line] ∧ decode line = Some r ∧
    Body r = sample_event ∧ Sequence r = al_sequence (audit_log w0) + 1 ∧
    PrevHash r = al_previous (audit_log w0) ∧ Time r = FormatTime (clock w0 0).
Proof.
  refine (Append_verifies sample_event w0 w1 _ _ _ _ _ _).
  - by vm_compute.
  - apply injective_projections; [by vm_compute|reflexivity].
  - by vm_compute.
  - by vm_compute.
  - by vm_compute.
  - apply lines_fit_check. by vm_compute.
Defined.

Lemma Append_after_failed_sync_witness :
  let f0 := sample_start second_fault in
  let f1 := snd (Append sample_event f0) in
  let f2 := snd (Append sample_event f1) in
  (∃ r1 r2, al_lines (audit_log f2) = al_lines (audit_log f0) ++ [encode r1; encode r2] ∧ Body r1 = sample_event ∧ Body r2 = sample_event ∧
     Sequence r1 = al_sequence (audit_log f0) + 1 ∧ Sequence r2 = al_sequence (audit_log f0) + 1) ∧
  ∀ later, is_ok (Verify (al_lines (audit_log f2) ++ later)) = false.
Proof.
  intros f0 f1 f2. refine (Append_after_failed_sync sample_event sample_event f0 f1 f2 [ErrDriver] _ _ _ _ _ _ _).
  - apply injective_projections; [by vm_compute|reflexivity].
  - by vm_compute.
  - apply injective_projections; [by vm_compute|reflexivity].
  - by vm_compute.
  - by vm_compute.
  - by vm_compute.
  - by vm_compute.
Defined.

Local Definition line1 : string := List.hd "" (al_lines (audit_log w1)).
Local Definition record1 : AuditRecord := newRecord 1 (1700000000 * Second) sample_event "".
Lemma Verify_determines_records_witness : [record1] = [record1] ∨ collision.
Proof.
  refine (Verify_determines_records [line1] [""; line1]
    (MkReport 1 (Hash record1)) [record1] [record1] _ _ _ _ _ _).
  - by vm_compute.
  - by vm_compute.
  - apply reads_as_check. by vm_compute.
  - apply reads_as_check. by vm_compute.
  - repeat constructor; by vm_compute.
  - repeat constructor; by vm_compute.
Defined.

Lemma Verify_prefix_witness : ∃ rep', Verify [line1] = Ok rep'.
Proof.
  refine (Verify_prefix [line1] [""] (MkReport 1 (Hash record1)) _). by vm_compute.
Defined.
End examples.

Lemma Append_invalid_utf8_witness :
  @collision sample.weak_primitives.
Proof.
  pose (v1 := snd (@Append sample.weak_primitives raw_event (sample_start no_fault))).
  refine (@Append_invalid_utf8 sample.weak_primitives sample.weak_laws raw_event (sample_start no_fault) v1
    (MkReport 1 (hex_of (replicate 32 0))) _ _ _ _ _ _).
  - by vm_compute.
  - apply injective_projections; [by vm_compute|reflexivity].
  - by vm_compute.
  - by vm_compute.
  - split; (split; [split; by vm_compute|repeat constructor; by vm_compute]).
  - by vm_compute.
Defined.
End audit.
