(* ===== verification/Migrate.v ===== *)
(** platform/sqlite/migrate.go: every module's schema changes are applied once,
  each in a transaction with the record that it was.  What a statement of DDL
  does is SQLite's business and a parameter. *)
From Stdlib Require Import ZArith Lia.
From S2P Require Import Prelude GoStrings GoTime World Envelope AuditTrail.

(** The driver running the text of a migration. *)
Class Driver := run_sql : ∀ (statements : string) (d : Db), result unit * Db.
(** The modules' statements do not touch the table of migrations. *)
Class DriverLaws (R : Driver) := run_sql_migrations : ∀ s d, schema_migrations (snd (run_sql s d)) = schema_migrations d.

Module sqlite.
Definition ErrMigrationChanged : string := "sqlite: an already applied migration has changed".
Definition ErrEmptyMigrationName : string := "sqlite: migration name must not be empty".
Definition ErrDuplicateMigration : string := "sqlite: duplicate migration name".
Definition ErrEmptyModule : string := "sqlite: module must not be empty".
Definition constraint_error : string := "sqlite: constraint failed".

Record Migration := MkMigrationSQL { Name : string; SQL : string }.

(** The loop with its set of names. *)
Fixpoint validate_from (known : gset string) (migrations : list Migration) : result unit :=
  match migrations with
  | [] => Ok tt
  | migration :: migrations =>
      if String.eqb (Name migration) "" then Err [ErrEmptyMigrationName]
      else if bool_decide (Name migration ∈ known) then Err [ErrDuplicateMigration]
      else validate_from ({[Name migration]} ∪ known) migrations
  end.
Definition validate : list Migration → result unit := validate_from ∅.
Definition insert_migration (module name sum t : string) (d : Db) : result unit * Db :=
  match schema_migrations d !! (module, name) with
  | Some _ => (Err [constraint_error], d)
  | None => (Ok tt, set_schema_migrations (<[(module, name) := MkMigration sum t]> (schema_migrations d)) d)
  end.

Section migrate.
Context `{Primitives} `{Driver}.
Definition checksum (statements : string) : string := audit.hex_of (sha256_sum (bytes_of_string statements)).
Definition apply_ (module : string) (migration : Migration) : M World unit :=
  let sum := checksum (SQL migration) in
  let! recorded := query (fun d => schema_migrations d !! (module, Name migration)) in
  match recorded with
  | Some row => if String.eqb (mg_checksum row) sum then ret tt else fail [ErrMigrationChanged]
  | None =>
      with_tx (
        exec (run_sql (SQL migration)) ;!
        let! t := now in
        exec (insert_migration module (Name migration) sum (FormatTime t)))
  end.
Fixpoint apply_all (module : string) (migrations : list Migration) : M World unit :=
  match migrations with
  | [] => ret tt
  | migration :: migrations => apply_ module migration ;! apply_all module migrations
  end.
Definition Migrate (module : string) (migrations : list Migration) : M World unit :=
  if String.eqb module "" then fail [ErrEmptyModule]
  else
    lift_result (validate migrations) ;!
    (* CREATE TABLE IF NOT EXISTS schema_migrations *)
    exec_ (fun d => d) ;!
    apply_all module migrations.
End migrate.

Section theory.
Context `{Primitives} `{R : Driver} `{!DriverLaws R}.
(** The migration is recorded with the checksum of its statements. *)
Definition applied (module : string) (d : Db) (m : Migration) : Prop :=
  ∃ row, schema_migrations d !! (module, Name m) = Some row ∧ mg_checksum row = checksum (SQL m).
Definition keeps_records (d d' : Db) : Prop :=
  ∀ k row, schema_migrations d !! k = Some row → schema_migrations d' !! k = Some row.
Lemma apply_Ok module m w w' : apply_ module m w = (Ok tt, w') →
  applied module (database w') m ∧ keeps_records (database w) (database w').
Proof.
  unfold apply_. intros E. apply bind_ok_inv in E as (o&w1&Eq&E). apply query_Ok in Eq as [-> ->].
  destruct (schema_migrations (database w) !! (module, Name m)) as [row|] eqn:Er.
  - destruct (String.eqb_spec (mg_checksum row) (checksum (SQL m))); [|done]. injection E as <-. split; [by exists row|]. by intros k r.
  - match type of E with with_tx ?body _ = _ => destruct (with_tx_cases body (tick w)) as [(e&v&E'&_)|(a&v&Hb&E')] end; rewrite E' in E; [done|].
    injection E as -> <-. apply bind_ok_inv in Hb as ([]&w2&Er2&Hb). apply exec_Ok in Er2 as (d&Hd&->). rewrite bind_now in Hb.
    apply exec_Ok in Hb as (d'&Hd'&->). change (database (tick (tick w))) with (database w) in Hd.
    pose proof (run_sql_migrations (SQL m) (database w)) as Hs. rewrite Hd in Hs. cbn [snd] in Hs.
    unfold insert_migration in Hd'. cbn [database set_clock set_database] in Hd'. rewrite Hs, Er in Hd'. injection Hd' as <-.
    cbn [database tick set_faults set_database]. unfold applied, keeps_records. cbn [schema_migrations set_schema_migrations]. split.
    + rewrite lookup_insert_eq. by eexists.
    + intros k row Hk. rewrite lookup_insert_ne; [done|]. intros <-. congruence.
Qed.
Lemma applied_keeps module d d' m : keeps_records d d' → applied module d m → applied module d' m.
Proof. intros Hk (row&Hr&Hc). exists row. by split; [apply Hk|]. Qed.
Lemma apply_all_Ok module ms w w' : apply_all module ms w = (Ok tt, w') →
  Forall (applied module (database w')) ms ∧ keeps_records (database w) (database w').
Proof.
  revert w. induction ms as [|m ms IH]; intros w; [intros [= <-]; split; [done|by intros ? ?]|]. cbn [apply_all]. intros E.
  apply bind_ok_inv in E as ([]&w1&E1&E2). apply apply_Ok in E1 as [Ha Hk]. apply IH in E2 as [Hall Hk2]. split.
  - constructor; [by eapply applied_keeps|done].
  - intros k row Hr. by apply Hk2, Hk.
Qed.
Lemma apply_again module m w : no_faults w → applied module (database w) m → apply_ module m w = (Ok tt, tick w).
Proof. unfold apply_. intros Hnf (row&Hr&Hc). rewrite bind_query_nf, Hr, Hc, String.eqb_refl by done. done. Qed.
Lemma apply_all_again module ms w : no_faults w → Forall (applied module (database w)) ms →
  ∃ w', apply_all module ms w = (Ok tt, w') ∧ database w' = database w.
Proof.
  revert w. induction ms as [|m ms IH]; intros w Hnf Hall; [by exists w|]. apply Forall_cons in Hall as [Hm Hall]. cbn [apply_all].
  rewrite (bind_ok _ _ _ _ _ (apply_again _ _ _ Hnf Hm)). destruct (IH (tick w)) as (w'&E&Hd); [auto with world|done|]. by exists w'.
Qed.
Lemma apply_all_changed module ms w m row : m ∈ ms → schema_migrations (database w) !! (module, Name m) = Some row →
  mg_checksum row ≠ checksum (SQL m) → fst (apply_all module ms w) ≠ Ok tt.
Proof.
  revert w. induction ms as [|m' ms IH]; intros w Hin Hr Hc; [by apply elem_of_nil in Hin|]. cbn [apply_all]. intros E.
  destruct (bind (apply_ module m') (λ _, apply_all module ms) w) as [r w'] eqn:E2. cbn [fst] in E. subst r.
  apply bind_ok_inv in E2 as ([]&w1&E1&E2). apply elem_of_cons in Hin as [->|Hin].
  - apply apply_Ok in E1 as [(row'&Hr'&Hc') Hk]. rewrite (Hk _ _ Hr) in Hr'. congruence.
  - apply apply_Ok in E1 as [_ Hk]. apply (IH w1 Hin (Hk _ _ Hr) Hc). by rewrite E2.
Qed.

(** Migrations are applied once: after a success every migration is on
  record and no record was lost, running the same list again succeeds and
  changes nothing, and a list in which the text of an applied migration has
  changed is refused. *)
Theorem Migrate_once (module : string) (migrations : list Migration) (w w' : World)
  (Hrun : Migrate module migrations w = (Ok tt, w')) :
  Forall (applied module (database w')) migrations ∧ keeps_records (database w) (database w') ∧
  (∀ w2, no_faults w2 → keeps_records (database w') (database w2) →
     fst (Migrate module migrations w2) = Ok tt ∧ database (snd (Migrate module migrations w2)) = database w2) ∧
  ∀ w2 m m2 others, keeps_records (database w') (database w2) → m ∈ migrations → m2 ∈ others → Name m2 = Name m →
     checksum (SQL m2) ≠ checksum (SQL m) → fst (Migrate module others w2) ≠ Ok tt.
Proof.
  unfold Migrate in *. destruct (String.eqb module ""); [done|]. apply bind_ok_inv in Hrun as ([]&w1&Ev&E). injection Ev as Ev <-.
  apply bind_ok_inv in E as ([]&w1&Ec&E). unfold exec_ in Ec. apply exec_Ok in Ec as (d&[= <-]&->).
  apply apply_all_Ok in E as [Hall Hk]. split_and!; [done|done| |].
  - intros w2 Hnf Hk2. erewrite bind_lift by done. rewrite (bind_ok _ _ _ _ _ (exec__nf (fun d => d) w2 Hnf)).
    destruct (apply_all_again module migrations (set_database (database w2) (tick w2))) as (w3&->&Hd).
    + auto with world.
    + eapply Forall_impl; [exact Hall|]. intros m. by apply applied_keeps.
    + cbn [fst snd]. by rewrite Hd.
  - intros w2 m m2 others Hk2 Hm Hm2 Hn Hc E2. rewrite Forall_forall in Hall. destruct (Hall m Hm) as (row&Hr&Hrc). apply Hk2 in Hr.
    destruct (bind (lift_result (validate others)) _ w2) as [r w4] eqn:E3. cbn [fst] in E2. subst r.
    apply bind_ok_inv in E3 as ([]&w3&Ev3&E3). injection Ev3 as _ <-. apply bind_ok_inv in E3 as ([]&w3'&Ec&E3). unfold exec_ in Ec.
    apply exec_Ok in Ec as (d2&[= <-]&->). refine (apply_all_changed module others _ m2 row Hm2 _ _ (f_equal fst E3)).
    + rewrite Hn. exact Hr.
    + congruence.
Qed.
End theory.

(** ** Examples *)
Section examples.
#[local] Existing Instance sample.primitives.
(** A driver for which every statement succeeds without effect on the tables. *)
#[local] Instance quiet_driver : Driver := fun _ d => (Ok tt, d).
#[local] Instance quiet_driver_laws : DriverLaws quiet_driver.
Proof. done. Qed.
Local Definition migrations : list Migration :=
  [MkMigrationSQL "0001_identities" "CREATE TABLE auth_identities (...)"; MkMigrationSQL "0002_tokens" "CREATE TABLE auth_tokens (...)"].
Local Definition w0 : World := fresh_world (fun _ => 1700000000 * Second) (fun _ => 0).
Local Definition w1 : World := snd (Migrate "auth" migrations w0).
Lemma migrated_ok : fst (Migrate "auth" migrations w0) = Ok tt.
Proof. by vm_compute. Qed.
#[local] Opaque Migrate.
Lemma Migrate_once_witness :
  Forall (applied "auth" (database w1)) migrations ∧ keeps_records (database w0) (database w1) ∧
  (∀ w2, no_faults w2 → keeps_records (database w1) (database w2) →
     fst (Migrate "auth" migrations w2) = Ok tt ∧ database (snd (Migrate "auth" migrations w2)) = database w2) ∧
  ∀ w2 m m2 others, keeps_records (database w1) (database w2) → m ∈ migrations → m2 ∈ others → Name m2 = Name m →
     checksum (SQL m2) ≠ checksum (SQL m) → fst (Migrate "auth" others w2) ≠ Ok tt.
Proof. exact (Migrate_once "auth" migrations w0 w1 (pair_fst _ _ migrated_ok)). Defined.
End examples.
End sqlite.
