(* ===== verification/Migrations.v ===== *)
(** The migrations of the modules, as texts: what each module's migrations.go
  hands to sqlite.Migrate.  Their effect, the tables, is the state in World. *)
From S2P Require Import Prelude Migrate.

Module migrations.
Import sqlite.

Definition seal : list Migration := [
  MkMigrationSQL "0001_seal_config" "
			CREATE TABLE seal_config (
				id               INTEGER PRIMARY KEY CHECK (id = 1),
				shamir_shares    INTEGER NOT NULL,
				shamir_threshold INTEGER NOT NULL,
				key_check        BLOB NOT NULL,
				created_at       TEXT NOT NULL
			);
		";
  MkMigrationSQL "0002_kek_version" "
			ALTER TABLE seal_config ADD COLUMN kek_version INTEGER NOT NULL DEFAULT 1;
		"].

Definition auth : list Migration := [
  MkMigrationSQL "0001_identities_and_tokens" "
			CREATE TABLE auth_identities (
				id          TEXT NOT NULL PRIMARY KEY,
				kind        TEXT NOT NULL,
				tenant      TEXT NOT NULL,
				created_at  TEXT NOT NULL,
				disabled_at TEXT
			);

			CREATE TABLE auth_tokens (
				id_hash     BLOB NOT NULL PRIMARY KEY,
				identity_id TEXT NOT NULL,
				binding     TEXT NOT NULL,
				issued_at   TEXT NOT NULL,
				expires_at  TEXT NOT NULL,
				revoked_at  TEXT,
				FOREIGN KEY (identity_id)
					REFERENCES auth_identities (id)
					ON DELETE CASCADE
			);

			CREATE INDEX auth_tokens_by_identity ON auth_tokens (identity_id);
			CREATE INDEX auth_tokens_by_expiry ON auth_tokens (expires_at);
		";
  MkMigrationSQL "0002_single_use_tokens" "
			ALTER TABLE auth_tokens ADD COLUMN single_use INTEGER NOT NULL DEFAULT 0;
			ALTER TABLE auth_tokens ADD COLUMN consumed_at TEXT;
		";
  MkMigrationSQL "0003_spent_assertions" "
			CREATE TABLE auth_spent_assertions (
				id         TEXT NOT NULL PRIMARY KEY,
				identity   TEXT NOT NULL,
				spent_at   TEXT NOT NULL,
				expires_at TEXT NOT NULL
			);

			CREATE INDEX auth_spent_assertions_by_expiry ON auth_spent_assertions (expires_at);
		"].

Definition policy : list Migration := [
  MkMigrationSQL "0001_definitions_and_bindings" "
			CREATE TABLE policy_definitions (
				tenant     TEXT NOT NULL,
				name       TEXT NOT NULL,
				rules      TEXT NOT NULL,
				created_at TEXT NOT NULL,
				updated_at TEXT NOT NULL,
				PRIMARY KEY (tenant, name)
			);

			CREATE TABLE policy_bindings (
				tenant      TEXT NOT NULL,
				identity_id TEXT NOT NULL,
				policy_name TEXT NOT NULL,
				created_at  TEXT NOT NULL,
				PRIMARY KEY (tenant, identity_id, policy_name),
				FOREIGN KEY (tenant, policy_name)
					REFERENCES policy_definitions (tenant, name)
					ON DELETE CASCADE
			);

			CREATE INDEX policy_bindings_by_identity ON policy_bindings (identity_id);
		"].

Definition secret : list Migration := [
  MkMigrationSQL "0001_versioned_secrets" "
			CREATE TABLE secret_metadata (
				tenant          TEXT NOT NULL,
				path            TEXT NOT NULL,
				current_version INTEGER NOT NULL,
				max_versions    INTEGER NOT NULL,
				created_at      TEXT NOT NULL,
				updated_at      TEXT NOT NULL,
				PRIMARY KEY (tenant, path)
			);

			CREATE TABLE secret_versions (
				tenant       TEXT NOT NULL,
				path         TEXT NOT NULL,
				version      INTEGER NOT NULL,
				kek_version  INTEGER NOT NULL,
				wrapped_dek  BLOB NOT NULL,
				ciphertext   BLOB NOT NULL,
				created_at   TEXT NOT NULL,
				deleted_at   TEXT,
				destroyed_at TEXT,
				PRIMARY KEY (tenant, path, version),
				FOREIGN KEY (tenant, path)
					REFERENCES secret_metadata (tenant, path)
					ON DELETE CASCADE
			);
		"].

Definition param : list Migration := [
  MkMigrationSQL "0001_parameters" "
			CREATE TABLE param_values (
				tenant      TEXT NOT NULL,
				path        TEXT NOT NULL,
				kind        TEXT NOT NULL,
				kek_version INTEGER NOT NULL,
				wrapped_dek BLOB NOT NULL,
				ciphertext  BLOB NOT NULL,
				updated_at  TEXT NOT NULL,
				updated_by  TEXT NOT NULL,
				PRIMARY KEY (tenant, path)
			);
		"].

Definition lease : list Migration := [
  MkMigrationSQL "0001_lease_records" "
			CREATE TABLE lease_records (
				id          TEXT NOT NULL PRIMARY KEY,
				tenant      TEXT NOT NULL,
				identity_id TEXT NOT NULL,
				path        TEXT NOT NULL,
				version     INTEGER NOT NULL,
				issued_at   TEXT NOT NULL,
				expires_at  TEXT NOT NULL,
				revoked_at  TEXT
			);

			CREATE UNIQUE INDEX lease_records_holder
				ON lease_records (tenant, identity_id, path, version)
				WHERE revoked_at IS NULL;

			CREATE INDEX lease_records_by_path ON lease_records (tenant, path);
			CREATE INDEX lease_records_by_identity ON lease_records (tenant, identity_id);
			CREATE INDEX lease_records_by_expiry ON lease_records (expires_at);
		"].

End migrations.
