(* ===== verification/SealManager.v ===== *)
(** modules/seal: the manager that holds the root key, the cipher the stores
  use, and the HTTP handlers of initialisation and unsealing. *)
From Stdlib Require Import ZArith Lia.
From S2P Require Import Prelude GoStrings GoTime Base64 Json World Policy Httpx Shamir Envelope AuditTrail.

Module seal.
Definition initialKEKVersion : Z := 1.
Definition StateUninitialized : string := "uninitialized".
Definition StateSealed : string := "sealed".
Definition StateUnsealed : string := "unsealed".

Definition ErrAlreadyInitialized : string := "seal: the store is already initialized".
Definition ErrNotInitialized : string := "seal: the store is not initialized".
Definition ErrSealed : string := "seal: the store is sealed".
Definition ErrUnsealFailed : string := "seal: the supplied shares do not reconstruct the root key".
Definition ErrInvalidShare : string := "seal: share is empty or malformed".
Definition ErrKEKVersion : string := "seal: key encryption key version is out of range".
Definition ErrRotationRaced : string := "seal: the key encryption key version changed during rotation".
(** The primary key of [seal_config] is 1 in every row. *)
Definition ErrConstraint : string := "sqlite: UNIQUE constraint failed: seal_config.id".

Record Status := MkStatus { State : string; Shares : Z; Threshold : Z; Progress : Z; KEKVersion : Z }.
Record Rotation := MkRotation { From : Z; To : Z }.
(** [config]: the zero value when the table has no row. *)
Record config := MkConfig {
  initialized : bool; shares : Z; threshold : Z; keyCheck : list Z; c_kekVersion : Z }.

Section manager.
Context `{Primitives}.

Definition mem : M World SealMemory := fun w => (Ok (seal_memory w), w).
Definition set_root (k : option (list Z)) (m : SealMemory) : SealMemory := MkSealMemory k (kekVersion m) (collected m).
Definition set_kekVersion (v : Z) (m : SealMemory) : SealMemory := MkSealMemory (root m) v (collected m).
Definition set_collected (c : list (list Z)) (m : SealMemory) : SealMemory := MkSealMemory (root m) (kekVersion m) c.
Definition update_mem (f : SealMemory → SealMemory) : M World unit :=
  modify (fun w => set_seal_memory (f (seal_memory w)) w).

Definition readConfig : M World config := query (fun d =>
  match seal_config d with
  | None => MkConfig false 0 0 [] 0
  | Some r => MkConfig true (shamir_shares r) (shamir_threshold r) (key_check r) (sc_kek_version r)
  end).

Definition statusLocked (stored : config) (m : SealMemory) : Status :=
  MkStatus
    (if negb (initialized stored) then StateUninitialized
     else match root m with Some _ => StateUnsealed | None => StateSealed end)
    (shares stored) (threshold stored) (blen (collected m)) (c_kekVersion stored).

Definition last_byte (share : list Z) : Z := default 0 (share !! (length share - 1)%nat).
Definition alreadyCollected (share : list Z) (m : SealMemory) : bool :=
  existsb (fun existing => last_byte existing =? last_byte share) (collected m).
(** The shares are zeroed and the slice dropped. *)
Definition discardCollected : M World unit := update_mem (set_collected []).

Definition insert_config (row : SealConfigRow) : M World unit := exec (fun d =>
  match seal_config d with
  | Some _ => (Err [ErrConstraint], d)
  | None => (Ok tt, set_seal_config (Some row) d)
  end).

Definition Initialize (shares threshold : Z) : M World (list (list Z)) :=
  let! stored := readConfig in
  if initialized stored then fail [ErrAlreadyInitialized]
  else
    let! root := crypto.NewKey in
    let! split := shamir.Split root shares threshold in
    let! keyCheck := lift_result (crypto.KeyCheckValue root) in
    let! t := now in
    insert_config (MkSealConfig shares threshold keyCheck (FormatTime t) initialKEKVersion) ;!
    update_mem (set_root (Some root)) ;!
    update_mem (set_kekVersion initialKEKVersion) ;!
    ret split.

(** [Unseal] once it has read the configuration. *)
Definition collect (share : list Z) (stored : config) : M World Status :=
  let! m := mem in
  match root m with
  | Some _ => ret (statusLocked stored m)
  | None =>
      if alreadyCollected share m then ret (statusLocked stored m)
      else
        update_mem (set_collected (collected m ++ [share])) ;!
        let! m := mem in
        if blen (collected m) <? threshold stored then ret (statusLocked stored m)
        else
          let combined := shamir.Combine (collected m) in
          discardCollected ;!
          match combined with
          | Err combineErr => fail (errors_Join [ErrUnsealFailed] combineErr)
          | Ok key =>
              match crypto.Key_Validate key with
              | Err _ => fail [ErrUnsealFailed]
              | Ok _ =>
                  match crypto.VerifyKeyCheckValue key (keyCheck stored) with
                  | Err _ => fail [ErrUnsealFailed]
                  | Ok _ =>
                      update_mem (set_root (Some key)) ;!
                      update_mem (set_kekVersion (c_kekVersion stored)) ;!
                      let! m := mem in
                      ret (statusLocked stored m)
                  end
              end
          end
  end.

Definition Unseal (share : list Z) : M World Status :=
  if (length share <? 2)%nat then fail [ErrInvalidShare]
  else
    let! stored := readConfig in
    if negb (initialized stored) then fail [ErrNotInitialized] else collect share stored.

Definition Seal : M World unit :=
  update_mem (set_root None) ;!
  update_mem (set_kekVersion 0) ;!
  discardCollected.

(** The number of rows the [UPDATE] matched. *)
Definition bump_version (next current : Z) : M World Z := exec (fun d =>
  match seal_config d with
  | Some r => if sc_kek_version r =? current
              then (Ok 1, set_seal_config (Some (MkSealConfig (shamir_shares r) (shamir_threshold r) (key_check r) (sc_created_at r) next)) d)
              else (Ok 0, d)
  | None => (Ok 0, d)
  end).

Definition Rotate : M World Rotation :=
  let! stored := readConfig in
  if negb (initialized stored) then fail [ErrNotInitialized]
  else
    let! m := mem in
    match root m with
    | None => fail [ErrSealed]
    | Some _ =>
        let next := wrap64 (c_kekVersion stored + 1) in
        let! affected := bump_version next (c_kekVersion stored) in
        if negb (affected =? 1) then fail [ErrRotationRaced]
        else update_mem (set_kekVersion next) ;! ret (MkRotation (c_kekVersion stored) next)
    end.

Definition GetStatus : M World Status :=
  let! stored := readConfig in
  let! m := mem in
  ret (statusLocked stored m).
Definition IsUnsealed (w : World) : bool :=
  match root (seal_memory w) with Some _ => true | None => false end.

Definition deriveKEKLocked (m : SealMemory) (tenant : string) (version : Z) : result (list Z) :=
  match root m with
  | None => Err [ErrSealed]
  | Some root =>
      if version <? initialKEKVersion then Err [ErrKEKVersion]
      else let? label := crypto.Label ["kek"; tenant; crypto.LabelInt version] in
           crypto.DeriveKey root label
  end.
Definition sealingKEK (m : SealMemory) (tenant : string) : result (list Z * Z) :=
  let version := kekVersion m in
  let? kek := deriveKEKLocked m tenant version in Ok (kek, version).

Definition rewrap (tenant : string) (envelope : crypto.Envelope) (aad : crypto.AAD)
  : M World (crypto.Envelope * bool) :=
  let! m := mem in
  match root m with
  | None => fail [ErrSealed]
  | Some _ =>
      if kekVersion m <? crypto.KEKVersion envelope then fail [ErrKEKVersion]
      else if crypto.KEKVersion envelope =? kekVersion m then ret (envelope, false)
      else
        let! current := lift_result (deriveKEKLocked m tenant (crypto.KEKVersion envelope)) in
        let! next := lift_result (deriveKEKLocked m tenant (kekVersion m)) in
        let! rewrapped := crypto.Rewrap current next (kekVersion m) envelope aad in
        ret (rewrapped, true)
  end.

(** ** cipher.go *)
Definition Cipher_Seal (tenant : string) (plaintext : list Z) (aad : crypto.AAD) : M World crypto.Envelope :=
  let! m := mem in
  let! sealing := lift_result (sealingKEK m tenant) in
  crypto.Seal (fst sealing) (snd sealing) plaintext aad.
Definition Cipher_Open (tenant : string) (envelope : crypto.Envelope) (aad : crypto.AAD) : M World (list Z) :=
  if crypto.KEKVersion envelope <? 1 then fail [crypto.ErrDecrypt]
  else
    let! m := mem in
    let! kek := lift_result (deriveKEKLocked m tenant (crypto.KEKVersion envelope)) in
    lift_result (crypto.Open kek envelope aad).
Definition Cipher_Rewrap (tenant : string) (envelope : crypto.Envelope) (aad : crypto.AAD)
  : M World (crypto.Envelope * bool) :=
  if crypto.KEKVersion envelope <? initialKEKVersion then fail [crypto.ErrDecrypt]
  else rewrap tenant envelope aad.
End manager.

(** ** What each operation does to the configuration and the memory *)
Section theory.
Context `{PrimitiveLaws}.

(** The configuration a database without a row stands for is the zero value. *)
Definition config_of (d : Db) : config :=
  match seal_config d with
  | None => MkConfig false 0 0 [] 0
  | Some r => MkConfig true (shamir_shares r) (shamir_threshold r) (key_check r) (sc_kek_version r)
  end.
Lemma readConfig_cases w : ∃ f,
  readConfig w = (Err [ErrDriver], set_faults f w) ∨ readConfig w = (Ok (config_of (database w)), set_faults f w).
Proof. unfold readConfig, query, next_fault. exists (fun n => faults w (S n)). destruct (faults w 0%nat); auto. Qed.

Definition checks (key : list Z) (row : SealConfigRow) : Prop :=
  length key = 32%nat ∧ Forall byte_ok key ∧
  key_check row = hmac_sha256 key (bytes_of_string crypto.keyCheckLabel).

Lemma Initialize_inv n t w o w' : Initialize n t w = (o, w') →
  match o with
  | Ok split => seal_config (database w) = None ∧ ∃ key w1 w2 row,
      shamir.split_ok key n t ∧ shamir.Split key n t w1 = (Ok split, w2) ∧ checks key row ∧
      shamir_shares row = n ∧ shamir_threshold row = t ∧ sc_kek_version row = initialKEKVersion ∧
      database w' = set_seal_config (Some row) (database w) ∧
      seal_memory w' = MkSealMemory (Some key) initialKEKVersion (collected (seal_memory w))
  | Err _ => seal_memory w' = seal_memory w ∧ database w' = database w
  end.
Proof.
  unfold Initialize. destruct (readConfig_cases w) as [f [E|E]].
  { rewrite (bind_err _ _ _ _ _ E). by intros [= <- <-]. }
  rewrite (bind_ok _ _ _ _ _ E). unfold config_of. destruct (seal_config (database w)) as [row|] eqn:Er; cbn [initialized].
  { by intros [= <- <-]. }
  unfold crypto.NewKey, rand_read. unfold bind at 1.
  set (key := draw _ _). set (w1 := set_entropy _ _).
  assert (length key = 32%nat) as Hk by apply draw_length.
  assert (Forall byte_ok key) as Hkb by apply draw_ok.
  destruct (shamir.Split_cases key n t w1) as [(Hok&split&e&Es&_)|(_&err&Es)].
  2: { rewrite (bind_err _ _ _ _ _ Es). by intros [= <- <-]. }
  rewrite (bind_ok _ _ _ _ _ Es). unfold crypto.KeyCheckValue.
  rewrite (proj2 (crypto.Key_Validate_ok key) Hk). cbn [result_bind].
  unfold bind, lift_result, now, insert_config, exec, next_fault. cbn.
  destruct (f 0%nat); [by intros [= <- <-]|]. rewrite Er. cbn.
  intros [= <- <-]. split; [done|]. exists key, w1, (set_entropy e w1),
    (MkSealConfig n t (hmac_sha256 key (bytes_of_string crypto.keyCheckLabel)) (FormatTime (clock w 0%nat)) initialKEKVersion).
  split; [done|]. split; [done|]. split; [by split_and!|]. by repeat split.
Qed.

Lemma Unseal_inv share w o w' : Unseal share w = (o, w') →
  database w' = database w ∧
  (seal_memory w' = seal_memory w ∨
   ∃ row, seal_config (database w) = Some row ∧ root (seal_memory w) = None ∧ (2 <= length share)%nat ∧
     alreadyCollected share (seal_memory w) = false ∧
     let all := collected (seal_memory w) ++ [share] in
     (blen all < shamir_threshold row ∧ seal_memory w' = set_collected all (seal_memory w) ∧
        ∃ st, o = Ok st ∧ State st = StateSealed ∧ Progress st = blen all) ∨
     (shamir_threshold row ≤ blen all ∧ seal_memory w' = set_collected [] (seal_memory w) ∧
        ∃ e, o = Err e ∧ errors_Is e ErrUnsealFailed = true) ∨
     (shamir_threshold row ≤ blen all ∧ ∃ key, shamir.Combine all = Ok key ∧ length key = 32%nat ∧
        key_check row = hmac_sha256 key (bytes_of_string crypto.keyCheckLabel) ∧
        seal_memory w' = MkSealMemory (Some key) (sc_kek_version row) [] ∧
        ∃ st, o = Ok st ∧ State st = StateUnsealed)).
Proof.
  unfold Unseal, collect. destruct (Nat.ltb_spec (length share) 2) as [|Hl]; [intros [= <- <-]; auto|].
  destruct (readConfig_cases w) as [f [E|E]].
  { rewrite (bind_err _ _ _ _ _ E). intros [= <- <-]; auto. }
  rewrite (bind_ok _ _ _ _ _ E). unfold config_of. destruct (seal_config (database w)) as [row|] eqn:Er; cbn [initialized negb].
  2: { intros [= <- <-]; auto. }
  unfold mem, bind at 1. cbn [seal_memory set_faults].
  destruct (root (seal_memory w)) as [k|] eqn:Eroot; [intros [= <- <-]; auto|].
  destruct (alreadyCollected share (seal_memory w)) eqn:Ea; [intros [= <- <-]; auto|].
  unfold bind at 1 2, update_mem at 1, modify. cbn [threshold seal_memory set_seal_memory collected set_collected].
  set (all := collected (seal_memory w) ++ [share]).
  destruct (Z.ltb_spec (blen all) (shamir_threshold row)) as [Hlt|Hge].
  { intros [= <- <-]. split; [done|]. right. exists row. cbn zeta. split_and!; try done. left. split_and!; try done.
    eexists. split; [done|]. cbn. by rewrite Eroot. }
  unfold discardCollected, update_mem at 1, modify, bind at 1. cbn [seal_memory set_seal_memory].
  destruct (shamir.Combine all) as [key|ce] eqn:Ec.
  2: { intros [= <- <-]. split; [done|]. right. exists row. cbn zeta. split_and!; try done. right; left. split_and!; try done.
       eexists. split; [done|]. unfold errors_Is, errors_Join. apply bool_decide_eq_true. left. }
  destruct (crypto.Key_Validate key) as [[]|ve] eqn:Ek.
  2: { intros [= <- <-]. split; [done|]. right. exists row. cbn zeta. split_and!; try done. right; left. split_and!; try done. by eexists. }
  unfold crypto.VerifyKeyCheckValue, crypto.KeyCheckValue. rewrite Ek. cbn [result_bind keyCheck].
  case_bool_decide as Hchk.
  2: { intros [= <- <-]. split; [done|]. right. exists row. cbn zeta. split_and!; try done. right; left. split_and!; try done. by eexists. }
  unfold bind, update_mem, modify. intros [= <- <-]. split; [done|]. right. exists row. cbn zeta. split_and!; try done.
  right; right. split; [done|]. exists key. split_and!; try done; [by apply crypto.Key_Validate_ok|by eexists].
Qed.

Lemma Rotate_inv w o w' : Rotate w = (o, w') →
  match o with
  | Ok r => ∃ row k, seal_config (database w) = Some row ∧ root (seal_memory w) = Some k ∧
      From r = sc_kek_version row ∧ To r = wrap64 (sc_kek_version row + 1) ∧
      database w' = set_seal_config (Some (MkSealConfig (shamir_shares row) (shamir_threshold row) (key_check row) (sc_created_at row) (To r))) (database w) ∧
      seal_memory w' = set_kekVersion (To r) (seal_memory w)
  | Err _ => seal_memory w' = seal_memory w ∧ database w' = database w
  end.
Proof.
  unfold Rotate. destruct (readConfig_cases w) as [f [E|E]].
  { rewrite (bind_err _ _ _ _ _ E). by intros [= <- <-]. }
  rewrite (bind_ok _ _ _ _ _ E). unfold config_of. destruct (seal_config (database w)) as [row|] eqn:Er; cbn [initialized negb].
  2: by intros [= <- <-].
  unfold mem, bind at 1. cbn [seal_memory set_faults].
  destruct (root (seal_memory w)) as [k|] eqn:Eroot; [|by intros [= <- <-]].
  unfold bind, bump_version, exec, next_fault. cbn. destruct (f 0%nat); [by intros [= <- <-]|].
  rewrite Er, Z.eqb_refl. cbn. intros [= <- <-]. exists row, k. split_and!; done.
Qed.

Lemma Seal_run w : Seal w = (Ok tt, set_seal_memory sealed_memory w).
Proof. unfold Seal, discardCollected, update_mem, modify, bind. by destruct w. Qed.
Lemma GetStatus_inv w o w' : GetStatus w = (o, w') → seal_memory w' = seal_memory w ∧ database w' = database w.
Proof.
  unfold GetStatus. destruct (readConfig_cases w) as [f [E|E]].
  - rewrite (bind_err _ _ _ _ _ E). by intros [= <- <-].
  - rewrite (bind_ok _ _ _ _ _ E). by intros [= <- <-].
Qed.

(** ** The seal as a state machine *)

(** One operation of the manager, a restart of the process, or anything else
  the server does, which touches neither the manager nor its table. *)
Inductive step : World → World → Prop :=
| step_initialize n t o w w' : Initialize n t w = (o, w') → step w w'
| step_unseal share o w w' : Unseal share w = (o, w') → step w w'
| step_seal o w w' : Seal w = (o, w') → step w w'
| step_rotate o w w' : (∀ row, seal_config (database w) = Some row → sc_kek_version row < i64_max) →
    Rotate w = (o, w') → step w w'
| step_status o w w' : GetStatus w = (o, w') → step w w'
| step_restart w : step w (set_seal_memory sealed_memory w)
| step_other w w' : seal_config (database w') = seal_config (database w) → seal_memory w' = seal_memory w → step w w'.
Inductive reachable : World → Prop :=
| reach_boot w : seal_config (database w) = None → seal_memory w = sealed_memory → reachable w
| reach_step w w' : reachable w → step w w' → reachable w'.

Record row_ok (row : SealConfigRow) : Prop := {
  rk_bounds : 2 ≤ shamir_threshold row ≤ shamir_shares row ∧ shamir_shares row ≤ 255;
  rk_version : 1 ≤ sc_kek_version row }.
Record unsealed_ok (row : SealConfigRow) (m : SealMemory) (key : list Z) : Prop := {
  uo_length : length key = 32%nat;
  uo_check : key_check row = hmac_sha256 key (bytes_of_string crypto.keyCheckLabel);
  uo_version : kekVersion m = sc_kek_version row;
  uo_collected : collected m = [] }.
Record sealed_ok (row : SealConfigRow) (m : SealMemory) : Prop := {
  so_version : kekVersion m = 0;
  so_count : blen (collected m) < shamir_threshold row;
  so_distinct : NoDup (last_byte <$> collected m);
  so_length : Forall (fun s => (2 <= length s)%nat) (collected m) }.
Definition memory_ok (row : SealConfigRow) (m : SealMemory) : Prop :=
  match root m with Some key => unsealed_ok row m key | None => sealed_ok row m end.
Definition seal_inv (w : World) : Prop :=
  match seal_config (database w) with
  | None => seal_memory w = sealed_memory
  | Some row => row_ok row ∧ memory_ok row (seal_memory w)
  end.

Lemma not_collected share m : alreadyCollected share m = false →
  NoDup (last_byte <$> collected m) → NoDup (last_byte <$> collected m ++ [share]).
Proof.
  intros Ha Hnd. rewrite fmap_app. apply NoDup_app. split; [done|]. split; [|apply NoDup_singleton].
  intros x Hx Hin. cbn in Hin. apply list_elem_of_singleton in Hin as ->.
  apply list_elem_of_fmap in Hx as (s&Es&Hs). apply not_true_iff_false in Ha. apply Ha.
  unfold alreadyCollected. apply existsb_exists. exists s. split; [by apply list_elem_of_In|]. by apply Z.eqb_eq.
Qed.
Lemma sealed_memory_ok row : row_ok row → memory_ok row sealed_memory.
Proof.
  intros [? _]. split; [done|unfold blen; cbn; lia|apply NoDup_nil_2|apply Forall_nil_2; exact I].
Qed.

Lemma step_inv w w' : seal_inv w → step w w' → seal_inv w'.
Proof.
  intros Hi Hs. unfold seal_inv in *. destruct Hs as [n t o w w' E|share o w w' E|o w w' E|o w w' Hb E|o w w' E|w|w w' Ed Em].
  - apply Initialize_inv in E. destruct o as [split|e].
    + destruct E as (Hn&key&w1&w2&row&(_&?&?)&_&(Hk&_&Hc)&<-&<-&Hv&Hd&Hm).
      rewrite Hd, Hm. cbn. rewrite Hn in Hi. rewrite Hi. unfold shamir.MinShares, shamir.MaxShares, initialKEKVersion in *.
      split; [split; lia|]. unfold memory_ok. cbn [root]. by split.
    + destruct E as [-> ->]. done.
  - apply Unseal_inv in E as [-> [->|(row&Hrow&Hr&Hl&Ha&E)]]; [done|]. rewrite Hrow in *.
    destruct Hi as [Hrk Hm]. unfold memory_ok in Hm. rewrite Hr in Hm. destruct Hm as [Hv Hc Hnd Hlen]. split; [done|].
    cbv zeta in E. destruct E as [(Hlt&->&_)|[(_&->&_)|(_&key&_&Hk&Hchk&->&_)]].
    + unfold memory_ok. cbn [root set_collected]. rewrite Hr. split; cbn [kekVersion collected set_collected]; try done.
      * by apply not_collected.
      * apply Forall_app. split; [done|by repeat constructor].
    + unfold memory_ok. cbn [root set_collected]. rewrite Hr. destruct Hrk as [? _].
      split; cbn [kekVersion collected set_collected]; [done|unfold blen; cbn; lia|by apply NoDup_nil_2|by apply Forall_nil_2].
    + unfold memory_ok. cbn [root]. by split.
  - rewrite Seal_run in E. injection E as <- <-. cbn. destruct (seal_config (database w)) as [row|]; [|done].
    destruct Hi as [Hrk _]. split; [done|by apply sealed_memory_ok].
  - apply Rotate_inv in E. destruct o as [r|e]; [|by destruct E as [-> ->]].
    destruct E as (row&k&Hrow&Hr&_&Hto&Hd&Hm). rewrite Hd, Hm. cbn. rewrite Hrow in *.
    specialize (Hb row eq_refl). destruct Hi as [[? Hver] Hmem]. unfold memory_ok in *. cbn [root set_kekVersion]. rewrite Hr in *.
    rewrite wrap64_id in Hto by (unfold in_i64, i64_min, i64_max in *; lia). destruct Hmem.
    split; [split; cbn; lia|]. by split.
  - apply GetStatus_inv in E as [-> ->]. done.
  - cbn. destruct (seal_config (database w)) as [row|]; [|done]. destruct Hi as [Hrk _]. split; [done|by apply sealed_memory_ok].
  - by rewrite Ed, Em.
Qed.
Lemma reachable_inv w : reachable w → seal_inv w.
Proof.
  induction 1 as [w Hc Hm|w w' _ IH Hs]; [|by apply (step_inv w)]. unfold seal_inv. by rewrite Hc.
Qed.

(** C19. In every reachable state: before initialisation the store is sealed
  and nothing is collected; afterwards the share counts are in range, and the
  store is either unsealed, with the 32-byte key whose check value is stored and
  the stored key version, or sealed, with fewer collected shares than the
  threshold, all for different points. *)
Theorem seal_invariant (w : World) (Hr : reachable w) :
  match seal_config (database w) with
  | None => seal_memory w = sealed_memory
  | Some row => row_ok row ∧ memory_ok row (seal_memory w)
  end.
Proof. by apply reachable_inv. Qed.

(** C20. The only way from sealed to unsealed by [Unseal]: at least as many
  shares as the threshold, at different points, that combine to a key whose
  check value is the one stored at initialisation. *)
Theorem Unseal_needs_quorum (w w' : World) (share : list Z) (o : result Status) (key : list Z)
  (Hr : reachable w) (Hs : root (seal_memory w) = None)
  (Hrun : Unseal share w = (o, w')) (Hk : root (seal_memory w') = Some key) :
  ∃ row shares, seal_config (database w) = Some row ∧ shares = collected (seal_memory w) ++ [share] ∧
    NoDup (last_byte <$> shares) ∧ shamir_threshold row ≤ blen shares ∧
    shamir.Combine shares = Ok key ∧
    key_check row = hmac_sha256 key (bytes_of_string crypto.keyCheckLabel).
Proof.
  apply reachable_inv in Hr. unfold seal_inv in Hr.
  apply Unseal_inv in Hrun as [_ [Hm|(row&Hrow&_&_&Ha&E)]]; [congruence|]. rewrite Hrow in Hr.
  destruct Hr as [_ Hm]. unfold memory_ok in Hm. rewrite Hs in Hm. destruct Hm as [_ _ Hnd _].
  cbv zeta in E. destruct E as [(_&Hm&_)|[(_&Hm&_)|(Hge&k&Hc&_&Hchk&Hm&_)]];
    rewrite Hm in Hk; cbn in Hk; [congruence..|]. simplify_eq. exists row. eexists. split; [done|]. split; [done|].
  split_and!; [by apply not_collected|done..].
Qed.

(** ** Any quorum unseals *)
Fixpoint submit (shares : list (list Z)) : M World (list Status) :=
  match shares with
  | [] => ret []
  | share :: shares =>
      let! st := Unseal share in
      let! rest := submit shares in
      ret (st :: rest)
  end.

Lemma Unseal_accepts share w row key : no_faults w → seal_config (database w) = Some row →
  root (seal_memory w) = None → (2 <= length share)%nat → alreadyCollected share (seal_memory w) = false →
  let all := collected (seal_memory w) ++ [share] in
  (shamir_threshold row ≤ blen all → shamir.Combine all = Ok key ∧ checks key row) →
  ∃ st w', Unseal share w = (Ok st, w') ∧ no_faults w' ∧ database w' = database w ∧
    if blen all <? shamir_threshold row
    then State st = StateSealed ∧ seal_memory w' = set_collected all (seal_memory w)
    else State st = StateUnsealed ∧ seal_memory w' = MkSealMemory (Some key) (sc_kek_version row) [].
Proof.
  intros Hnf Hrow Hroot Hl Ha all Hall. unfold Unseal, collect, readConfig.
  destruct (Nat.ltb_spec (length share) 2); [lia|].
  rewrite (bind_ok _ _ _ _ _ (query_ok _ _ Hnf)). rewrite Hrow. cbn [initialized negb].
  unfold mem, bind at 1. cbn [seal_memory set_faults]. rewrite Hroot, Ha.
  unfold bind at 1 2, update_mem at 1, modify. cbn [threshold seal_memory set_seal_memory collected set_collected].
  fold all. pose proof (no_faults_tail w Hnf) as Hnf'.
  destruct (Z.ltb_spec (blen all) (shamir_threshold row)) as [Hlt|Hge].
  { eexists _, _. split; [done|]. split; [exact Hnf'|]. cbn. by rewrite Hroot. }
  destruct (Hall Hge) as (Hc&Hk&_&Hchk).
  unfold discardCollected, update_mem at 1, modify, bind at 1. cbn [seal_memory set_seal_memory].
  rewrite Hc, (proj2 (crypto.Key_Validate_ok key) Hk).
  unfold crypto.VerifyKeyCheckValue, crypto.KeyCheckValue. rewrite (proj2 (crypto.Key_Validate_ok key) Hk).
  cbn [result_bind keyCheck]. rewrite bool_decide_eq_true_2 by done.
  unfold bind, update_mem, modify. eexists _, _. split; [done|]. split; [exact Hnf'|]. done.
Qed.

Section quorum.
Context (row : SealConfigRow) (key : list Z) (split chosen : list (list Z)).
Context (Hdistinct : ∀ s s', s ∈ split → s' ∈ split → last_byte s = last_byte s' → s = s')
  (Hlength : ∀ s, s ∈ split → (2 <= length s)%nat)
  (Hchosen : ∀ s, s ∈ chosen → s ∈ split) (Hnodup : NoDup chosen)
  (Hcount : blen chosen = shamir_threshold row)
  (Hcombine : shamir.Combine chosen = Ok key) (Hchecks : checks key row).

Lemma submit_from rest given w : given ++ rest = chosen → rest ≠ [] → no_faults w →
  seal_config (database w) = Some row → seal_memory w = MkSealMemory None 0 given →
  ∃ sts st w', submit rest w = (Ok (sts ++ [st]), w') ∧ length (sts ++ [st]) = length rest ∧
    Forall (fun x => State x = StateSealed) sts ∧ State st = StateUnsealed ∧
    seal_memory w' = MkSealMemory (Some key) (sc_kek_version row) [].
Proof.
  revert given w. induction rest as [|s rest IH]; intros given w Hall Hne Hnf Hrow Hm; [done|].
  assert (s ∈ split) as Hs by (apply Hchosen; rewrite <- Hall; set_solver).
  assert (alreadyCollected s (seal_memory w) = false) as Ha.
  { apply not_true_iff_false. unfold alreadyCollected. rewrite existsb_exists, Hm. intros (s'&Hin&E).
    apply list_elem_of_In in Hin. cbn in Hin. apply Z.eqb_eq in E.
    assert (s' = s) as -> by (apply Hdistinct; [apply Hchosen; rewrite <- Hall; set_solver|done|done]).
    rewrite <- Hall in Hnodup. apply NoDup_app in Hnodup as (_&Hd&_). apply (Hd s Hin). left. }
  destruct (Unseal_accepts s w row key Hnf Hrow) as (st&w'&E&Hnf'&Hdb&Hst); [by rewrite Hm|auto|done| |].
  { rewrite Hm. cbn. intros Hge.
    assert (rest = []) as ->.
    { unfold blen in *. rewrite <- Hall, length_app in Hcount. rewrite length_app in Hge. simpl in Hcount, Hge.
      destruct rest; [done|simpl in Hcount; lia]. }
    rewrite Hall. done. }
  cbn [submit]. rewrite (bind_ok _ _ _ _ _ E). rewrite Hm in Hst. cbn [collected] in Hst.
  destruct rest as [|s' rest].
  - rewrite Hall, Hcount, Z.ltb_irrefl in Hst. destruct Hst as [Hst Hm'].
    exists [], st, w'. by rewrite Hm'.
  - assert (blen (given ++ [s]) <? shamir_threshold row = true) as Hlt.
    { apply Z.ltb_lt. rewrite <- Hcount, <- Hall. unfold blen. rewrite !length_app. simpl. lia. }
    rewrite Hlt in Hst. destruct Hst as [Hst Hm'].
    destruct (IH (given ++ [s]) w') as (sts&st'&w''&E'&Hl&Hf&Hst'&Hm'').
    { by rewrite <- app_assoc. } { done. } { done. } { by rewrite Hdb. } { by rewrite Hm'. }
    rewrite (bind_ok _ _ _ _ _ E'). exists (st :: sts), st', w''. cbn [app length]. split_and!; try done.
    + by rewrite Hl.
    + by constructor.
Qed.
End quorum.

(** C28. After initialisation, sealing or restarting, any [threshold] of the
  returned shares, in any order, unseal the store with the key it was
  initialised with; until the last one it stays sealed. *)
Theorem Unseal_quorum (n t : Z) (w w1 w2 : World) (split chosen : list (list Z))
  (Hinit : Initialize n t w = (Ok split, w1))
  (Hdb : seal_config (database w2) = seal_config (database w1)) (Hsealed : seal_memory w2 = sealed_memory)
  (Hnf : no_faults w2) (Hnd : NoDup chosen) (Hin : ∀ s, s ∈ chosen → s ∈ split) (Hn : blen chosen = t) :
  ∃ sts st w3, submit chosen w2 = (Ok (sts ++ [st]), w3) ∧ length (sts ++ [st]) = length chosen ∧
    Forall (fun x => State x = StateSealed) sts ∧ State st = StateUnsealed ∧
    root (seal_memory w3) = root (seal_memory w1) ∧ is_Some (root (seal_memory w1)) ∧
    kekVersion (seal_memory w3) = kekVersion (seal_memory w1).
Proof.
  apply Initialize_inv in Hinit as (_&key&v1&v2&row&Hok&Hs&Hc&_&Ht&Hv&Hd&Hm).
  destruct (submit_from row key split chosen) with (rest := chosen) (given := @nil (list Z)) (w := w2)
    as (sts&st&w3&E&Hl&Hf&Hst&Hm3).
  - intros s s' H1 H2 E. by apply (shamir.Split_last_byte key n t v1 split v2).
  - intros s H1. destruct (shamir.Split_last_byte key n t v1 split v2 s s Hok Hs H1 H1) as [-> _].
    destruct Hc as (->&_). lia.
  - done.
  - done.
  - by rewrite Ht.
  - apply (shamir.Combine_of_Split key n t v1 split v2); [done|apply Hc|done|done|done|lia].
  - done.
  - done.
  - intros ->. destruct Hok as (_&_&?). unfold blen, shamir.MinShares in *. simpl in Hn. lia.
  - done.
  - by rewrite Hdb, Hd.
  - done.
  - exists sts, st, w3. rewrite Hm3, Hm. split_and!; try done.
Qed.

(** ** The cipher *)

(** Sealed, the cipher neither encrypts nor decrypts nor rewraps: every
  call fails with [ErrSealed] and changes nothing. *)
Theorem sealed_refuses (w : World) (tenant : string) (plaintext : list Z) (env : crypto.Envelope) (aad : crypto.AAD)
  (Hv : 1 ≤ crypto.KEKVersion env) :
  let w' := snd (Seal w) in
  seal_memory w' = sealed_memory ∧ database w' = database w ∧
  Cipher_Seal tenant plaintext aad w' = (Err [ErrSealed], w') ∧
  Cipher_Open tenant env aad w' = (Err [ErrSealed], w') ∧
  Cipher_Rewrap tenant env aad w' = (Err [ErrSealed], w').
Proof.
  rewrite Seal_run. cbn [snd]. split_and!; [done|done|done| |].
  - unfold Cipher_Open. destruct (Z.ltb_spec (crypto.KEKVersion env) 1); [lia|]. done.
  - unfold Cipher_Rewrap, initialKEKVersion. destruct (Z.ltb_spec (crypto.KEKVersion env) 1); [lia|]. done.
Qed.

Definition tenant_ok (tenant : string) : Prop := len tenant ≤ crypto.maxFieldLen.
Lemma deriveKEK_ok m key tenant version : root m = Some key → length key = 32%nat →
  1 ≤ version → in_i64 version → tenant_ok tenant →
  ∃ label, crypto.Label ["kek"; tenant; Itoa version] = Ok label ∧
    deriveKEKLocked m tenant version = Ok (hkdf_key key label 32).
Proof.
  intros Hr Hk Hv Hi Ht. unfold deriveKEKLocked, initialKEKVersion. rewrite Hr.
  destruct (Z.ltb_spec version 1); [lia|]. unfold crypto.LabelInt, crypto.Label. cbn [crypto.label_bytes].
  unfold tenant_ok in Ht. change crypto.maxFieldLen with 1048576 in *.
  change (1048576 <? len "kek") with false. cbv iota.
  destruct (Z.ltb_spec 1048576 (len tenant)); [lia|].
  assert (len (Itoa version) ≤ 65) as Hil.
  { unfold in_i64, i64_min, i64_max, Itoa, len in *. destruct (Z.ltb_spec version 0); [lia|].
    rewrite length_pad. clear -Hv. assert (∀ f x, (ndigits f x <= S f)%nat) as Hn; [|specialize (Hn 64%nat version); lia].
    induction f as [|f IH]; intros x; cbn [ndigits]; [lia|]. destruct (x <? 10); [lia|]. specialize (IH (x / 10)). lia. }
  destruct (Z.ltb_spec 1048576 (len (Itoa version))); [lia|]. cbn [result_bind result_map].
  eexists. split; [done|]. unfold crypto.DeriveKey. rewrite (proj2 (crypto.Key_Validate_ok key) Hk). cbn [result_bind].
  destruct (String.eqb_spec (string_of_bytes (framed "kek" ++ framed tenant ++ framed (Itoa version) ++ [])) "") as [E|]; [|done].
  exfalso. apply (f_equal String.length) in E. rewrite <- length_bytes_of_string, bytes_of_string_of_bytes in E.
  - rewrite length_app in E. change (length (framed "kek")) with 7%nat in E. simpl in E. lia.
  - repeat apply Forall_app_2; auto using framed_bytes, Forall_nil_2.
Qed.

(** What the cipher sealed opens again in every later state that holds
  the same root key, however often the key version was rotated in between. *)
Theorem Cipher_Open_Seal (w w2 : World) (tenant : string) (plaintext key : list Z) (aad : crypto.AAD)
  (Hr : root (seal_memory w) = Some key) (Hk : length key = 32%nat) (Hv : 1 ≤ kekVersion (seal_memory w))
  (Hi : in_i64 (kekVersion (seal_memory w))) (Ht : tenant_ok tenant) (Ha : crypto.aad_ok aad)
  (Hsame : root (seal_memory w2) = Some key) :
  ∃ env w1, Cipher_Seal tenant plaintext aad w = (Ok env, w1) ∧ database w1 = database w ∧ seal_memory w1 = seal_memory w ∧
    crypto.KEKVersion env = kekVersion (seal_memory w) ∧
    Cipher_Open tenant env aad w2 = (Ok plaintext, w2).
Proof.
  destruct (deriveKEK_ok (seal_memory w) key tenant (kekVersion (seal_memory w))) as (label&Hlabel&Hd); [done..|].
  unfold Cipher_Seal, mem, lift_result, sealingKEK. unfold bind at 1 2. rewrite Hd. cbn [result_bind fst snd].
  destruct (crypto.Open_sealed (hkdf_key key label 32) (kekVersion (seal_memory w)) plaintext aad w)
    as (e&w'&E&Hdb&Hm&Hev&Ho); [apply hkdf_length|done|done|].
  exists e, w'. rewrite E. split_and!; try done.
  unfold Cipher_Open. rewrite Hev. destruct (Z.ltb_spec (kekVersion (seal_memory w)) 1); [lia|].
  unfold mem, bind, lift_result.
  destruct (deriveKEK_ok (seal_memory w2) key tenant (kekVersion (seal_memory w))) as (label'&Hlabel'&Hd'); [done..|].
  rewrite Hd'. assert (label' = label) as -> by congruence. by rewrite Ho.
Qed.
End theory.

(** ** http.go *)
Section http.
Context `{Primitives}.
(** The audit sink of the module; [None] when there is none. *)
Context (sink : option (audit.Event → M World unit)).

Definition pathStatus : string := "/v1/sys/seal-status".
Definition pathInit : string := "/v1/sys/init".
Definition pathUnseal : string := "/v1/sys/unseal".
Definition PathsAllowedWhileSealed : list string := [pathStatus; pathInit; pathUnseal].

Definition record (r : Request) (operation res : string) (w : World) : World :=
  match sink with
  | None => w
  | Some append =>
      snd (append (audit.MkEvent operation "" "" "" 0 res "" "" (RequestID r) (httpx.RemoteIP r)) w)
  end.

Definition classify (e : list string) : Z * string :=
  if errors_Is e ErrAlreadyInitialized then (StatusConflict, "already_initialized")
  else if errors_Is e ErrNotInitialized then (StatusPreconditionFailed, "not_initialized")
  else if errors_Is e ErrUnsealFailed then (StatusBadRequest, "unseal_failed")
  else if errors_Is e ErrInvalidShare then (StatusBadRequest, "invalid_share")
  else if errors_Is e shamir.ErrShareCount || errors_Is e shamir.ErrThreshold then (StatusBadRequest, "invalid_parameters")
  else (StatusInternalServerError, "internal_error").
Definition problem_for (e : list string) : World → Response * World :=
  reply (httpx.Problem (fst (classify e)) (snd (classify e))).

Definition render (st : Status) : json :=
  JObj [("state", JStr (State st)); ("shares", JNum (Itoa (Shares st))); ("threshold", JNum (Itoa (Threshold st)));
        ("progress", JNum (Itoa (Progress st))); ("kek_version", JNum (Itoa (KEKVersion st)))].

Definition handleStatus : Handler := fun r =>
  run_or GetStatus problem_for (fun st => reply (httpx.JSON StatusOK (render st))).

Definition initRequest : list string := ["shares"; "threshold"].
Definition initRequest_of (l : list (string * json)) : option (Z * Z) :=
  n ← field_value initRequest "shares" to_int 0 l;
  t ← field_value initRequest "threshold" to_int 0 l; Some (n, t).
Definition handleInit : Handler := fun r w =>
  match httpx.DecodeJSON initRequest initRequest_of (Body r) with
  | Err _ => (httpx.Problem StatusBadRequest "malformed_body", w)
  | Ok request =>
      run_or (Initialize (fst request) (snd request)) problem_for (fun shares w =>
        (httpx.JSON StatusOK (JObj [("shares", JArr ((fun share => JStr (StdEncode share)) <$> shares));
                                    ("threshold", JNum (Itoa (snd request)))]),
         record r "seal.initialize" audit.ResultAllow w)) w
  end.

Definition unsealRequest_of (l : list (string * json)) : option string :=
  field_value ["share"] "share" to_str "" l.
Definition handleUnseal : Handler := fun r w =>
  match httpx.DecodeJSON ["share"] unsealRequest_of (Body r) with
  | Err _ => (httpx.Problem StatusBadRequest "malformed_body", w)
  | Ok request =>
      match StdDecode request with
      | None => (httpx.Problem StatusBadRequest "invalid_share", w)
      | Some share =>
          run_or (Unseal share)
            (fun e w => problem_for e (record r "seal.unseal" audit.ResultDeny w))
            (fun st w => (httpx.JSON StatusOK (render st),
               if String.eqb (State st) StateUnsealed then record r "seal.unseal" audit.ResultAllow w else w)) w
      end
  end.
End http.

(** ** Examples *)
Section examples.
Import sample.
Local Definition w0 : World := crypto.sample_world.
Local Definition split0 : list (list Z) := match fst (Initialize 5 3 w0) with Ok s => s | Err _ => [] end.
Local Definition w1 : World := snd (Initialize 5 3 w0).
Local Definition w2 : World := snd (Seal w1).
Local Definition nth_share (i : nat) : list Z := default [] (split0 !! i).
Local Definition key0 : list Z := default [] (root (seal_memory w1)).

Lemma w0_w1_ok : fst (Initialize 5 3 w0) = Ok split0.
Proof. by vm_compute. Qed.
Lemma w0_w1 : Initialize 5 3 w0 = (Ok split0, w1).
Proof. exact (pair_fst _ _ w0_w1_ok). Qed.
#[local] Opaque Initialize.
Lemma w2_reachable : reachable w2.
Proof.
  apply (reach_step w1); [|apply (step_seal (fst (Seal w1)) w1 w2), surjective_pairing].
  apply (reach_step w0); [by apply reach_boot|]. apply (step_initialize 5 3 (Ok split0) w0 w1), w0_w1.
Qed.

Lemma seal_invariant_witness :
  match seal_config (database w2) with
  | None => seal_memory w2 = sealed_memory
  | Some row => row_ok row ∧ memory_ok row (seal_memory w2)
  end.
Proof. apply (seal_invariant w2 w2_reachable). Defined.

Local Definition w2' : World := snd (Unseal (nth_share 4) w2).
Local Definition w3 : World := snd (Unseal (nth_share 0) w2').
Lemma w3_reachable : reachable w3.
Proof.
  apply (reach_step w2'); [apply (reach_step w2); [apply w2_reachable|]|];
    eapply step_unseal; apply surjective_pairing.
Qed.
Lemma Unseal_needs_quorum_witness :
  ∃ row shares, seal_config (database w3) = Some row ∧ shares = collected (seal_memory w3) ++ [nth_share 2] ∧
    NoDup (last_byte <$> shares) ∧ shamir_threshold row ≤ blen shares ∧ shamir.Combine shares = Ok key0 ∧
    key_check row = hmac_sha256 key0 (bytes_of_string crypto.keyCheckLabel).
Proof.
  refine (Unseal_needs_quorum w3 (snd (Unseal (nth_share 2) w3)) (nth_share 2) (fst (Unseal (nth_share 2) w3)) key0 _ _ _ _).
  - apply w3_reachable.
  - by vm_compute.
  - apply surjective_pairing.
  - by vm_compute.
Defined.

Lemma Unseal_quorum_witness :
  ∃ sts st w3, submit [nth_share 3; nth_share 1; nth_share 4] w2 = (Ok (sts ++ [st]), w3) ∧ length (sts ++ [st]) = 3%nat ∧
    Forall (fun x => State x = StateSealed) sts ∧ State st = StateUnsealed ∧
    root (seal_memory w3) = root (seal_memory w1) ∧ is_Some (root (seal_memory w1)) ∧
    kekVersion (seal_memory w3) = kekVersion (seal_memory w1).
Proof.
  refine (Unseal_quorum 5 3 w0 w1 w2 split0 [nth_share 3; nth_share 1; nth_share 4] w0_w1 _ _ _ _ _ _).
  - by vm_compute.
  - by vm_compute.
  - intros n. by vm_compute.
  - apply (bool_decide_unpack _). by vm_compute.
  - intros s Hs. apply elem_of_cons in Hs as [->|[->|[->|Hs]%elem_of_cons]%elem_of_cons].
    + apply (bool_decide_unpack _). by vm_compute.
    + apply (bool_decide_unpack _). by vm_compute.
    + apply (bool_decide_unpack _). by vm_compute.
    + by apply elem_of_nil in Hs.
  - reflexivity.
Defined.

Lemma sealed_refuses_witness :
  let w' := snd (Seal w1) in
  seal_memory w' = sealed_memory ∧ database w' = database w1 ∧
  Cipher_Seal "prod" [1] crypto.sample_place w' = (Err [ErrSealed], w') ∧
  Cipher_Open "prod" crypto.sample_envelope crypto.sample_place w' = (Err [ErrSealed], w') ∧
  Cipher_Rewrap "prod" crypto.sample_envelope crypto.sample_place w' = (Err [ErrSealed], w').
Proof. refine (sealed_refuses w1 "prod" [1] crypto.sample_envelope crypto.sample_place _). by vm_compute. Defined.

Lemma Cipher_Open_Seal_witness :
  ∃ env v, Cipher_Seal "prod" [1; 2; 3] crypto.sample_place w1 = (Ok env, v) ∧ database v = database w1 ∧
    seal_memory v = seal_memory w1 ∧ crypto.KEKVersion env = kekVersion (seal_memory w1) ∧
    Cipher_Open "prod" env crypto.sample_place (snd (Rotate w1)) = (Ok [1; 2; 3], snd (Rotate w1)).
Proof.
  refine (Cipher_Open_Seal w1 (snd (Rotate w1)) "prod" [1; 2; 3] key0 crypto.sample_place _ _ _ _ _ _ _); by vm_compute.
Defined.
End examples.
End seal.
