(* ===== verification/PolicyStore.v ===== *)
(** modules/policy: the stored policies and their bindings (manager.go) and the
  handler that answers what a policy set decides (http.go). *)
From Stdlib Require Import ZArith Lia.
From S2P Require Import Prelude GoStrings GoTime Json World Policy Httpx.

Module manager.
Import policy.
Definition maxBoundPolicies : Z := 64.
Definition maxTenantLenBytes : Z := 64.
Definition ErrNotFound : string := "policy: no such policy".
Definition ErrInvalidTenant : string := "policy: tenant is empty or too long".
Definition ErrTooManyBound : string := "policy: too many policies bound to one identity".
Definition ErrStoredCorrupt : string := "policy: a stored policy no longer validates".
Definition ErrEmptyIdentity : string := "policy: identity must not be empty".
(** The foreign key of [policy_bindings]. *)
Definition foreign_key : string := "sqlite: FOREIGN KEY constraint failed".
(** Any error of [encoding/json]. *)
Definition json_error : string := "encoding/json: the text does not fit the type".

Definition validateTenant (tenant : string) : result unit :=
  if String.eqb tenant "" || (maxTenantLenBytes <? len tenant) then Err [ErrInvalidTenant] else Ok tt.

(** ** Rules as JSON: the struct has no tags, so the members are the field names *)
Definition rule_fields : list string := ["Path"; "Capabilities"].
Definition rule_json (r : Rule) : json :=
  JObj [("Path", JStr (Path r)); ("Capabilities", JArr (JStr <$> Capabilities r))].
Definition rules_json (rules : list Rule) : json := JArr (rule_json <$> rules).
Definition to_text (v : json) : option string :=
  match v with JStr s => Some s | JNull => Some "" | _ => None end.
Definition to_texts (v : json) : option (list string) :=
  match v with JArr l => mapM to_text l | _ => None end.
Definition rule_of_json (v : json) : option Rule :=
  match v with
  | JObj l =>
      path ← field_value rule_fields "Path" to_str "" l;
      capabilities ← field_value rule_fields "Capabilities" to_texts [] l;
      Some (MkRule path capabilities)
  | JNull => Some (MkRule "" [])
  | _ => None
  end.
Definition rules_of_json (v : json) : option (list Rule) :=
  match v with JArr l => mapM rule_of_json l | JNull => Some [] | _ => None end.
Definition Unmarshal (encoded : string) : result (list Rule) :=
  match v ← parse encoded; rules_of_json v with Some rules => Ok rules | None => Err [json_error] end.

Definition decodePolicy (name encoded : string) : result Policy :=
  match Unmarshal encoded with
  | Err e => Err (errors_Join [ErrStoredCorrupt] e)
  | Ok rules =>
      match New name rules with
      | Err e => Err (errors_Join [ErrStoredCorrupt] e)
      | Ok p => Ok p
      end
  end.

(** ** Statements *)
Definition upsert (tenant name encoded now : string) (d : Db) : Db :=
  let created := match policy_definitions d !! (tenant, name) with Some row => pd_created_at row | None => now end in
  set_policy_definitions (<[(tenant, name) := MkPolicyRow encoded created now]> (policy_definitions d)) d.
(** The rows of the table, and those of the bindings that referenced them. *)
Definition delete_policy (tenant name : string) (d : Db) : result Z * Db :=
  match policy_definitions d !! (tenant, name) with
  | None => (Ok 0, d)
  | Some _ =>
      (Ok 1, set_policy_bindings (filter (fun kv => ¬ (kv.1.1.1 = tenant ∧ kv.1.2 = name)) (policy_bindings d))
               (set_policy_definitions (delete (tenant, name) (policy_definitions d)) d))
  end.
Definition insert_binding (tenant identityID name now : string) (d : Db) : result unit * Db :=
  match policy_bindings d !! (tenant, identityID, name) with
  | Some _ => (Ok tt, d)
  | None =>
      match policy_definitions d !! (tenant, name) with
      | None => (Err [foreign_key], d)
      | Some _ => (Ok tt, set_policy_bindings (<[(tenant, identityID, name) := now]> (policy_bindings d)) d)
      end
  end.
Definition names_of (tenant : string) (d : Db) : list string :=
  order_by id ((fun kv => kv.1.2) <$> map_to_list (filter (fun kv => kv.1.1 = tenant) (policy_definitions d))).
Definition bound_names (tenant identityID : string) (d : Db) : list string :=
  order_by id ((fun kv => kv.1.2) <$> map_to_list (filter (fun kv => kv.1.1 = (tenant, identityID)) (policy_bindings d))).
(** The join of a binding with its definition: name and rules. *)
Definition joined (tenant : string) (d : Db) (name : string) : option (string * string) :=
  (fun row => (name, pd_rules row)) <$> policy_definitions d !! (tenant, name).
Definition bound_rules (tenant identityID : string) (d : Db) : list (string * string) :=
  order_by fst (omap (joined tenant d)
    ((fun kv => kv.1.2) <$> map_to_list (filter (fun kv => kv.1.1 = (tenant, identityID)) (policy_bindings d)))).

(** ** Operations *)
Definition Put (tenant : string) (p : Policy) : M World unit :=
  lift_result (validateTenant tenant) ;!
  lift_result (New (Name p) (Rules p)) ;!
  let encoded := print (rules_json (Rules p)) in
  let! t := now in
  exec_ (upsert tenant (Name p) encoded (FormatTime t)).

Definition Get (tenant name : string) : M World Policy :=
  lift_result (validateTenant tenant) ;!
  let! row := query (fun d => policy_definitions d !! (tenant, name)) in
  match row with
  | None => fail [ErrNotFound]
  | Some row => lift_result (decodePolicy name (pd_rules row))
  end.

Definition List_ (tenant : string) : M World (list string) :=
  lift_result (validateTenant tenant) ;!
  query (names_of tenant).

Definition Delete (tenant name : string) : M World unit :=
  lift_result (validateTenant tenant) ;!
  let! affected := exec (delete_policy tenant name) in
  if affected =? 0 then fail [ErrNotFound] else ret tt.

Definition BindingsFor (tenant identityID : string) : M World (list string) :=
  query (bound_names tenant identityID).

Definition Bind (tenant identityID name : string) : M World unit :=
  lift_result (validateTenant tenant) ;!
  if String.eqb identityID "" then fail [ErrEmptyIdentity]
  else
    Get tenant name ;!
    let! bound := BindingsFor tenant identityID in
    if maxBoundPolicies <=? blen bound then fail [ErrTooManyBound]
    else let! t := now in exec (insert_binding tenant identityID name (FormatTime t)).

Definition Unbind (tenant identityID name : string) : M World unit :=
  lift_result (validateTenant tenant) ;!
  exec_ (fun d => set_policy_bindings (delete (tenant, identityID, name) (policy_bindings d)) d).

(** The loop over the rows: the first that does not decode ends it. *)
Fixpoint decode_all (rows : list (string * string)) : result Set_ :=
  match rows with
  | [] => Ok []
  | (name, encoded) :: rows =>
      let? p := decodePolicy name encoded in
      let? set := decode_all rows in Ok (p :: set)
  end.
Definition SetFor (identity : authn.Identity) : M World Set_ :=
  lift_result (validateTenant (authn.Tenant identity)) ;!
  let! rows := query (bound_rules (authn.Tenant identity) (authn.ID identity)) in
  lift_result (decode_all rows).

Definition reason_tenant : string := "the path belongs to another tenant".
Definition Authorize (identity : authn.Identity) (tenant path capability : string) : M World authz.Decision :=
  if String.eqb (authn.Tenant identity) "" || String.eqb tenant "" || negb (String.eqb (authn.Tenant identity) tenant)
  then ret (authz.refuse reason_tenant)
  else let! set := SetFor identity in ret (Evaluate set path capability).

Definition Permitted (identity : authn.Identity) (tenant path : string) : M World bool :=
  let! decision := Authorize identity tenant path authz.Delete in ret (authz.Allowed decision).

(** ** http.go *)
Record checkRequest := MkCheckRequest { q_tenant : string; q_path : string; q_capability : string }.
Definition check_fields : list string := ["tenant"; "path"; "capability"].
Definition checkRequest_of (l : list (string * json)) : option checkRequest :=
  tenant ← field_value check_fields "tenant" to_str "" l;
  path ← field_value check_fields "path" to_str "" l;
  capability ← field_value check_fields "capability" to_str "" l;
  Some (MkCheckRequest tenant path capability).
Definition checkResponse (decision : authz.Decision) (bound : list string) : json :=
  JObj ([("allowed", JBool (authz.Allowed decision))] ++ omit_str "policy" (authz.Policy decision)
        ++ omit_str "rule" (authz.Rule decision) ++ [("reason", JStr (authz.Reason decision));
        ("policies", JArr (JStr <$> bound))]).
Definition handleCheck : Handler := fun r w =>
  match Identity r with
  | None => (httpx.Problem StatusUnauthorized "unauthenticated", w)
  | Some identity =>
      match httpx.DecodeJSON check_fields checkRequest_of (Body r) with
      | Err _ => (httpx.Problem StatusBadRequest "malformed_body", w)
      | Ok request =>
          if negb (authz.Grantable (q_capability request))
          then (httpx.Problem StatusBadRequest "invalid_capability", w)
          else
            let internal (e : list string) := reply (httpx.Problem StatusInternalServerError "internal_error") in
            run_or (Authorize identity (q_tenant request) (q_path request) (q_capability request)) internal (fun decision =>
            run_or (BindingsFor (authn.Tenant identity) (authn.ID identity)) internal (fun bound =>
            reply (httpx.JSON StatusOK (checkResponse decision bound)))) w
      end
  end.

(** ** Rules survive storing *)
Section theory.
Definition utf8_rule (r : Rule) : bool := utf8_valid (Path r) && forallb utf8_valid (Capabilities r).
Lemma numbers_ok_rules rules : numbers_ok (rules_json rules).
Proof.
  induction rules as [|r rules IH]; [done|]. split; [|done]. cbn. split_and!; [done| |done].
  induction (Capabilities r); done.
Qed.
Lemma clean_texts l : forallb utf8_valid l = true → clean (JArr (JStr <$> l)) = JArr (JStr <$> l).
Proof.
  intros H. cbn [clean]. f_equal. induction l as [|s l IH]; [done|]. apply andb_true_iff in H as [Hs Hl].
  cbn [fmap list_fmap List.map clean]. by rewrite (sanitize_valid s Hs), (IH Hl).
Qed.
Lemma clean_rule r : utf8_rule r = true → clean (rule_json r) = rule_json r.
Proof.
  intros H. apply andb_true_iff in H as [Hp Hc]. apply clean_texts in Hc. unfold rule_json.
  generalize dependent (JArr (JStr <$> Capabilities r)). intros v Hv.
  cbn [clean List.map fst snd]. by rewrite (sanitize_valid _ Hp), Hv.
Qed.
Lemma clean_rules rules : forallb utf8_rule rules = true → clean (rules_json rules) = rules_json rules.
Proof.
  intros H. unfold rules_json. cbn [clean]. f_equal. induction rules as [|r rules IH]; [done|].
  apply andb_true_iff in H as [Hr Hrs]. cbn [fmap list_fmap List.map]. by rewrite (clean_rule r Hr), (IH Hrs).
Qed.
Lemma rule_of_rule_json r : rule_of_json (rule_json r) = Some r.
Proof.
  assert (to_texts (JArr (JStr <$> Capabilities r)) = Some (Capabilities r)) as E.
  { cbn. induction (Capabilities r) as [|c l IH]; [done|]. cbn [fmap list_fmap mapM]. cbn. by rewrite IH. }
  unfold rule_json, rule_of_json, field_value. cbn -[to_texts]. rewrite E. by destruct r.
Qed.
Lemma Unmarshal_print rules : forallb utf8_rule rules = true → Unmarshal (print (rules_json rules)) = Ok rules.
Proof.
  intros H. unfold Unmarshal. rewrite parse_print by apply numbers_ok_rules. rewrite (clean_rules _ H).
  unfold rules_json. cbn [rules_of_json mbind option_bind].
  assert (mapM rule_of_json (rule_json <$> rules) = Some rules) as ->; [|done].
  clear H. induction rules as [|r rules IH]; [done|].
  cbn [fmap list_fmap mapM]. rewrite (rule_of_rule_json r). cbn. by rewrite IH.
Qed.

Lemma New_same name rules p : New name rules = Ok p → p = MkPolicy name rules.
Proof.
  unfold New. destruct (String.eqb name ""); [done|]. destruct (_ <? _); [done|].
  destruct (bool_decide _); [done|]. destruct (_ <? _); [done|].
  destruct (check_rules [] rules); [|done]. by intros [= <-].
Qed.
(** The policy a row of the table stands for. *)
Definition stored (d : Db) (tenant name : string) : option Policy :=
  row ← policy_definitions d !! (tenant, name);
  match decodePolicy name (pd_rules row) with Ok p => Some p | Err _ => None end.

(** A policy that was stored is read back as it was put, and storing it
  changes no other policy and no binding. *)
Theorem Put_Get (tenant : string) (p : Policy) (w w' : World)
  (Hput : Put tenant p w = (Ok tt, w')) (Hnf : no_faults w') (Hutf : forallb utf8_rule (Rules p) = true) :
  Get tenant (Name p) w' = (Ok p, tick w') ∧
  policy_bindings (database w') = policy_bindings (database w) ∧
  ∀ tenant' name, (tenant', name) ≠ (tenant, Name p) →
    policy_definitions (database w') !! (tenant', name) = policy_definitions (database w) !! (tenant', name).
Proof.
  unfold Put in Hput. run_inv. split_and!; [|done|].
  - unfold Get. erewrite bind_lift by done. rewrite bind_query_nf by done.
    unfold upsert. cbn [database set_database policy_definitions set_policy_definitions].
    rewrite lookup_insert_eq. unfold lift_result. cbn [pd_rules]. unfold decodePolicy.
    rewrite (Unmarshal_print _ Hutf).
    match goal with E : New _ _ = Ok _ |- _ => pose proof (New_same _ _ _ E) as ->; rewrite E end. by destruct p.
  - intros tenant' name Hne. cbn. by rewrite lookup_insert_ne by congruence.
Qed.

(** ** The set of an identity *)
Lemma elem_of_bound_rules d tenant identityID name encoded :
  (name, encoded) ∈ bound_rules tenant identityID d ↔
  is_Some (policy_bindings d !! (tenant, identityID, name)) ∧
  ∃ row, policy_definitions d !! (tenant, name) = Some row ∧ encoded = pd_rules row.
Proof.
  unfold bound_rules. rewrite elem_of_order_by, list_elem_of_omap. split.
  - intros (n&Hn&Hj). apply list_elem_of_fmap in Hn as ([[[t i] n'] ts]&->&Hn).
    apply elem_of_map_to_list, map_lookup_filter_Some in Hn as [Hn Ht]. cbn in Ht, Hj. simplify_eq.
    unfold joined in Hj. apply fmap_Some in Hj as (row&Hrow&Hj). simplify_eq. eauto.
  - intros ([ts Hts]&row&Hrow&->). exists name. split; [|unfold joined; by rewrite Hrow].
    apply list_elem_of_fmap. exists ((tenant, identityID, name), ts). split; [done|].
    apply elem_of_map_to_list, map_lookup_filter_Some. done.
Qed.
Lemma decodePolicy_Name name encoded p : decodePolicy name encoded = Ok p → Name p = name.
Proof.
  unfold decodePolicy. destruct (Unmarshal encoded); [|done]. destruct (New name a) eqn:E; [|done].
  intros [= <-]. apply New_same in E. by rewrite E.
Qed.
Lemma decode_all_Ok rows set : decode_all rows = Ok set →
  ∀ p, p ∈ set ↔ ∃ name encoded, (name, encoded) ∈ rows ∧ decodePolicy name encoded = Ok p.
Proof.
  revert set. induction rows as [|[n enc] rows IH]; intros set.
  - intros [= <-] p. split; [by intros ?%elem_of_nil|]. intros (?&?&?%elem_of_nil&_). done.
  - cbn. destruct (decodePolicy n enc) as [q|] eqn:Eq; [|done]. cbn. destruct (decode_all rows) as [s|]; [|done]. cbn.
    intros [= <-] p. rewrite elem_of_cons, (IH s eq_refl). split.
    + intros [->|(name&e&?&?)]; [exists n, enc|exists name, e]; split; try done; [by left|by right].
    + intros (name&e&[?|?]%elem_of_cons&?); [left; simplify_eq; congruence|right; eauto].
Qed.
Definition bound (d : Db) (tenant identityID : string) (p : Policy) : Prop :=
  is_Some (policy_bindings d !! (tenant, identityID, Name p)) ∧ stored d tenant (Name p) = Some p.
Lemma SetFor_Ok identity w set w' : SetFor identity w = (Ok set, w') →
  w' = tick w ∧ ∀ p, p ∈ set ↔ bound (database w) (authn.Tenant identity) (authn.ID identity) p.
Proof.
  unfold SetFor. intros H. run_inv. split; [done|]. intros p.
  match goal with E : decode_all _ = Ok _ |- _ => rewrite (decode_all_Ok _ _ E) end.
  unfold bound, stored. split.
  - intros (name&enc&Hin&Hd). pose proof (decodePolicy_Name _ _ _ Hd) as <-.
    apply elem_of_bound_rules in Hin as (?&row&Hrow&->). split; [done|]. rewrite Hrow. cbn. by rewrite Hd.
  - intros (Hb&Hs). destruct (policy_definitions _ !! _) as [row|] eqn:Hrow; [|done]. cbn in Hs.
    destruct (decodePolicy _ _) eqn:Hd; [|done]. simplify_eq.
    exists (Name p), (pd_rules row). split; [|done]. apply elem_of_bound_rules. eauto.
Qed.
Lemma elem_of_candidates s c : c ∈ candidates s ↔ ∃ p, p ∈ s ∧ c_policy c = Name p ∧ c_rule c ∈ Rules p.
Proof.
  unfold candidates. rewrite list_elem_of_bind. split.
  - intros (p&Hc&Hp). apply list_elem_of_fmap in Hc as (r&->&Hr). eauto.
  - intros (p&Hp&Hn&Hr). exists p. split; [|done]. apply list_elem_of_fmap. exists (c_rule c). split; [|done].
    destruct c; cbn in *; by subst.
Qed.
Lemma grants_spec r c : grants r c = true ↔ c ∈ Capabilities r.
Proof.
  unfold grants. rewrite existsb_exists, list_elem_of_In. split.
  - intros (x&Hx&Heq). apply String.eqb_eq in Heq. by subst.
  - intros Hc. exists c. by rewrite String.eqb_refl.
Qed.
(** What an allowing decision of the engine rests on. *)
Lemma Evaluate_allows s path requested : authz.Allowed (Evaluate s path requested) = true →
  (∃ p r, p ∈ s ∧ r ∈ Rules p ∧ matches (Path r) path = true ∧ requested ∈ Capabilities r ∧
     authz.Policy (Evaluate s path requested) = Name p ∧ authz.Rule (Evaluate s path requested) = Path r) ∧
  ∀ p r, p ∈ s → r ∈ Rules p → matches (Path r) path = true → authz.Deny ∉ Capabilities r.
Proof.
  intros Ha. destruct (authz.Grantable requested) eqn:Hg; [|unfold Evaluate in Ha; by rewrite Hg in Ha].
  destruct (is_ok (ValidatePath path)) eqn:Hv; [|unfold Evaluate in Ha; by rewrite Hg, Hv in Ha].
  destruct (Evaluate_cases s path requested Hg Hv) as [(_&c&_&_&E)|[(_&_&E)|(Hd&c&Hc&Hgr&HP&HR)]];
    [by rewrite E in Ha..|].
  split.
  - apply most_specific_elem, elem_of_matching in Hc as [Hm Hc]. apply elem_of_candidates in Hc as (p&Hp&Hn&Hr).
    rewrite Hgr in Ha. apply grants_spec in Ha. exists p, (c_rule c). split_and!; congruence.
  - intros p r Hp Hr Hm Hdeny. apply not_true_iff_false in Hd. apply Hd, denied_spec.
    exists (MkCandidate (Name p) r). split; [|by apply grants_spec]. apply elem_of_matching. split; [done|].
    apply elem_of_candidates. eauto.
Qed.
Lemma Authorize_quiet identity tenant path capability : quiet (Authorize identity tenant path capability).
Proof. unfold Authorize, SetFor. solve_quiet. Qed.
Lemma Authorize_db identity tenant path capability : same_db (Authorize identity tenant path capability).
Proof.
  unfold Authorize, SetFor. repeat case_match; auto with world. Qed.
Lemma Authorize_Ok identity tenant path capability w d w' :
  Authorize identity tenant path capability w = (Ok d, w') → authz.Allowed d = true →
  authn.Tenant identity = tenant ∧ tenant ≠ "" ∧
  ∃ set, SetFor identity w = (Ok set, w') ∧ d = Evaluate set path capability.
Proof.
  unfold Authorize.
  destruct (String.eqb_spec (authn.Tenant identity) ""); [by intros [= <- <-]|].
  destruct (String.eqb_spec tenant ""); [by intros [= <- <-]|].
  destruct (String.eqb_spec (authn.Tenant identity) tenant); [|by intros [= <- <-]].
  cbn [orb negb]. intros H _. run_inv. eauto.
Qed.

(** What an identity needs to do something at a path. *)
Definition permits (d : Db) (identity : authn.Identity) (tenant path capability : string) : Prop :=
  authn.Tenant identity = tenant ∧ tenant ≠ "" ∧
  (∃ p r, bound d tenant (authn.ID identity) p ∧ r ∈ Rules p ∧ matches (Path r) path = true ∧ capability ∈ Capabilities r) ∧
  ∀ p r, bound d tenant (authn.ID identity) p → r ∈ Rules p → matches (Path r) path = true → authz.Deny ∉ Capabilities r.
Lemma Authorize_rests identity tenant path capability w w' d :
  Authorize identity tenant path capability w = (Ok d, w') → authz.Allowed d = true →
  permits (database w) identity tenant path capability ∧
  ∃ p r, bound (database w) tenant (authn.ID identity) p ∧ r ∈ Rules p ∧
     matches (Path r) path = true ∧ capability ∈ Capabilities r ∧
     authz.Policy d = Name p ∧ authz.Rule d = Path r.
Proof.
  intros Hrun Ha. destruct (Authorize_Ok _ _ _ _ _ _ _ Hrun Ha) as (Ht&Hne&set&Hs&->).
  apply SetFor_Ok in Hs as [-> Hset]. rewrite Ht in Hset.
  destruct (Evaluate_allows _ _ _ Ha) as [(p&r&Hp&Hr&Hm&Hc&HP&HR) Hdeny].
  assert (bound (database w) tenant (authn.ID identity) p) as Hb by by apply Hset. split.
  - split_and!; [done|done|by exists p, r|]. intros q s' Hq Hs' Hms. eapply Hdeny; [by apply Hset|done..].
  - by exists p, r.
Qed.

(** Whoever is allowed something is allowed it inside its own tenant, by
  a policy of that tenant bound to that very identity, through a rule that
  matches the path and lists the capability, and no rule of any bound policy
  denies the path. *)
Theorem Authorize_allowed (identity : authn.Identity) (tenant path capability : string) (w w' : World) (d : authz.Decision)
  (Hrun : Authorize identity tenant path capability w = (Ok d, w')) (Ha : authz.Allowed d = true) :
  authn.Tenant identity = tenant ∧ tenant ≠ "" ∧ database w' = database w ∧
  (∃ p r, bound (database w) tenant (authn.ID identity) p ∧ r ∈ Rules p ∧
     matches (Path r) path = true ∧ capability ∈ Capabilities r ∧
     authz.Policy d = Name p ∧ authz.Rule d = Path r) ∧
  ∀ p r, bound (database w) tenant (authn.ID identity) p → r ∈ Rules p →
    matches (Path r) path = true → authz.Deny ∉ Capabilities r.
Proof.
  pose proof (Authorize_db identity tenant path capability w) as Hdb. rewrite Hrun in Hdb.
  destruct (Authorize_rests _ _ _ _ _ _ _ Hrun Ha) as [(Ht&Hne&_&Hdeny) Hrule]. done.
Qed.

(** What another tenant stores or binds has no influence: two databases
  that agree on the definitions of a tenant and on the bindings of an identity
  give it the same decision, or the same error. *)
Theorem Authorize_isolated (identity : authn.Identity) (tenant path capability : string) (w1 w2 : World)
  (Hdefs : ∀ name, policy_definitions (database w1) !! (tenant, name) = policy_definitions (database w2) !! (tenant, name))
  (Hbinds : ∀ name, policy_bindings (database w1) !! (tenant, authn.ID identity, name)
                  = policy_bindings (database w2) !! (tenant, authn.ID identity, name))
  (Hfaults : faults w1 0%nat = faults w2 0%nat) :
  fst (Authorize identity tenant path capability w1) = fst (Authorize identity tenant path capability w2).
Proof.
  unfold Authorize.
  destruct (String.eqb (authn.Tenant identity) ""), (String.eqb tenant ""),
    (String.eqb_spec (authn.Tenant identity) tenant) as [Ht|]; try done. cbn [orb negb].
  assert (bound_rules tenant (authn.ID identity) (database w1) = bound_rules tenant (authn.ID identity) (database w2)) as E.
  { unfold bound_rules. f_equal.
    assert (filter (fun kv => kv.1.1 = (tenant, authn.ID identity)) (policy_bindings (database w1))
          = filter (fun kv => kv.1.1 = (tenant, authn.ID identity)) (policy_bindings (database w2))) as ->.
    { apply map_filter_strong_ext. intros [ti n] ts. cbn. split; intros [-> Hl]; split; try done; [rewrite <- Hbinds|rewrite Hbinds]; done. }
    apply list_omap_ext. apply Forall_Forall2_diag, Forall_true. intros n. unfold joined. by rewrite Hdefs. }
  unfold SetFor, bind, query, next_fault, lift_result, ret. rewrite Ht, Hfaults.
  destruct (validateTenant tenant), (faults w2 0%nat); cbn; try done. rewrite E. by destruct (decode_all _).
Qed.

(** A deleted policy is gone for everybody: it cannot be read, nobody is
  bound to it, and no decision in its tenant rests on it any more. *)
Theorem Delete_revokes (tenant name : string) (w w' : World)
  (Hdel : Delete tenant name w = (Ok tt, w')) :
  policy_definitions (database w') !! (tenant, name) = None ∧
  (∀ identityID, policy_bindings (database w') !! (tenant, identityID, name) = None) ∧
  (∀ identity path capability d v, Authorize identity tenant path capability w' = (Ok d, v) →
     authz.Allowed d = true → authz.Policy d ≠ name) ∧
  ∀ tenant' identityID name', (tenant', name') ≠ (tenant, name) →
    policy_bindings (database w') !! (tenant', identityID, name') = policy_bindings (database w) !! (tenant', identityID, name') ∧
    policy_definitions (database w') !! (tenant', name') = policy_definitions (database w) !! (tenant', name').
Proof.
  unfold Delete in Hdel. unfold bind at 1, lift_result in Hdel. destruct (validateTenant tenant); [|done].
  apply bind_ok_inv in Hdel as (n&v&He&Hr). apply exec_Ok in He as (d'&Ed&->).
  destruct (Z.eqb_spec n 0); [done|]. injection Hr as <-. unfold delete_policy in Ed.
  destruct (policy_definitions (database w) !! (tenant, name)) as [row|] eqn:Hrow; [|by simplify_eq]. simplify_eq.
  split_and!.
  - cbn. by rewrite lookup_delete_eq.
  - intros i. cbn. apply map_lookup_filter_None. right. intros ? _ Hn. by apply Hn.
  - intros identity path capability d v Hrun Ha Hn.
    destruct (Authorize_Ok _ _ _ _ _ _ _ Hrun Ha) as (Ht&_&set&Hs&->). apply SetFor_Ok in Hs as [_ Hset].
    destruct (Evaluate_allows _ _ _ Ha) as [(p&r&Hp&_&_&_&HP&_) _]. apply Hset in Hp as [_ Hst].
    rewrite Ht in Hst. unfold stored in Hst. cbn in Hst. rewrite <- HP, Hn, lookup_delete_eq in Hst. done.
  - intros t' i n' Hne. cbn. rewrite lookup_delete_ne by congruence. split; [|done].
    destruct (policy_bindings (database w) !! (t', i, n')) as [ts|] eqn:E.
    + apply map_lookup_filter_Some. split; [done|]. cbn. intros [-> ->]. done.
    + apply map_lookup_filter_None. by left.
Qed.
End theory.

(** ** Examples *)
Section examples.
Local Definition start : World := fresh_world (fun _ => 1700000000 * Second) (fun _ => 0).
Local Definition readers : Policy :=
  MkPolicy "readers" [MkRule "app/*" [authz.Read; authz.List]; MkRule "app/keys/*" [authz.Deny]].
Local Definition alice : authn.Identity := authn.MkIdentity "id-1" authn.KindInstance "acme" 0 false.
Local Definition stored_world : World := snd (Put "acme" readers start).
Local Definition bound_world : World := snd (Bind "acme" "id-1" "readers" stored_world).
Local Definition decision : authz.Decision :=
  authz.MkDecision true "readers" "app/*" ("the most specific matching rule grants " +:+ quoted authz.Read).

Lemma Put_Get_witness :
  Get "acme" "readers" stored_world = (Ok readers, tick stored_world) ∧
  policy_bindings (database stored_world) = policy_bindings (database start) ∧
  ∀ tenant' name, (tenant', name) ≠ ("acme", "readers") →
    policy_definitions (database stored_world) !! (tenant', name) = policy_definitions (database start) !! (tenant', name).
Proof.
  refine (Put_Get "acme" readers start stored_world _ _ _); [|done|by vm_compute].
  by apply pair_fst; vm_compute.
Defined.

Lemma bound_decision : fst (Authorize alice "acme" "app/config" authz.Read bound_world) = Ok decision.
Proof. by vm_compute. Qed.
Lemma Authorize_allowed_witness :
  let w' := snd (Authorize alice "acme" "app/config" authz.Read bound_world) in
  authn.Tenant alice = "acme" ∧ "acme" ≠ "" ∧ database w' = database bound_world ∧
  (∃ p r, bound (database bound_world) "acme" "id-1" p ∧ r ∈ Rules p ∧
     matches (Path r) "app/config" = true ∧ authz.Read ∈ Capabilities r ∧
     authz.Policy decision = Name p ∧ authz.Rule decision = Path r) ∧
  ∀ p r, bound (database bound_world) "acme" "id-1" p → r ∈ Rules p →
    matches (Path r) "app/config" = true → authz.Deny ∉ Capabilities r.
Proof.
  refine (Authorize_allowed alice "acme" "app/config" authz.Read bound_world _ decision _ eq_refl).
  exact (pair_fst _ _ bound_decision).
Defined.

Local Definition other_tenant (w : World) : World :=
  set_database (set_policy_definitions (<[("evil", "readers") := MkPolicyRow "[]" "" ""]> (policy_definitions (database w)))
    (set_policy_bindings (<[("evil", "id-1", "readers") := ""]> (policy_bindings (database w))) (database w))) w.
Lemma Authorize_isolated_witness :
  fst (Authorize alice "acme" "app/config" authz.Read bound_world) =
  fst (Authorize alice "acme" "app/config" authz.Read (other_tenant bound_world)).
Proof.
  refine (Authorize_isolated alice "acme" "app/config" authz.Read bound_world (other_tenant bound_world) _ _ _).
  - intros name. symmetry. apply lookup_insert_ne. intros E. discriminate E.
  - intros name. symmetry. apply lookup_insert_ne. intros E. discriminate E.
  - reflexivity.
Defined.

Lemma Delete_revokes_witness :
  let w' := snd (Delete "acme" "readers" bound_world) in
  policy_definitions (database w') !! ("acme", "readers") = None ∧
  (∀ identityID, policy_bindings (database w') !! ("acme", identityID, "readers") = None) ∧
  (∀ identity path capability d v, Authorize identity "acme" path capability w' = (Ok d, v) →
     authz.Allowed d = true → authz.Policy d ≠ "readers") ∧
  ∀ tenant' identityID name', (tenant', name') ≠ ("acme", "readers") →
    policy_bindings (database w') !! (tenant', identityID, name') = policy_bindings (database bound_world) !! (tenant', identityID, name') ∧
    policy_definitions (database w') !! (tenant', name') = policy_definitions (database bound_world) !! (tenant', name').
Proof.
  refine (Delete_revokes "acme" "readers" bound_world _ _).
  apply pair_fst. by vm_compute.
Defined.
End examples.
End manager.
