(* ===== verification/Cipher.v ===== *)
(** The interface between the stores and the seal: what secret.Cipher and
  param.Cipher promise to the services that are built on them, and the proof
  that the seal's cipher keeps the promise.  The stores' theorems are proved
  against the interface. *)
From Stdlib Require Import ZArith Lia.
From S2P Require Import Prelude GoStrings GoTime World Envelope SealManager.

(** ** Computations that use nothing but the random source *)
Definition only_entropy {A} (m : M World A) : Prop := ∀ w, ∃ e, snd (m w) = set_entropy e w.

Lemma only_entropy_bind {A B} (m : M World A) (k : A → M World B) :
  only_entropy m → (∀ a, only_entropy (k a)) → only_entropy (bind m k).
Proof.
  intros Hm Hk w. destruct (Hm w) as [e E]. unfold bind. destruct (m w) as [[a|err] w'] eqn:Em; cbn [snd] in E; subst; [|by exists e].
  destruct (Hk a (set_entropy e w)) as [e' E']. exists e'. by rewrite E'.
Qed.
Lemma only_entropy_same {A} (m : M World A) : (∀ w, snd (m w) = w) → only_entropy m.
Proof. intros Hm w. exists (entropy w). rewrite Hm. by destruct w. Qed.
Lemma only_entropy_ret {A} (a : A) : only_entropy (ret a).
Proof. by apply only_entropy_same. Qed.
Lemma only_entropy_fail {A} e : only_entropy (fail (A:=A) e).
Proof. by apply only_entropy_same. Qed.
Lemma only_entropy_lift {A} (r : result A) : only_entropy (lift_result r).
Proof. by apply only_entropy_same. Qed.
Lemma only_entropy_rand n : only_entropy (rand_read n).
Proof. intros w. by eexists. Qed.
Lemma only_entropy_if {A} (b : bool) (m k : M World A) :
  only_entropy m → only_entropy k → only_entropy (if b then m else k).
Proof. by destruct b. Qed.
Lemma only_entropy_quiet {A} (m : M World A) : only_entropy m → quiet m.
Proof. intros Hm w. by destruct (Hm w) as [e ->]. Qed.
#[export] Hint Resolve only_entropy_bind only_entropy_ret only_entropy_fail only_entropy_lift only_entropy_rand
  only_entropy_if : world.

(** ** The interface *)
Class Cipher := {
  cipher_Seal : ∀ (tenant : string) (plaintext : list Z) (aad : crypto.AAD), M World crypto.Envelope;
  cipher_Open : ∀ (tenant : string) (envelope : crypto.Envelope) (aad : crypto.AAD), M World (list Z);
  cipher_Rewrap : ∀ (tenant : string) (envelope : crypto.Envelope) (aad : crypto.AAD), M World (crypto.Envelope * bool) }.

Class CipherLaws (C : Cipher) := {
  (** the version new envelopes are sealed under *)
  cipher_version : SealMemory → Z;
  seal_effect : ∀ tenant plaintext aad, only_entropy (cipher_Seal tenant plaintext aad);
  rewrap_effect : ∀ tenant env aad, only_entropy (cipher_Rewrap tenant env aad);
  open_effect : ∀ tenant env aad w, snd (cipher_Open tenant env aad w) = w;
  (** opening depends on the keys in memory alone *)
  open_memory : ∀ tenant env aad w1 w2, seal_memory w1 = seal_memory w2 →
    fst (cipher_Open tenant env aad w1) = fst (cipher_Open tenant env aad w2);
  seal_opens : ∀ tenant plaintext aad w env w', cipher_Seal tenant plaintext aad w = (Ok env, w') →
    fst (cipher_Open tenant env aad w) = Ok plaintext;
  seal_place : ∀ tenant plaintext aad w env w', cipher_Seal tenant plaintext aad w = (Ok env, w') → crypto.aad_ok aad;
  rewrap_opens : ∀ tenant env aad w env' changed w', cipher_Rewrap tenant env aad w = (Ok (env', changed), w') →
    crypto.KEKVersion env' = cipher_version (seal_memory w) ∧ crypto.Ciphertext env' = crypto.Ciphertext env ∧
    (changed = false → env' = env) ∧
    ∀ plaintext, fst (cipher_Open tenant env aad w) = Ok plaintext → fst (cipher_Open tenant env' aad w) = Ok plaintext }.

Lemma cipher_Open_run `{CipherLaws} tenant env aad w p :
  fst (cipher_Open tenant env aad w) = Ok p → cipher_Open tenant env aad w = (Ok p, w).
Proof. intros E. rewrite (surjective_pairing (cipher_Open tenant env aad w)), E. by rewrite open_effect. Qed.

Lemma quiet_cipher_Open `{CipherLaws} tenant env aad : quiet (cipher_Open tenant env aad).
Proof. intros w. by rewrite open_effect. Qed.
Lemma quiet_cipher_Seal `{CipherLaws} tenant p aad : quiet (cipher_Seal tenant p aad).
Proof. apply only_entropy_quiet, seal_effect. Qed.
#[export] Hint Resolve quiet_cipher_Open quiet_cipher_Seal : world.

(** ** The seal implements it *)
Section seal.
Context `{PrimitiveLaws}.
#[export] Instance seal_cipher : Cipher := {
  cipher_Seal := seal.Cipher_Seal; cipher_Open := seal.Cipher_Open; cipher_Rewrap := seal.Cipher_Rewrap }.

Lemma only_entropy_mem : only_entropy seal.mem.
Proof. by apply only_entropy_same. Qed.
Lemma only_entropy_sealWith key p aad : only_entropy (crypto.sealWith key p aad).
Proof. unfold crypto.sealWith. auto 10 with world. Qed.
Hint Resolve only_entropy_mem only_entropy_sealWith : world.
Lemma only_entropy_Seal kek v p aad : only_entropy (crypto.Seal kek v p aad).
Proof. unfold crypto.Seal, crypto.NewKey. repeat (first [apply only_entropy_bind; [auto with world|intros ?]|apply only_entropy_if]); auto with world. Qed.
Lemma only_entropy_Rewrap k n v e aad : only_entropy (crypto.Rewrap k n v e aad).
Proof. unfold crypto.Rewrap. repeat (first [apply only_entropy_bind; [auto with world|intros ?]|apply only_entropy_if]); auto with world. Qed.
Hint Resolve only_entropy_Seal only_entropy_Rewrap : world.

Lemma derive_inv m tenant version kek : seal.deriveKEKLocked m tenant version = Ok kek → 1 ≤ version ∧ length kek = 32%nat.
Proof.
  unfold seal.deriveKEKLocked, seal.initialKEKVersion. destruct (root m); [|done]. destruct (Z.ltb_spec version 1); [done|].
  destruct (crypto.Label _) as [label|]; [|done]. cbn [result_bind]. unfold crypto.DeriveKey.
  destruct (crypto.Key_Validate l); [|done]. cbn [result_bind]. destruct (String.eqb label ""); [done|].
  intros [= <-]. split; [done|]. apply hkdf_length.
Qed.
Lemma Seal_inv kek v p aad w env w' : crypto.Seal kek v p aad w = (Ok env, w') → 1 ≤ v ∧ crypto.aad_ok aad.
Proof.
  unfold crypto.Seal, bind, lift_result. destruct (crypto.Key_Validate kek); [|done].
  destruct (Z.ltb_spec v 1); [done|]. unfold crypto.AAD_encode.
  destruct (crypto.AAD_Validate aad) as [[]|] eqn:E; [|done]. intros _. split; [done|]. by apply crypto.AAD_Validate_ok.
Qed.
Lemma Rewrap_inv k n v env aad w env' w' : crypto.Rewrap k n v env aad w = (Ok env', w') → 1 ≤ v ∧
  crypto.KEKVersion env' = v ∧ crypto.Ciphertext env' = crypto.Ciphertext env.
Proof.
  unfold crypto.Rewrap. intros E. apply bind_ok_inv in E as (?&?&_&E). apply bind_ok_inv in E as (?&?&_&E).
  destruct (Z.ltb_spec v 1); [done|]. apply bind_ok_inv in E as (?&?&_&E). apply bind_ok_inv in E as (?&?&_&E).
  apply bind_ok_inv in E as (?&?&_&E). by injection E as <- <-.
Qed.

Lemma seal_opens_here tenant plaintext aad w env w' : seal.Cipher_Seal tenant plaintext aad w = (Ok env, w') →
  fst (seal.Cipher_Open tenant env aad w) = Ok plaintext.
Proof.
  unfold seal.Cipher_Seal, seal.mem, lift_result, seal.sealingKEK. unfold bind.
  destruct (seal.deriveKEKLocked (seal_memory w) tenant (kekVersion (seal_memory w))) as [kek|] eqn:Ek; [|done].
  cbn [result_bind fst snd]. intros E. destruct (derive_inv _ _ _ _ Ek) as [Hv Hl]. destruct (Seal_inv _ _ _ _ _ _ _ E) as [_ Ha].
  destruct (crypto.Open_sealed kek (kekVersion (seal_memory w)) plaintext aad w Hl Hv Ha) as (env1&w1&E1&_&_&Hver&Ho).
  rewrite E in E1. simplify_eq. unfold seal.Cipher_Open. rewrite Hver. destruct (Z.ltb_spec (kekVersion (seal_memory w)) 1); [lia|].
  unfold bind, seal.mem, lift_result. by rewrite Ek, Ho.
Qed.

Lemma seal_place_here tenant plaintext aad w env w' : seal.Cipher_Seal tenant plaintext aad w = (Ok env, w') → crypto.aad_ok aad.
Proof.
  unfold seal.Cipher_Seal. intros E. apply bind_ok_inv in E as (?&?&_&E). apply bind_ok_inv in E as (?&?&_&E).
  by apply Seal_inv in E as [_ ?].
Qed.

Lemma rewrap_opens_here tenant env aad w env' changed w' : seal.Cipher_Rewrap tenant env aad w = (Ok (env', changed), w') →
  crypto.KEKVersion env' = kekVersion (seal_memory w) ∧ crypto.Ciphertext env' = crypto.Ciphertext env ∧
  (changed = false → env' = env) ∧
  ∀ plaintext, fst (seal.Cipher_Open tenant env aad w) = Ok plaintext → fst (seal.Cipher_Open tenant env' aad w) = Ok plaintext.
Proof.
  unfold seal.Cipher_Rewrap, seal.initialKEKVersion. destruct (Z.ltb_spec (crypto.KEKVersion env) 1) as [|Hv]; [done|].
  unfold seal.rewrap, seal.mem. unfold bind at 1. destruct (root (seal_memory w)) as [k|] eqn:Er; [|done].
  destruct (Z.ltb_spec (kekVersion (seal_memory w)) (crypto.KEKVersion env)); [done|].
  destruct (Z.eqb_spec (crypto.KEKVersion env) (kekVersion (seal_memory w))) as [Heq|].
  { intros [= <- <- <-]. auto. }
  unfold bind, lift_result.
  destruct (seal.deriveKEKLocked (seal_memory w) tenant (crypto.KEKVersion env)) as [cur|] eqn:Ec; [|done].
  destruct (seal.deriveKEKLocked (seal_memory w) tenant (kekVersion (seal_memory w))) as [next|] eqn:En; [|done].
  destruct (crypto.Rewrap cur next (kekVersion (seal_memory w)) env aad w) as [[env1|] w1] eqn:E; [|done].
  intros [= <- <- <-]. destruct (Rewrap_inv _ _ _ _ _ _ _ _ E) as (Hv1&Hver&Hc). split_and!; [done|done|done|].
  intros p. unfold seal.Cipher_Open. rewrite Hver. destruct (Z.ltb_spec (crypto.KEKVersion env) 1); [done|].
  destruct (Z.ltb_spec (kekVersion (seal_memory w)) 1); [lia|].
  unfold bind, seal.mem, lift_result. rewrite Ec, En. cbn [fst]. intros Ho.
  destruct (crypto.Rewrap_opens cur next (kekVersion (seal_memory w)) env aad p w) as (e2&w2&E2&_&_&_&_&Ho2);
    [by eapply derive_inv|done|done|]. rewrite E in E2. by simplify_eq.
Qed.

#[export] Instance seal_cipher_laws : CipherLaws seal_cipher.
Proof.
  refine {| cipher_version := kekVersion |}.
  - intros tenant p aad. unfold cipher_Seal, seal_cipher, seal.Cipher_Seal. auto 10 with world.
  - intros tenant env aad. unfold cipher_Rewrap, seal_cipher, seal.Cipher_Rewrap. apply only_entropy_if; [auto with world|].
    unfold seal.rewrap. apply only_entropy_bind; [auto with world|intros m]. destruct (root m); [|auto with world].
    auto 10 with world.
  - intros tenant env aad w. unfold cipher_Open, seal_cipher, seal.Cipher_Open. destruct (_ <? _); [done|].
    unfold bind, seal.mem, lift_result. by destruct (seal.deriveKEKLocked _ _ _).
  - intros tenant env aad w1 w2 E. unfold cipher_Open, seal_cipher, seal.Cipher_Open. destruct (_ <? _); [done|].
    unfold bind, seal.mem, lift_result. rewrite E. by destruct (seal.deriveKEKLocked _ _ _).
  - apply seal_opens_here.
  - apply seal_place_here.
  - apply rewrap_opens_here.
Defined.
End seal.
