(* ===== verification/Walk.v ===== *)
(** The walk that moves every row of a table under the current key version
  after a rotation: the loop of secret/rewrap.go and param/rewrap.go, which
  differ in the table, its key and the rows they skip.  The stores give those
  as an instance of [Walkable]; that the walk ends and misses nothing is proved
  here, once, against the laws of that interface and of the cipher. *)
From Stdlib Require Import ZArith Lia.
From S2P Require Import Prelude GoStrings GoTime World Envelope Cipher.

(** A table that can be walked: its rows, those the walk looks at, the order of
  its keys, and the envelope in a row. *)
Class Walkable (K Row : Type) `{Countable K} := {
  rows : Db → gmap K Row;
  set_rows : gmap K Row → Db → Db;
  live : Row → bool;
  envelope_of : Row → crypto.Envelope;
  (** [SET kek_version = ?, wrapped_dek = ?] *)
  rewrapped : crypto.Envelope → Row → Row;
  before : K → K → bool }.

Record RewrapProgress := MkProgress { Examined : Z; Rewrapped : Z }.
Definition context_canceled : string := "context canceled".
Definition rewrapBatchSize : nat := 100.

Section walk.
Context {K Row : Type} `{Walkable K Row} (rewrap : K → crypto.Envelope → M World (crypto.Envelope * bool)).

(** [WHERE key > at ORDER BY key LIMIT 100] *)
Definition batch_from (at_ : K) (d : Db) : list (K * Row) :=
  take rewrapBatchSize (sort_with (fun a b => negb (before b.1 a.1))
    (filter (fun kv => live kv.2 = true ∧ before at_ kv.1 = true) (map_to_list (rows d)))).
Definition rewrapBatch (at_ : K) : M World (list (K * Row)) := query (batch_from at_).

(** The [UPDATE] of the wrapping, which asks that the row still has the key
  version that was read; the number of rows it matched. *)
Definition replace_row (k : K) (old : Z) (envelope : crypto.Envelope) (d : Db) : result Z * Db :=
  match rows d !! k with
  | None => (Ok 0, d)
  | Some row =>
      if (crypto.KEKVersion (envelope_of row) =? old) && live row
      then (Ok 1, set_rows (<[k := rewrapped envelope row]> (rows d)) d)
      else (Ok 0, d)
  end.
Definition replaceWrapping (k : K) (old : Z) (envelope : crypto.Envelope) : M World bool :=
  let! affected := exec (replace_row k old envelope) in ret (affected =? 1).

(** [ctx.Err()]: a request that was cancelled is one more way a step can fail. *)
Definition check_ctx : M World unit := fun w =>
  let '(b, w') := next_fault w in (if b then Err [context_canceled] else Ok tt, w').

(** The loops also return what they counted when they fail. *)
Definition rewrap_record (record : K * Row) (p : RewrapProgress) (w : World) : RewrapProgress * result unit * World :=
  let envelope := envelope_of record.2 in
  match check_ctx w with
  | (Err e, w) => (p, Err e, w)
  | (Ok _, w) =>
      let p := MkProgress (Examined p + 1) (Rewrapped p) in
      match rewrap record.1 envelope w with
      | (Err e, w) => (p, Err e, w)
      | (Ok (envelope', changed), w) =>
          if negb changed then (p, Ok tt, w)
          else match replaceWrapping record.1 (crypto.KEKVersion envelope) envelope' w with
               | (Err e, w) => (p, Err e, w)
               | (Ok written, w) =>
                   ((if written : bool then MkProgress (Examined p) (Rewrapped p + 1) else p), Ok tt, w)
               end
      end
  end.
Fixpoint rewrap_batch (batch : list (K * Row)) (p : RewrapProgress) (w : World) : RewrapProgress * result unit * World :=
  match batch with
  | [] => (p, Ok tt, w)
  | record :: batch =>
      match rewrap_record record p w with
      | (p, Err e, w) => (p, Err e, w)
      | (p, Ok _, w) => rewrap_batch batch p w
      end
  end.
(** The [for] of [Rewrap]; the next cursor is the last record of the batch.
  [None] is running out of fuel, which [rewrap_loop_ends] excludes. *)
Fixpoint rewrap_loop (fuel : nat) (at_ : K) (p : RewrapProgress) (w : World) : option (RewrapProgress * result unit * World) :=
  match fuel with
  | O => None
  | S fuel =>
      match rewrapBatch at_ w with
      | (Err e, w) => Some (p, Err e, w)
      | (Ok batch, w) =>
          match last batch with
          | None => Some (p, Ok tt, w)
          | Some record =>
              match rewrap_batch batch p w with
              | (p, Err e, w) => Some (p, Err e, w)
              | (p, Ok _, w) => rewrap_loop fuel record.1 p w
              end
          end
      end
  end.
(** Every round but the last moves the cursor past at least one row. *)
Definition rewrap_fuel (w : World) : nat := S (size (rows (database w))).
Definition walk (start : K) (w : World) : RewrapProgress * result unit * World :=
  default (MkProgress 0 0, Ok tt, w) (rewrap_loop (rewrap_fuel w) start (MkProgress 0 0) w).
End walk.

(** ** The laws of a table *)
Class WalkableLaws (K Row : Type) `{Walkable K Row} := {
  rows_set : ∀ m d, rows (set_rows m d) = m;
  live_rewrapped : ∀ env row, live (rewrapped env row) = live row;
  envelope_rewrapped : ∀ env row, crypto.Ciphertext env = crypto.Ciphertext (envelope_of row) →
    envelope_of (rewrapped env row) = env;
  rewrapped_same : ∀ row, rewrapped (envelope_of row) row = row;
  rewrapped_twice : ∀ e e' row, rewrapped e' (rewrapped e row) = rewrapped e' row;
  before_irrefl : ∀ k, before k k = false;
  before_total : ∀ k k', k ≠ k' → before k k' = true ∨ before k' k = true;
  before_trans : ∀ k1 k2 k3, before k1 k2 = true → before k2 k3 = true → before k1 k3 = true }.

(** ** What the walk keeps *)
Section keeps.
Context {K Row : Type} `{Walkable K Row}.
(** A property that survives the replacement of a wrapping. *)
Definition wrap_stable (P : Db → Prop) : Prop := ∀ d k row env,
  P d → rows d !! k = Some row → live row = true → P (set_rows (<[k := rewrapped env row]> (rows d)) d).

Context (P : Db → Prop) (HP : wrap_stable P) (rewrap : K → crypto.Envelope → M World (crypto.Envelope * bool))
  (Hrw : ∀ k e, only_entropy (rewrap k e)).
Lemma keeps_replace k old env : keeps_db P (replaceWrapping k old env).
Proof.
  unfold replaceWrapping. apply keeps_db_bind; [|intros; apply keeps_db_same; auto with world].
  apply keeps_db_exec. intros d a d' Hd. unfold replace_row. destruct (rows d !! k) as [row|] eqn:Er; [|by intros [= <- <-]].
  destruct (_ =? _); cbn [andb]; [|by intros [= <- <-]]. destruct (live row) eqn:En; [|by intros [= <- <-]].
  intros [= <- <-]. by apply HP.
Qed.
Lemma keeps_rewrap_record record pr w : P (database w) → P (database (snd (rewrap_record rewrap record pr w))).
Proof.
  destruct record as [k row]. intros Hw. unfold rewrap_record, check_ctx, next_fault. cbn [fst snd].
  destruct (faults w 0%nat); [done|]. change (set_faults _ w) with (tick w).
  destruct (Hrw k (envelope_of row) (tick w)) as [e E].
  destruct (rewrap k (envelope_of row) (tick w)) as [[[env ch]|er] w1]; cbn [snd] in E; subst w1; [|done].
  destruct ch; cbn [negb]; [|done].
  pose proof (keeps_replace k (crypto.KEKVersion (envelope_of row)) env (set_entropy e (tick w)) Hw) as Hx.
  destruct (replaceWrapping _ _ _ _) as [[b|er] w2]; by cbn in Hx |- *.
Qed.
Lemma keeps_rewrap_batch batch pr w : P (database w) → P (database (snd (rewrap_batch rewrap batch pr w))).
Proof.
  revert pr w. induction batch as [|r batch IH]; intros pr w Hw; [done|]. cbn [rewrap_batch].
  pose proof (keeps_rewrap_record r pr w Hw) as Hx.
  destruct (rewrap_record rewrap r pr w) as [[pr' [u|e]] w']; cbn in Hx; [|done]. by apply IH.
Qed.
Lemma keeps_rewrap_loop fuel at_ pr w r : P (database w) → rewrap_loop rewrap fuel at_ pr w = Some r → P (database (snd r)).
Proof.
  revert at_ pr w. induction fuel as [|fuel IH]; intros at_ pr w Hw; [done|]. cbn [rewrap_loop].
  unfold rewrapBatch. destruct (query_cases (batch_from at_) w) as [E|E]; rewrite E; [by intros [= <-]|].
  destruct (last _) as [x|]; [|by intros [= <-]].
  pose proof (keeps_rewrap_batch (batch_from at_ (database w)) pr (tick w) Hw) as Hx.
  destruct (rewrap_batch _ _ _ _) as [[pr' [u|e]] w']; cbn in Hx; [|by intros [= <-]]. by apply IH.
Qed.
Lemma keeps_walk start w : P (database w) → P (database (snd (walk rewrap start w))).
Proof.
  intros Hw. unfold walk. destruct (rewrap_loop _ _ _ _ _) as [r|] eqn:E; [|done]. by eapply keeps_rewrap_loop.
Qed.
End keeps.

(** ** Batches *)
Section batches.
Context {K Row : Type} `{WalkableLaws K Row}.
Lemma before_asym a b : before a b = true → before b a = false.
Proof.
  intros Hab. destruct (before b a) eqn:E; [|done]. pose proof (before_trans _ _ _ Hab E) as Hx. by rewrite before_irrefl in Hx.
Qed.
Definition live_above (at_ : K) (d : Db) (k : K) (row : Row) : Prop :=
  rows d !! k = Some row ∧ live row = true ∧ before at_ k = true.
Definition le_rows (a b : K * Row) : bool := negb (before b.1 a.1).
Definition pending (at_ : K) (d : Db) : list (K * Row) :=
  sort_with le_rows (filter (fun kv => live kv.2 = true ∧ before at_ kv.1 = true) (map_to_list (rows d))).
Lemma elem_of_pending at_ d k row : (k, row) ∈ pending at_ d ↔ live_above at_ d k row.
Proof.
  unfold pending, live_above. rewrite sort_with_Permutation, list_elem_of_filter, elem_of_map_to_list. cbn. tauto.
Qed.
Lemma pending_NoDup at_ d : NoDup (pending at_ d).*1.
Proof.
  unfold pending. rewrite sort_with_Permutation. apply NoDup_fmap_fst; [|apply NoDup_filter, NoDup_map_to_list].
  intros k r1 r2. rewrite !list_elem_of_filter, !elem_of_map_to_list. intros [_ H1'] [_ H2']. congruence.
Qed.
Lemma pending_sorted at_ d : StronglySorted (fun a b => le_rows a b = true) (pending at_ d).
Proof.
  apply sort_with_Sorted; unfold le_rows.
  - intros a b c. rewrite !negb_true_iff. intros H1' H2'. destruct (before c.1 a.1) eqn:E; [|done].
    destruct (decide (b.1 = c.1)) as [Heq|Hne]; [rewrite Heq in *; congruence|].
    destruct (before_total _ _ Hne) as [Hbc|Hcb]; [|congruence].
    pose proof (before_trans _ _ _ Hbc E). congruence.
  - intros a b. rewrite !negb_true_iff. destruct (before b.1 a.1) eqn:E; [right; by apply before_asym|by left].
Qed.
Lemma batch_prefix at_ d : ∃ rest, pending at_ d = batch_from at_ d ++ rest.
Proof. exists (drop rewrapBatchSize (pending at_ d)). symmetry. apply take_drop. Qed.
Lemma elem_of_batch at_ d k row : (k, row) ∈ batch_from at_ d → live_above at_ d k row.
Proof. intros Hin. apply elem_of_pending. destruct (batch_prefix at_ d) as [rest ->]. apply elem_of_app. by left. Qed.
Lemma batch_NoDup at_ d : NoDup (batch_from at_ d).*1.
Proof.
  pose proof (pending_NoDup at_ d) as Hx. destruct (batch_prefix at_ d) as [rest E]. rewrite E, fmap_app in Hx.
  by apply NoDup_app in Hx as [? _].
Qed.
(** Nothing above the cursor and up to the last record is left out. *)
Lemma batch_covers at_ d k row last_ : last (batch_from at_ d) = Some last_ → live_above at_ d k row →
  before last_.1 k = false → (k, row) ∈ batch_from at_ d.
Proof.
  intros Hl Hk Hb. apply elem_of_pending in Hk. pose proof (pending_sorted at_ d) as Hs. pose proof (pending_NoDup at_ d) as Hnd.
  destruct (batch_prefix at_ d) as [rest E]. rewrite E in Hk, Hs, Hnd. apply elem_of_app in Hk as [|Hk]; [done|exfalso].
  apply last_Some in Hl as [front Hf]. rewrite Hf in Hs, Hnd.
  rewrite <- app_assoc in Hs. apply StronglySorted_app in Hs as (_&_&Hs). cbn in Hs.
  apply StronglySorted_inv in Hs as [_ Hall]. rewrite Forall_forall in Hall. specialize (Hall _ Hk). unfold le_rows in Hall. cbn in Hall.
  apply negb_true_iff in Hall. assert (last_.1 ≠ k) as Hne.
  { intros <-. rewrite !fmap_app in Hnd. apply NoDup_app in Hnd as (_&Hnd&_). apply (Hnd last_.1).
    - apply elem_of_app. right. by left.
    - change last_.1 with ((last_.1, row).1). by apply list_elem_of_fmap_2. }
  destruct (before_total _ _ Hne); congruence.
Qed.
Lemma batch_empty at_ d : last (batch_from at_ d) = None → ∀ k row, ¬ live_above at_ d k row.
Proof.
  intros Hl k row Hk. apply last_None in Hl. apply elem_of_pending in Hk. unfold batch_from in Hl.
  change (take rewrapBatchSize (pending at_ d) = []) in Hl. destruct (pending at_ d); [by apply elem_of_nil in Hk|done].
Qed.
Lemma last_elem {A} (l : list A) x : last l = Some x → x ∈ l.
Proof. intros Hl. apply last_Some in Hl as [f ->]. apply elem_of_app. right. by left. Qed.

(** ** The loop ends *)

(** The keys still to visit. *)
Definition todo (at_ : K) (d : Db) : gset K :=
  dom (filter (fun kv => live kv.2 = true ∧ before at_ kv.1 = true) (rows d)).
Lemma elem_of_todo at_ d k : k ∈ todo at_ d ↔ ∃ row, live_above at_ d k row.
Proof.
  unfold todo, live_above. rewrite elem_of_dom. split.
  - intros [row Hr]. exists row. apply map_lookup_filter_Some in Hr. tauto.
  - intros (row&?&?&?). exists row. apply map_lookup_filter_Some. done.
Qed.
Definition same_live (d d' : Db) : Prop := ∀ k,
  (∃ row, rows d !! k = Some row ∧ live row = true) ↔ (∃ row, rows d' !! k = Some row ∧ live row = true).
Lemma todo_same at_ d d' : same_live d d' → todo at_ d = todo at_ d'.
Proof.
  intros Hs. apply set_eq. intros k. rewrite !elem_of_todo. specialize (Hs k). unfold live_above.
  split; intros (row&?&?&?); [destruct Hs as [Hs _]|destruct Hs as [_ Hs]]; destruct Hs as (r&?&?); eauto.
Qed.
Lemma todo_decreases at_ d r : last (batch_from at_ d) = Some r → (size (todo r.1 d) < size (todo at_ d))%nat.
Proof.
  intros Hl. destruct r as [k row]. pose proof (elem_of_batch _ _ _ _ (last_elem _ _ Hl)) as Hk.
  apply subset_size. split.
  - intros j. rewrite !elem_of_todo. intros (x&?&?&?). exists x. split_and!; try done. eapply before_trans; [apply Hk|done].
  - intros Hsub. assert (k ∈ todo at_ d) as Hin by (apply elem_of_todo; eauto). apply Hsub, elem_of_todo in Hin as (x&_&_&Hx).
    cbn in Hx. by rewrite before_irrefl in Hx.
Qed.
Lemma todo_bound at_ d : (size (todo at_ d) <= size (rows d))%nat.
Proof. unfold todo. rewrite size_dom. apply map_subseteq_size, map_filter_subseteq. Qed.
Lemma same_live_stable d0 : wrap_stable (same_live d0).
Proof.
  intros d k row env Hd Hk Hn j. rewrite (Hd j), rows_set. destruct (decide (k = j)) as [<-|Hne].
  - rewrite lookup_insert_eq. split; intros (r&Hr&?); [exists (rewrapped env row); by rewrite live_rewrapped|by exists row].
  - by rewrite lookup_insert_ne.
Qed.

Section termination.
Context (rewrap : K → crypto.Envelope → M World (crypto.Envelope * bool)) (Hrw : ∀ k e, only_entropy (rewrap k e)).
Lemma rewrap_loop_ends fuel at_ pr w : (size (todo at_ (database w)) < fuel)%nat → is_Some (rewrap_loop rewrap fuel at_ pr w).
Proof.
  revert at_ pr w. induction fuel as [|fuel IH]; intros at_ pr w Hf; [lia|]. cbn [rewrap_loop]. unfold rewrapBatch.
  destruct (query_cases (batch_from at_) w) as [E|E]; rewrite E; [by eexists|].
  destruct (last (batch_from at_ (database w))) as [r|] eqn:Hl; [|by eexists].
  pose proof (keeps_rewrap_batch (same_live (database w)) (same_live_stable _) rewrap Hrw
    (batch_from at_ (database w)) pr (tick w) (fun k => iff_refl _)) as Hs.
  destruct (rewrap_batch _ _ _ _) as [[pr' [u|e]] w']; cbn in Hs |- *; [|by eexists].
  apply IH. rewrite <- (todo_same _ _ _ Hs). pose proof (todo_decreases _ _ _ Hl). lia.
Qed.
(** One round of fuel more than there are rows is enough. *)
Lemma walk_ends start w :
  ∃ outcome, rewrap_loop rewrap (rewrap_fuel w) start (MkProgress 0 0) w = Some outcome ∧ walk rewrap start w = outcome.
Proof.
  destruct (rewrap_loop_ends (rewrap_fuel w) start (MkProgress 0 0) w) as [r Hr].
  - unfold rewrap_fuel. pose proof (todo_bound start (database w)). lia.
  - exists r. split; [done|]. unfold walk. by rewrite Hr.
Qed.
End termination.
End batches.

(** ** Every live row is visited and holds what it held *)
Section complete.
Context {K Row : Type} `{WalkableLaws K Row} `{CipherLaws} (tenant_of : K → string) (place : K → crypto.AAD).
(** The row with its wrapping replaced; whatever opened still opens. *)
Definition same_value (mem : SealMemory) (k : K) (row row' : Row) : Prop := ∃ env,
  row' = rewrapped env row ∧ crypto.Ciphertext env = crypto.Ciphertext (envelope_of row) ∧
  ∀ w p, seal_memory w = mem → fst (cipher_Open (tenant_of k) (envelope_of row) (place k) w) = Ok p →
    fst (cipher_Open (tenant_of k) env (place k) w) = Ok p.
Lemma same_value_refl mem k row : same_value mem k row row.
Proof. exists (envelope_of row). by rewrite rewrapped_same. Qed.
Lemma same_value_trans mem k r1 r2 r3 : same_value mem k r1 r2 → same_value mem k r2 r3 → same_value mem k r1 r3.
Proof.
  intros (e1&->&Hc1&Ho1) (e2&->&Hc2&Ho2). exists e2. rewrite envelope_rewrapped in Hc2, Ho2 by done.
  rewrite rewrapped_twice. split_and!; [done|congruence|]. eauto.
Qed.
Lemma same_value_live mem k row row' : same_value mem k row row' → live row' = live row.
Proof. intros (env&->&_). apply live_rewrapped. Qed.

Let rewrap (k : K) (env : crypto.Envelope) : M World (crypto.Envelope * bool) := cipher_Rewrap (tenant_of k) env (place k).
Lemma rewrap_only_entropy k e : only_entropy (rewrap k e).
Proof. apply rewrap_effect. Qed.
(** The row is under the current version. *)
Definition current (mem : SealMemory) (row : Row) : Prop := crypto.KEKVersion (envelope_of row) = cipher_version mem.
Lemma rewrap_record_Ok k row pr w pr' w' : rows (database w) !! k = Some row → live row = true →
  rewrap_record rewrap (k, row) pr w = (pr', Ok tt, w') →
  seal_memory w' = seal_memory w ∧
  ∃ row', rows (database w') = <[k := row']> (rows (database w)) ∧ same_value (seal_memory w) k row row' ∧ current (seal_memory w) row'.
Proof.
  intros Hk Hn. unfold rewrap_record, check_ctx, next_fault. cbn [fst snd].
  destruct (faults w 0%nat); [done|]. change (set_faults _ w) with (tick w).
  destruct (rewrap k (envelope_of row) (tick w)) as [[[env ch]|er] w1] eqn:E; [|done].
  destruct (rewrap_effect (tenant_of k) (envelope_of row) (place k) (tick w)) as [e Ew]. unfold rewrap in E. rewrite E in Ew. cbn in Ew. subst w1.
  destruct (rewrap_opens _ _ _ _ _ _ _ E) as (Hver&Hct&Hunch&Hop). cbn [seal_memory tick set_faults] in Hver.
  assert (same_value (seal_memory w) k row (rewrapped env row)) as Hsame.
  { exists env. split_and!; try done. intros u q Hu Hq. rewrite (open_memory _ env (place k) u (tick w)) by done. apply Hop.
    rewrite (open_memory _ (envelope_of row) (place k) (tick w) u); [done|]. by rewrite Hu. }
  destruct ch; cbn [negb].
  - unfold replaceWrapping. destruct (exec_cases (replace_row k (crypto.KEKVersion (envelope_of row)) env) (set_entropy e (tick w)))
      as [(er&Ee&_)|(a&d&Hd&Ee)]; unfold bind; rewrite Ee; [done|].
    unfold replace_row in Hd. cbn [database set_entropy tick set_faults] in Hd. rewrite Hk, Hn, Z.eqb_refl in Hd.
    cbn [andb] in Hd. injection Hd as <- <-. intros [= <- <-]. split; [done|]. exists (rewrapped env row).
    split_and!; [apply rows_set|done|]. unfold current. by rewrite envelope_rewrapped.
  - intros [= <- <-]. split; [done|]. specialize (Hunch eq_refl). subst env. rewrite rewrapped_same in Hsame. exists row.
    split_and!; [by rewrite insert_id|done|done].
Qed.
Lemma rewrap_batch_Ok batch pr w pr' w' : NoDup batch.*1 →
  (∀ k row, (k, row) ∈ batch → rows (database w) !! k = Some row ∧ live row = true) →
  rewrap_batch rewrap batch pr w = (pr', Ok tt, w') →
  seal_memory w' = seal_memory w ∧
  (∀ k, k ∉ batch.*1 → rows (database w') !! k = rows (database w) !! k) ∧
  ∀ k row, (k, row) ∈ batch → ∃ row', rows (database w') !! k = Some row' ∧
    same_value (seal_memory w) k row row' ∧ current (seal_memory w) row'.
Proof.
  revert pr w. induction batch as [|[k row] batch IH]; intros pr w Hnd Hb.
  { intros [= <- <-]. split_and!; [done..|]. by intros k row ?%elem_of_nil. }
  cbn [rewrap_batch]. destruct (rewrap_record rewrap (k, row) pr w) as [[pr1 [[]|e]] w1] eqn:E; [|done].
  destruct (Hb k row) as [Hk Hn]; [by left|]. destruct (rewrap_record_Ok _ _ _ _ _ _ Hk Hn E) as (Hm&row'&Hv&Hs&Hver).
  cbn in Hnd. apply NoDup_cons in Hnd as [Hnotin Hnd]. intros Hrest.
  assert (∀ j r, (j, r) ∈ batch → j ≠ k) as Hneq.
  { intros j r Hj ->. apply Hnotin. change k with ((k, r).1). by apply list_elem_of_fmap_2. }
  destruct (IH pr1 w1 Hnd) as (Hm2&Hout&Hin).
  { intros j r Hj. rewrite Hv, lookup_insert_ne; [apply Hb; by right|]. intros ->. by apply (Hneq j r). }
  { done. }
  split_and!; [congruence| |].
  - intros j Hj. cbn [fmap list_fmap] in Hj. apply not_elem_of_cons in Hj as [Hjk Hj]. rewrite Hout by done. rewrite Hv.
    by rewrite lookup_insert_ne.
  - intros j r [Hj|Hj]%elem_of_cons.
    + simplify_eq. exists row'. rewrite Hout, Hv, lookup_insert_eq by done. done.
    + destruct (Hin j r Hj) as (r'&?&?&?). exists r'. rewrite <- Hm. done.
Qed.

(** Everything that is not above the cursor is under the current version. *)
Definition moved (at_ : K) (w : World) : Prop := ∀ k row, rows (database w) !! k = Some row →
  live row = true → before at_ k = false → current (seal_memory w) row.
Definition same_values (w w' : World) : Prop :=
  seal_memory w' = seal_memory w ∧
  ∀ k, option_relation (same_value (seal_memory w) k) (fun _ => False) (fun _ => False)
         (rows (database w) !! k) (rows (database w') !! k).
Lemma same_values_refl w w' : seal_memory w' = seal_memory w → rows (database w') = rows (database w) → same_values w w'.
Proof.
  intros Hm Hr. split; [done|]. intros k. rewrite Hr. destruct (rows (database w) !! k); [apply same_value_refl|done].
Qed.
Lemma same_values_trans w1 w2 w3 : same_values w1 w2 → same_values w2 w3 → same_values w1 w3.
Proof.
  intros (Hm&Hv) (Hm'&Hv'). split; [congruence|]. intros k. specialize (Hv k). specialize (Hv' k).
  rewrite Hm in Hv'. destruct (rows (database w1) !! k), (rows (database w2) !! k), (rows (database w3) !! k); try done.
  by eapply same_value_trans.
Qed.
Lemma batch_step at_ pr w pr' w' r : moved at_ w → last (batch_from at_ (database w)) = Some r →
  rewrap_batch rewrap (batch_from at_ (database w)) pr (tick w) = (pr', Ok tt, w') →
  moved r.1 w' ∧ same_values w w'.
Proof.
  intros Hmoved Hl E. apply rewrap_batch_Ok in E as (Hm&Hout&Hin); [|apply batch_NoDup|].
  2: { intros k row Hk. apply elem_of_batch in Hk. destruct Hk as (?&?&_). done. }
  cbn [seal_memory database tick set_faults] in *.
  assert (∀ k, k ∈ (batch_from at_ (database w)).*1 → ∃ row row', (k, row) ∈ batch_from at_ (database w) ∧
    rows (database w) !! k = Some row ∧ rows (database w') !! k = Some row' ∧
    same_value (seal_memory w) k row row' ∧ current (seal_memory w) row') as Hkeys.
  { intros k Hk. apply list_elem_of_fmap in Hk as ([k' row]&->&Hk). destruct (Hin _ _ Hk) as (row'&?&?&?).
    exists row, row'. split_and!; try done. by apply elem_of_batch in Hk as (?&_). }
  split.
  - intros k row' Hk Hn Hb. rewrite Hm. destruct (decide (k ∈ (batch_from at_ (database w)).*1)) as [Hkin|Hkout].
    + destruct (Hkeys k Hkin) as (row&row2&_&_&Hk2&_&Hver). congruence.
    + rewrite Hout in Hk by done. destruct (before at_ k) eqn:Eb; [|by eapply Hmoved].
      exfalso. apply Hkout. change k with ((k, row').1). apply list_elem_of_fmap_2. by apply (batch_covers _ _ _ _ r).
  - split; [done|]. intros k. destruct (decide (k ∈ (batch_from at_ (database w)).*1)) as [Hkin|Hkout].
    + destruct (Hkeys k Hkin) as (row&row2&_&->&->&?&_). done.
    + rewrite Hout by done. destruct (rows (database w) !! k); [apply same_value_refl|done].
Qed.
Lemma rewrap_loop_Ok fuel at_ pr w pr' w' : moved at_ w → rewrap_loop rewrap fuel at_ pr w = Some (pr', Ok tt, w') →
  same_values w w' ∧ ∀ k row, rows (database w') !! k = Some row → live row = true → current (seal_memory w') row.
Proof.
  revert at_ pr w. induction fuel as [|fuel IH]; intros at_ pr w Hmoved; [done|]. cbn [rewrap_loop]. unfold rewrapBatch.
  destruct (query_cases (batch_from at_) w) as [E|E]; rewrite E; [done|].
  destruct (last (batch_from at_ (database w))) as [r|] eqn:Hl.
  - destruct (rewrap_batch rewrap (batch_from at_ (database w)) pr (tick w)) as [[pr1 [[]|e]] w1] eqn:Eb; [|done].
    destruct (batch_step _ _ _ _ _ _ Hmoved Hl Eb) as [Hm Hs]. intros Hrest. destruct (IH _ _ _ Hm Hrest) as [Hs' Hall].
    split; [by eapply same_values_trans|done].
  - intros [= <- <-]. split; [by apply same_values_refl|].
    intros k row Hk Hn. destruct (before at_ k) eqn:Eb; [|by eapply Hmoved]. exfalso. by eapply (batch_empty _ _ Hl k row).
Qed.
Lemma walk_complete start w pr w' : (∀ k, is_Some (rows (database w) !! k) → before start k = true) →
  walk rewrap start w = (pr, Ok tt, w') →
  same_values w w' ∧ ∀ k row, rows (database w') !! k = Some row → live row = true → current (seal_memory w') row.
Proof.
  intros Hstart E. destruct (walk_ends rewrap rewrap_only_entropy start w) as (r&Hr&Ew). rewrite E in Ew. subst r.
  eapply rewrap_loop_Ok; [|exact Hr]. intros k row Hk _ Hb. rewrite Hstart in Hb; [done|by eexists].
Qed.

(** Whatever the outcome, no value is lost: an error half way leaves some rows
  under the new version and the others as they were. *)
Lemma rewrap_record_safe k row pr w : rows (database w) !! k = Some row → live row = true →
  let w' := snd (rewrap_record rewrap (k, row) pr w) in
  same_values w w' ∧ ∀ j, j ≠ k → rows (database w') !! j = rows (database w) !! j.
Proof.
  intros Hk Hn. cbv zeta. unfold rewrap_record, check_ctx, next_fault. cbn [fst snd].
  assert (∀ v, seal_memory v = seal_memory w → database v = database w → same_values w v ∧
    ∀ j, j ≠ k → rows (database v) !! j = rows (database w) !! j) as Hsame.
  { intros v Hm Hd. rewrite Hd. split; [|done]. apply same_values_refl; [done|by rewrite Hd]. }
  destruct (faults w 0%nat); [by apply Hsame|]. change (set_faults _ w) with (tick w).
  destruct (rewrap k (envelope_of row) (tick w)) as [[[env ch]|er] w1] eqn:E;
    destruct (rewrap_effect (tenant_of k) (envelope_of row) (place k) (tick w)) as [e Ew]; unfold rewrap in E; rewrite E in Ew; cbn in Ew; subst w1;
    [|by apply Hsame].
  destruct (rewrap_opens _ _ _ _ _ _ _ E) as (Hver&Hct&_&Hop). destruct ch; cbn [negb]; [|by apply Hsame].
  unfold replaceWrapping. destruct (exec_cases (replace_row k (crypto.KEKVersion (envelope_of row)) env) (set_entropy e (tick w)))
    as [(er&Ee&_)|(a&d&Hd&Ee)]; unfold bind; rewrite Ee; [by apply Hsame|].
  unfold replace_row in Hd. cbn [database set_entropy tick set_faults] in Hd. rewrite Hk, Hn, Z.eqb_refl in Hd.
  cbn [andb] in Hd. injection Hd as <- <-. cbn [snd database set_database ret]. rewrite rows_set.
  split; [|intros j Hj; by rewrite lookup_insert_ne]. split; [done|]. intros j. cbn [database set_database]. rewrite rows_set.
  destruct (decide (k = j)) as [<-|Hj].
  - rewrite lookup_insert_eq, Hk. exists env. split_and!; [done|done|]. intros u q Hu Hq.
    rewrite (open_memory _ env (place k) u (tick w)) by done. apply Hop.
    rewrite (open_memory _ (envelope_of row) (place k) (tick w) u); [done|]. by rewrite Hu.
  - rewrite lookup_insert_ne by done. destruct (rows (database w) !! j); [apply same_value_refl|done].
Qed.
Lemma rewrap_batch_safe batch pr w : NoDup batch.*1 →
  (∀ k row, (k, row) ∈ batch → rows (database w) !! k = Some row ∧ live row = true) →
  same_values w (snd (rewrap_batch rewrap batch pr w)).
Proof.
  revert pr w. induction batch as [|[k row] batch IH]; intros pr w Hnd Hb; [by apply same_values_refl|].
  cbn [rewrap_batch]. destruct (Hb k row) as [Hk Hn]; [by left|].
  destruct (rewrap_record_safe k row pr w Hk Hn) as [Hs Hout]. cbn in Hnd. apply NoDup_cons in Hnd as [Hnotin Hnd].
  destruct (rewrap_record rewrap (k, row) pr w) as [[pr1 [[]|e]] w1]; cbn [snd] in *; [|done].
  eapply same_values_trans; [exact Hs|]. apply IH; [done|]. intros j r Hj. rewrite Hout; [apply Hb; by right|].
  intros ->. apply Hnotin. change k with ((k, r).1). by apply list_elem_of_fmap_2.
Qed.
Lemma walk_safe start w : same_values w (snd (walk rewrap start w)).
Proof.
  assert (∀ fuel at_ pr w r, rewrap_loop rewrap fuel at_ pr w = Some r → same_values w (snd r)) as Hloop;
    [|destruct (walk_ends rewrap rewrap_only_entropy start w) as (r&Hr&->); by eapply Hloop].
  clear start w. intros fuel. induction fuel as [|fuel IH]; intros at_ pr w r; [done|]. cbn [rewrap_loop]. unfold rewrapBatch.
  destruct (query_cases (batch_from at_) w) as [E|E]; rewrite E; [intros [= <-]; by apply same_values_refl|].
  destruct (last _); [|intros [= <-]; by apply same_values_refl].
  pose proof (rewrap_batch_safe (batch_from at_ (database w)) pr (tick w) (batch_NoDup _ _)) as Hb.
  destruct (rewrap_batch rewrap (batch_from at_ (database w)) pr (tick w)) as [[pr1 [[]|e]] w1]; cbn [snd] in Hb.
  - intros Hr. eapply same_values_trans; [|by eapply IH]. apply Hb. intros k row Hk. apply elem_of_batch in Hk. by destruct Hk as (?&?&_).
  - intros [= <-]. apply Hb. intros k row Hk. apply elem_of_batch in Hk. by destruct Hk as (?&?&_).
Qed.
End complete.

(** ** The order of texts *)
Lemma str_lt_total s t : s ≠ t → str_lt s t = true ∨ str_lt t s = true.
Proof.
  intros Hne. destruct (str_lt s t) eqn:E; [by left|right]. rewrite str_lt_not_le in E. apply negb_false_iff in E.
  rewrite str_lt_not_le. destruct (str_le s t) eqn:E2; [|done]. by rewrite (str_le_antisym _ _ E2 E) in Hne.
Qed.
(** A row comparison of SQL, [(s, x) < (t, y)]. *)
Definition lex {A} (lt : A → A → bool) (a b : string * A) : bool :=
  if String.eqb a.1 b.1 then lt a.2 b.2 else str_lt a.1 b.1.
Section lex.
Context {A : Type} (lt : A → A → bool).
Lemma lex_irrefl (Hi : ∀ x, lt x x = false) a : lex lt a a = false.
Proof. unfold lex. by rewrite String.eqb_refl. Qed.
Lemma lex_total (Ht : ∀ x y, x ≠ y → lt x y = true ∨ lt y x = true) a b : a ≠ b → lex lt a b = true ∨ lex lt b a = true.
Proof.
  destruct a as [s x], b as [t y]. unfold lex. cbn [fst snd]. intros Hne. destruct (String.eqb_spec s t) as [->|Hs].
  - rewrite String.eqb_refl. apply Ht. congruence.
  - destruct (String.eqb_spec t s); [congruence|]. by apply str_lt_total.
Qed.
Lemma lex_trans (Ht : ∀ x y z, lt x y = true → lt y z = true → lt x z = true) a b c :
  lex lt a b = true → lex lt b c = true → lex lt a c = true.
Proof.
  destruct a as [s x], b as [t y], c as [u z]. unfold lex. cbn [fst snd].
  destruct (String.eqb_spec s t) as [->|Hst]; destruct (String.eqb_spec t u) as [->|Htu]; rewrite ?String.eqb_refl.
  - apply Ht.
  - done.
  - by destruct (String.eqb_spec s u).
  - intros H1 H2. destruct (String.eqb_spec s u) as [->|]; [|by eapply str_lt_trans].
    rewrite (str_lt_not_le t u) in H2. by rewrite (str_lt_le _ _ H1) in H2.
Qed.
End lex.
Lemma str_lt_trans' s t u : str_lt s t = true → str_lt t u = true → str_lt s u = true.
Proof. apply str_lt_trans. Qed.
