(* ===== verification/SecretStore.v ===== *)
(** modules/secret: the versioned store (store.go, queries.go), rewrapping
  (rewrap.go) and the service that seals and opens values (service.go). *)
From Stdlib Require Import ZArith Lia.
From S2P Require Import Prelude GoStrings GoTime World Envelope Cipher Walk.

Module secret.
Definition maxTenantLen : Z := 64.
Definition maxPathLen : Z := 512.
Definition defaultMaxVersions : Z := 10.
Definition currentVersion : Z := 0.

Definition ErrNotFound : string := "secret: not found".
Definition ErrConflict : string := "secret: the expected version does not match the current version".
Definition ErrDeleted : string := "secret: version is deleted".
Definition ErrDestroyed : string := "secret: version is destroyed".
Definition ErrInvalidTenant : string := "secret: tenant is empty or too long".
Definition ErrInvalidPath : string := "secret: path is empty or too long".
Definition ErrInvalidVersion : string := "secret: version must not be negative".
Definition ErrMaxVersions : string := "secret: max versions must be greater than zero".
(** A constraint of the schema, a time that does not parse. *)
Definition constraint_error : string := "sqlite: constraint failed".
Definition time_error : string := "time: cannot parse the stored text".

Record Expectation := MkExpectation { enforced : bool; e_version : Z }.
Definition Any : Expectation := MkExpectation false 0.
Definition AtVersion (version : Z) : Expectation := MkExpectation true version.
Definition Absent : Expectation := AtVersion 0.
Definition satisfiedBy (e : Expectation) (current : Z) : bool := negb (enforced e) || (e_version e =? current).

(** [Record]; a time the column does not have is [None], the zero time in the code. *)
Record SecretRecord := MkSecretRecord {
  r_Tenant : string; r_Path : string; r_Version : Z; r_Envelope : crypto.Envelope;
  r_CreatedAt : Z; r_DeletedAt : option Z; r_DestroyedAt : option Z }.
Record Metadata := MkMetadata {
  m_Tenant : string; m_Path : string; CurrentVersion : Z; MaxVersions : Z; CreatedAt : Z; UpdatedAt : Z }.
Record versionState := MkVersionState { exists_ : bool; deleted : bool; destroyed : bool }.
Record Value := MkValue { v_Tenant : string; v_Path : string; v_Version : Z; Data : list Z; v_CreatedAt : Z }.

(** ** queries.go *)
Definition validateLocation (tenant path : string) : result unit :=
  if String.eqb tenant "" || (maxTenantLen <? len tenant) then Err [ErrInvalidTenant]
  else if String.eqb path "" || (maxPathLen <? len path) then Err [ErrInvalidPath]
  else Ok tt.

(** The version and whether there is a row. *)
Definition current_version_of (tenant path : string) (d : Db) : Z * bool :=
  match secret_metadata d !! (tenant, path) with
  | None => (0, false)
  | Some row => (current_version row, true)
  end.
Definition readCurrentVersion (tenant path : string) : M World (Z * bool) := query (current_version_of tenant path).

Definition is_some {A} (o : option A) : bool := match o with Some _ => true | None => false end.
Definition readVersionState (tenant path : string) (version : Z) : M World versionState := query (fun d =>
  match secret_versions d !! (tenant, path, version) with
  | None => MkVersionState false false false
  | Some row => MkVersionState true (is_some (sv_deleted_at row)) (is_some (sv_destroyed_at row))
  end).

(** [SET destroyed_at = now, wrapped_dek = x'', ciphertext = x''] *)
Definition destroy_row (now : string) (row : SecretVersionRow) : SecretVersionRow :=
  MkSecretVersion (sv_kek_version row) [] [] (sv_created_at row) (sv_deleted_at row) (Some now).
Definition prune (tenant path : string) (threshold : Z) (now : string) (d : Db) : Db :=
  set_secret_versions (map_imap (fun k row =>
    Some (if bool_decide (k.1 = (tenant, path)) && (k.2 <=? threshold) && negb (is_some (sv_destroyed_at row))
          then destroy_row now row else row)) (secret_versions d)) d.
Definition pruneOldVersions (tenant path : string) (newest keep : Z) (now : string) : M World unit :=
  let threshold := wrap64 (newest - keep) in
  if threshold <? 1 then ret tt else exec_ (prune tenant path threshold now).

(** ** store.go *)
Definition timestamp : M World string := let! t := now in ret (FormatTime t).

Definition update_metadata (tenant path : string) (next : Z) (now : string) (d : Db) : Db :=
  set_secret_metadata (alter (fun row => MkSecretMetadata next (max_versions row) (sm_created_at row) now)
    (tenant, path) (secret_metadata d)) d.
Definition insert_metadata (tenant path : string) (next maxVersions : Z) (now : string) (d : Db) : result unit * Db :=
  match secret_metadata d !! (tenant, path) with
  | Some _ => (Err [constraint_error], d)
  | None => (Ok tt, set_secret_metadata (<[(tenant, path) := MkSecretMetadata next maxVersions now now]> (secret_metadata d)) d)
  end.
(** Primary key, and the foreign key to the metadata. *)
Definition insert_version (tenant path : string) (version : Z) (envelope : crypto.Envelope) (now : string) (d : Db) : result unit * Db :=
  match secret_versions d !! (tenant, path, version), secret_metadata d !! (tenant, path) with
  | None, Some _ =>
      (Ok tt, set_secret_versions (<[(tenant, path, version) :=
         MkSecretVersion (crypto.KEKVersion envelope) (crypto.WrappedDEK envelope) (crypto.Ciphertext envelope) now None None]>
         (secret_versions d)) d)
  | _, _ => (Err [constraint_error], d)
  end.

(** The transaction of [Put], before and after the envelope is made. *)
Definition put_begin (tenant path : string) (expect : Expectation) : M World (bool * string * Z) :=
  let! current := readCurrentVersion tenant path in
  if negb (satisfiedBy expect (fst current)) then fail [ErrConflict]
  else
    let! now := timestamp in
    let next := wrap64 (fst current + 1) in
    ret (snd current, now, next).
Definition put_write (maxVersions : Z) (tenant path : string) (known : bool) (now : string) (next : Z) (envelope : crypto.Envelope) : M World Z :=
  (if known then exec_ (update_metadata tenant path next now)
   else exec (insert_metadata tenant path next maxVersions now)) ;!
  exec (insert_version tenant path next envelope now) ;!
  pruneOldVersions tenant path next maxVersions now ;!
  ret next.
Definition Put (maxVersions : Z) (tenant path : string) (expect : Expectation) (seal : Z → M World crypto.Envelope) : M World Z :=
  lift_result (validateLocation tenant path) ;!
  with_tx (
    let! begun := put_begin tenant path expect in
    let '(known, now, next) := begun in
    let! envelope := seal next in
    put_write maxVersions tenant path known now next envelope).

Definition parse_time (s : string) : result Z := match ParseTime s with Some t => Ok t | None => Err [time_error] end.
Definition parse_null (s : option string) : result (option Z) :=
  match s with None => Ok None | Some s => let? t := parse_time s in Ok (Some t) end.

Definition read_version (tenant path : string) (version : Z) (d : Db) : option SecretVersionRow :=
  secret_versions d !! (tenant, path, version).
(** The end of [Get]: the row as a record. *)
Definition record_of_row (tenant path : string) (version : Z) (row : SecretVersionRow) : result SecretRecord :=
  let? createdAt := parse_time (sv_created_at row) in
  let? deletedAt := parse_null (sv_deleted_at row) in
  let? destroyedAt := parse_null (sv_destroyed_at row) in
  if is_some (sv_destroyed_at row) then Err [ErrDestroyed]
  else if is_some (sv_deleted_at row) then Err [ErrDeleted]
  else Ok (MkSecretRecord tenant path version
             (crypto.MkEnvelope (sv_kek_version row) (sv_wrapped_dek row) (sv_ciphertext row)) createdAt deletedAt destroyedAt).
Definition Get (tenant path : string) (version : Z) : M World SecretRecord :=
  lift_result (validateLocation tenant path) ;!
  if version <? 0 then fail [ErrInvalidVersion]
  else
    let! version :=
      (if version =? currentVersion
       then let! resolved := readCurrentVersion tenant path in
            if negb (snd resolved) then fail [ErrNotFound] else ret (fst resolved)
       else ret version) in
    let! row := query (read_version tenant path version) in
    match row with
    | None => fail [ErrNotFound]
    | Some row => lift_result (record_of_row tenant path version row)
    end.

Definition GetMetadata (tenant path : string) : M World Metadata :=
  lift_result (validateLocation tenant path) ;!
  let! row := query (fun d => secret_metadata d !! (tenant, path)) in
  match row with
  | None => fail [ErrNotFound]
  | Some row =>
      let! createdAt := lift_result (parse_time (sm_created_at row)) in
      let! updatedAt := lift_result (parse_time (sm_updated_at row)) in
      ret (MkMetadata tenant path (current_version row) (max_versions row) createdAt updatedAt)
  end.

(** The actions that [mark] runs on each version. *)
Definition set_row (tenant path : string) (version : Z) (f : SecretVersionRow → SecretVersionRow) (d : Db) : Db :=
  set_secret_versions (alter f (tenant, path, version) (secret_versions d)) d.
Definition set_deleted (v : option string) (row : SecretVersionRow) : SecretVersionRow :=
  MkSecretVersion (sv_kek_version row) (sv_wrapped_dek row) (sv_ciphertext row) (sv_created_at row) v (sv_destroyed_at row).
Definition delete_action (tenant path : string) (version : Z) (now : string) : M World unit :=
  let! state := readVersionState tenant path version in
  if negb (exists_ state) then fail [ErrNotFound]
  else if destroyed state then fail [ErrDestroyed]
  else if deleted state then ret tt
  else exec_ (set_row tenant path version (set_deleted (Some now))).
Definition undelete_action (tenant path : string) (version : Z) (now : string) : M World unit :=
  let! state := readVersionState tenant path version in
  if negb (exists_ state) then fail [ErrNotFound]
  else if destroyed state then fail [ErrDestroyed]
  else if negb (deleted state) then ret tt
  else exec_ (set_row tenant path version (set_deleted None)).
Definition destroy_action (tenant path : string) (version : Z) (now : string) : M World unit :=
  let! state := readVersionState tenant path version in
  if negb (exists_ state) then fail [ErrNotFound]
  else if destroyed state then ret tt
  else exec_ (set_row tenant path version (destroy_row now)).

Definition versionAction := string → string → Z → string → M World unit.
Fixpoint for_versions (action : versionAction) (tenant path now : string) (versions : list Z) : M World unit :=
  match versions with
  | [] => ret tt
  | version :: versions => action tenant path version now ;! for_versions action tenant path now versions
  end.
Definition mark_body (action : versionAction) (tenant path : string) (versions : list Z) : M World unit :=
  let! versions :=
    match versions with
    | [] => let! resolved := readCurrentVersion tenant path in
            if negb (snd resolved) then fail [ErrNotFound] else ret [fst resolved]
    | _ => ret versions
    end in
  let! now := timestamp in
  for_versions action tenant path now versions.
Definition mark (action : versionAction) (tenant path : string) (versions : list Z) : M World unit :=
  lift_result (validateLocation tenant path) ;!
  if existsb (fun version => version <? 1) versions then fail [ErrInvalidVersion]
  else with_tx (mark_body action tenant path versions).
Definition Delete : string → string → list Z → M World unit := mark delete_action.
Definition Undelete : string → string → list Z → M World unit := mark undelete_action.
Definition Destroy : string → string → list Z → M World unit := mark destroy_action.

(** ** rewrap.go: the walk over [secret_versions] *)
Notation cursor := (string * string * Z)%type (only parsing).
Definition envelope_of_row (row : SecretVersionRow) : crypto.Envelope :=
  crypto.MkEnvelope (sv_kek_version row) (sv_wrapped_dek row) (sv_ciphertext row).
Definition rewrapped_row (env : crypto.Envelope) (row : SecretVersionRow) : SecretVersionRow :=
  MkSecretVersion (crypto.KEKVersion env) (crypto.WrappedDEK env) (sv_ciphertext row) (sv_created_at row)
    (sv_deleted_at row) (sv_destroyed_at row).
(** [(tenant, path, version) > (?, ?, ?)] *)
Definition cursor_before (a b : cursor) : bool := lex (lex Z.ltb) (a.1.1, (a.1.2, a.2)) (b.1.1, (b.1.2, b.2)).
#[export] Instance secret_rows : Walkable (string * string * Z) SecretVersionRow := {|
  rows := secret_versions; set_rows := set_secret_versions; live row := negb (is_some (sv_destroyed_at row));
  envelope_of := envelope_of_row; rewrapped := rewrapped_row; before := cursor_before |}.
#[export] Instance secret_rows_laws : WalkableLaws (string * string * Z) SecretVersionRow.
Proof.
  split; try done.
  - intros [v d c] row. cbn. unfold envelope_of_row, rewrapped_row. cbn. by intros ->.
  - by intros [].
  - intros k. cbn. unfold cursor_before. repeat (apply lex_irrefl; intros ?). apply Z.ltb_irrefl.
  - intros [[t p] v] [[t' p'] v'] Hne. cbn. unfold cursor_before. cbn [fst snd]. apply lex_total; [|congruence].
    intros [q x] [q' y] Hq. apply lex_total; [|done]. clear.  intros x y Hxy. rewrite !Z.ltb_lt. lia.
  - intros k1 k2 k3. cbn. apply lex_trans. apply lex_trans. intros x y z. rewrite !Z.ltb_lt. lia.
Qed.
Definition Rewrapper := string → string → Z → crypto.Envelope → M World (crypto.Envelope * bool).
Definition Rewrap (rewrap : Rewrapper) : World → RewrapProgress * result unit * World :=
  walk (fun k envelope => rewrap k.1.1 k.1.2 k.2 envelope) ("", "", 0).

(** ** service.go *)
Section service.
Context `{Cipher} (maxVersions : Z).
Definition locate (tenant path : string) (version : Z) : crypto.AAD := crypto.MkAAD tenant path version.
Definition Service_Put (tenant path : string) (plaintext : list Z) (expect : Expectation) : M World Z :=
  lift_result (validateLocation tenant path) ;!
  Put maxVersions tenant path expect (fun version => cipher_Seal tenant plaintext (locate tenant path version)).
Definition Service_Get (tenant path : string) (version : Z) : M World Value :=
  let! record := Get tenant path version in
  let! plaintext := cipher_Open tenant (r_Envelope record) (locate tenant path (r_Version record)) in
  ret (MkValue (r_Tenant record) (r_Path record) (r_Version record) plaintext (r_CreatedAt record)).
Definition Service_Metadata (tenant path : string) : M World Metadata := GetMetadata tenant path.
Definition Service_Delete (tenant path : string) (versions : list Z) : M World unit := Delete tenant path versions.
Definition Service_Undelete (tenant path : string) (versions : list Z) : M World unit := Undelete tenant path versions.
Definition Service_Destroy (tenant path : string) (versions : list Z) : M World unit := Destroy tenant path versions.
Definition Service_Rewrap : World → RewrapProgress * result unit * World :=
  Rewrap (fun tenant path version envelope => cipher_Rewrap tenant envelope (locate tenant path version)).
End service.

(** ** What [Put] does *)
Section put.
Definition pruned (tenant path : string) (threshold : Z) (now : string) (k : cursor) (row : SecretVersionRow) : SecretVersionRow :=
  if negb (threshold <? 1) && (bool_decide (k.1 = (tenant, path)) && (k.2 <=? threshold) && negb (is_some (sv_destroyed_at row)))
  then destroy_row now row else row.
Lemma lookup_prune tenant path threshold now d k : 1 ≤ threshold →
  secret_versions (prune tenant path threshold now d) !! k = pruned tenant path threshold now k <$> secret_versions d !! k.
Proof.
  intros Ht. unfold prune, pruned. cbn. rewrite map_lookup_imap. destruct (Z.ltb_spec threshold 1); [lia|].
  by destruct (secret_versions d !! k).
Qed.

(** The version written, from the one the metadata has. *)
Definition next_of (tenant path : string) (d : Db) : Z := wrap64 (fst (current_version_of tenant path d) + 1).
Definition new_row (env : crypto.Envelope) (now : string) : SecretVersionRow :=
  MkSecretVersion (crypto.KEKVersion env) (crypto.WrappedDEK env) (crypto.Ciphertext env) now None None.
Definition metadata_after (maxVersions : Z) (tenant path : string) (v : Z) (now : string) (d : Db) : SecretMetadataRow :=
  match secret_metadata d !! (tenant, path) with
  | Some row => MkSecretMetadata v (max_versions row) (sm_created_at row) now
  | None => MkSecretMetadata v maxVersions now now
  end.
(** What a successful [Put] leaves in the two tables. *)
Record put_effect (maxVersions : Z) (tenant path : string) (env : crypto.Envelope) (now : string) (d d' : Db) : Prop := {
  pe_metadata : secret_metadata d' = <[(tenant, path) := metadata_after maxVersions tenant path (next_of tenant path d) now d]> (secret_metadata d);
  pe_versions : ∀ k, secret_versions d' !! k =
    pruned tenant path (wrap64 (next_of tenant path d - maxVersions)) now k <$>
      <[(tenant, path, next_of tenant path d) := new_row env now]> (secret_versions d) !! k;
  pe_free : secret_versions d !! (tenant, path, next_of tenant path d) = None }.

Lemma put_begin_Ok tenant path expect w known now next w' : put_begin tenant path expect w = (Ok (known, now, next), w') →
  satisfiedBy expect (fst (current_version_of tenant path (database w))) = true ∧ known = snd (current_version_of tenant path (database w)) ∧
  now = FormatTime (clock w 0%nat) ∧ next = next_of tenant path (database w) ∧ database w' = database w ∧ seal_memory w' = seal_memory w.
Proof.
  unfold put_begin. intros (cur&w1&Hcur&E)%bind_ok_inv. apply query_Ok in Hcur as [-> ->].
  destruct (satisfiedBy _ _) eqn:Es; cbn [negb] in E; [|done]. unfold timestamp in E. apply bind_ok_inv in E as (nw&w1&Hn&E).
  injection Hn as <- <-. injection E as <- <- <- <-. by split_and!.
Qed.
Lemma put_write_Ok maxVersions tenant path known now env w v w' :
  put_write maxVersions tenant path known now (next_of tenant path (database w)) env w = (Ok v, w') →
  known = snd (current_version_of tenant path (database w)) →
  v = next_of tenant path (database w) ∧ put_effect maxVersions tenant path env now (database w) (database w').
Proof.
  intros Hb ->. unfold put_write in Hb. set (next := next_of tenant path (database w)) in *. set (cur := current_version_of tenant path (database w)) in *.
  apply bind_ok_inv in Hb as ([]&w3&Hmeta&Hb). apply bind_ok_inv in Hb as ([]&w4&Hver&Hb).
  apply bind_ok_inv in Hb as ([]&w5&Hprune&Hb). injection Hb as <- <-.
  assert (secret_metadata (database w3) = <[(tenant, path) := metadata_after maxVersions tenant path next now (database w)]> (secret_metadata (database w))
          ∧ secret_versions (database w3) = secret_versions (database w)) as [Hm3 Hv3].
  { unfold metadata_after. unfold current_version_of in cur. destruct (secret_metadata (database w) !! (tenant, path)) as [row|] eqn:Erow; subst cur; cbn [snd] in Hmeta.
    - apply exec_Ok in Hmeta as (d&Hd&->). injection Hd as <-. cbn. split; [|done].
      by rewrite (alter_Some _ _ _ _ Erow).
    - apply exec_Ok in Hmeta as (d&Hd&->). unfold insert_metadata in Hd. rewrite Erow in Hd. by injection Hd as <-. }
  apply exec_Ok in Hver as (d4&Hd4&->). unfold insert_version in Hd4. rewrite Hm3, Hv3, lookup_insert_eq in Hd4.
  destruct (secret_versions (database w) !! (tenant, path, next)) as [|] eqn:Efree; [done|]. injection Hd4 as <-.
  split; [done|]. unfold pruneOldVersions in Hprune. destruct (Z.ltb_spec (wrap64 (next - maxVersions)) 1) as [Hlt|Hge].
  - injection Hprune as <-. split; cbn; [done| |done]. intros k. unfold pruned. fold next.
    destruct (Z.ltb_spec (wrap64 (next - maxVersions)) 1); [|lia]. cbn [negb andb].
    by destruct (_ !! k).
  - apply exec_Ok in Hprune as (d5&Hd5&->). injection Hd5 as <-. split; [done| |done]. intros k.
    cbn [database tick set_faults set_database]. by rewrite lookup_prune.
Qed.
Lemma same_mem_put_begin tenant path expect : same_mem (put_begin tenant path expect).
Proof.
  unfold put_begin, readCurrentVersion, timestamp.
  repeat (first [apply same_mem_bind; [auto with world|intros ?]|apply same_mem_if|solve [auto 10 with world]]).
Qed.
Lemma same_mem_put_write maxVersions tenant path known now next env : same_mem (put_write maxVersions tenant path known now next env).
Proof.
  unfold put_write, pruneOldVersions.
  repeat (first [apply same_mem_bind; [auto with world|intros ?]|apply same_mem_if|solve [auto 10 with world]]).
Qed.
Lemma Put_inv maxVersions tenant path expect seal w o w' (Hseal : ∀ v, only_entropy (seal v)) :
  Put maxVersions tenant path expect seal w = (o, w') →
  seal_memory w' = seal_memory w ∧
  match o with
  | Err _ => database w' = database w
  | Ok v =>
      v = next_of tenant path (database w) ∧ validateLocation tenant path = Ok tt ∧
      satisfiedBy expect (fst (current_version_of tenant path (database w))) = true ∧
      ∃ env w1 w2, seal v w1 = (Ok env, w2) ∧ seal_memory w1 = seal_memory w ∧
        put_effect maxVersions tenant path env (FormatTime (clock w 0%nat)) (database w) (database w')
  end.
Proof.
  intros E. split.
  { assert (same_mem (Put maxVersions tenant path expect seal)) as Hs; [|by specialize (Hs w); rewrite E in Hs].
    assert (∀ v, same_mem (seal v)) as Hsm by (intros v u; by destruct (Hseal v u) as [e ->]).
    unfold Put. apply same_mem_bind; [auto with world|]. intros []. apply same_mem_with_tx, same_mem_bind; [apply same_mem_put_begin|].
    intros [[known now] next]. apply same_mem_bind; [done|]. intros env. apply same_mem_put_write. }
  unfold Put in E. destruct (validateLocation tenant path) as [[]|e] eqn:Ev.
  2: { rewrite (bind_err _ _ _ _ _ (eq_refl : lift_result (Err e) w = (Err e, w))) in E. by injection E as <- <-. }
  erewrite bind_lift in E by done.
  match type of E with with_tx ?body _ = _ => destruct (with_tx_cases body w) as [(e&v&E'&Hv&_)|(a&v&Hb&E')] end;
    rewrite E' in E; injection E as <- <-; [done|].
  apply bind_ok_inv in Hb as ([[known now] next]&w1&Hbegin&Hb). apply put_begin_Ok in Hbegin as (Hs&Hknown&->&->&Hdb1&Hm1).
  change (database (tick w)) with (database w) in *. change (clock (tick w) 0%nat) with (clock w 0%nat) in *.
  apply bind_ok_inv in Hb as (env&w2&Henv&Hb).
  assert (database w2 = database w) as Hdb2 by (destruct (Hseal (next_of tenant path (database w)) w1) as [e Hx]; rewrite Henv in Hx; cbn in Hx; by rewrite Hx).
  rewrite <- Hdb2 in Hb. apply put_write_Ok in Hb as [-> Heff]; [|by rewrite Hdb2]. rewrite Hdb2 in *.
  split; [done|]. split; [done|]. split; [done|]. by exists env, w1, w2.
Qed.
End put.

(** ** Changing single rows

  Everything but [Put] changes one row at a time, and only rows that are not
  destroyed; a row that becomes destroyed loses its key and its ciphertext. *)
Definition emptied (row : SecretVersionRow) : Prop :=
  is_some (sv_destroyed_at row) = true → sv_wrapped_dek row = [] ∧ sv_ciphertext row = [].
Definition row_stable (P : Db → Prop) : Prop := ∀ d k row row',
  P d → secret_versions d !! k = Some row → sv_destroyed_at row = None → emptied row' →
  P (set_secret_versions (<[k := row']> (secret_versions d)) d).

Section rows.
Context (P : Db → Prop) (HP : row_stable P).
Lemma keeps_set_row tenant path version f d row : P d → secret_versions d !! (tenant, path, version) = Some row →
  sv_destroyed_at row = None → emptied (f row) → P (set_row tenant path version f d).
Proof. intros Hd Hr Hn He. unfold set_row. rewrite (alter_Some _ _ _ _ Hr). by eapply HP. Qed.
(** An action reads the state of the row and then changes it or not. *)
Lemma keeps_state_action tenant path version (k : versionState → M World unit) :
  (∀ st, (destroyed st = true ∨ exists_ st = false → keeps_db P (k st))) →
  (∀ d w row, P d → d = database w → secret_versions d !! (tenant, path, version) = Some row → sv_destroyed_at row = None →
     P (database (snd (k (MkVersionState true (is_some (sv_deleted_at row)) false) w)))) →
  keeps_db P (bind (readVersionState tenant path version) k).
Proof.
  intros H1 H2 w Hw. unfold readVersionState.
  match goal with |- context [query ?f] => destruct (query_cases f w) as [E|E] end.
  - by rewrite (bind_err _ _ _ _ _ E).
  - rewrite (bind_ok _ _ _ _ _ E).
    destruct (secret_versions (database w) !! (tenant, path, version)) as [row|] eqn:Er; [|apply H1; auto].
    destruct (sv_destroyed_at row) as [s|] eqn:Ed; [apply H1; auto|]. cbn [is_some].
    by apply (H2 (database w)).
Qed.
Lemma keeps_exec_row tenant path version f d w row : P d → d = database w → secret_versions d !! (tenant, path, version) = Some row →
  sv_destroyed_at row = None → emptied (f row) → P (database (snd (exec_ (set_row tenant path version f) w))).
Proof.
  intros Hd -> Hr Hn He. unfold exec_. match goal with |- context [exec ?g w] => destruct (exec_cases g w) as [(e&E&_)|(a&d&Hx&E)] end.
  - by rewrite E.
  - rewrite E. injection Hx as <- <-. cbn. by eapply keeps_set_row.
Qed.
Lemma keeps_delete tenant path version now : keeps_db P (delete_action tenant path version now).
Proof.
  apply keeps_state_action.
  - intros [[] [] []] [?|?]; try done; apply keeps_db_same; auto with world.
  - intros d w row Hd -> Hr Hn. cbn [exists_ destroyed deleted negb]. destruct (is_some (sv_deleted_at row)); [done|].
    eapply keeps_exec_row; try done. intros E. cbn in E. by rewrite Hn in E.
Qed.
Lemma keeps_undelete tenant path version now : keeps_db P (undelete_action tenant path version now).
Proof.
  apply keeps_state_action.
  - intros [[] [] []] [?|?]; try done; apply keeps_db_same; auto with world.
  - intros d w row Hd -> Hr Hn. cbn [exists_ destroyed deleted negb]. destruct (is_some (sv_deleted_at row)); [|done].
    eapply keeps_exec_row; try done. intros E. cbn in E. by rewrite Hn in E.
Qed.
Lemma keeps_destroy tenant path version now : keeps_db P (destroy_action tenant path version now).
Proof.
  apply keeps_state_action.
  - intros [[] [] []] [?|?]; try done; apply keeps_db_same; auto with world.
  - intros d w row Hd -> Hr Hn. cbn [exists_ destroyed deleted negb]. by eapply keeps_exec_row.
Qed.
Lemma keeps_mark (action : versionAction) : (∀ t p v n, keeps_db P (action t p v n)) →
  ∀ tenant path versions, keeps_db P (mark action tenant path versions).
Proof.
  intros Ha tenant path versions. unfold mark, mark_body. apply keeps_db_bind; [by apply keeps_db_same; auto with world|intros _].
  destruct (existsb _ _); [by apply keeps_db_same; auto with world|].
  apply keeps_db_with_tx, keeps_db_bind; [|intros vs; apply keeps_db_bind; [by apply keeps_db_same; unfold timestamp; auto with world|intros n]].
  - apply keeps_db_same. destruct versions; [|by auto with world]. unfold readCurrentVersion.
    apply same_db_bind; [auto with world|intros r]. destruct (negb _); auto with world.
  - induction vs as [|v vs IH]; [by apply keeps_db_same; auto with world|]. by apply keeps_db_bind.
Qed.

End rows.

(** Rewrapping only replaces the wrapped key of a row that is not destroyed. *)
Lemma row_wrap_stable P : row_stable P → wrap_stable P.
Proof.
  intros HP d k row env Hd Hk Hn. cbn in Hk, Hn. destruct (sv_destroyed_at row) eqn:En; [done|].
  eapply HP; try done. intros E. cbn in E. by rewrite En in E.
Qed.
Lemma keeps_Rewrap P rewrap w : wrap_stable P → (∀ t p v e, only_entropy (rewrap t p v e)) → P (database w) →
  P (database (snd (Rewrap rewrap w))).
Proof. intros HP Hr. apply keeps_walk; [done|]. intros k e. apply Hr. Qed.

(** ** The store as a state machine *)
Section theory.
Context `{CipherLaws} (maxVersions : Z) (HmaxVersions : 1 ≤ maxVersions ≤ i64_max).

Inductive store_step : World → World → Prop :=
| st_put tenant path plaintext expect o w w' : Service_Put maxVersions tenant path plaintext expect w = (o, w') → store_step w w'
| st_get tenant path version o w w' : Service_Get tenant path version w = (o, w') → store_step w w'
| st_metadata tenant path o w w' : Service_Metadata tenant path w = (o, w') → store_step w w'
| st_delete tenant path versions o w w' : Service_Delete tenant path versions w = (o, w') → store_step w w'
| st_undelete tenant path versions o w w' : Service_Undelete tenant path versions w = (o, w') → store_step w w'
| st_destroy tenant path versions o w w' : Service_Destroy tenant path versions w = (o, w') → store_step w w'
| st_rewrap o w w' : Service_Rewrap w = (o, w') → store_step w w'
| st_other w w' : secret_metadata (database w') = secret_metadata (database w) →
    secret_versions (database w') = secret_versions (database w) → store_step w w'.
Inductive store_steps : World → World → Prop :=
| steps_refl w : store_steps w w
| steps_step w1 w2 w3 : store_steps w1 w2 → store_step w2 w3 → store_steps w1 w3.

Lemma same_db_Get tenant path version : same_db (Get tenant path version).
Proof.
  unfold Get, readCurrentVersion. apply same_db_bind; [auto with world|intros _]. destruct (version <? 0); [auto with world|].
  apply same_db_bind; [|intros v; apply same_db_bind; [auto with world|intros [row|]; auto with world]].
  destruct (_ =? _); [|auto with world]. apply same_db_bind; [auto with world|intros r]. destruct (negb _); auto with world.
Qed.
Lemma same_db_open tenant env aad : same_db (cipher_Open tenant env aad).
Proof. intros w. by rewrite open_effect. Qed.
Lemma same_db_Service_Get tenant path version : same_db (Service_Get tenant path version).
Proof.
  unfold Service_Get. apply same_db_bind; [apply same_db_Get|intros r].
  apply same_db_bind; [apply same_db_open|auto with world].
Qed.
Lemma Service_Get_quiet tenant path version : quiet (Service_Get tenant path version).
Proof. unfold Service_Get, Get, readCurrentVersion. solve_quiet. Qed.
Lemma Service_Put_quiet tenant path plaintext expect : quiet (Service_Put maxVersions tenant path plaintext expect).
Proof. unfold Service_Put, Put, put_begin, put_write, readCurrentVersion, timestamp, pruneOldVersions. solve_quiet. Qed.
Lemma Service_Delete_quiet tenant path versions : quiet (Service_Delete tenant path versions).
Proof.
  assert (∀ now l, quiet (for_versions delete_action tenant path now l)) as Hl.
  { intros now l. induction l; cbn [for_versions]; unfold delete_action, readVersionState in *; solve_quiet. }
  unfold Service_Delete, Delete, mark, mark_body, timestamp, readCurrentVersion. solve_quiet.
Qed.
(** What a successful read has read. *)
Definition readable (d : Db) (tenant path : string) (asked : Z) (v : Z) (row : SecretVersionRow) : Prop :=
  secret_versions d !! (tenant, path, v) = Some row ∧ sv_deleted_at row = None ∧ sv_destroyed_at row = None ∧
  (asked ≠ currentVersion → v = asked) ∧
  (asked = currentVersion → ∃ meta, secret_metadata d !! (tenant, path) = Some meta ∧ v = current_version meta).
Lemma Get_Ok tenant path version w r w' : Get tenant path version w = (Ok r, w') → ∃ row,
  readable (database w) tenant path version (r_Version r) row ∧ r_Envelope r = envelope_of_row row ∧
  seal_memory w' = seal_memory w.
Proof.
  assert (quiet (Get tenant path version)) as Hq by (unfold Get, readCurrentVersion; solve_quiet).
  intros E. pose proof (sp_memory _ _ (Hq w)) as Hm. rewrite E in Hm. cbn [snd] in Hm. revert E. unfold Get. intros E.
  apply bind_ok_inv in E as (?&w1&Ev&E). injection Ev as _ <-. destruct (version <? 0); [done|].
  apply bind_ok_inv in E as (v&w1&Ev&E). apply bind_ok_inv in E as (o&w2&Eq&E). apply query_Ok in Eq as [-> ->].
  destruct (read_version tenant path v (database w1)) as [row|] eqn:Er; [|done]. unfold lift_result, record_of_row in E.
  destruct (parse_time _); [|done]. destruct (parse_null _); [|done]. destruct (parse_null (sv_destroyed_at row)); [|done].
  cbn in E. destruct (sv_destroyed_at row) eqn:Ed; [done|]. destruct (sv_deleted_at row) eqn:El; [done|].
  injection E as <- <-. exists row. split; [|done]. cbn [r_Version].
  assert (database w1 = database w ∧ (version ≠ currentVersion → v = version) ∧
    (version = currentVersion → ∃ meta, secret_metadata (database w) !! (tenant, path) = Some meta ∧ v = current_version meta)) as (Hdb&Hv&Hc).
  { destruct (Z.eqb_spec version currentVersion).
    - unfold readCurrentVersion in Ev. apply bind_ok_inv in Ev as (c&w3&Eq&Ev). apply query_Ok in Eq as [-> ->].
      unfold current_version_of in Ev. destruct (secret_metadata (database w) !! (tenant, path)) as [meta|]; [|done].
      injection Ev as <- <-. split_and!; [done|done|]. eauto.
    - injection Ev as <- <-. done. }
  rewrite Hdb in Er. done.
Qed.
Lemma Service_Get_Ok tenant path version w v w' : Service_Get tenant path version w = (Ok v, w') → ∃ row,
  readable (database w) tenant path version (v_Version v) row ∧
  fst (cipher_Open tenant (envelope_of_row row) (locate tenant path (v_Version v)) w) = Ok (Data v).
Proof.
  unfold Service_Get. intros E. apply bind_ok_inv in E as (r&w1&Eg&E). destruct (Get_Ok _ _ _ _ _ _ Eg) as (row&Hr&He&Hm).
  apply bind_ok_inv in E as (p&w2&Eo&E). injection E as <- _. exists row. split; [done|]. cbn [v_Version Data].
  rewrite <- He. rewrite (open_memory _ _ _ w w1) by done. by rewrite Eo.
Qed.
Lemma same_db_metadata tenant path : same_db (GetMetadata tenant path).
Proof.
  unfold GetMetadata. apply same_db_bind; [auto with world|intros _]. apply same_db_bind; [auto with world|intros [row|]]; auto with world.
Qed.

(** A property of the two tables that [Put] keeps and that survives changes of
  single rows survives every step. *)
Definition put_stable (P : Db → Prop) : Prop := ∀ tenant path env now d d', P d →
  put_effect maxVersions tenant path env now d d' → 1 ≤ next_of tenant path d → validateLocation tenant path = Ok tt → P d'.
Definition tables_only (P : Db → Prop) : Prop := ∀ d d', secret_metadata d' = secret_metadata d →
  secret_versions d' = secret_versions d → P d → P d'.
Lemma Service_Put_inv tenant path plaintext expect w o w' : Service_Put maxVersions tenant path plaintext expect w = (o, w') →
  seal_memory w' = seal_memory w ∧
  match o with
  | Err _ => database w' = database w
  | Ok v =>
      v = next_of tenant path (database w) ∧ 1 ≤ v ∧ validateLocation tenant path = Ok tt ∧
      satisfiedBy expect (fst (current_version_of tenant path (database w))) = true ∧
      ∃ env w1 w2, cipher_Seal tenant plaintext (locate tenant path v) w1 = (Ok env, w2) ∧ seal_memory w1 = seal_memory w ∧
        put_effect maxVersions tenant path env (FormatTime (clock w 0%nat)) (database w) (database w')
  end.
Proof.
  unfold Service_Put. destruct (validateLocation tenant path) as [[]|] eqn:Ev; [|by intros [= <- <-]].
  erewrite bind_lift by done. intros E. apply Put_inv in E; [|intros; apply seal_effect]. destruct E as [Hm E]. split; [done|].
  destruct o as [v|]; [|done]. destruct E as (->&_&Hs&env&w1&w2&He&Hm1&Hp). split_and!; try done.
  - apply seal_place in He. apply He.
  - by exists env, w1, w2.
Qed.
Lemma step_keeps P : row_stable P → put_stable P → tables_only P → ∀ w w', store_step w w' → P (database w) → P (database w').
Proof.
  intros Hr Hp Ht w w' Hs Hw. destruct Hs as [t p pt ex o w w' E|t p v o w w' E|t p o w w' E|t p vs o w w' E|t p vs o w w' E|t p vs o w w' E|[[pr r] o] w w' E|].
  - apply Service_Put_inv in E as [_ E]. destruct o; [|by rewrite E].
    destruct E as (->&Hv&Hl&_&env&w1&w2&_&_&Heff). by eapply Hp.
  - pose proof (same_db_Service_Get t p v w) as Hx. rewrite E in Hx. cbn in Hx. by rewrite Hx.
  - pose proof (same_db_metadata t p w) as Hx. unfold Service_Metadata in E. rewrite E in Hx. cbn in Hx. by rewrite Hx.
  - pose proof (keeps_mark P delete_action (keeps_delete P Hr) t p vs w Hw) as Hx. unfold Service_Delete, Delete in E. by rewrite E in Hx.
  - pose proof (keeps_mark P undelete_action (keeps_undelete P Hr) t p vs w Hw) as Hx. unfold Service_Undelete, Undelete in E. by rewrite E in Hx.
  - pose proof (keeps_mark P destroy_action (keeps_destroy P Hr) t p vs w Hw) as Hx. unfold Service_Destroy, Destroy in E. by rewrite E in Hx.
  - unfold Service_Rewrap in E.
    match type of E with Rewrap ?rw w = _ => pose proof (keeps_Rewrap P rw w (row_wrap_stable P Hr) (fun t p v e => rewrap_effect t e (locate t p v)) Hw) as Hx end.
    by rewrite E in Hx.
  - by eapply Ht.
Qed.

(** ** The invariant *)
Record store_ok (d : Db) : Prop := {
  so_versions : ∀ t p row, secret_metadata d !! (t, p) = Some row →
    validateLocation t p = Ok tt ∧ 1 ≤ current_version row ≤ i64_max ∧
    ∀ v, is_Some (secret_versions d !! (t, p, v)) ↔ 1 ≤ v ≤ current_version row;
  so_owner : ∀ t p v, is_Some (secret_versions d !! (t, p, v)) → is_Some (secret_metadata d !! (t, p));
  so_emptied : ∀ k row, secret_versions d !! k = Some row → emptied row;
  so_window : ∀ t p v row meta, secret_metadata d !! (t, p) = Some meta → secret_versions d !! (t, p, v) = Some row →
    sv_destroyed_at row = None → current_version meta - maxVersions < v }.

Lemma store_ok_rows : row_stable store_ok.
Proof.
  intros d k row row' [Hv Ho He Hw] Hk Hn Hr'.
  assert (∀ j, is_Some (<[k := row']> (secret_versions d) !! j) ↔ is_Some (secret_versions d !! j)) as Hdom.
  { intros j. rewrite lookup_insert_is_Some. destruct (decide (k = j)) as [<-|]; [rewrite Hk; split; [by eexists|by left]|tauto]. }
  split; cbn.
  - intros t p meta Hm. destruct (Hv t p meta Hm) as (?&?&Hd). split_and!; try done; try lia. intros v. by rewrite Hdom.
  - intros t p v Hs. by apply (Ho t p v), Hdom.
  - intros j r Hj. destruct (decide (k = j)) as [<-|Hne].
    + rewrite lookup_insert_eq in Hj. by simplify_eq.
    + rewrite lookup_insert_ne in Hj by done. by eapply He.
  - intros t p v r meta Hm Hj Hnr. destruct (decide (k = (t, p, v))) as [->|Hne].
    + by apply (Hw t p v row).
    + rewrite lookup_insert_ne in Hj by done. by apply (Hw t p v r).
Qed.
Lemma store_ok_tables : tables_only store_ok.
Proof. intros d d' Em Ev [Hv Ho He Hw]. split; rewrite ?Em, ?Ev; done. Qed.

Lemma wrap64_next z : z ≤ i64_max → 1 ≤ wrap64 (z + 1) → 0 ≤ z → wrap64 (z + 1) = z + 1.
Proof.
  intros H1 H2 H3. destruct (decide (z = i64_max)) as [->|]; [done|]. apply wrap64_id. unfold in_i64, i64_min, i64_max in *. lia.
Qed.
Lemma pruned_emptied t p th now k row : emptied row → emptied (pruned t p th now k row).
Proof. unfold pruned. by destruct (_ && _). Qed.
Lemma pruned_live t p th now k row : sv_destroyed_at (pruned t p th now k row) = None →
  sv_destroyed_at row = None ∧ (k.1 = (t, p) → 1 ≤ th → th < k.2) ∧ pruned t p th now k row = row.
Proof.
  unfold pruned. destruct (Z.ltb_spec th 1); cbn [negb andb]; [intros; split_and!; [done|lia|done]|].
  destruct (bool_decide_reflect (k.1 = (t, p))); cbn [andb]; [|done].
  destruct (Z.leb_spec k.2 th); cbn [andb]; [|intros; split_and!; [done|lia|done]].
  destruct (sv_destroyed_at row) eqn:E; cbn [is_some negb]; [by rewrite E|done].
Qed.
Lemma store_ok_put : put_stable store_ok.
Proof.
  intros t p env now d d' [Hv Ho He Hw] [Em Ev Hfree] Hnext Hl.
  assert (next_of t p d = fst (current_version_of t p d) + 1 ∧ 0 ≤ fst (current_version_of t p d)) as [Hn H0].
  { unfold next_of, current_version_of in *. destruct (secret_metadata d !! (t, p)) as [row|] eqn:Er; [|done]. cbn [fst] in *.
    destruct (Hv _ _ _ Er) as (_&?&_). split; [apply wrap64_next; lia|lia]. }
  assert (∀ v, is_Some (secret_versions d !! (t, p, v)) ↔ 1 ≤ v ≤ fst (current_version_of t p d)) as Hold.
  { intros v. unfold current_version_of. destruct (secret_metadata d !! (t, p)) as [row|] eqn:Er; [by apply (Hv t p row)|].
    cbn. split; [|lia]. intros Hs. apply Ho in Hs. rewrite Er in Hs. by destruct Hs. }
  assert (∀ k, is_Some (secret_versions d' !! k) ↔ k = (t, p, next_of t p d) ∨ is_Some (secret_versions d !! k)) as Hdom.
  { intros k. rewrite Ev, fmap_is_Some, lookup_insert_is_Some. destruct (decide ((t, p, next_of t p d) = k)) as [<-|]; [tauto|]. split; [|intros [?|?]; [congruence|tauto]]. tauto. }
  assert (next_of t p d ≤ i64_max) as Hmaxv.
  { unfold next_of, wrap64, i64_max. pose proof (Z.mod_pos_bound (fst (current_version_of t p d) + 1 + 2 ^ 63) (2 ^ 64)). lia. }
  assert (wrap64 (next_of t p d - maxVersions) = next_of t p d - maxVersions) as Hth.
  { apply wrap64_id. unfold in_i64, i64_min, i64_max in *. lia. }
  split.
  - intros t' p' row. rewrite Em. destruct (decide ((t, p) = (t', p'))) as [E|Hne].
    + simplify_eq. rewrite lookup_insert_eq. intros [= <-].
      assert (current_version (metadata_after maxVersions t' p' (next_of t' p' d) now d) = next_of t' p' d) as ->.
      { unfold metadata_after. by destruct (secret_metadata d !! (t', p')). }
      split_and!; [done|done|done|]. intros v. rewrite Hdom, Hold. split; [intros [?|?]; [simplify_eq; lia|lia]|].
      intros Hr. destruct (decide (v = next_of t' p' d)); [left; by subst|right; lia].
    + rewrite lookup_insert_ne by done. intros Hm. destruct (Hv _ _ _ Hm) as (?&?&Hd). split_and!; try done; try lia.
      intros v. rewrite Hdom, <- Hd. split; [intros [?|?]; [congruence|done]|by right].
  - intros t' p' v Hs. rewrite Em. apply lookup_insert_is_Some'. apply Hdom in Hs as [?|Hs]; [left; congruence|right; by eapply Ho].
  - intros k row. rewrite Ev. intros Hk. apply fmap_Some in Hk as (r&Hr&->). apply pruned_emptied.
    apply lookup_insert_Some in Hr as [[_ <-]|[_ Hr]]; [done|by eapply He].
  - intros t' p' v row meta Hm Hk Hlive. rewrite Ev in Hk. apply fmap_Some in Hk as (r&Hr&->).
    apply pruned_live in Hlive as (Hlive&Hthr&_). rewrite Hth in Hthr. cbn [fst snd] in Hthr.
    rewrite Em in Hm. apply lookup_insert_Some in Hm as [[E <-]|[Hne Hm]].
    + simplify_eq. assert (current_version (metadata_after maxVersions t' p' (next_of t' p' d) now d) = next_of t' p' d) as ->.
      { unfold metadata_after. by destruct (secret_metadata d !! (t', p')). }
      apply lookup_insert_Some in Hr as [[E <-]|[Hne Hr]]; [simplify_eq; lia|].
      assert (1 ≤ v) by (apply Hold; by eexists). specialize (Hthr eq_refl). lia.
    + apply lookup_insert_Some in Hr as [[E <-]|[_ Hr]]; [congruence|]. by apply (Hw t' p' v r).
Qed.

Lemma steps_keep P : row_stable P → put_stable P → tables_only P → ∀ w w', store_steps w w' → P (database w) → P (database w').
Proof. intros Hr Hp Ht w w' Hs. induction Hs; [done|]. intros Hw. eapply step_keeps; eauto. Qed.

Lemma store_ok_empty d : secret_metadata d = ∅ → secret_versions d = ∅ → store_ok d.
Proof.
  intros Em Ev. split; rewrite ?Em, ?Ev.
  - intros t p row Hm. by rewrite lookup_empty in Hm.
  - intros t p v Hs. rewrite lookup_empty in Hs. by destruct Hs.
  - intros k row Hm. by rewrite lookup_empty in Hm.
  - intros t p v row meta Hm. by rewrite lookup_empty in Hm.
Qed.

(** C17. From a store without secrets, whatever is written, read, deleted,
  undeleted, destroyed and rewrapped: every path with metadata has exactly the
  versions 1 to its current version, no version is without metadata, a
  destroyed version keeps neither its key nor its ciphertext, and only the
  last [maxVersions] versions are not destroyed. *)
Theorem store_invariant (w0 w : World)
  (Hempty : secret_metadata (database w0) = ∅ ∧ secret_versions (database w0) = ∅) (Hsteps : store_steps w0 w) :
  store_ok (database w).
Proof.
  eapply steps_keep; [apply store_ok_rows|apply store_ok_put|apply store_ok_tables|exact Hsteps|].
  destruct Hempty. by apply store_ok_empty.
Qed.

Lemma validate_nonneg v : 1 ≤ v → (v <? 0) = false ∧ (v =? currentVersion) = false.
Proof. intros. unfold currentVersion. split; [apply Z.ltb_ge|apply Z.eqb_neq]; lia. Qed.

(** C18. Destruction is final: whatever happens afterwards, the row of a
  destroyed version stays exactly as it is, and reading that version fails. *)
Theorem destroyed_forever (w w' : World) (tenant path : string) (version : Z) (row : SecretVersionRow) (ts : string)
  (Hrow : secret_versions (database w) !! (tenant, path, version) = Some row)
  (Hdestroyed : sv_destroyed_at row = Some ts) (Hv : 1 ≤ version) (Hsteps : store_steps w w') :
  secret_versions (database w') !! (tenant, path, version) = Some row ∧
  is_ok (fst (Service_Get tenant path version w')) = false.
Proof.
  assert (secret_versions (database w') !! (tenant, path, version) = Some row) as Hrow'.
  { revert Hrow. apply (steps_keep (fun d => secret_versions d !! (tenant, path, version) = Some row)); [| | |done].
    - intros d k r r' Hd Hk Hn _. cbn. rewrite lookup_insert_ne; [done|]. intros ->. congruence.
    - intros t p env now d d' Hd [_ Ev Hfree] _ _. rewrite Ev, lookup_insert_ne by congruence. rewrite Hd. cbn. f_equal.
      unfold pruned. rewrite Hdestroyed. cbn [is_some negb]. by rewrite !andb_false_r.
    - intros d d' _ Ev Hd. by rewrite Ev. }
  split; [done|]. destruct (validate_nonneg version Hv) as [E1 E2].
  unfold Service_Get, Get. destruct (validateLocation tenant path) as [[]|]; [|done].
  rewrite E1, E2. unfold bind, lift_result, ret, query, next_fault. destruct (faults w' 0%nat); [done|].
  change (database (set_faults _ w')) with (database w'). unfold read_version. rewrite Hrow'.
  unfold record_of_row. destruct (parse_time (sv_created_at row)); [|done]. cbn [result_bind].
  destruct (parse_null (sv_deleted_at row)); [|done]. cbn [result_bind]. rewrite Hdestroyed.
  destruct (parse_null (Some ts)); done.
Qed.

Lemma Get_live tenant path v w row t : no_faults w → validateLocation tenant path = Ok tt → 1 ≤ v →
  secret_versions (database w) !! (tenant, path, v) = Some row → sv_destroyed_at row = None → sv_deleted_at row = None →
  ParseTime (sv_created_at row) = Some t →
  Get tenant path v w = (Ok (MkSecretRecord tenant path v (envelope_of row) t None None), tick w).
Proof.
  intros Hnf Hl Hv Hr Hn Hd Ht. destruct (validate_nonneg v Hv) as [E1 E2]. unfold Get. erewrite bind_lift by done.
  rewrite E1, E2, bind_ret_l, (bind_ok _ _ _ _ _ (query_nf _ _ Hnf)). unfold read_version. rewrite Hr.
  unfold lift_result, record_of_row, parse_time. rewrite Ht, Hd, Hn. done.
Qed.
Lemma Get_current tenant path w row : no_faults w → validateLocation tenant path = Ok tt →
  secret_metadata (database w) !! (tenant, path) = Some row → 1 ≤ current_version row →
  Get tenant path 0 w = Get tenant path (current_version row) (tick w).
Proof.
  intros Hnf Hl Hr Hv. destruct (validate_nonneg _ Hv) as [E1 E2]. unfold Get. rewrite !(bind_lift _ _ _ tt Hl).
  rewrite E1, E2. change (0 <? 0) with false. change (0 =? currentVersion) with true. cbv iota.
  unfold readCurrentVersion. rewrite bind_assoc, bind_query_nf, bind_ret_l by done. unfold current_version_of. by rewrite Hr.
Qed.

(** A value that was written is what reading returns, by its version and
  as the current one; versions of other paths stay as they were, and of the
  same path only those older than the window are destroyed. *)
Theorem Put_then_Get (tenant path : string) (plaintext : list Z) (expect : Expectation) (w w' : World) (v : Z)
  (Hput : Service_Put maxVersions tenant path plaintext expect w = (Ok v, w'))
  (Hnf : no_faults w') (Htime : representable (clock w 0%nat)) (Hok : store_ok (database w)) :
  let value := MkValue tenant path v plaintext (clock w 0%nat) in
  Service_Get tenant path v w' = (Ok value, tick w') ∧ Service_Get tenant path 0 w' = (Ok value, tick (tick w')) ∧
  (∀ k row, secret_versions (database w) !! k = Some row →
     secret_versions (database w') !! k = Some row ∨
     k.1 = (tenant, path) ∧ k.2 ≤ v - maxVersions ∧
       secret_versions (database w') !! k = Some (destroy_row (FormatTime (clock w 0%nat)) row)) ∧
  ∀ k, k ≠ (tenant, path) → secret_metadata (database w') !! k = secret_metadata (database w) !! k.
Proof.
  apply Service_Put_inv in Hput as [Hmem (Hnext&Hv&Hl&_&env&w1&w2&Hs&Hm1&[Em Ev Hfree])]. rewrite <- Hnext in *.
  assert (v ≤ i64_max) as Hmaxv.
  { rewrite Hnext. unfold next_of, wrap64, i64_max. pose proof (Z.mod_pos_bound (fst (current_version_of tenant path (database w)) + 1 + 2 ^ 63) (2 ^ 64)). lia. }
  assert (wrap64 (v - maxVersions) = v - maxVersions) as Hth by (apply wrap64_id; unfold in_i64, i64_min, i64_max in *; lia).
  assert (secret_versions (database w') !! (tenant, path, v) = Some (new_row env (FormatTime (clock w 0%nat)))) as Hrow.
  { rewrite Ev, lookup_insert_eq. cbn. f_equal. unfold pruned. cbn [fst snd].
    destruct (Z.leb_spec v (wrap64 (v - maxVersions))); [lia|]. by rewrite andb_false_r, andb_false_r. }
  assert (∀ u, no_faults u → database u = database w' → seal_memory u = seal_memory w' →
    Service_Get tenant path v u = (Ok (MkValue tenant path v plaintext (clock w 0%nat)), tick u)) as Hget.
  { intros u Hu Hdu Hmu. unfold Service_Get. erewrite bind_ok.
    2: { apply (Get_live tenant path v u (new_row env (FormatTime (clock w 0%nat))) (clock w 0%nat)); try done; [by rewrite Hdu|by apply ParseTime_FormatTime]. }
    cbn [r_Envelope r_Version r_Tenant r_Path r_CreatedAt]. change (envelope_of (new_row env _)) with (crypto.MkEnvelope (crypto.KEKVersion env) (crypto.WrappedDEK env) (crypto.Ciphertext env)).
    assert (crypto.MkEnvelope (crypto.KEKVersion env) (crypto.WrappedDEK env) (crypto.Ciphertext env) = env) as -> by by destruct env.
    erewrite bind_ok.
    2: { apply cipher_Open_run. rewrite <- (seal_opens _ _ _ _ _ _ Hs). apply open_memory. cbn. congruence. }
    done. }
  split_and!.
  - by apply Hget.
  - unfold Service_Get at 1. unfold bind at 1.
    rewrite (Get_current tenant path w' (metadata_after maxVersions tenant path v (FormatTime (clock w 0%nat)) (database w))); try done.
    + assert (current_version (metadata_after maxVersions tenant path v (FormatTime (clock w 0%nat)) (database w)) = v) as ->.
      { unfold metadata_after. by destruct (secret_metadata (database w) !! (tenant, path)). }
      apply (Hget (tick w')); [by apply no_faults_tick|done..].
    + rewrite Em, lookup_insert_eq. done.
    + unfold metadata_after. by destruct (secret_metadata (database w) !! (tenant, path)).
  - intros k row Hk. rewrite Ev, lookup_insert_ne, Hk by congruence. cbn. unfold pruned. rewrite Hth.
    destruct (negb (v - maxVersions <? 1)); cbn [andb]; [|by left].
    destruct (bool_decide_reflect (k.1 = (tenant, path))); cbn [andb]; [|by left].
    destruct (Z.leb_spec k.2 (v - maxVersions)); cbn [andb]; [|by left].
    destruct (negb _); [right; auto|by left].
  - intros k Hk. by rewrite Em, lookup_insert_ne.
Qed.

(** A write that fails changes nothing, and of two writes that expect the
  same version only one succeeds, whatever happened in between. *)
Theorem cas_single_winner (tenant path : string) (plaintext plaintext' : list Z) (n v : Z) (w1 w2 w3 w4 : World) (o : result Z)
  (Hok : store_ok (database w1))
  (Hfirst : Service_Put maxVersions tenant path plaintext (AtVersion n) w1 = (Ok v, w2))
  (Hsteps : store_steps w2 w3)
  (Hsecond : Service_Put maxVersions tenant path plaintext' (AtVersion n) w3 = (o, w4)) :
  v = n + 1 ∧ is_ok o = false ∧ database w4 = database w3.
Proof.
  pose proof (step_keeps store_ok store_ok_rows store_ok_put store_ok_tables _ _ (st_put _ _ _ _ _ _ _ Hfirst) Hok) as Hok2.
  apply Service_Put_inv in Hfirst as [_ (Hnext&Hv&_&Hsat&env&_&_&_&_&[Em Ev Hfree])].
  unfold satisfiedBy in Hsat. cbn [enforced AtVersion negb orb e_version] in Hsat. apply Z.eqb_eq in Hsat.
  assert (v = n + 1) as ->.
  { rewrite Hnext in *. unfold next_of. rewrite <- Hsat. unfold next_of in Hv. rewrite <- Hsat in Hv.
    apply wrap64_next; [|done|]; unfold current_version_of in Hsat; destruct (secret_metadata (database w1) !! (tenant, path)) as [r|] eqn:Er; cbn in Hsat; subst n; try done;
      by destruct (so_versions _ Hok _ _ _ Er) as (_&?&_); lia. }
  split; [done|].
  assert (store_ok (database w3) ∧ n < fst (current_version_of tenant path (database w3))) as [Hok3 Hn].
  { assert (n < fst (current_version_of tenant path (database w2))) as Hn2.
    { unfold current_version_of. rewrite Em, lookup_insert_eq. cbn [fst]. rewrite <- Hnext. unfold metadata_after.
      destruct (secret_metadata (database w1) !! (tenant, path)); cbn [current_version]; lia. }
    pose proof (conj Hok2 Hn2) as Hboth. revert Hboth.
    apply (steps_keep (fun d => store_ok d ∧ n < fst (current_version_of tenant path d))); [| | |done].
    - intros d k r r' [Hd Hlt] Hk Hnr He. split; [by eapply store_ok_rows|done].
    - intros t p e nw d d' [Hd Hlt] Heff Hnx Hl. split; [by eapply store_ok_put|].
      unfold current_version_of. rewrite (pe_metadata _ _ _ _ _ _ _ Heff).
      destruct (decide ((t, p) = (tenant, path))) as [E|Hne]; [|by rewrite lookup_insert_ne].
      simplify_eq. rewrite lookup_insert_eq. cbn [fst].
      assert (current_version (metadata_after maxVersions tenant path (next_of tenant path d) nw d) = next_of tenant path d) as ->.
      { unfold metadata_after. by destruct (secret_metadata d !! (tenant, path)). }
      unfold next_of, current_version_of in *. destruct (secret_metadata d !! (tenant, path)) as [r|] eqn:Er; cbn [fst] in *.
      + destruct (so_versions _ Hd _ _ _ Er) as (_&?&_). rewrite wrap64_next; lia.
      + rewrite wrap64_next; unfold i64_max; lia.
    - intros d d' E1 E2 [Hd Hlt]. split; [by eapply store_ok_tables|]. unfold current_version_of. by rewrite E1. }
  apply Service_Put_inv in Hsecond as [_ Hs]. destruct o as [v'|e]; [|by split].
  destruct Hs as (_&_&_&Hsat'&_). unfold satisfiedBy in Hsat'. cbn [enforced AtVersion negb orb e_version] in Hsat'.
  apply Z.eqb_eq in Hsat'. lia.
Qed.
End theory.

(** ** Examples: the store over the seal's cipher, two versions kept *)
Section examples.
Import sample.
Local Definition unsealed (version : Z) (w : World) : World :=
  set_seal_memory (MkSealMemory (Some (crypto.sample_key 9)) version []) w.
Local Definition w0 : World := unsealed 1 (fresh_world (fun n => (1700000000 + Z.of_nat n) * Second) (fun n => Z.of_nat (7 * n + 3))).
Local Definition w1 : World := snd (Service_Put 2 "acme" "db/main" [1; 2] Any w0).
Local Definition w2 : World := snd (Service_Put 2 "acme" "db/main" [3] (AtVersion 1) w1).
Local Definition w3 : World := snd (Service_Put 2 "acme" "db/main" [4; 5] Any w2).
#[local] Opaque Service_Put Service_Get Service_Undelete.
Lemma two_versions : 1 ≤ 2 ≤ i64_max.
Proof. by vm_compute. Qed.
Lemma w3_steps : store_steps 2 w0 w3.
Proof.
  apply (steps_step _ _ w2); [apply (steps_step _ _ w1); [apply (steps_step _ _ w0); [apply steps_refl|]|]|].
  - exact (st_put 2 "acme" "db/main" [1; 2] Any _ w0 w1 (surjective_pairing (Service_Put 2 "acme" "db/main" [1; 2] Any w0))).
  - exact (st_put 2 "acme" "db/main" [3] (AtVersion 1) _ w1 w2 (surjective_pairing (Service_Put 2 "acme" "db/main" [3] (AtVersion 1) w1))).
  - exact (st_put 2 "acme" "db/main" [4; 5] Any _ w2 w3 (surjective_pairing (Service_Put 2 "acme" "db/main" [4; 5] Any w2))).
Qed.
Lemma store_invariant_witness : store_ok 2 (database w3).
Proof. refine (store_invariant 2 two_versions w0 w3 _ w3_steps). by split. Defined.

Local Definition first_row : SecretVersionRow :=
  default (MkSecretVersion 0 [] [] "" None None) (secret_versions (database w3) !! ("acme", "db/main", 1)).
Lemma destroyed_forever_witness :
  let w' := snd (Service_Undelete "acme" "db/main" [1] w3) in
  secret_versions (database w') !! ("acme", "db/main", 1) = Some first_row ∧
  is_ok (fst (Service_Get "acme" "db/main" 1 w')) = false.
Proof.
  refine (destroyed_forever 2 w3 _ "acme" "db/main" 1 first_row "2023-11-14T22:13:22Z" _ _ _ _).
  - by vm_compute.
  - by vm_compute.
  - done.
  - apply (steps_step _ _ w3); [apply steps_refl|]. eapply (st_undelete _ "acme" "db/main" [1]). apply surjective_pairing.
Defined.

Lemma w0_ok : store_ok 2 (database w0).
Proof. apply store_ok_empty; done. Qed.
Lemma w1_ok : fst (Service_Put 2 "acme" "db/main" [1; 2] Any w0) = Ok 1.
Proof. by vm_compute. Qed.
Lemma Put_then_Get_witness :
  let value := MkValue "acme" "db/main" 1 [1; 2] (1700000000 * Second) in
  Service_Get "acme" "db/main" 1 w1 = (Ok value, tick w1) ∧ Service_Get "acme" "db/main" 0 w1 = (Ok value, tick (tick w1)) ∧
  (∀ k row, secret_versions (database w0) !! k = Some row →
     secret_versions (database w1) !! k = Some row ∨
     k.1 = ("acme", "db/main") ∧ k.2 ≤ 1 - 2 ∧
       secret_versions (database w1) !! k = Some (destroy_row (FormatTime (1700000000 * Second)) row)) ∧
  ∀ k, k ≠ ("acme", "db/main") → secret_metadata (database w1) !! k = secret_metadata (database w0) !! k.
Proof.
  refine (Put_then_Get 2 two_versions "acme" "db/main" [1; 2] Any w0 w1 1 (pair_fst _ _ w1_ok) _ _ w0_ok).
  - intros n. by vm_compute.
  - split; by vm_compute.
Defined.

Local Definition w1' : World := snd (Service_Put 2 "acme" "db/main" [1; 2] (AtVersion 0) w0).
Lemma w1'_ok : fst (Service_Put 2 "acme" "db/main" [1; 2] (AtVersion 0) w0) = Ok 1.
Proof. by vm_compute. Qed.
Lemma cas_single_winner_witness :
  let second := Service_Put 2 "acme" "db/main" [9] (AtVersion 0) w1' in
  1 = 0 + 1 ∧ is_ok (fst second) = false ∧ database (snd second) = database w1'.
Proof.
  refine (cas_single_winner 2 two_versions "acme" "db/main" [1; 2] [9] 0 1 w0 w1' w1' _ _ w0_ok (pair_fst _ _ w1'_ok) (steps_refl _ _) (surjective_pairing _)).
Defined.
End examples.
End secret.
