(* ===== verification/SecretRewrap.v ===== *)
(** modules/secret/rewrap.go: the walk over every version after a rotation of
  the key encryption key ends, and has then moved every version that is not
  destroyed to the new key.  The walk itself is in Walk. *)
From Stdlib Require Import ZArith Lia.
From S2P Require Import Prelude GoStrings GoTime World Envelope SealManager Cipher Walk SecretStore.

Module rewrapping.
Import secret.
Notation cursor := (string * string * Z)%type (only parsing).
Definition tenant_of (k : cursor) : string := k.1.1.
Definition place_of (k : cursor) : crypto.AAD := locate k.1.1 k.1.2 k.2.
(** The walk, with fuel and cursor in sight. *)
Definition loop (rewrap : Rewrapper) (fuel : nat) (at_ : cursor) (w : World) : option (RewrapProgress * result unit * World) :=
  rewrap_loop (fun k envelope => rewrap k.1.1 k.1.2 k.2 envelope) fuel at_ (MkProgress 0 0) w.

(** The walk ends: with one round of fuel more than there are rows the
  loop never runs out, whatever the rewrapper answers. *)
Theorem Rewrap_terminates (rewrap : Rewrapper) (Hrw : ∀ t p v e, only_entropy (rewrap t p v e)) (w : World) :
  ∃ outcome, loop rewrap (S (size (secret_versions (database w)))) ("", "", 0) w = Some outcome ∧ Rewrap rewrap w = outcome.
Proof.
  exact (walk_ends (Row := SecretVersionRow) (fun k e => rewrap k.1.1 k.1.2 k.2 e) (fun k e => Hrw _ _ _ e) ("", "", 0) w).
Qed.

(** ** Every version that is not destroyed is visited *)
Section theory.
Context `{CipherLaws}.
(** Every version of [w] is in [w'] with its value: only its key may differ. *)
Definition same_secrets (w w' : World) : Prop := same_values tenant_of place_of w w'.
Lemma Service_Rewrap_metadata w : secret_metadata (database (snd (Service_Rewrap w))) = secret_metadata (database w).
Proof.
  apply (keeps_Rewrap (fun d => secret_metadata d = secret_metadata (database w))); [|intros; apply rewrap_effect|done].
  by intros d k row env Hd _ _.
Qed.
Lemma Service_Rewrap_Ok w w' progress : Service_Rewrap w = (progress, Ok tt, w') →
  (∀ t p v, is_Some (secret_versions (database w) !! (t, p, v)) → t ≠ "") →
  same_secrets w w' ∧ ∀ k row, secret_versions (database w') !! k = Some row → sv_destroyed_at row = None →
    sv_kek_version row = cipher_version (seal_memory w').
Proof.
  intros E Hnames. destruct (walk_complete tenant_of place_of ("", "", 0) w progress w') as [Hs Hall].
  - intros [[t p] v] Hk. apply Hnames in Hk. cbn. unfold cursor_before, lex. cbn [fst snd].
    destruct (String.eqb_spec "" t) as [<-|]; [done|]. by destruct t.
  - exact E.
  - split; [exact Hs|]. intros k row Hk Hn. apply (Hall k row Hk). cbn. by rewrite Hn.
Qed.

(** A rewrap that reports success has left every version that is not
  destroyed under the current key version, and every version holds the value
  it held before: whatever opened still opens, to the same plaintext. *)
Theorem Rewrap_complete (w w' : World) (progress : RewrapProgress)
  (Hrun : Service_Rewrap w = (progress, Ok tt, w'))
  (Hnames : ∀ t p v, is_Some (secret_versions (database w) !! (t, p, v)) → t ≠ "") :
  secret_metadata (database w') = secret_metadata (database w) ∧ same_secrets w w' ∧
  ∀ k row, secret_versions (database w') !! k = Some row → sv_destroyed_at row = None →
    sv_kek_version row = cipher_version (seal_memory w').
Proof.
  split; [|by eapply Service_Rewrap_Ok]. pose proof (Service_Rewrap_metadata w) as Hm. by rewrite Hrun in Hm.
Qed.
End theory.

(** ** Examples *)
Section examples.
Import sample.
Local Definition start : World := set_seal_memory (MkSealMemory (Some (crypto.sample_key 9)) 1 [])
  (fresh_world (fun n => (1700000000 + Z.of_nat n) * Second) (fun n => Z.of_nat (7 * n + 3))).
Local Definition written : World :=
  snd (Service_Destroy "acme" "db/main" [1] (snd (Service_Put 10 "acme" "db/main" [3] Any
    (snd (Service_Put 10 "acme" "db/main" [1; 2] Any start))))).
(** The key version went up to 2. *)
Local Definition rotated : World := set_seal_memory (MkSealMemory (Some (crypto.sample_key 9)) 2 []) written.
Local Definition rewrapped : World := snd (Service_Rewrap rotated).
#[local] Opaque Service_Rewrap.

Lemma Rewrap_terminates_witness :
  ∃ outcome, loop (fun t p v e => cipher_Rewrap t e (locate t p v)) (S (size (secret_versions (database rotated)))) ("", "", 0) rotated
    = Some outcome ∧ Rewrap (fun t p v e => cipher_Rewrap t e (locate t p v)) rotated = outcome.
Proof. exact (Rewrap_terminates _ (fun t p v e => rewrap_effect t e (locate t p v)) rotated). Defined.

Lemma rotated_ok : fst (Service_Rewrap rotated) = (MkProgress 1 1, Ok tt).
Proof. by vm_compute. Qed.
Lemma Rewrap_complete_witness :
  secret_metadata (database rewrapped) = secret_metadata (database rotated) ∧ same_secrets rotated rewrapped ∧
  ∀ k row, secret_versions (database rewrapped) !! k = Some row → sv_destroyed_at row = None →
    sv_kek_version row = cipher_version (seal_memory rewrapped).
Proof.
  refine (Rewrap_complete rotated rewrapped (MkProgress 1 1) (pair_fst _ _ rotated_ok) _).
  intros t p v Hs ->.
  assert (map_Forall (λ k _, k.1.1 ≠ "") (secret_versions (database rotated))) as Hall.
  { apply (bool_decide_unpack _). by vm_compute. }
  destruct Hs as [row Hrow]. by apply (Hall _ _ Hrow).
Defined.
End examples.
End rewrapping.
