(* ===== verification/VersionedMap.v ===== *)
(** What the secret store promises: a map from paths to numbered versions, each
  live, deleted or gone, without keys, envelopes or times; and that the store
  implements it ([SecretStore]: store.go, service.go, rewrap.go). *)
From Stdlib Require Import ZArith Lia.
From S2P Require Import Prelude GoStrings GoTime World Envelope Cipher Walk SecretStore SecretRewrap.

Module versioned.
Import secret.

(** ** The specification *)
Inductive slot := Live (value : list Z) | Hidden (value : list Z) | Gone.
Record spec := MkSpec { latest : gmap (string * string) Z; slots : gmap (string * string * Z) slot }.
Definition nothing : spec := MkSpec ∅ ∅.
Definition latest_of (tenant path : string) (s : spec) : Z := default 0 (latest s !! (tenant, path)).

Definition spec_put (keep : Z) (tenant path : string) (value : list Z) (expect : Expectation) (s : spec) : result Z * spec :=
  let current := latest_of tenant path s in
  if negb (satisfiedBy expect current) then (Err [ErrConflict], s)
  else
    let v := current + 1 in
    (Ok v, MkSpec (<[(tenant, path) := v]> (latest s))
             (map_imap (fun k x => Some (if bool_decide (k.1 = (tenant, path)) && (k.2 <=? v - keep) then Gone else x))
                (<[(tenant, path, v) := Live value]> (slots s)))).
(** Version 0 is the latest one. *)
Definition spec_get (tenant path : string) (version : Z) (s : spec) : result (Z * list Z) * spec :=
  let v := if version =? currentVersion then latest_of tenant path s else version in
  (match slots s !! (tenant, path, v) with
   | None => Err [ErrNotFound]
   | Some (Live value) => Ok (v, value)
   | Some (Hidden _) => Err [ErrDeleted]
   | Some Gone => Err [ErrDestroyed]
   end, s).
Definition delete_slot (x : slot) : result slot :=
  match x with Live value | Hidden value => Ok (Hidden value) | Gone => Err [ErrDestroyed] end.
Definition undelete_slot (x : slot) : result slot :=
  match x with Live value | Hidden value => Ok (Live value) | Gone => Err [ErrDestroyed] end.
Definition destroy_slot (x : slot) : result slot := Ok Gone.
Fixpoint change_all (change : slot → result slot) (tenant path : string) (versions : list Z) (m : gmap (string * string * Z) slot)
  : result (gmap (string * string * Z) slot) :=
  match versions with
  | [] => Ok m
  | v :: versions =>
      match m !! (tenant, path, v) with
      | None => Err [ErrNotFound]
      | Some x => let? x := change x in change_all change tenant path versions (<[(tenant, path, v) := x]> m)
      end
  end.
(** All of the versions or none; no version means the latest. *)
Definition spec_mark (change : slot → result slot) (tenant path : string) (versions : list Z) (s : spec) : result unit * spec :=
  let versions := match versions with [] => [latest_of tenant path s] | _ => versions end in
  match change_all change tenant path versions (slots s) with
  | Ok m => (Ok tt, MkSpec (latest s) m)
  | Err e => (Err e, s)
  end.

(** ** The calls, and what each side does with them *)
Inductive call :=
| CPut (tenant path : string) (value : list Z) (expect : Expectation)
| CGet (tenant path : string) (version : Z)
| CDelete (tenant path : string) (versions : list Z)
| CUndelete (tenant path : string) (versions : list Z)
| CDestroy (tenant path : string) (versions : list Z)
| CRewrap.
Inductive answer := AVersion (version : Z) | AValue (version : Z) (value : list Z) | ADone.

Definition answering {A} (f : A → answer) (o : result A * spec) : result answer * spec := (result_map f (fst o), snd o).
Definition specified (keep : Z) (c : call) : spec → result answer * spec :=
  match c with
  | CPut t p value expect => fun s => answering AVersion (spec_put keep t p value expect s)
  | CGet t p v => fun s => answering (fun a => AValue (fst a) (snd a)) (spec_get t p v s)
  | CDelete t p vs => fun s => answering (fun _ => ADone) (spec_mark delete_slot t p vs s)
  | CUndelete t p vs => fun s => answering (fun _ => ADone) (spec_mark undelete_slot t p vs s)
  | CDestroy t p vs => fun s => answering (fun _ => ADone) (spec_mark destroy_slot t p vs s)
  | CRewrap => fun s => (Ok ADone, s)
  end.

Section run.
Context `{Cipher} (keep : Z).
Definition executed (c : call) : M World answer :=
  match c with
  | CPut t p value expect => let! v := Service_Put keep t p value expect in ret (AVersion v)
  | CGet t p v => let! value := Service_Get t p v in ret (AValue (v_Version value) (Data value))
  | CDelete t p vs => Service_Delete t p vs ;! ret ADone
  | CUndelete t p vs => Service_Undelete t p vs ;! ret ADone
  | CDestroy t p vs => Service_Destroy t p vs ;! ret ADone
  | CRewrap => fun w => match Service_Rewrap w with (_, Ok _, w) => (Ok ADone, w) | (_, Err e, w) => (Err e, w) end
  end.
(** A sequence of calls, with what each answered. *)
Fixpoint executed_all (calls : list call) (w : World) : list (call * result answer) * World :=
  match calls with
  | [] => ([], w)
  | c :: calls =>
      let '(o, w) := executed c w in
      let '(history, w) := executed_all calls w in ((c, o) :: history, w)
  end.
End run.
(** The calls that succeeded, run on the specification: each must answer the same. *)
Inductive replays (keep : Z) : spec → list (call * result answer) → spec → Prop :=
| replays_nil s : replays keep s [] s
| replays_ok s s1 s2 c a history : specified keep c s = (Ok a, s1) → replays keep s1 history s2 → replays keep s ((c, Ok a) :: history) s2
| replays_err s s2 c e history : replays keep s history s2 → replays keep s ((c, Err e) :: history) s2.

(** ** The refinement *)
Section refinement.
Context `{CipherLaws} (keep : Z) (Hkeep : 1 ≤ keep ≤ i64_max).

Definition opens (w : World) (k : string * string * Z) (row : SecretVersionRow) (value : list Z) : Prop :=
  fst (cipher_Open k.1.1 (envelope_of_row row) (locate k.1.1 k.1.2 k.2) w) = Ok value.
Definition shows (w : World) (k : string * string * Z) (x : slot) (row : SecretVersionRow) : Prop :=
  match x with
  | Live value => sv_destroyed_at row = None ∧ sv_deleted_at row = None ∧ opens w k row value
  | Hidden value => sv_destroyed_at row = None ∧ is_some (sv_deleted_at row) = true ∧ opens w k row value
  | Gone => is_some (sv_destroyed_at row) = true
  end.
(** What the tables stand for: every row shows its slot, and there are no others. *)
Record implements (s : spec) (w : World) : Prop := {
  im_ok : store_ok keep (database w);
  im_latest : ∀ tp, latest s !! tp = current_version <$> secret_metadata (database w) !! tp;
  im_slots : ∀ k, option_relation (shows w k) (fun _ => False) (fun _ => False)
    (slots s !! k) (secret_versions (database w) !! k) }.

Lemma opens_memory w w' k row value : seal_memory w' = seal_memory w → opens w k row value → opens w' k row value.
Proof. unfold opens. intros E <-. by apply open_memory. Qed.
Lemma shows_memory w w' k x row : seal_memory w' = seal_memory w → shows w k x row → shows w' k x row.
Proof. intros E. destruct x; cbn; [..|done]; intros (?&?&?); eauto using opens_memory. Qed.
Lemma implements_tables s w w' : secret_metadata (database w') = secret_metadata (database w) →
  secret_versions (database w') = secret_versions (database w) → seal_memory w' = seal_memory w → implements s w → implements s w'.
Proof.
  intros Ed Ev Em [Hok Hl Hs]. split; [by apply (store_ok_tables keep (database w))|by rewrite Ed|]. intros k. rewrite Ev. specialize (Hs k).
  destruct (slots s !! k), (secret_versions (database w) !! k); cbn in *; eauto using shows_memory.
Qed.
Lemma implements_same s w w' : database w' = database w → seal_memory w' = seal_memory w → implements s w → implements s w'.
Proof. intros Ed Em. by apply implements_tables; rewrite ?Ed. Qed.
Lemma implements_row s w w' k x row row' : implements s w → secret_versions (database w) !! k = Some row →
  sv_destroyed_at row = None → emptied row' → shows w k x row' → seal_memory w' = seal_memory w →
  database w' = set_secret_versions (<[k := row']> (secret_versions (database w))) (database w) →
  implements (MkSpec (latest s) (<[k := x]> (slots s))) w'.
Proof.
  intros [Hok Hl Hs] Hk Hn He Hx Em Ed. split.
  - rewrite Ed. by eapply store_ok_rows.
  - intros tp. rewrite Ed. apply Hl.
  - intros j. rewrite Ed. cbn. destruct (decide (k = j)) as [<-|Hne].
    + rewrite !lookup_insert_eq. cbn. by eapply shows_memory.
    + rewrite !lookup_insert_ne by done. specialize (Hs j).
      destruct (slots s !! j), (secret_versions (database w) !! j); cbn in *; eauto using shows_memory.
Qed.
Lemma implements_id s w k x : implements s w → slots s !! k = Some x → implements (MkSpec (latest s) (<[k := x]> (slots s))) w.
Proof. intros Hi Hx. rewrite insert_id by done. by destruct s. Qed.

(** *** Deleting, undeleting, destroying *)
Definition steps (action : versionAction) (change : slot → result slot) : Prop := ∀ s t p v now w w',
  implements s w → action t p v now w = (Ok tt, w') → ∃ x x', slots s !! (t, p, v) = Some x ∧ change x = Ok x' ∧
    implements (MkSpec (latest s) (<[(t, p, v) := x']> (slots s))) w'.
Lemma state_cases s t p v (k : versionState → M World unit) w w' : implements s w →
  bind (readVersionState t p v) k w = (Ok tt, w') →
  (∃ x row, slots s !! (t, p, v) = Some x ∧ secret_versions (database w) !! (t, p, v) = Some row ∧ shows (tick w) (t, p, v) x row ∧
     k (MkVersionState true (is_some (sv_deleted_at row)) (is_some (sv_destroyed_at row))) (tick w) = (Ok tt, w')) ∨
  k (MkVersionState false false false) (tick w) = (Ok tt, w').
Proof.
  intros Hi E. apply bind_ok_inv in E as (st&w1&Eq&E). apply query_Ok in Eq as [-> ->]. pose proof (im_slots _ _ Hi (t, p, v)) as Hs.
  destruct (secret_versions (database w) !! (t, p, v)) as [row|]; [left|by right].
  destruct (slots s !! (t, p, v)) as [x|]; [|done]. exists x, row. split_and!; [done|done| |done].
  by apply (shows_memory w).
Qed.
Lemma set_row_run t p v f w w' row : exec_ (set_row t p v f) w = (Ok tt, w') → secret_versions (database w) !! (t, p, v) = Some row →
  seal_memory w' = seal_memory w ∧ database w' = set_secret_versions (<[(t, p, v) := f row]> (secret_versions (database w))) (database w).
Proof.
  intros E Hr. apply exec_Ok in E as (d&[= <-]&->). split; [done|]. cbn. unfold set_row. by rewrite (alter_Some _ _ _ _ Hr).
Qed.
Lemma marked_shows w k value row mark : sv_destroyed_at row = None → opens w k row value →
  shows w k (if is_some mark then Hidden value else Live value) (set_deleted mark row).
Proof. intros Hn Ho. by destruct mark. Qed.
Ltac change_here Hi :=
  match goal with E : exec_ (set_row _ _ _ ?f) _ = _, Hr : secret_versions _ !! _ = Some ?row |- _ =>
    destruct (set_row_run _ _ _ _ _ _ _ E Hr) as [? ?]; apply (implements_row _ _ _ _ _ _ (f row) Hi Hr) end.
Lemma delete_steps : steps delete_action delete_slot.
Proof.
  intros s t p v now w w' Hi E. assert (implements s (tick w)) as Hi' by by apply (implements_same s w).
  destruct (state_cases _ _ _ _ _ _ _ Hi E) as [(x&row&Hx&Hr&Hshow&Ek)|Ek]; [|done]. cbn [exists_ destroyed deleted negb] in Ek.
  exists x. destruct x as [value|value|]; cbn in Hshow.
  - destruct Hshow as (Hn&Hd&Ho). rewrite Hn, Hd in Ek. cbn [is_some] in Ek. exists (Hidden value). split_and!; [done|done|].
    change_here Hi'; [done|intros Hx'; cbn in Hx'; by rewrite Hn in Hx'|by apply (marked_shows _ _ _ _ (Some now))|done|done].
  - destruct Hshow as (Hn&Hd&Ho). rewrite Hn, Hd in Ek. injection Ek as <-. exists (Hidden value).
    split_and!; [done|done|by apply implements_id].
  - rewrite Hshow in Ek. done.
Qed.
Lemma undelete_steps : steps undelete_action undelete_slot.
Proof.
  intros s t p v now w w' Hi E. assert (implements s (tick w)) as Hi' by by apply (implements_same s w).
  destruct (state_cases _ _ _ _ _ _ _ Hi E) as [(x&row&Hx&Hr&Hshow&Ek)|Ek]; [|done]. cbn [exists_ destroyed deleted negb] in Ek.
  exists x. destruct x as [value|value|]; cbn in Hshow.
  - destruct Hshow as (Hn&Hd&Ho). rewrite Hn, Hd in Ek. injection Ek as <-. exists (Live value).
    split_and!; [done|done|by apply implements_id].
  - destruct Hshow as (Hn&Hd&Ho). rewrite Hn, Hd in Ek. cbn [is_some negb] in Ek. exists (Live value). split_and!; [done|done|].
    change_here Hi'; [done|intros Hx'; cbn in Hx'; by rewrite Hn in Hx'|by apply (marked_shows _ _ _ _ None)|done|done].
  - rewrite Hshow in Ek. done.
Qed.
Lemma destroy_steps : steps destroy_action destroy_slot.
Proof.
  intros s t p v now w w' Hi E. assert (implements s (tick w)) as Hi' by by apply (implements_same s w).
  destruct (state_cases _ _ _ _ _ _ _ Hi E) as [(x&row&Hx&Hr&Hshow&Ek)|Ek]; [|done]. cbn [exists_ destroyed deleted negb] in Ek.
  exists x, Gone. split_and!; [done|done|]. destruct (sv_destroyed_at row) as [ts|] eqn:Hn; cbn [is_some] in Ek.
  - injection Ek as <-. assert (x = Gone) as -> by (destruct x; cbn in Hshow; [destruct Hshow; congruence..|done]). by apply implements_id.
  - change_here Hi'; done.
Qed.
Lemma for_versions_steps action change t p now vs s w w' : steps action change → implements s w →
  for_versions action t p now vs w = (Ok tt, w') →
  ∃ m, change_all change t p vs (slots s) = Ok m ∧ implements (MkSpec (latest s) m) w'.
Proof.
  intros Ha. revert s w. induction vs as [|v vs IH]; intros s w Hi; cbn [for_versions change_all].
  { intros [= <-]. exists (slots s). split; [done|]. by destruct s. }
  intros E. apply bind_ok_inv in E as ([]&w1&E1&E). destruct (Ha _ _ _ _ _ _ _ Hi E1) as (x&x'&->&->&Hi1).
  cbn [result_bind]. exact (IH _ _ Hi1 E).
Qed.
Lemma mark_body_refines action change t p vs s w w' : steps action change → implements s w → mark_body action t p vs w = (Ok tt, w') →
  ∃ s', spec_mark change t p vs s = (Ok tt, s') ∧ implements s' w'.
Proof.
  intros Ha Hi Hb. unfold mark_body in Hb. apply bind_ok_inv in Hb as (vs'&w1&Hvs&Hb). unfold timestamp in Hb. apply bind_ok_inv in Hb as (n&w2&Hn&Hb). injection Hn as <- <-.
  assert (vs' = match vs with [] => [latest_of t p s] | _ => vs end ∧ database w1 = database w ∧ seal_memory w1 = seal_memory w) as (->&Hd1&Hm1).
  { destruct vs as [|v vs]; [|by injection Hvs as <- <-]. unfold readCurrentVersion in Hvs.
    apply bind_ok_inv in Hvs as (c&w3&Eq&Hvs). apply query_Ok in Eq as [-> ->]. unfold current_version_of in Hvs.
    unfold latest_of. rewrite (im_latest _ _ Hi).
    destruct (secret_metadata (database w) !! (t, p)); [|done]. cbn in Hvs. by injection Hvs as <- <-. }
  match type of Hb with for_versions _ _ _ _ _ ?v = _ => assert (implements s v) as Hi1 by by apply (implements_same s w) end.
  destruct (for_versions_steps action change t p _ _ s _ _ Ha Hi1 Hb) as (m&Hc&Hi2).
  exists (MkSpec (latest s) m). unfold spec_mark. by rewrite Hc.
Qed.
Lemma same_mem_mark_body action t p vs : (∀ t p v n, same_mem (action t p v n)) → same_mem (mark_body action t p vs).
Proof.
  intros Hmem. assert (∀ now l, same_mem (for_versions action t p now l)) as Hl by (intros now l; induction l; cbn [for_versions]; auto with world).
  unfold mark_body, readCurrentVersion, timestamp. apply same_mem_bind; [|auto with world]. destruct vs; auto with world.
Qed.
Lemma mark_refines action change t p vs s w o w' : steps action change → (∀ t p v n, same_mem (action t p v n)) →
  implements s w → mark action t p vs w = (o, w') →
  match o with
  | Ok _ => ∃ s', spec_mark change t p vs s = (Ok tt, s') ∧ implements s' w'
  | Err _ => implements s w'
  end.
Proof.
  intros Ha Hmem Hi E. assert (same_mem (mark action t p vs)) as Hm.
  { unfold mark. apply same_mem_bind; [auto with world|intros _]. apply same_mem_if; [auto with world|].
    by apply same_mem_with_tx, same_mem_mark_body. }
  specialize (Hm w). rewrite E in Hm. cbn [snd] in Hm. unfold mark in E.
  destruct (validateLocation t p) as [[]|e] eqn:Ev.
  2: { rewrite (bind_err _ _ _ _ _ (eq_refl : lift_result (Err e) w = (Err e, w))) in E. injection E as <- <-. done. }
  erewrite bind_lift in E by done. destruct (existsb _ _); [by injection E as <- <-|].
  match type of E with with_tx ?body _ = _ => destruct (with_tx_cases body w) as [(e&u&E'&Hu&_)|(a&u&Hb&E')] end;
    rewrite E' in E; injection E as <- <-; [by apply (implements_same s w)|].
  destruct a. destruct (mark_body_refines action change t p vs s (tick w) u Ha (implements_same s w (tick w) eq_refl eq_refl Hi) Hb) as (s'&Hs&Hi2).
  exists s'. split; [done|]. by apply (implements_same _ u).
Qed.

(** *** Writing, reading, rewrapping *)
Lemma put_effect_refines t p value expect env now s w w' : implements s w → put_effect keep t p env now (database w) (database w') →
  1 ≤ next_of t p (database w) → validateLocation t p = Ok tt →
  satisfiedBy expect (fst (current_version_of t p (database w))) = true →
  seal_memory w' = seal_memory w → fst (cipher_Open t env (locate t p (next_of t p (database w))) w') = Ok value →
  ∃ s', spec_put keep t p value expect s = (Ok (next_of t p (database w)), s') ∧ implements s' w'.
Proof.
  intros Hi Heff Hv Hl Hs Hm Hopen.
  pose proof (store_ok_put keep Hkeep t p env _ _ _ (im_ok _ _ Hi) Heff Hv Hl) as Hok.
  assert (fst (current_version_of t p (database w)) = latest_of t p s) as Hcur.
  { unfold current_version_of, latest_of. rewrite (im_latest _ _ Hi). by destruct (secret_metadata (database w) !! (t, p)). }
  assert (next_of t p (database w) = latest_of t p s + 1) as Hnext.
  { rewrite <- Hcur. apply wrap64_next; [|done|]; unfold current_version_of; destruct (secret_metadata (database w) !! (t, p)) as [meta|] eqn:Em; cbn; try done;
      destruct (so_versions _ _ (im_ok _ _ Hi) _ _ _ Em) as (_&?&_); lia. }
  unfold spec_put. rewrite <- Hcur, Hs, Hcur, <- Hnext. cbn [negb]. set (v := next_of t p (database w)) in *. destruct Heff as [Em Ev Hfree].
  eexists. split; [reflexivity|]. split; cbn [latest slots]; [done| |].
  - intros tp. rewrite Em. destruct (decide ((t, p) = tp)) as [<-|Hne].
    + rewrite !lookup_insert_eq. cbn. f_equal. unfold metadata_after. by destruct (secret_metadata (database w) !! (t, p)).
    + rewrite !lookup_insert_ne by done. apply (im_latest _ _ Hi).
  - intros k. rewrite map_lookup_imap, Ev. fold v.
    assert (option_relation (shows w' k) (fun _ => False) (fun _ => False) (<[(t, p, v) := Live value]> (slots s) !! k)
      (<[(t, p, v) := new_row env now]> (secret_versions (database w)) !! k)) as Hk.
    { destruct (decide ((t, p, v) = k)) as [<-|Hne].
      - rewrite !lookup_insert_eq. cbn. split_and!; [done|done|]. unfold opens.
        by destruct env.
      - rewrite !lookup_insert_ne by done. pose proof (im_slots _ _ Hi k) as Hk.
        destruct (slots s !! k), (secret_versions (database w) !! k); cbn in *; eauto using shows_memory. }
    assert (∀ row, <[(t, p, v) := new_row env now]> (secret_versions (database w)) !! k = Some row →
      k.1 = (t, p) → 1 ≤ k.2) as Hpos.
    { intros row Hrow Hk1. apply lookup_insert_Some in Hrow as [[<- _]|[_ Hrow]]; [done|]. destruct k as [[t' p'] v']. cbn in *. simplify_eq.
      destruct (so_owner _ _ (im_ok _ _ Hi) t p v') as [meta Hmeta]; [by eexists|].
      destruct (so_versions _ _ (im_ok _ _ Hi) _ _ _ Hmeta) as (_&_&Hd). apply Hd. by eexists. }
    assert (wrap64 (v - keep) = v - keep) as Hth.
    { apply wrap64_id. assert (v ≤ i64_max) by (unfold v, next_of, wrap64, i64_max;
        pose proof (Z.mod_pos_bound (fst (current_version_of t p (database w)) + 1 + 2 ^ 63) (2 ^ 64)); lia).
      unfold in_i64, i64_min, i64_max in *. lia. }
    destruct (<[_ := Live value]> (slots s) !! k) as [x|], (<[_ := new_row _ _]> (secret_versions (database w)) !! k) as [row|]; cbn in *; try done.
    rewrite Hth. unfold pruned. destruct (bool_decide_reflect (k.1 = (t, p))) as [Hk1|]; cbn [andb]; [|by rewrite andb_false_r].
    specialize (Hpos _ eq_refl Hk1). destruct (Z.leb_spec k.2 (v - keep)); cbn [andb].
    + destruct (Z.ltb_spec (v - keep) 1); [lia|]. cbn [negb andb]. by destruct (sv_destroyed_at row) eqn:Hn; cbn; rewrite ?Hn.
    + by rewrite andb_false_r.
Qed.
Lemma put_refines t p value expect s w o w' : implements s w → Service_Put keep t p value expect w = (o, w') →
  match o with
  | Ok v => ∃ s', spec_put keep t p value expect s = (Ok v, s') ∧ implements s' w'
  | Err _ => implements s w'
  end.
Proof.
  intros Hi E. destruct (Service_Put_inv keep t p value expect w o w' E) as [Hm Ho].
  destruct o as [v|e]; [|by apply (implements_same s w)]. destruct Ho as (->&Hv&Hl&Hs&env&w1&w2&Henv&Hm1&Heff).
  eapply put_effect_refines; try done. rewrite (open_memory _ _ _ w' w1) by congruence. by apply seal_opens in Henv.
Qed.
Lemma get_refines t p asked s w o w' : implements s w → Service_Get t p asked w = (o, w') →
  implements s w' ∧ match o with Ok v => spec_get t p asked s = (Ok (v_Version v, Data v), s) | Err _ => True end.
Proof.
  intros Hi E. pose proof (same_db_Service_Get t p asked w) as Hd. pose proof (sp_memory _ _ (Service_Get_quiet t p asked w)) as Hm.
  rewrite E in Hd, Hm. cbn [snd] in *. split; [by apply (implements_same s w)|]. destruct o as [value|]; [|done].
  destruct (Service_Get_Ok _ _ _ _ _ _ E) as (row&(Hrow&Hdel&Hdes&Hasked&Hcur)&Ho).
  unfold spec_get. assert ((if asked =? currentVersion then latest_of t p s else asked) = v_Version value) as ->.
  { destruct (Z.eqb_spec asked currentVersion) as [Heq|Hne]; [|by rewrite Hasked].
    destruct (Hcur Heq) as (meta&Hmeta&->). unfold latest_of. by rewrite (im_latest _ _ Hi), Hmeta. }
  pose proof (im_slots _ _ Hi (t, p, v_Version value)) as Hs. rewrite Hrow in Hs.
  destruct (slots s !! (t, p, v_Version value)) as [[x|x|]|]; cbn in Hs; [| | |done].
  - destruct Hs as (_&_&Hop). unfold opens in Hop. cbn [fst snd] in Hop. rewrite Ho in Hop. by injection Hop as ->.
  - destruct Hs as (_&Hx&_). by rewrite Hdel in Hx.
  - by rewrite Hdes in Hs.
Qed.
Lemma rewrap_refines s w : implements s w → implements s (snd (Service_Rewrap w)).
Proof.
  intros Hi. destruct (walk_safe (Row := SecretVersionRow) rewrapping.tenant_of rewrapping.place_of ("", "", 0) w) as [Hm Hv].
  change (snd (walk _ _ w)) with (snd (Service_Rewrap w)) in *. split.
  - apply (keeps_Rewrap (store_ok keep)); [by apply row_wrap_stable, store_ok_rows|intros; apply rewrap_effect|apply (im_ok _ _ Hi)].
  - intros tp. rewrite rewrapping.Service_Rewrap_metadata. apply (im_latest _ _ Hi).
  - intros k. specialize (Hv k). pose proof (im_slots _ _ Hi k) as Hs. change (rows (database w)) with (secret_versions (database w)) in Hv.
    change (rows (database (snd (Service_Rewrap w)))) with (secret_versions (database (snd (Service_Rewrap w)))) in Hv.
    destruct (slots s !! k) as [x|], (secret_versions (database w) !! k) as [row|], (secret_versions (database (snd (Service_Rewrap w))) !! k) as [row'|];
      cbn [option_relation] in *; try done. destruct Hv as (env&->&Hc&Ho).
    assert (∀ value, opens w k row value → opens (snd (Service_Rewrap w)) k (rewrapped_row env row) value) as Hop.
    { intros value Hw. apply (opens_memory w); [done|]. unfold opens. cbn in Hc. cbn.
      assert (envelope_of_row (rewrapped_row env row) = env) as -> by (destruct env; cbn in *; unfold envelope_of_row; cbn; by rewrite Hc).
      by apply Ho. }
    destruct x; cbn in *; [destruct Hs as (?&?&?); split_and!; auto..|done].
Qed.
Lemma executed_refines c s w o w' : implements s w → executed keep c w = (o, w') →
  match o with
  | Ok a => ∃ s', specified keep c s = (Ok a, s') ∧ implements s' w'
  | Err _ => implements s w'
  end.
Proof.
  intros Hi E. destruct c as [t p value expect|t p v|t p vs|t p vs|t p vs|]; cbn [executed specified] in *.
  - unfold bind in E. destruct (Service_Put keep t p value expect w) as [r w1] eqn:Er. pose proof (put_refines _ _ _ _ _ _ _ _ Hi Er) as Hr.
    destruct r; injection E as <- <-; [|done]. destruct Hr as (s'&->&?). by exists s'.
  - unfold bind in E. destruct (Service_Get t p v w) as [r w1] eqn:Er. destruct (get_refines _ _ _ _ _ _ _ Hi Er) as [Hi' Hr].
    destruct r; injection E as <- <-; [|done]. exists s. by rewrite Hr.
  - unfold bind in E. destruct (Service_Delete t p vs w) as [r w1] eqn:Er.
    pose proof (mark_refines _ _ _ _ _ _ _ _ _ delete_steps ltac:(unfold delete_action, readVersionState; auto 10 with world) Hi Er) as Hr.
    destruct r; injection E as <- <-; [|done]. destruct Hr as (s'&->&?). by exists s'.
  - unfold bind in E. destruct (Service_Undelete t p vs w) as [r w1] eqn:Er.
    pose proof (mark_refines _ _ _ _ _ _ _ _ _ undelete_steps ltac:(unfold undelete_action, readVersionState; auto 10 with world) Hi Er) as Hr.
    destruct r; injection E as <- <-; [|done]. destruct Hr as (s'&->&?). by exists s'.
  - unfold bind in E. destruct (Service_Destroy t p vs w) as [r w1] eqn:Er.
    pose proof (mark_refines _ _ _ _ _ _ _ _ _ destroy_steps ltac:(unfold destroy_action, readVersionState; auto 10 with world) Hi Er) as Hr.
    destruct r; injection E as <- <-; [|done]. destruct Hr as (s'&->&?). by exists s'.
  - pose proof (rewrap_refines s w Hi) as Hr. destruct (Service_Rewrap w) as [[pr [[]|e]] w1]; injection E as <- <-; [by exists s|done].
Qed.

(** C3. The secret store implements the specification: run any calls, one after
  the other, from a store that stands for [s]; the calls that succeed are a run
  of the specification with the same answers, the others (a refusal, a database
  failure, a sealed cipher) have no effect, and the store stands for the state
  reached. *)
Theorem versioned_refinement (s : spec) (w w' : World) (calls : list call) (history : list (call * result answer))
  (Hi : implements s w) (Hrun : executed_all keep calls w = (history, w')) :
  ∃ s', replays keep s history s' ∧ implements s' w'.
Proof.
  revert s w history Hi Hrun. induction calls as [|c calls IH]; intros s w history Hi; cbn [executed_all].
  { intros [= <- <-]. exists s. split; [constructor|done]. }
  destruct (executed keep c w) as [o w1] eqn:E. destruct (executed_all keep calls w1) as [rest w2] eqn:Er. intros [= <- <-].
  pose proof (executed_refines _ _ _ _ _ Hi E) as Ho. destruct o as [a|e].
  - destruct Ho as (s1&Hs1&Hi1). destruct (IH _ _ _ Hi1 Er) as (s2&Hr&Hi2). exists s2. split; [by econstructor|done].
  - destruct (IH _ _ _ Ho Er) as (s2&Hr&Hi2). exists s2. split; [by constructor|done].
Qed.
(** *** With a working database nothing is refused that the specification accepts *)
Definition unit_result {A} (r : result A) : result unit := result_map (fun _ => tt) r.
Definition follows (action : versionAction) (change : slot → result slot) : Prop := ∀ s t p v now w,
  implements s w → no_faults w → fst (action t p v now w) = match slots s !! (t, p, v) with
                                                            | None => Err [ErrNotFound]
                                                            | Some x => unit_result (change x)
                                                            end.
Lemma exec__fst f w : no_faults w → fst (exec_ f w) = Ok tt.
Proof. intros H'. by rewrite exec__nf. Qed.
Ltac follow :=
  intros s t p v now w Hi Hnf; match goal with |- fst (?action _ _ _ _ _) = _ => unfold action, readVersionState end;
  rewrite bind_query_nf by done; pose proof (im_slots _ _ Hi (t, p, v)) as Hs;
  destruct (secret_versions (database w) !! (t, p, v)) as [row|], (slots s !! (t, p, v)) as [x|]; try done;
  cbn [exists_ destroyed deleted negb]; destruct x; cbn in Hs.
Lemma delete_follows : follows delete_action delete_slot.
Proof.
  follow; [destruct Hs as (->&->&_); cbn [is_some negb]; apply exec__fst; auto with world|by destruct Hs as (->&->&_)|by rewrite Hs].
Qed.
Lemma undelete_follows : follows undelete_action undelete_slot.
Proof.
  follow; [by destruct Hs as (->&->&_)|destruct Hs as (->&->&_); cbn [is_some negb]; apply exec__fst; auto with world|by rewrite Hs].
Qed.
Lemma destroy_follows : follows destroy_action destroy_slot.
Proof.
  follow; [destruct Hs as (->&_&_); cbn [is_some negb]; apply exec__fst; auto with world..|by rewrite Hs].
Qed.
Lemma for_versions_follows action change t p now vs s w : follows action change → steps action change →
  (∀ t p v n, stays_up (action t p v n)) → implements s w → no_faults w →
  fst (for_versions action t p now vs w) = unit_result (change_all change t p vs (slots s)).
Proof.
  intros Hf Ha Hup. revert s w. induction vs as [|v vs IH]; intros s w Hi Hnf; [done|]. cbn [for_versions change_all].
  unfold bind. pose proof (Hf s t p v now w Hi Hnf) as Hr. pose proof (Hup t p v now w Hnf) as Hnf1.
  destruct (action t p v now w) as [[[]|e] w1] eqn:E; cbn [fst snd] in *.
  - destruct (Ha _ _ _ _ _ _ _ Hi E) as (x&x'&Hx&Hc&Hi1). rewrite Hx, Hc. cbn [result_bind].
    exact (IH _ _ Hi1 Hnf1).
  - destruct (slots s !! (t, p, v)) as [x|]; [|done]. by destruct (change x).
Qed.
Lemma mark_follows action change t p vs s w : follows action change → steps action change →
  (∀ t p v n, stays_up (action t p v n)) → implements s w → no_faults w →
  validateLocation t p = Ok tt → Forall (fun v => 1 ≤ v) vs → is_Some (latest s !! (t, p)) →
  fst (mark action t p vs w) = fst (spec_mark change t p vs s).
Proof.
  intros Hf Ha Hup Hi Hnf Hl Hvs [n Hn]. unfold mark, mark_body. erewrite bind_lift by done.
  assert (existsb (fun v => v <? 1) vs = false) as ->.
  { apply not_true_iff_false. rewrite existsb_exists. intros (v&Hv&Hlt). apply list_elem_of_In in Hv. rewrite Forall_forall in Hvs.
    specialize (Hvs v Hv). apply Z.ltb_lt in Hlt. lia. }
  assert (∀ now l, stays_up (for_versions action t p now l)) as Hall by (intros now l; induction l; cbn [for_versions]; auto with world).
  rewrite with_tx_fst; [|done|].
  2: { unfold readCurrentVersion, timestamp. apply stays_up_bind; [destruct vs; auto with world|auto with world]. }
  assert (∃ w1, (match vs with [] => (let! resolved := readCurrentVersion t p in if negb (snd resolved) then fail [ErrNotFound] else ret [fst resolved])
                 | _ => ret vs end) (tick w) = (Ok match vs with [] => [latest_of t p s] | _ => vs end, w1) ∧
          database w1 = database w ∧ seal_memory w1 = seal_memory w ∧ no_faults w1) as (w1&Ew&Hd&Hm&Hnf1).
  { destruct vs as [|v vs]; [|exists (tick w); split_and!; auto with world]. exists (tick (tick w)). split_and!; auto with world.
    unfold readCurrentVersion. rewrite bind_query_nf by auto with world. unfold current_version_of. change (database (tick w)) with (database w).
    unfold latest_of. rewrite Hn. cbn. pose proof (im_latest _ _ Hi (t, p)) as Hlat. rewrite Hn in Hlat.
    destruct (secret_metadata (database w) !! (t, p)) as [meta|]; [|done]. by injection Hlat as ->. }
  rewrite (bind_ok _ _ _ _ _ Ew). unfold timestamp. rewrite bind_assoc, bind_now, bind_ret_l.
  rewrite (for_versions_follows action change t p _ _ s); [|done|done|done|by apply (implements_same s w)|done].
  unfold spec_mark. by destruct (change_all change t p _ (slots s)).
Qed.

(** Deleting, undeleting and destroying answer exactly what the
  specification answers, refusals included, when the database works, the
  location is valid, the versions are positive and the secret exists. *)
Theorem versioned_answers (s : spec) (w : World) (t p : string) (vs : list Z)
  (Hi : implements s w) (Hnf : no_faults w) (Hl : validateLocation t p = Ok tt)
  (Hvs : Forall (fun v => 1 ≤ v) vs) (Hexists : is_Some (latest s !! (t, p))) :
  fst (Service_Delete t p vs w) = fst (spec_mark delete_slot t p vs s) ∧
  fst (Service_Undelete t p vs w) = fst (spec_mark undelete_slot t p vs s) ∧
  fst (Service_Destroy t p vs w) = fst (spec_mark destroy_slot t p vs s).
Proof.
  split_and!; apply mark_follows; try done;
    auto using delete_follows, undelete_follows, destroy_follows, delete_steps, undelete_steps, destroy_steps;
    intros; unfold delete_action, undelete_action, destroy_action, readVersionState; auto 10 with world.
Qed.
Lemma implements_nothing w : secret_metadata (database w) = ∅ → secret_versions (database w) = ∅ → implements nothing w.
Proof.
  intros Em Ev. split; [by apply store_ok_empty|intros tp; rewrite Em; cbn; by rewrite !lookup_empty|].
  intros k. rewrite Ev. cbn. by rewrite !lookup_empty.
Qed.
End refinement.

(** ** Example: writes, a refused compare-and-set, deletion, destruction, rewrap *)
Section examples.
Import sample.
Local Definition start : World := set_seal_memory (MkSealMemory (Some (crypto.sample_key 9)) 1 [])
  (fresh_world (fun n => (1700000000 + Z.of_nat n) * Second) (fun n => Z.of_nat (7 * n + 3))).
Local Definition calls : list call := [
  CPut "acme" "db/main" [1; 2] Any; CPut "acme" "db/main" [3] (AtVersion 1); CPut "acme" "db/main" [4] (AtVersion 1);
  CDelete "acme" "db/main" []; CGet "acme" "db/main" 0; CGet "acme" "db/main" 1; CUndelete "acme" "db/main" [2];
  CGet "acme" "db/main" 0; CDestroy "acme" "db/main" [1]; CUndelete "acme" "db/main" [1]; CRewrap].
Local Definition history : list (call * result answer) := zip calls [
  Ok (AVersion 1); Ok (AVersion 2); Err [ErrConflict]; Ok ADone; Err [ErrDeleted]; Ok (AValue 1 [1; 2]); Ok ADone;
  Ok (AValue 2 [3]); Ok ADone; Err [ErrDestroyed]; Ok ADone].
Local Definition finish : World := snd (executed_all 10 calls start).
Lemma ten_versions : 1 ≤ 10 ≤ i64_max.
Proof. by vm_compute. Qed.
Lemma calls_ok : fst (executed_all 10 calls start) = history.
Proof. by vm_compute. Qed.
#[local] Opaque executed_all.
Lemma start_implements : implements 10 nothing start.
Proof. by apply implements_nothing. Qed.
Lemma versioned_refinement_witness : ∃ s', replays 10 nothing history s' ∧ implements 10 s' finish.
Proof.
  exact (versioned_refinement 10 ten_versions nothing start finish calls history start_implements (pair_fst _ _ calls_ok)).
Defined.

Local Definition once : World := snd (Service_Put 10 "acme" "db/main" [1; 2] Any start).
Local Definition one : spec := snd (spec_put 10 "acme" "db/main" [1; 2] Any nothing).
Lemma once_ok : fst (Service_Put 10 "acme" "db/main" [1; 2] Any start) = Ok 1.
Proof. by vm_compute. Qed.
Lemma once_implements : implements 10 one once.
Proof.
  destruct (put_refines 10 ten_versions "acme" "db/main" [1; 2] Any nothing start (Ok 1) once start_implements (pair_fst _ _ once_ok)) as (s'&E&Hi).
  unfold one. by rewrite E.
Qed.
Lemma versioned_answers_witness :
  fst (Service_Delete "acme" "db/main" [1; 2] once) = fst (spec_mark delete_slot "acme" "db/main" [1; 2] one) ∧
  fst (Service_Undelete "acme" "db/main" [1; 2] once) = fst (spec_mark undelete_slot "acme" "db/main" [1; 2] one) ∧
  fst (Service_Destroy "acme" "db/main" [1; 2] once) = fst (spec_mark destroy_slot "acme" "db/main" [1; 2] one).
Proof.
  refine (versioned_answers 10 ten_versions one once "acme" "db/main" [1; 2] once_implements _ _ _ _).
  - intros n. by vm_compute.
  - by vm_compute.
  - repeat constructor; by vm_compute.
  - exists 1. by vm_compute.
Defined.
End examples.
End versioned.
