(* ===== verification/Interfaces.v ===== *)
(** The interfaces through which the modules use each other: the audit sink,
  the authorizer, the issuer of leases and the revoker of tokens, as the Go
  packages declare them; and the encodings several modules share. *)
From Stdlib Require Import ZArith Lia SpecFloat.
From S2P Require Import Prelude GoStrings GoTime Json World Policy Httpx AuditTrail.

(** audit.Sink *)
Class Sink := Append : audit.Event → M World unit.
(** secret.Authorizer, param.Authorizer and lease.Authorizer *)
Class Authorizer := {
  Authorize : ∀ (identity : authn.Identity) (tenant path capability : string), M World authz.Decision;
  Permitted : ∀ (identity : authn.Identity) (tenant path : string), M World bool }.
(** secret.Leases: the identifier and the end of the lease. *)
Class Leases := Issue : ∀ (tenant identityID path : string) (version ttl : Z), M World (string * Z).
(** lease.Revoker: the number of tokens revoked. *)
Class Revoker := RevokeIdentity : ∀ (identityID : string), M World Z.

(** [t.UTC().Format(time.RFC3339)] *)
Definition RFC3339 (t : Z) : string := format_seconds (t / Second) +:+ "Z".

(** [int(d.Seconds())]: the whole seconds and the rest are added as floats. *)
Definition float64 (z : Z) : spec_float := binary_normalize 53 1024 z 0 false.
Definition Duration_Seconds (d : Z) : spec_float :=
  SFadd 53 1024 (float64 (Z.quot d Second)) (SFdiv 53 1024 (float64 (Z.rem d Second)) (float64 1000000000)).
(** A conversion to int64 drops the fraction.  What no int64 holds is left to the platform
  by the language; here it is what amd64 gives. *)
Definition int_of_float (x : spec_float) : Z :=
  match x with
  | S754_finite s m e =>
      let v := if 0 <=? e then Z.pos m * 2 ^ e else Z.pos m / 2 ^ (- e) in
      let v := if s then - v else v in if (i64_min <=? v) && (v <=? i64_max) then v else i64_min
  | S754_zero _ => 0
  | _ => i64_min
  end.
(** A conversion to a 64-bit integer; the seconds of a Duration always fit. *)
Definition int_Seconds (d : Z) : Z := wrap64 (int_of_float (Duration_Seconds d)).
(** [t.Sub(u)]: the difference, saturated to a Duration. *)
Definition Sub (t u : Z) : Z := Z.max i64_min (Z.min i64_max (t - u)).

Lemma int_Seconds_examples :
  int_Seconds (1800 * Second) = 1800 ∧ int_Seconds (1800 * Second - 1) = 1799 ∧ int_Seconds (- 1500000000) = -1.
Proof. by vm_compute. Qed.
