(* ===== verification/GoPath.v ===== *)
(** Go's path/filepath on Unix, lexically: what the configuration, the agent and
  the command line use of it. *)
From Stdlib Require Import ZArith Lia Ascii.
From S2P Require Import Prelude GoStrings.

Module filepath.
Definition IsAbs (path : string) : bool := HasPrefix path "/".
(** The elements kept so far, last first, after one more element. *)
Definition clean_step (rooted : bool) (kept : list string) (element : string) : list string :=
  if String.eqb element "" || String.eqb element "." then kept
  else if String.eqb element ".." then
    match kept with
    | last :: rest => if String.eqb last ".." then ".." :: kept else rest
    | [] => if rooted then [] else [".."]
    end
  else element :: kept.
Definition Clean (path : string) : string :=
  if String.eqb path "" then "."
  else
    let rooted := IsAbs path in
    let kept := Join (rev (foldl (clean_step rooted) [] (Split path "/"%char))) "/" in
    if rooted then "/" +:+ kept else if String.eqb kept "" then "." else kept.
(** Everything up to the last slash, and what follows it. *)
Fixpoint split_last (path : string) : string * string :=
  match path with
  | EmptyString => ("", "")
  | String c r =>
      if Contains path "/" then let '(d, f) := split_last r in
        if Contains r "/" then (String c d, f) else (String c "", r)
      else ("", path)
  end.
Definition Dir (path : string) : string := Clean (fst (split_last path)).
Fixpoint strip_slashes (path : string) : string :=
  match path with
  | EmptyString => ""
  | String c r => match strip_slashes r with
                  | EmptyString => if Ascii.eqb c "/" then "" else String c ""
                  | r => String c r
                  end
  end.
Definition Base (path : string) : string :=
  if String.eqb path "" then "."
  else let stripped := strip_slashes path in
       if String.eqb stripped "" then "/" else snd (split_last stripped).
Definition Join2 (a b : string) : string :=
  if String.eqb a "" then if String.eqb b "" then "" else Clean b else Clean (a +:+ "/" +:+ b).

Lemma Contains_slash c s : Contains (String c s) "/" = Ascii.eqb c "/" || Contains s "/".
Proof.
  cbn [Contains]. unfold HasPrefix. cbn [String.prefix]. destruct (ascii_dec "/" c) as [<-|Hne]; [by destruct s|].
  replace (Ascii.eqb c "/") with false by (symmetry; apply Ascii.eqb_neq; congruence). done.
Qed.
(** A name without a slash is its own base. *)
Lemma strip_slashes_plain s : Contains s "/" = false → strip_slashes s = s.
Proof.
  induction s as [|c s IH]; [done|]. rewrite Contains_slash. intros [Hc Hs]%orb_false_iff. cbn [strip_slashes].
  rewrite IH by done. by destruct s; [rewrite Hc|].
Qed.
Lemma Base_plain s : s ≠ "" → Contains s "/" = false → Base s = s.
Proof.
  intros Hne Hs. unfold Base. rewrite strip_slashes_plain by done. destruct (String.eqb_spec s ""); [done|].
  destruct s as [|c s]; [done|]. cbn [split_last]. by rewrite Hs.
Qed.
Lemma path_examples :
  Clean "a//b/./c/.." = "a/b" ∧ Clean "/../a" = "/a" ∧ Clean "../../a" = "../../a" ∧ Clean "/" = "/" ∧ Clean "" = "." ∧
  Dir "/etc/app/db.conf" = "/etc/app" ∧ Dir "file" = "." ∧ Dir "/file" = "/" ∧ Dir "a/b/" = "a/b" ∧ Base "/etc/app/db.conf" = "db.conf" ∧
  Base "a/b/" = "b" ∧ Base "///" = "/" ∧ Join2 "/var/lib/marsec/" "audit.log" = "/var/lib/marsec/audit.log".
Proof. by vm_compute. Qed.
End filepath.
