(* ===== verification/Files.v ===== *)
(** Files and the calls of the operating system on them, for any state that holds
  a file system: what the agent, the snapshots and the command line need.

  A path is the text the code uses, without links; every call may fail, and a
  write that fails may have written the beginning.  Directories are not kept. *)
From Stdlib Require Import ZArith Lia.
From S2P Require Import Prelude GoStrings.

Record File := MkFile { f_content : string; f_mode : Z }.
Abbreviation Files := (gmap string File) (only parsing).
(** [os.CreateTemp]: a name in the directory that is not taken. *)
Class TempNames := temp_name : ∀ (dir prefix : string) (files : Files), string.
(** A state with files: [set_files] is a change that other processes may see,
  [io] one call of the operating system, which may fail. *)
Class FileSystem (S : Type) := {
  files : S → Files;
  set_files : Files → S → S;
  io : M S unit;
  short_write : S → nat }.
Class FileSystemLaws (S : Type) `{FileSystem S} := {
  files_set : ∀ m s, files (set_files m s) = m;
  files_io : ∀ s, files (snd (io s)) = files s }.

Create HintDb files.

Module os.
Definition os_error : string := "os: the call failed".
Definition not_exist : string := "file does not exist".
Definition already_exists : string := "file exists".
(** The permission bits of a mode, and Go's own bits for setuid, setgid and
  sticky as the system numbers them. *)
Definition syscallMode (mode : Z) : Z :=
  Z.lor (Z.land mode 511) (Z.lor (if Z.testbit mode 23 then 2048 else 0) (Z.lor (if Z.testbit mode 22 then 1024 else 0)
    (if Z.testbit mode 20 then 512 else 0))).
Section os.
Context {S : Type} `{FileSystem S}.
Definition ReadFile (path : string) : M S string :=
  io ;! fun s => match files s !! path with Some f => (Ok (f_content f), s) | None => (Err [not_exist], s) end.
(** [os.Open] of a file that will be read. *)
Definition OpenRead (path : string) : M S unit :=
  io ;! fun s => match files s !! path with Some _ => (Ok tt, s) | None => (Err [not_exist], s) end.
(** The size. *)
Definition Stat (path : string) : M S Z :=
  io ;! fun s => match files s !! path with Some f => (Ok (len (f_content f)), s) | None => (Err [not_exist], s) end.
Definition MkdirAll (dir : string) : M S unit := io.
Definition CreateTemp `{TempNames} (dir prefix : string) : M S string :=
  io ;! fun s => let name := temp_name dir prefix (files s) in
                 (Ok name, set_files (<[name := MkFile "" 384]> (files s)) s).
(** [os.OpenFile] to write a file that must not exist. *)
Definition CreateExclusive (path : string) (mode : Z) : M S unit :=
  io ;! fun s => match files s !! path with
                 | Some _ => (Err [already_exists], s)
                 | None => (Ok tt, set_files (<[path := MkFile "" (syscallMode mode)]> (files s)) s)
                 end.
Definition change_file (name : string) (f : File → File) : M S unit := fun s =>
  (Ok tt, set_files (alter f name (files s)) s).
Definition Chmod (name : string) (mode : Z) : M S unit :=
  io ;! change_file name (fun f => MkFile (f_content f) (syscallMode mode)).
(** [os.Chmod], by name. *)
Definition ChmodPath (path : string) (mode : Z) : M S unit :=
  io ;! fun s => match files s !! path with
                 | Some f => change_file path (fun f => MkFile (f_content f) (syscallMode mode)) s
                 | None => (Err [not_exist], s)
                 end.
(** A write that fails may have written the beginning. *)
Definition Write (name content : string) : M S unit := fun s =>
  match io s with
  | (Ok _, s) => change_file name (fun f => MkFile (f_content f +:+ content) (f_mode f)) s
  | (Err e, s) => (Err e, snd (change_file name (fun f => MkFile (f_content f +:+ String.substring 0 (short_write s) content) (f_mode f)) s))
  end.
(** [io.Copy] from an open file to an empty one. *)
Definition Copy (source name : string) : M S unit :=
  io ;! fun s => Write name (match files s !! source with Some f => f_content f | None => "" end) s.
Definition Sync : M S unit := io.
Definition Close : M S unit := io.
Definition Rename (name path : string) : M S unit :=
  io ;! fun s => match files s !! name with
                 | Some f => (Ok tt, set_files (<[path := f]> (delete name (files s))) s)
                 | None => (Err [not_exist], s)
                 end.
Definition Remove (name : string) : M S unit :=
  io ;! fun s => (Ok tt, set_files (delete name (files s)) s).
(** [os.WriteFile]: the file is created with the mode or cut to nothing and keeps
  the mode it has, then written and closed. *)
Definition WriteFile (path content : string) (mode : Z) : M S unit :=
  io ;!
  (fun s => (Ok tt, set_files (<[path := MkFile "" (match files s !! path with Some f => f_mode f | None => syscallMode mode end)]> (files s)) s)) ;!
  fun s => match Write path content s with
           | (Ok _, s) => Close s
           | (Err e, s) => (Err e, snd (Close s))
           end.
(** [defer] of a call whose error is dropped. *)
Definition deferred {A} (cleanup : M S unit) (m : M S A) : M S A := fun s =>
  let '(r, s) := m s in (r, snd (cleanup s)).
(** On an error what [cleanup] says is joined to it. *)
Definition or_else {A} (cleanup : M S unit) (m : M S A) : M S A := fun s =>
  match m s with
  | (Ok u, s) => (Ok u, s)
  | (Err e, s) => let '(r, s) := cleanup s in (Err (errors_Join e (match r with Ok _ => [] | Err e' => e' end)), s)
  end.
(** On an error the file is closed, and that error joined. *)
Definition or_close {A} (m : M S A) : M S A := or_else Close m.
End os.

(** ** What a call leaves of the files *)
Section kept.
Context {S : Type} `{FileSystemLaws S}.
(** Whatever comes of [m], the files other than [path] are as they were. *)
Definition only {A} (path : string) (m : M S A) : Prop := ∀ s other, other ≠ path → files (snd (m s)) !! other = files s !! other.
Definition untouched {A} (m : M S A) : Prop := ∀ s, files (snd (m s)) = files s.
Lemma untouched_io : untouched io.
Proof. intros s. apply files_io. Qed.
Lemma untouched_bind {A B} (m : M S A) (k : A → M S B) : untouched m → (∀ x, untouched (k x)) → untouched (bind m k).
Proof.
  intros Hm Hk s. unfold bind. specialize (Hm s). destruct (m s) as [[x|e] s1]; cbn in *; [by rewrite (Hk x s1)|done].
Qed.
Lemma untouched_only {A} path (m : M S A) : untouched m → only path m.
Proof. intros Hm s other _. by rewrite (Hm s). Qed.
Lemma untouched_ReadFile path : untouched (ReadFile path).
Proof. apply untouched_bind; [apply untouched_io|]. intros _ s. by destruct (files s !! path). Qed.
Lemma untouched_Stat path : untouched (Stat path).
Proof. apply untouched_bind; [apply untouched_io|]. intros _ s. by destruct (files s !! path). Qed.
Lemma untouched_OpenRead path : untouched (OpenRead path).
Proof. apply untouched_bind; [apply untouched_io|]. intros _ s. by destruct (files s !! path). Qed.
Lemma untouched_MkdirAll dir : untouched (MkdirAll dir).
Proof. apply untouched_io. Qed.
Lemma untouched_Sync : untouched Sync.
Proof. apply untouched_io. Qed.
Lemma untouched_Close : untouched Close.
Proof. apply untouched_io. Qed.
Lemma untouched_attempt {A} (m : M S A) : untouched m → untouched (attempt m).
Proof. intros Hm s. unfold attempt. specialize (Hm s). by destruct (m s). Qed.
Lemma only_bind {A B} path (m : M S A) (k : A → M S B) : only path m → (∀ x, only path (k x)) → only path (bind m k).
Proof.
  intros Hm Hk s other Ho. unfold bind. specialize (Hm s other Ho). destruct (m s) as [[x|e] s1]; cbn in *; [by rewrite (Hk x s1)|done].
Qed.
Lemma only_change path f : only path (change_file path f).
Proof. intros s other Ho. cbn. rewrite files_set. by apply lookup_alter_ne. Qed.
Lemma only_ChmodPath path mode : only path (ChmodPath path mode).
Proof.
  apply only_bind; [apply untouched_only, untouched_io|]. intros _ s other Ho. destruct (files s !! path); [|done]. by apply only_change.
Qed.
Lemma only_Write path content : only path (Write path content).
Proof.
  intros s other Ho. unfold Write. pose proof (files_io s) as Hio. destruct (io s) as [[x|e] s1]; cbn in *; rewrite files_set, lookup_alter_ne by done; by rewrite Hio.
Qed.
Lemma only_Copy source path : only path (Copy source path).
Proof. apply only_bind; [apply untouched_only, untouched_io|]. intros _ s. by apply only_Write. Qed.
Lemma only_Remove path : only path (Remove path).
Proof. apply only_bind; [apply untouched_only, untouched_io|]. intros _ s other Ho. cbn. rewrite files_set. by apply lookup_delete_ne. Qed.
Lemma only_CreateExclusive path mode : only path (CreateExclusive path mode).
Proof.
  apply only_bind; [apply untouched_only, untouched_io|]. intros _ s other Ho. destruct (files s !! path); [done|]. cbn. rewrite files_set. by apply lookup_insert_ne.
Qed.
Lemma only_WriteFile path content mode : only path (WriteFile path content mode).
Proof.
  apply only_bind; [apply untouched_only, untouched_io|]. intros _. apply only_bind.
  - intros s other Ho. cbn. rewrite files_set. by apply lookup_insert_ne.
  - intros _ s other Ho. pose proof (only_Write path content s other Ho) as Hw. destruct (Write path content s) as [[x|e] s1]; cbn in *; by rewrite (files_io s1).
Qed.
Lemma only_or_else {A} path cleanup (m : M S A) : only path cleanup → only path m → only path (or_else cleanup m).
Proof.
  intros Hc Hm s other Ho. unfold or_else. specialize (Hm s other Ho). destruct (m s) as [[x|e] s1]; cbn in *; [done|].
  specialize (Hc s1 other Ho). destruct (cleanup s1) as [r s2]; cbn in *. by rewrite Hc.
Qed.
Lemma only_or_close {A} path (m : M S A) : only path m → only path (or_close m).
Proof. apply only_or_else, untouched_only, untouched_io. Qed.
Lemma ReadOk_io {A} (k : M S A) s x s' : bind io (fun _ => k) s = (Ok x, s') → k (snd (io s)) = (Ok x, s').
Proof. unfold bind. by destruct (io s) as [[u|e] s1]. Qed.
Lemma or_else_Ok {A} cleanup (m : M S A) s x s' : or_else cleanup m s = (Ok x, s') → m s = (Ok x, s').
Proof. unfold or_else. destruct (m s) as [[y|e] s1]; [done|]. by destruct (cleanup s1). Qed.
Lemma Write_Ok path content s x s' : Write path content s = (Ok x, s') →
  files s' = alter (fun f => MkFile (f_content f +:+ content) (f_mode f)) path (files s).
Proof.
  unfold Write. pose proof (files_io s) as F1. destruct (io s) as [[u|e] s1]; [|done]. cbn in *. intros [= _ <-]. by rewrite files_set, F1.
Qed.
Lemma io_Ok (s : S) x s' : io s = (Ok x, s') → files s' = files s.
Proof. intros E. pose proof (files_io s) as F1. by rewrite E in F1. Qed.
(** What a restore that succeeds has found and made. *)
Lemma ReadFile_Ok path s text s' : ReadFile path s = (Ok text, s') → ∃ f, files s !! path = Some f ∧ text = f_content f.
Proof.
  unfold ReadFile. intros E. apply ReadOk_io in E. rewrite files_io in E. destruct (files s !! path) as [f|]; [|done]. injection E as <- _. by exists f.
Qed.
(** What is in a file after [os.WriteFile]. *)
Lemma WriteFile_Ok path content mode s x s' : WriteFile path content mode s = (Ok x, s') →
  files s' !! path = Some (MkFile content (match files s !! path with Some f => f_mode f | None => syscallMode mode end)).
Proof.
  unfold WriteFile. intros E. apply ReadOk_io in E. unfold bind at 1 in E. rewrite files_io in E.
  match type of E with match Write _ _ ?u with _ => _ end = _ => set (s1 := u) in E end.
  destruct (Write path content s1) as [[u|e] s2] eqn:Ew; [|done]. apply Write_Ok in Ew. apply io_Ok in E. unfold s1 in Ew. rewrite files_set in Ew.
  by rewrite E, Ew, lookup_alter_eq, lookup_insert_eq.
Qed.
End kept.
End os.
#[export] Hint Resolve os.untouched_io os.untouched_ReadFile os.untouched_Stat os.untouched_OpenRead os.untouched_MkdirAll os.untouched_Sync os.untouched_Close os.untouched_attempt os.untouched_only os.only_ChmodPath os.only_Write os.only_Copy
  os.only_Remove os.only_CreateExclusive os.only_WriteFile os.only_or_else os.only_or_close : files.

(** ** A disk
  Files, which calls will fail, and how much a failing write writes. *)
Record Disk := MkDisk { d_files : Files; d_faults : nat → bool; d_short : nat }.
#[export] Instance disk_files : FileSystem Disk := {
  files := d_files;
  set_files := fun m d => MkDisk m (d_faults d) (d_short d);
  io := fun d =>
    let d' := MkDisk (d_files d) (fun n => d_faults d (S n)) (d_short d) in
    if d_faults d 0%nat then (Err [os.os_error], d') else (Ok tt, d');
  short_write := d_short }.
#[export] Instance disk_laws : FileSystemLaws Disk.
Proof. split; [done|]. intros d. unfold io; cbn. by destruct (d_faults d 0%nat). Qed.
