(* ===== verification/GoNumbers.v ===== *)
(** Go's strconv and time readers of numbers that the configuration uses:
  ParseBool, ParseUint, ParseFloat and ParseDuration, from the text to the value
  with Go's own limits and roundings. *)
From Stdlib Require Import ZArith Lia Ascii SpecFloat.
From S2P Require Import Prelude GoStrings GoTime Json Interfaces.

(** [strconv.ParseBool] *)
Definition ParseBool (s : string) : option bool :=
  if bool_decide (s ∈ ["1"; "t"; "T"; "TRUE"; "true"; "True"]) then Some true
  else if bool_decide (s ∈ ["0"; "f"; "F"; "FALSE"; "false"; "False"]) then Some false
  else None.

(** [strconv.ParseUint] at a base from 2 to 10, which takes neither sign nor
  underscore. *)
Fixpoint take_base (base acc : Z) (s : string) : option Z :=
  match s with
  | EmptyString => Some acc
  | String c r => d ← digit_val c; if d <? base then take_base base (acc * base + d) r else None
  end.
Definition ParseUint (s : string) (base bits : Z) : option Z :=
  if String.eqb s "" then None
  else x ← take_base base 0 s; if x <? 2 ^ bits then Some x else None.

(** ** [strconv.ParseFloat] at 64 bits *)
Module float.
Definition lower (c : ascii) : ascii := fold_char c.
Fixpoint lower_string (s : string) : string :=
  match s with EmptyString => "" | String c r => String (lower c) (lower_string r) end.
Definition split_sign (s : string) : bool * string :=
  match s with
  | String c r => if Ascii.eqb c "-" then (true, r) else if Ascii.eqb c "+" then (false, r) else (false, s)
  | EmptyString => (false, s)
  end.
Definition signed (neg : bool) (x : spec_float) : spec_float := if neg then SFopp x else x.
(** Infinity takes a sign, NaN does not. *)
Definition special (s : string) : option spec_float :=
  let '(neg, r) := split_sign s in
  if bool_decide (lower_string r ∈ ["inf"; "infinity"]) then Some (S754_infinity neg)
  else if String.eqb (lower_string s) "nan" then Some S754_nan
  else None.

Definition hex_digit_val (c : ascii) : option Z :=
  match digit_val c with
  | Some d => Some d
  | None => let b := byte_of_ascii (lower c) in if (97 <=? b) && (b <=? 102) then Some (b - 87) else None
  end.
(** The digits around a point: their value, how many there are, how many of them
  follow the point (none without one), and the rest of the text.  Underscores
  are passed over here and judged by [underscore_ok]. *)
Fixpoint mantissa (value : ascii → option Z) (base m : Z) (count after : Z) (dot : bool) (s : string) : Z * Z * Z * string :=
  match s with
  | String c r =>
      if Ascii.eqb c "_" then mantissa value base m count after dot r
      else if Ascii.eqb c "." then if dot then (m, count, after, s) else mantissa value base m count after true r
      else match value c with
           | Some d => mantissa value base (m * base + d) (count + 1) (if dot then after + 1 else after) dot r
           | None => (m, count, after, s)
           end
  | EmptyString => (m, count, after, s)
  end.
(** The exponent stops growing beyond 10000. *)
Fixpoint exponent_digits (e : Z) (s : string) : Z * string :=
  match s with
  | String c r =>
      if Ascii.eqb c "_" then exponent_digits e r
      else match digit_val c with
           | Some d => exponent_digits (if e <? 10000 then e * 10 + d else e) r
           | None => (e, s)
           end
  | EmptyString => (e, s)
  end.
Definition exponent (letter : ascii) (required : bool) (s : string) : option (Z * string) :=
  match s with
  | String c r =>
      if Ascii.eqb (lower c) letter then
        let '(neg, r) := split_sign r in
        match r with
        | String d _ => match digit_val d with
                        | Some _ => let '(e, rest) := exponent_digits 0 r in Some (if neg then - e else e, rest)
                        | None => None
                        end
        | EmptyString => None
        end
      else if required then None else Some (0, s)
  | EmptyString => if required then None else Some (0, s)
  end.
(** An underscore stands between two digits, or after the prefix of a base. *)
Fixpoint underscores_from (hex : bool) (last : ascii) (s : string) : bool :=
  match s with
  | EmptyString => negb (Ascii.eqb last "_")
  | String c r =>
      if match (if hex then hex_digit_val c else digit_val c) with Some _ => true | None => false end
      then underscores_from hex "0"%char r
      else if Ascii.eqb c "_" then if Ascii.eqb last "0" then underscores_from hex "_"%char r else false
      else if Ascii.eqb last "_" then false else underscores_from hex "!"%char r
  end.
Definition underscore_ok (s : string) : bool :=
  let '(_, s) := split_sign s in
  match s with
  | String "0" (String x r) =>
      let x := lower x in
      if Ascii.eqb x "x" then underscores_from true "0"%char r
      else if Ascii.eqb x "b" || Ascii.eqb x "o" then underscores_from false "0"%char r
      else underscores_from false "^"%char s
  | _ => underscores_from false "^"%char s
  end.

(** [m] times ten to the [e], rounded to nearest even.  For negative [e] the
  quotient is taken to 64 bits beyond the point and more, with a last bit that
  says whether anything is left. *)
Definition of_decimal (m e : Z) : spec_float :=
  if 0 <=? e then binary_normalize 53 1024 (m * 10 ^ e) 0 false
  else
    let n := - e in
    let k := 4 * n + 64 in
    let q := m * 2 ^ k / 10 ^ n in
    let r := m * 2 ^ k mod 10 ^ n in
    binary_normalize 53 1024 (2 * q + (if r =? 0 then 0 else 1)) (- k - 1) false.
Definition finite (x : spec_float) : bool := match x with S754_infinity _ | S754_nan => false | _ => true end.
(** A number that overflows is an error, like text that is no number. *)
Definition ParseFloat (s : string) : option spec_float :=
  match special s with
  | Some x => Some x
  | None =>
      if Contains s "_" && negb (underscore_ok s) then None
      else
        let '(neg, r) := split_sign s in
        let hex := match r with String "0" (String x (String _ _)) => Ascii.eqb (lower x) "x" | _ => false end in
        let digits := if hex then String.substring 2 (String.length r) r else r in
        let '(m, count, after, rest) := mantissa (if hex then hex_digit_val else digit_val) (if hex then 16 else 10) 0 0 0 false digits in
        if count =? 0 then None
        else
          '(e, rest) ← exponent (if hex then "p"%char else "e"%char) hex rest;
          if negb (String.eqb rest "") then None
          else
            let x := if hex then binary_normalize 53 1024 m (e - 4 * after) false else of_decimal m (e - after) in
            if finite x then Some (signed neg x) else None
  end.
(** ** [strconv.FormatFloat] of a float64 with the verb g and the smallest
  number of digits that reads back as the same number *)
Definition ratio (m : positive) (e : Z) : Z * Z := if 0 <=? e then (Zpos m * 2 ^ e, 1) else (Zpos m, 2 ^ (- e)).
(** The power of ten of the first digit: the estimate from the binary logarithm
  is off by one at most. *)
Definition leading (num den : Z) : Z :=
  let q := num * 10 ^ 400 / den in
  let est := Z.log2 q * 30103 / 100000 in
  (if 10 ^ (est + 1) <=? q then est + 1 else if q <? 10 ^ est then est - 1 else est) - 400.
(** The nearest numbers of [n] digits on either side, the nearer first, that
  read back as the same float64. *)
Definition with_digits (x : spec_float) (num den p : Z) (n : nat) : option (Z * Z) :=
  let k := p - Z.of_nat n + 1 in
  let '(a, b) := if 0 <=? k then (num, den * 10 ^ k) else (num * 10 ^ (- k), den) in
  let lo := a / b in
  let near := if 2 * (a mod b) <=? b then [lo; lo + 1] else [lo + 1; lo] in
  match List.find (fun c => match SFcompare (of_decimal c k) x with Some Eq => true | _ => false end) near with
  | Some c => Some (c, k)
  | None => None
  end.
Definition shortest (x : spec_float) (num den : Z) : Z * Z :=
  let p := leading num den in
  match first_some (with_digits x num den p) (seq 1 17) with Some d => d | None => (0, 0) end.
(** The digits without zeros at the end, and the power of ten of the last. *)
Fixpoint trim_zeros (fuel : nat) (c k : Z) : Z * Z :=
  match fuel with
  | O => (c, k)
  | S fuel => if c mod 10 =? 0 then trim_zeros fuel (c / 10) (k + 1) else (c, k)
  end.
Definition format_exponent (digits : string) (e : Z) : string :=
  match digits with
  | EmptyString => ""
  | String d more => String d (if String.eqb more "" then "" else "." +:+ more)
  end +:+ (if e <? 0 then "e-" else "e+") +:+ (if Z.abs e <? 10 then "0" else "") +:+ Itoa (Z.abs e).
Definition format_point (digits : string) (nd e : Z) : string :=
  let dp := e + 1 in
  if dp <=? 0 then "0." +:+ pad (Z.to_nat (- dp)) 0 +:+ digits
  else if nd <=? dp then digits +:+ pad (Z.to_nat (dp - nd)) 0
  else String.substring 0 (Z.to_nat dp) digits +:+ "." +:+ String.substring (Z.to_nat dp) (Z.to_nat (nd - dp)) digits.
Definition FormatFloat (x : spec_float) : string :=
  match x with
  | S754_nan => "NaN"
  | S754_infinity s => if s then "-Inf" else "+Inf"
  | S754_zero s => if s then "-0" else "0"
  | S754_finite s m e =>
      let '(num, den) := ratio m e in
      let '(c, k) := shortest (S754_finite false m e) num den in
      let '(c, k) := trim_zeros 17 c k in
      let digits := Itoa c in
      let nd := len digits in
      let e := k + nd - 1 in
      (if s then "-" else "") +:+ (if (e <? -4) || (6 <=? e) then format_exponent digits e else format_point digits nd e)
  end.
End float.

(** ** [time.ParseDuration] *)
Module duration.
Definition limit : Z := 2 ^ 63.
Definition unit_of (u : string) : option Z :=
  if String.eqb u "ns" then Some 1
  else if String.eqb u "us" || String.eqb u (string_of_bytes [194; 181; 115]) || String.eqb u (string_of_bytes [206; 188; 115]) then Some 1000
  else if String.eqb u "ms" then Some 1000000
  else if String.eqb u "s" then Some Second
  else if String.eqb u "m" then Some Minute
  else if String.eqb u "h" then Some Hour
  else None.
(** [None] is the overflow of an unsigned 64-bit integer beyond 2^63. *)
Fixpoint leadingInt (x : Z) (s : string) : option (Z * string) :=
  match s with
  | String c r =>
      match digit_val c with
      | Some d => if limit / 10 <? x then None
                  else let x := x * 10 + d in if limit <? x then None else leadingInt x r
      | None => Some (x, s)
      end
  | EmptyString => Some (x, s)
  end.
(** Digits that no longer fit are dropped. *)
Fixpoint leadingFraction (x scale : Z) (overflow : bool) (s : string) : Z * Z * string :=
  match s with
  | String c r =>
      match digit_val c with
      | Some d =>
          if overflow then leadingFraction x scale true r
          else if (limit - 1) / 10 <? x then leadingFraction x scale true r
          else let y := x * 10 + d in
               if limit <? y then leadingFraction x scale true r else leadingFraction y (scale * 10) false r
      | None => (x, scale, s)
      end
  | EmptyString => (x, scale, s)
  end.
Definition in_number (c : ascii) : bool := Ascii.eqb c "." || match digit_val c with Some _ => true | None => false end.
Fixpoint take_unit (s : string) : string * string :=
  match s with
  | String c r => if in_number c then ("", s) else let '(u, rest) := take_unit r in (String c u, rest)
  | EmptyString => ("", "")
  end.
(** The fraction of a unit is computed in float64 and cut to whole nanoseconds. *)
Definition fraction (f unit scale : Z) : Z :=
  int_of_float (SFmul 53 1024 (float64 f) (SFdiv 53 1024 (float64 unit) (float64 scale))).
(** One number with its unit. *)
Definition component (s : string) : option (Z * string) :=
  match s with
  | String c _ => if negb (in_number c) then None else
      '(v, r) ← leadingInt 0 s;
      let pre := negb (String.length r =? String.length s)%nat in
      let '(f, scale, rest, post) :=
        match r with
        | String "." r1 => let '(f, scale, rest) := leadingFraction 0 1 false r1 in
                           (f, scale, rest, negb (String.length rest =? String.length r1)%nat)
        | _ => (0, 1, r, false)
        end in
      if negb pre && negb post then None
      else
        let '(u, rest) := take_unit rest in
        unit ← unit_of u;
        if limit / unit <? v then None
        else
          let v := v * unit in
          let v := if 0 <? f then v + fraction f unit scale else v in
          if limit <? v then None else Some (v, rest)
  | EmptyString => None
  end.
(** Every component takes at least one byte of the text. *)
Fixpoint components (fuel : nat) (d : Z) (s : string) : option Z :=
  match s, fuel with
  | EmptyString, _ => Some d
  | _, O => None
  | _, S fuel => '(v, rest) ← component s; let d := (d + v) mod 2 ^ 64 in if limit <? d then None else components fuel d rest
  end.
Definition ParseDuration (s : string) : option Z :=
  let '(neg, r) := float.split_sign s in
  if String.eqb r "0" then Some 0
  else if String.eqb r "" then None
  else
    d ← components (String.length r) 0 r;
    if neg then Some (- d) else if limit - 1 <? d then None else Some d.
End duration.

Lemma ParseFloat_examples :
  float.ParseFloat "600" = Some (float64 600) ∧ float.ParseFloat "0x1p-2" = float.ParseFloat "0.25" ∧
  float.ParseFloat "1_000.5e-1" = float.ParseFloat "100.05" ∧ float.ParseFloat "1e309" = None ∧
  float.ParseFloat "-Infinity" = Some (S754_infinity true) ∧ float.ParseFloat "nan" = Some S754_nan ∧
  float.ParseFloat "1__0" = None ∧ float.ParseFloat "" = None ∧ float.ParseFloat "+.e1" = None ∧
  float.ParseFloat "0.1" = Some (S754_finite false 7205759403792794 (-56)) ∧
  float.ParseFloat "5e-324" = Some (S754_finite false 1 (-1074)) ∧ float.ParseFloat "2e-324" = Some (S754_zero false).
Proof. by vm_compute. Qed.
Lemma ParseDuration_examples :
  duration.ParseDuration "1h30m" = Some (90 * Minute) ∧ duration.ParseDuration "1.5s" = Some 1500000000 ∧
  duration.ParseDuration "-.5ms" = Some (- 500000) ∧ duration.ParseDuration "0" = Some 0 ∧
  duration.ParseDuration "10" = None ∧ duration.ParseDuration "" = None ∧ duration.ParseDuration "1d" = None ∧
  duration.ParseDuration "9223372036854775807ns" = Some i64_max ∧ duration.ParseDuration "9223372036854775808ns" = None ∧
  duration.ParseDuration "-9223372036854775808ns" = Some i64_min.
Proof. by vm_compute. Qed.
Lemma ParseDuration_range s d : duration.ParseDuration s = Some d → in_i64 d.
Proof.
  unfold duration.ParseDuration. destruct (float.split_sign s) as [neg r].
  destruct (String.eqb r "0"); [by intros [= <-]|]. destruct (String.eqb r ""); [done|].
  assert (∀ fuel x t y, 0 ≤ x ≤ duration.limit → duration.components fuel x t = Some y → 0 ≤ y ≤ duration.limit) as Hc.
  { induction fuel as [|fuel IH]; intros x t y Hx; destruct t as [|c t]; cbn [duration.components]; try (by intros [= <-]).
    destruct (duration.component _) as [[v rest]|]; [|done]. cbn.
    destruct (Z.ltb_spec duration.limit ((x + v) mod 2 ^ 64)) as [|Hd]; [done|].
    apply IH. pose proof (Z.mod_pos_bound (x + v) (2 ^ 64) ltac:(lia)). lia. }
  destruct (duration.components _ 0 r) as [y|] eqn:E; cbn; [|done].
  apply Hc in E; [|unfold duration.limit; lia]. unfold in_i64, i64_min, i64_max, duration.limit in *.
  destruct neg; [intros [= <-]; lia|]. destruct (Z.ltb_spec (2 ^ 63 - 1) y); [done|]. intros [= <-]. lia.
Qed.
Lemma FormatFloat_examples :
  float.FormatFloat <$> [float64 0; float64 1; float64 (-1); float64 100000; float64 1000000; float64 1234567; float64 (2 ^ 53)] =
    ["0"; "1"; "-1"; "100000"; "1e+06"; "1.234567e+06"; "9.007199254740992e+15"] ∧
  (fun t => float.FormatFloat <$> float.ParseFloat t) <$> ["0.1"; "0.3"; "2.5"; "1e23"; "5e-324"; "1.7976931348623157e308"; "0.0001"; "0.00001"; "-inf"; "NaN"; "-0"; "123.456"] =
    Some <$> ["0.1"; "0.3"; "2.5"; "1e+23"; "5e-324"; "1.7976931348623157e+308"; "0.0001"; "1e-05"; "-Inf"; "NaN"; "-0"; "123.456"].
Proof. by vm_compute. Qed.
