(* ===== verification/GoUrl.v ===== *)
(** Go's net/url as the client uses it: reading an address, and the text of a
  query; and what a server reads of a request's target.

  Whether the text between brackets is an IP address is netip's business and a
  parameter. *)
From Stdlib Require Import ZArith Lia Ascii.
From S2P Require Import Prelude GoStrings GoTime Json GoNumbers.

Class IPLiterals := ip_literal : string → bool.

Module url.
Record URL := MkURL { Scheme : string; Host : string; Path : string; RawQuery : string }.

Definition is_lower (c : ascii) : bool := within 97 122 c.
Definition is_upper (c : ascii) : bool := within 65 90 c.
Definition is_letter (c : ascii) : bool := is_lower c || is_upper c.
Definition is_digit (c : ascii) : bool := within 48 57 c.
Fixpoint one_of (s : string) (c : ascii) : bool :=
  match s with EmptyString => false | String a r => Ascii.eqb a c || one_of r c end.
Fixpoint one_in (any s : string) : bool :=
  match s with EmptyString => false | String c r => one_of any c || one_in any r end.
Fixpoint all_chars (p : ascii → bool) (s : string) : bool :=
  match s with EmptyString => true | String c r => p c && all_chars p r end.
(** Letters, digits and [-_.~] are never escaped. *)
Definition unreserved (c : ascii) : bool := is_letter c || is_digit c || one_of "-_.~" c.

Inductive mode := encodeHost | encodeZone | encodePath | encodeQuery | encodeUser | encodeFragment.
(** What stands in a host as it is. *)
Definition host_char (c : ascii) : bool := unreserved c || one_of "!$&'()*+,;=:[]<>" c || Ascii.eqb c dquote.
Definition hex (c : ascii) : option Z := float.hex_digit_val c.
Definition is_host (m : mode) : bool := match m with encodeHost | encodeZone => true | _ => false end.
(** A percent escape that the mode allows. *)
Definition escape_allowed (m : mode) (h l : Z) : bool :=
  match m with
  | encodeHost => (8 <=? h) || ((h =? 2) && (l =? 5))
  | encodeZone => let v := ascii_of_byte (16 * h + l) in
                  ((h =? 2) && (l =? 5)) || Ascii.eqb v " " || host_char v
  | _ => true
  end.
Fixpoint unescape (m : mode) (s : string) : option string :=
  match s with
  | EmptyString => Some ""
  | String c r =>
      if Ascii.eqb c "%" then
        match r with
        | String a (String b r') =>
            h ← hex a; l ← hex b;
            if negb (escape_allowed m h l) then None
            else rest ← unescape m r'; Some (String (ascii_of_byte (16 * h + l)) rest)
        | _ => None
        end
      else if is_host m && (byte_of_ascii c <? 128) && negb (host_char c) then None
      else rest ← unescape m r;
           Some (String (match m with encodeQuery => if Ascii.eqb c "+" then " "%char else c | _ => c end) rest)
  end.

(** The scheme before the first colon; [None] is a colon at the very start. *)
Fixpoint scheme_from (first : bool) (s : string) : option (option (string * string)) :=
  match s with
  | EmptyString => Some None
  | String c r =>
      if is_letter c || (negb first && (is_digit c || one_of "+-." c))
      then found ← scheme_from false r; Some (match found with Some (scheme, rest) => Some (String c scheme, rest) | None => None end)
      else if Ascii.eqb c ":" then if first then None else Some (Some ("", r)) else Some None
  end.
Definition getScheme (s : string) : option (string * string) :=
  found ← scheme_from true s; Some (match found with Some x => x | None => ("", s) end).

Definition validOptionalPort (port : string) : bool :=
  match port with EmptyString => true | String c r => Ascii.eqb c ":" && all_chars is_digit r end.
(** The text before and after the last occurrence of a byte. *)
Fixpoint cut_last (s : string) (c : ascii) : option (string * string) :=
  match s with
  | EmptyString => None
  | String a r =>
      match cut_last r c with
      | Some (x, y) => Some (String a x, y)
      | None => if Ascii.eqb a c then Some ("", r) else None
      end
  end.
Fixpoint cut_at (s sub : string) : option (string * string) :=
  match CutPrefix s sub with
  | Some _ => Some ("", s)
  | None => match s with EmptyString => None | String c r => '(x, y) ← cut_at r sub; Some (String c x, y) end
  end.

Section parse.
Context `{IPLiterals}.
Definition parseHost (host : string) : option string :=
  match cut_last host "["%char with
  | Some (String _ _, _) => None
  | Some (EmptyString, inner) =>
      '(name, port) ← cut_last inner "]"%char;
      if negb (validOptionalPort port) then None
      else
        name ← match cut_at name "%25" with
               | Some (addr, zone) => a ← unescape encodeHost addr; z ← unescape encodeZone zone; Some (a +:+ z)
               | None => unescape encodeHost name
               end;
        if ip_literal name then Some ("[" +:+ name +:+ "]" +:+ port) else None
  | None =>
      let '(_, port, found) := Cut host ":"%char in
      if found && negb (validOptionalPort (":" +:+ port)) then None else unescape encodeHost host
  end.
Definition user_char (c : ascii) : bool := is_letter c || is_digit c || one_of "-._:~!$&'()*+,;=%@" c.
Definition parseAuthority (authority : string) : option string :=
  match cut_last authority "@"%char with
  | None => parseHost authority
  | Some (user, host) =>
      h ← parseHost host;
      if negb (all_chars user_char user) then None else _ ← unescape encodeUser user; Some h
  end.
Definition control (c : ascii) : bool := (byte_of_ascii c <? 32) || (byte_of_ascii c =? 127).
(** [Parse] without the fragment. *)
Definition parse (s : string) : option URL :=
  if negb (all_chars (fun c => negb (control c)) s) then None
  else if String.eqb s "*" then Some (MkURL "" "" "*" "")
  else
    '(scheme, rest) ← getScheme s;
    let scheme := float.lower_string scheme in
    let '(rest, query, _) := Cut rest "?"%char in
    if negb (HasPrefix rest "/") && negb (String.eqb scheme "") then Some (MkURL scheme "" "" query)
    else if negb (HasPrefix rest "/") && Contains (fst (fst (Cut rest "/"%char))) ":" then None
    else
      '(host, rest) ←
        (match CutPrefix rest "//" with
         | Some after =>
             if negb (String.eqb scheme "") || negb (HasPrefix after "/")
             then let '(authority, path, found) := Cut after "/"%char in
                  host ← parseAuthority authority; Some (host, if found then "/" +:+ path else "")
             else Some ("", rest)
         | None => Some ("", rest)
         end);
      path ← unescape encodePath rest;
      Some (MkURL scheme host path query).
Definition Parse (s : string) : option URL :=
  let '(s, fragment, _) := Cut s "#"%char in
  u ← parse s; _ ← unescape encodeFragment fragment; Some u.
End parse.

(** [Query().Get]: the value of the first pair with the name; a pair that holds a
  semicolon or does not unescape is dropped. *)
Fixpoint first_value (name : string) (pairs : list string) : string :=
  match pairs with
  | [] => ""
  | field :: rest =>
      if String.eqb field "" || Contains field ";" then first_value name rest
      else
        let '(k, v, _) := Cut field "="%char in
        match unescape encodeQuery k, unescape encodeQuery v with
        | Some k, Some v => if String.eqb k name then v else first_value name rest
        | _, _ => first_value name rest
        end
  end.
Definition query_value (raw name : string) : string := first_value name (Split raw "&"%char).

(** ** Escaping a path, and references *)
Definition upper_hex (d : Z) : ascii := if d <? 10 then ascii_of_byte (48 + d) else ascii_of_byte (55 + d).
Fixpoint escape_except (p : ascii → bool) (s : string) : string :=
  match s with
  | EmptyString => ""
  | String c r =>
      (if p c then String c "" else let b := byte_of_ascii c in String "%" (String (upper_hex (b / 16)) (String (upper_hex (b mod 16)) "")))
        +:+ escape_except p r
  end.
(** [escape] of a path. *)
Definition escapePath : string → string := escape_except (fun c => unreserved c || one_of "$&+,/:;=@" c).
Definition valid_encoded (c : ascii) : bool := unreserved c || one_of "!$&'()*+,;=:@[]%/" c.
(** The path of an address in its escaped form: as it is written, where that is a
  form that escaping could have given. *)
Definition EscapedPath (written : string) : string :=
  if all_chars valid_encoded written then written else escapePath (default written (unescape encodePath written)).
(** A reference as it is written, without its fragment; [r_opaque] is what follows
  a scheme without a slash. *)
Record Reference := MkReference {
  r_scheme : string; r_opaque : option string; r_authority : string; r_path : string; r_query : option string }.
Definition reference (s : string) : option Reference :=
  let '(s, _, _) := Cut s "#"%char in
  '(scheme, rest) ← getScheme s;
  let scheme := float.lower_string scheme in
  let '(rest, query, found) := Cut rest "?"%char in
  let query := if found then Some query else None in
  if negb (HasPrefix rest "/") && negb (String.eqb scheme "") then Some (MkReference scheme (Some rest) "" "" query)
  else match CutPrefix rest "//" with
       | Some after =>
           if negb (String.eqb scheme "") || negb (HasPrefix after "/")
           then let '(authority, path, found) := Cut after "/"%char in
                Some (MkReference scheme None authority (if found then "/" +:+ path else "") query)
           else Some (MkReference scheme None "" rest query)
       | None => Some (MkReference scheme None "" rest query)
       end.
Definition written (r : Reference) : string :=
  (if String.eqb (r_scheme r) "" then "" else r_scheme r +:+ ":") +:+
  match r_opaque r with
  | Some o => o
  | None => (if String.eqb (r_authority r) "" then "" else "//" +:+ r_authority r) +:+ r_path r
  end +:+ match r_query r with Some q => "?" +:+ q | None => "" end.

(** [resolvePath]: what is left of a path without its dots; [dst] is what has been
  written after the slash at the front, and [first] that nothing has been. *)
Fixpoint drop_dots (elems : list string) (first : bool) (dst : string) : string :=
  match elems with
  | [] => dst
  | elem :: elems =>
      if String.eqb elem "." then drop_dots elems false dst
      else if String.eqb elem ".." then
        match cut_last dst "/"%char with
        | Some (before, _) => drop_dots elems false before
        | None => drop_dots elems true ""
        end
      else drop_dots elems false (dst +:+ (if first then "" else "/") +:+ elem)
  end.
Definition resolvePath (base ref : string) : string :=
  let full := match ref with
    | EmptyString => base
    | String "/" _ => ref
    | _ => match cut_last base "/"%char with Some (before, _) => before +:+ "/" +:+ ref | None => ref end
    end in
  if String.eqb full "" then ""
  else
    let elems := Split full "/"%char in
    let r := "/" +:+ drop_dots elems true "" +:+
      (if bool_decide (List.last elems "" ∈ ["."; ".."]) then "/" else "") in
    if HasPrefix r "//" then TrimPrefix r "/" else r.
Section resolve.
Context `{IPLiterals}.
(** [URL.Parse] of a reference at an address that has a host, as the text of the
  address it comes to; a fragment is dropped. *)
Definition resolve (at_ ref : string) : option string :=
  _ ← Parse ref;
  u ← reference at_; r ← reference ref;
  let scheme := if String.eqb (r_scheme r) "" then r_scheme u else r_scheme r in
  Some (written
    (match r_opaque r with
     | Some o => MkReference scheme (Some o) "" "" (r_query r)
     | None =>
         if negb (String.eqb (r_scheme r) "") || negb (String.eqb (r_authority r) "")
         then MkReference scheme None (r_authority r) (resolvePath (EscapedPath (r_path r)) "") (r_query r)
         else MkReference scheme None (r_authority u) (resolvePath (EscapedPath (r_path u)) (EscapedPath (r_path r)))
                (if String.eqb (r_path r) "" && bool_decide (r_query r = None) then r_query u else r_query r)
     end)).
(** The host without its port, and without the brackets of an IPv6 address. *)
Definition Hostname (host : string) : string :=
  let name := match cut_last host ":"%char with
              | Some (name, port) => if all_chars is_digit port then name else host
              | None => host
              end in
  match CutPrefix name "[" with
  | Some inner => match CutSuffix inner "]" with Some inner => inner | None => name end
  | None => name
  end.
End resolve.

(** ** What follows a slash does not change where a request goes *)
Lemma Cut_found s c b a t : Cut s c = (b, a, true) → Cut (s +:+ t) c = (b, a +:+ t, true).
Proof.
  revert b. induction s as [|x s IH]; intros b; [done|]. rewrite str_app_cons. cbn [Cut]. destruct (Ascii.eqb x c); [by intros [= <- <-]|].
  destruct (Cut s c) as [[b' a'] f]. intros [= <- <- ->]. by rewrite (IH b').
Qed.
Lemma Cut_missing s c b a t : Cut s c = (b, a, false) →
  b = s ∧ a = "" ∧ Cut (s +:+ t) c = (s +:+ fst (fst (Cut t c)), snd (fst (Cut t c)), snd (Cut t c)).
Proof.
  revert b. induction s as [|x s IH]; intros b.
  { intros [= <- <-]. rewrite !str_app_nil_l. by destruct (Cut t c) as [[? ?] ?]. }
  rewrite str_app_cons. cbn [Cut]. destruct (Ascii.eqb x c) eqn:Ex; [done|].
  destruct (Cut s c) as [[b' a'] f]. intros [= <- <- ->]. destruct (IH b' eq_refl) as (->&->&->). by rewrite str_app_cons.
Qed.
Lemma scheme_from_app first s scheme rest t :
  scheme_from first s = Some (Some (scheme, rest)) → scheme_from first (s +:+ t) = Some (Some (scheme, rest +:+ t)).
Proof.
  revert first scheme. induction s as [|c s IH]; intros first scheme; [done|]. rewrite str_app_cons. cbn [scheme_from].
  destruct (is_letter c || _).
  - destruct (scheme_from false s) as [[[sch r]|]|] eqn:E; cbn; [|done|done]. intros [= <- <-]. by rewrite (IH false sch).
  - destruct (Ascii.eqb c ":"); [|done]. destruct first; [done|]. by intros [= <- <-].
Qed.
Section home.
Context `{IPLiterals}.
(** The host in what follows the scheme of a text without a fragment. *)
Definition authority_of (rest : string) : option string :=
  after ← CutPrefix (fst (fst (Cut rest "?"%char))) "//";
  parseAuthority (fst (fst (Cut after "/"%char))).
Lemma lower_string_empty s : float.lower_string s = "" → s = "".
Proof. by destruct s. Qed.
Lemma parse_place s u : parse s = Some u → Host u ≠ "" → Scheme u ≠ "" →
  ∃ scheme rest, scheme_from true s = Some (Some (scheme, rest)) ∧ Scheme u = float.lower_string scheme ∧ authority_of rest = Some (Host u).
Proof.
  unfold parse. destruct (negb _); [done|]. destruct (String.eqb s "*"); [by intros [= <-]|].
  unfold getScheme. destruct (scheme_from true s) as [[[scheme rest]|]|]; cbn [mbind option_bind]; [| |done].
  - intros Hu Hh Hs. exists scheme, rest. split; [done|]. revert Hu Hh Hs. unfold authority_of.
    destruct (Cut rest "?"%char) as [[r q] f]. cbn [fst]. destruct (negb (HasPrefix r "/") && _); [by intros [= <-]|].
    destruct (negb (HasPrefix r "/") && _); [done|]. destruct (CutPrefix r "//") as [after|]; cbn [mbind option_bind].
    + destruct (negb _ || negb _).
      * destruct (Cut after "/"%char) as [[a p] f']. cbn [fst]. destruct (parseAuthority a); cbn; [|done].
        destruct (unescape _ _); [|done]. by intros [= <-].
      * cbn. destruct (unescape _ _); [|done]. by intros [= <-].
    + destruct (unescape _ _); [|done]. by intros [= <-].
  - destruct (Cut s "?"%char) as [[r q] f]. destruct (negb _ && _); [by intros [= <-]|]. destruct (negb _ && _); [done|].
    unfold mbind, option_bind. repeat case_match; by intros [= <-].
Qed.
Definition same_place (u v : URL) : Prop := Scheme u = Scheme v ∧ Host u = Host v.
(** Conversely, scheme and host of a text decide those of its URL. *)
Lemma parse_at s v scheme rest host : parse s = Some v → scheme_from true s = Some (Some (scheme, rest)) → scheme ≠ "" →
  authority_of rest = Some host → s ≠ "*" → HasPrefix (fst (fst (Cut rest "?"%char))) "/" = true → Scheme v = float.lower_string scheme ∧ Host v = host.
Proof.
  unfold parse. destruct (negb _); [done|]. intros Hv Es Hscheme Ha Hs Hp. revert Hv. apply String.eqb_neq in Hs. rewrite Hs.
  unfold getScheme. rewrite Es. cbn [mbind option_bind]. unfold authority_of in Ha. revert Ha Hp.
  destruct (Cut rest "?"%char) as [[r q] f]. cbn [fst]. intros Ha ->. cbn [negb andb].
  destruct (CutPrefix r "//") as [after|]; [|done]. cbn [mbind option_bind] in Ha |- *.
  destruct (String.eqb_spec (float.lower_string scheme) "") as [E|_]; [by apply lower_string_empty in E|]. cbn [negb orb].
  destruct (Cut after "/"%char) as [[a p] f']. cbn [fst] in Ha. rewrite Ha. cbn. destruct (unescape _ _); [|done]. by intros [= <-].
Qed.
Lemma authority_extend rest t host : authority_of rest = Some host →
  authority_of (rest +:+ "/" +:+ t) = Some host ∧ HasPrefix (fst (fst (Cut (rest +:+ "/" +:+ t) "?"%char))) "/" = true.
Proof.
  unfold authority_of. destruct (Cut rest "?"%char) as [[b a] f] eqn:E. cbn [fst]. destruct f.
  - rewrite (Cut_found _ _ _ _ _ E). cbn [fst]. intros Ha. split; [done|]. destruct (CutPrefix b "//") as [after|] eqn:Ep; [|done].
    apply CutPrefix_Some in Ep as ->. apply HasPrefix_spec. by exists ("/" +:+ after).
  - destruct (Cut_missing _ _ _ _ ("/" +:+ t) E) as (->&_&->). cbn [fst].
    destruct (Cut t "?"%char) as [[y z] g] eqn:Et. cbn [Cut]. change (Cut ("/" +:+ t) "?"%char) with
      (let '(before, after, found) := Cut t "?"%char in (String "/" before, after, found)). rewrite Et. cbn [fst].
    destruct (CutPrefix rest "//") as [after|] eqn:Ep; [|done]. apply CutPrefix_Some in Ep as ->. cbn [mbind option_bind]. intros Ha.
    assert (CutPrefix (("//" +:+ after) +:+ String "/" y) "//" = Some (after +:+ String "/" y)) as -> by (by apply CutPrefix_Some; rewrite str_app_assoc).
    cbn [mbind option_bind]. split; [|by apply HasPrefix_spec; exists ("/" +:+ after +:+ String "/" y)].
    destruct (Cut after "/"%char) as [[c d] h] eqn:Ec. destruct h.
    + by rewrite (Cut_found _ _ _ _ _ Ec).
    + destruct (Cut_missing _ _ _ _ (String "/" y) Ec) as (->&_&->). cbn [Cut fst]. change (fst (fst (Cut (String "/" y) "/"%char))) with "".
      by rewrite str_app_nil_r.
Qed.
Lemma parse_joined s t u v scheme rest : scheme_from true s = Some (Some (scheme, rest)) → Scheme u = float.lower_string scheme →
  Scheme u ≠ "" → authority_of rest = Some (Host u) → parse (s +:+ "/" +:+ t) = Some v → same_place v u.
Proof.
  intros Es Escheme Hscheme Ha Hv. destruct (authority_extend _ t _ Ha) as [Ha' Hp]. unfold same_place. rewrite Escheme.
  apply (parse_at _ _ _ _ _ Hv (scheme_from_app _ _ _ _ _ Es)); [intros ->; by apply Hscheme|done| |done].
  by destruct s as [|c [|? ?]].
Qed.
Lemma parse_extend s t u v : Host u ≠ "" → Scheme u ≠ "" → parse s = Some u → parse (s +:+ "/" +:+ t) = Some v → same_place v u.
Proof. intros Hhost Hscheme Hu Hv. destruct (parse_place _ _ Hu Hhost Hscheme) as (scheme&rest&Es&Escheme&Ha). by eapply parse_joined. Qed.
Lemma scheme_from_trim first s scheme r : scheme_from first (s +:+ "/") = Some (Some (scheme, r)) →
  ∃ r', r = r' +:+ "/" ∧ scheme_from first s = Some (Some (scheme, r')).
Proof.
  revert first scheme. induction s as [|c s IH]; intros first scheme; [by destruct first|]. rewrite str_app_cons. cbn [scheme_from].
  destruct (is_letter c || _).
  - destruct (scheme_from false (s +:+ "/")) as [[[sch r0]|]|] eqn:E; cbn; [|done|done]. intros [= <- ->].
    destruct (IH false sch E) as (r'&->&->). by exists r'.
  - destruct (Ascii.eqb c ":"); [|done]. destruct first; [done|]. intros [= <- <-]. by exists s.
Qed.
Lemma authority_trim rest host : authority_of (rest +:+ "/") = Some host → host ≠ "" → authority_of rest = Some host.
Proof.
  unfold authority_of. destruct (Cut rest "?"%char) as [[b a] f] eqn:E. destruct f; [by rewrite (Cut_found _ _ _ _ _ E)|].
  destruct (Cut_missing _ _ _ _ "/" E) as (->&_&->). cbn [fst]. change (fst (fst (Cut "/" "?"%char))) with "/".
  destruct rest as [|c [|d r]]; [done| |].
  { rewrite str_app_cons, str_app_nil_l. cbn [CutPrefix]. destruct (Ascii.eqb "/" c); cbn [mbind option_bind]; [|done]. cbn. by intros [= <-]. }
  rewrite !str_app_cons. cbn [CutPrefix]. destruct (Ascii.eqb "/" c), (Ascii.eqb "/" d); cbn [mbind option_bind]; try done.
  destruct (Cut r "/"%char) as [[x y] f] eqn:Ec. destruct f; [by rewrite (Cut_found _ _ _ _ _ Ec)|].
  destruct (Cut_missing _ _ _ _ "/" Ec) as (->&_&->). cbn [fst]. change (fst (fst (Cut "/" "/"%char))) with "". by rewrite str_app_nil_r.
Qed.
Lemma parse_trim s t u v : Host u ≠ "" → Scheme u ≠ "" → parse (s +:+ "/") = Some u → parse (s +:+ "/" +:+ t) = Some v → same_place v u.
Proof.
  intros Hhost Hscheme Hu Hv. destruct (parse_place _ _ Hu Hhost Hscheme) as (scheme&rest&Es&Escheme&Ha).
  destruct (scheme_from_trim _ _ _ _ Es) as (r&->&Es'). apply authority_trim in Ha; [|done]. by eapply parse_joined.
Qed.
(** What follows a slash after a text that names a host stays at that host. *)
Lemma Parse_from s x t u v : (∀ y u v, Host u ≠ "" → Scheme u ≠ "" → parse (s +:+ x) = Some u → parse (s +:+ "/" +:+ y) = Some v → same_place v u) →
  x = "" ∨ x = "/" → Host u ≠ "" → Scheme u ≠ "" → Parse (s +:+ x) = Some u → Parse (s +:+ "/" +:+ t) = Some v → same_place v u.
Proof.
  intros Hparse Hx Hh Hs. unfold Parse. destruct (Cut s "#"%char) as [[b a] f] eqn:E. destruct f.
  - rewrite !(Cut_found _ _ _ _ _ E). destruct (parse b) as [u'|]; [|done]. cbn. destruct (unescape _ (a +:+ x)); [|done].
    destruct (unescape _ (a +:+ _)); [|done]. by intros [= ->] [= ->].
  - destruct (Cut_missing _ _ _ _ x E) as (->&_&->), (Cut_missing _ _ _ _ ("/" +:+ t) E) as (_&_&->).
    assert (fst (fst (Cut x "#"%char)) = x) as -> by (by destruct Hx as [->| ->]).
    change (Cut ("/" +:+ t) "#"%char) with (let '(before, after, found) := Cut t "#"%char in (String "/" before, after, found)).
    destruct (Cut t "#"%char) as [[y z] g]. cbn [fst snd]. change (String "/" y) with ("/" +:+ y).
    destruct (parse (s +:+ x)) as [u'|] eqn:Eu; [|done]. cbn [mbind option_bind]. destruct (unescape _ _); [|done]. cbn. intros [= ->].
    destruct (parse (s +:+ "/" +:+ y)) as [v'|] eqn:Ev; [|done]. cbn. destruct (unescape _ z); [|done]. intros [= ->].
    by eapply Hparse.
Qed.
Lemma Parse_extend s t u v : Host u ≠ "" → Scheme u ≠ "" → Parse s = Some u → Parse (s +:+ "/" +:+ t) = Some v → same_place v u.
Proof.
  intros Hh Hs Hu. apply (Parse_from s ""); [|by left|done|done|by rewrite str_app_nil_r]. intros y u' v'. rewrite str_app_nil_r. apply parse_extend.
Qed.
Lemma Parse_trim s t u v : Host u ≠ "" → Scheme u ≠ "" → Parse (s +:+ "/") = Some u → Parse (s +:+ "/" +:+ t) = Some v → same_place v u.
Proof. apply (Parse_from s "/"); [|by right]. intros y u' v'. apply parse_trim. Qed.
End home.

(** ** Plain targets *)
Lemma all_chars_app p s t : all_chars p (s +:+ t) = all_chars p s && all_chars p t.
Proof. induction s as [|c s IH]; [done|]. rewrite str_app_cons. cbn. by rewrite IH, andb_assoc. Qed.
Lemma all_chars_mono (p q : ascii → bool) s : (∀ c, p c = true → q c = true) → all_chars p s = true → all_chars q s = true.
Proof. intros Hpq. induction s as [|c s IH]; [done|]. cbn. intros [Hc Hs]%andb_true_iff. by rewrite (Hpq c Hc), IH. Qed.
Lemma Cut_none s c : all_chars (fun a => negb (Ascii.eqb a c)) s = true → Cut s c = (s, "", false).
Proof.
  induction s as [|a s IH]; [done|]. cbn [all_chars Cut]. intros [Ha Hs]%andb_true_iff. apply negb_true_iff in Ha. by rewrite Ha, IH.
Qed.
Lemma Cut_first s c t : all_chars (fun a => negb (Ascii.eqb a c)) s = true → Cut (s +:+ String c t) c = (s, t, true).
Proof.
  intros Hs. destruct (Cut_missing _ _ _ _ (String c t) (Cut_none s c Hs)) as (_&_&->). cbn [Cut]. by rewrite Ascii.eqb_refl, str_app_nil_r.
Qed.
(** Characters of a path or of a query that stand for themselves and end
  nothing. *)
Definition plain_char (c : ascii) : bool := unreserved c || one_of "/=" c.
Definition plain (s : string) : bool := all_chars plain_char s.
Lemma plain_char_not c d : plain_char d = false → plain_char c = true → negb (Ascii.eqb c d) = true.
Proof. intros Hd Hc. apply negb_true_iff, Ascii.eqb_neq. intros ->. congruence. Qed.
Lemma plain_no s d : plain_char d = false → plain s = true → all_chars (fun a => negb (Ascii.eqb a d)) s = true.
Proof. intros Hd. apply all_chars_mono. intros c. by apply plain_char_not. Qed.
(** What holds of the 256 bytes holds of every character. *)
Lemma every_char (p : ascii → bool) : check_from (fun b => p (ascii_of_byte b)) 256 0 = true → ∀ c, p c = true.
Proof.
  intros Hall c. rewrite <- (ascii_of_byte_of_ascii c). pose proof (byte_of_ascii_ok c) as [? ?].
  apply (check_from_spec (fun b => p (ascii_of_byte b)) 256 0 Hall). lia.
Qed.
Lemma plain_not_control c : plain_char c = true → negb (control c) = true.
Proof. apply implb_true_iff. revert c. by apply every_char. Qed.
Lemma unescape_plain m s : is_host m = false → m ≠ encodeQuery → plain s = true → unescape m s = Some s.
Proof.
  intros Hh Hq. induction s as [|c s IH]; [done|]. unfold plain. cbn [all_chars unescape]. intros [Hc Hs]%andb_true_iff.
  pose proof (plain_char_not c "%" eq_refl Hc) as Hp. apply negb_true_iff in Hp. rewrite Hp, Hh. cbn [andb]. rewrite IH by done. by destruct m.
Qed.
Lemma unescape_query_plain s : plain s = true → unescape encodeQuery s = Some s.
Proof.
  induction s as [|c s IH]; [done|]. unfold plain. cbn [all_chars unescape]. intros [Hc Hs]%andb_true_iff.
  pose proof (plain_char_not c "%" eq_refl Hc) as Hp. apply negb_true_iff in Hp. rewrite Hp. cbn [is_host andb]. rewrite IH by done.
  pose proof (plain_char_not c "+" eq_refl Hc) as Hplus. apply negb_true_iff in Hplus. by rewrite Hplus.
Qed.
Section origin.
Context `{IPLiterals}.
(** What may stand in the text of a host for it to end where the text ends. *)
Definition authority_char (c : ascii) : bool := negb (control c) && negb (one_of "/?#%" c).
Lemma authority_chars p s : (∀ c, implb (authority_char c) (p c) = true) → all_chars authority_char s = true → all_chars p s = true.
Proof. intros Hp. apply all_chars_mono. intros c. apply implb_true_iff, Hp. Qed.
(** A text that names a scheme and a host and nothing more. *)
Record origin (base scheme host : string) : Prop := {
  or_scheme : scheme = "https" ∨ scheme = "http";
  or_base : ∃ authority, base = scheme +:+ "://" +:+ authority ∧ parseAuthority authority = Some host ∧
    all_chars authority_char authority = true }.
Lemma Parse_plain base scheme host path query : origin base scheme host → plain path = true → plain query = true →
  Parse (base +:+ "/" +:+ path +:+ (if String.eqb query "" then "" else "?" +:+ query)) = Some (MkURL scheme host ("/" +:+ path) query).
Proof.
  intros [Hs (authority&->&Ha&Hall)] Hp Hq. set (tail := if String.eqb query "" then "" else "?" +:+ query).
  assert (∀ d, plain_char d = false → Ascii.eqb "?" d = false → all_chars (fun a => negb (Ascii.eqb a d)) tail = true) as Htail.
  { intros d Hd Hne. unfold tail. destruct (String.eqb query ""); [done|]. rewrite str_app_cons, str_app_nil_l. cbn [all_chars]. rewrite Hne.
    by apply plain_no. }
  assert (∀ d, negb (Ascii.eqb d "/") = true → plain_char d = false → Ascii.eqb "?" d = false →
     all_chars (fun a => negb (Ascii.eqb a d)) authority = true →
     all_chars (fun a => negb (Ascii.eqb a d)) (scheme +:+ "://") = true →
     all_chars (fun a => negb (Ascii.eqb a d)) ((scheme +:+ "://" +:+ authority) +:+ "/" +:+ path +:+ tail) = true) as Hnone.
  { intros d Hd Hpl Hne Hau Hsch. rewrite !str_app_assoc, !all_chars_app. rewrite all_chars_app in Hsch. rewrite Hsch. cbn [andb].
    rewrite Hau. cbn [all_chars andb]. rewrite Ascii.eqb_sym, Hd. cbn [andb].
    by rewrite (plain_no path d Hpl Hp), Htail. }
  unfold Parse. rewrite Cut_none.
  2: { apply Hnone; [reflexivity..| |by destruct Hs as [->| ->]]. revert Hall. by apply authority_chars, every_char. }
  cbn [unescape]. unfold parse.
  assert (all_chars (fun c => negb (control c)) ((scheme +:+ "://" +:+ authority) +:+ "/" +:+ path +:+ tail) = true) as ->.
  { rewrite !str_app_assoc, !all_chars_app.
    rewrite (authority_chars (fun c => negb (control c)) authority) by (exact Hall || by apply every_char).
    rewrite (all_chars_mono plain_char _ path plain_not_control Hp).
    assert (all_chars (fun c => negb (control c)) tail = true) as ->.
    { unfold tail. destruct (String.eqb query ""); [done|]. rewrite str_app_cons, str_app_nil_l. cbn [all_chars].
      by rewrite (all_chars_mono plain_char _ query plain_not_control Hq). }
    by destruct Hs as [->| ->]. }
  cbn [negb]. destruct (String.eqb_spec ((scheme +:+ "://" +:+ authority) +:+ "/" +:+ path +:+ tail) "*") as [E|_]; [by destruct Hs as [->| ->]|].
  assert (scheme_from true ((scheme +:+ "://" +:+ authority) +:+ "/" +:+ path +:+ tail) = Some (Some (scheme, "//" +:+ authority +:+ "/" +:+ path +:+ tail))) as Esch.
  { rewrite <- !str_app_assoc. by destruct Hs as [->| ->]. }
  unfold getScheme. rewrite Esch. cbn [mbind option_bind].
  assert (Cut ("//" +:+ authority +:+ "/" +:+ path +:+ tail) "?"%char = ("//" +:+ authority +:+ "/" +:+ path, query, negb (String.eqb query ""))) as ->.
  { assert (all_chars (fun a => negb (Ascii.eqb a "?")) ("//" +:+ authority +:+ "/" +:+ path) = true) as Hno.
    { rewrite !all_chars_app, (plain_no path "?" eq_refl Hp).
      by rewrite (authority_chars (fun a => negb (Ascii.eqb a "?")) authority) by (exact Hall || by apply every_char). }
    unfold tail. destruct (String.eqb_spec query "") as [->|Hne]; cbn [negb].
    - rewrite str_app_nil_r. by apply Cut_none.
    - rewrite !(str_app_assoc "/"), !(str_app_assoc authority), !(str_app_assoc "//"). apply (Cut_first _ "?"%char query). by rewrite !str_app_assoc in Hno. }
  assert (float.lower_string scheme = scheme) as -> by (by destruct Hs as [->| ->]).
  assert (String.eqb scheme "" = false) as -> by (by destruct Hs as [->| ->]).
  change (HasPrefix ("//" +:+ authority +:+ "/" +:+ path) "/") with true. cbn [negb andb].
  change (CutPrefix ("//" +:+ authority +:+ "/" +:+ path) "//") with (Some (authority +:+ "/" +:+ path)). cbn [orb].
  change ("/" +:+ path) with (String "/" path). rewrite Cut_first.
  2: { revert Hall. by apply authority_chars, every_char. }
  rewrite Ha. cbn [mbind option_bind]. change ("/" +:+ path) with (String "/" path). by rewrite (unescape_plain encodePath (String "/" path)).
Qed.
End origin.
(** A query of one pair. *)
Lemma Split_single s c : all_chars (fun a => negb (Ascii.eqb a c)) s = true → Split s c = [s].
Proof.
  induction s as [|a s IH]; [done|]. cbn [all_chars Split]. intros [Ha Hs]%andb_true_iff. apply negb_true_iff in Ha. by rewrite Ha, IH.
Qed.
Lemma Contains_char s c : all_chars (fun a => negb (Ascii.eqb a c)) s = true → Contains s (String c "") = false.
Proof.
  induction s as [|a s IH]; [done|]. cbn [all_chars Contains]. intros [Ha Hs]%andb_true_iff. rewrite IH by done.
  unfold HasPrefix. cbn [String.prefix]. destruct (ascii_dec c a) as [->|]; [|done]. by rewrite Ascii.eqb_refl in Ha.
Qed.
Lemma query_value_plain name v : name ≠ "" → all_chars unreserved name = true → all_chars unreserved v = true →
  query_value (name +:+ "=" +:+ v) name = v.
Proof.
  intros Hne Hn Hv.
  assert (∀ s, all_chars unreserved s = true → plain s = true) as Hplain.
  { intros s. apply all_chars_mono. intros c Hc. unfold plain_char. by rewrite Hc. }
  assert (plain (name +:+ "=" +:+ v) = true) as Hall by (unfold plain; rewrite !all_chars_app; fold (plain name) (plain v); by rewrite (Hplain name Hn), (Hplain v Hv)).
  unfold query_value. rewrite Split_single by (by apply plain_no). cbn [first_value].
  destruct (String.eqb_spec (name +:+ "=" +:+ v) "") as [E|_]; [by destruct name|]. rewrite (Contains_char _ ";") by (by apply plain_no). cbn [orb].
  change ("=" +:+ v) with (String "=" v). rewrite Cut_first.
  2: { revert Hn. apply all_chars_mono. intros c. apply implb_true_iff. revert c. by apply every_char. }
  rewrite !unescape_query_plain by auto. by rewrite String.eqb_refl.
Qed.

Section examples.
Local Instance no_literals : IPLiterals := fun s => String.eqb s "::1".
Lemma parse_examples :
  Parse "https://127.0.0.1:8200/" = Some (MkURL "https" "127.0.0.1:8200" "/" "") ∧
  Parse "HTTPS://secrets.internal/v1/a%20b?version=3#x" = Some (MkURL "https" "secrets.internal" "/v1/a b" "version=3") ∧
  Parse "127.0.0.1:8200" = None ∧ Parse "https://" = Some (MkURL "https" "" "" "") ∧ Parse "nonsense" = Some (MkURL "" "" "nonsense" "") ∧
  Parse "https://[::1]:8200" = Some (MkURL "https" "[::1]:8200" "" "") ∧ Parse "https://a b/" = None ∧ Parse "https://h:80:80" = None ∧
  Parse "mailto:x@y" = Some (MkURL "mailto" "" "" "") ∧ query_value "a=1&version=%33&version=4" "version" = "3".
Proof. by vm_compute. Qed.
Lemma resolve_examples :
  resolve "https://h:80/v1/a//b?x=1" "/v1/a/b" = Some "https://h:80/v1/a/b" ∧ resolve "https://u@h/a/b/c?x=1" "../d" = Some "https://u@h/a/d" ∧
  resolve "https://h/a/b" "?y" = Some "https://h/a/b?y" ∧ resolve "https://h/a/b?x" "#f" = Some "https://h/a/b?x" ∧
  resolve "https://h/a/b" "//evil.example/c d" = Some "https://evil.example/c%20d" ∧ resolve "https://h/a" "HTTP://h/a/./b/.." = Some "http://h/a/" ∧
  resolve "https://h/a" "http:b" = Some "http:b" ∧ resolve "https://h/a" ":" = None ∧ resolve "https://h" "b" = Some "https://h/b" ∧
  Hostname "h:80" = "h" ∧ Hostname "[::1]:80" = "::1" ∧ Hostname "h:" = "h" ∧ EscapedPath "/a b%2Fc" = "/a%20b/c" ∧ EscapedPath "/a%2Fc" = "/a%2Fc".
Proof. by vm_compute. Qed.
End examples.
End url.
