(* ===== verification/Metrics.v ===== *)
(** platform/metrics: a registry of counters and gauges and the text it exposes.
  What a counter points to, the map of its values, lives in a state [S]: a
  counter knows how to read and to write it there.  Registration panics where
  the code does, as an error.  Mutexes are left out: every operation is one step. *)
From Stdlib Require Import ZArith Lia Ascii SpecFloat.
From S2P Require Import Prelude GoStrings GoTime Json World Interfaces GoNumbers GoUrl.

Module metrics.
Definition letter (c : ascii) : bool := url.is_letter c || Ascii.eqb c "_".
Definition word (c : ascii) : bool := letter c || url.is_digit c.
Definition valid_name (s : string) : bool := match s with String c r => letter c && url.all_chars word r | EmptyString => false end.
Definition validMetricName : string → bool := valid_name.
Definition validLabelName : string → bool := valid_name.
Definition newline : ascii := ascii_of_byte 10.
Definition separator : ascii := ascii_of_byte 31.
Definition invalid_metric : string := "metrics: invalid metric name".
Definition invalid_label : string := "metrics: invalid label name".
Definition taken : string := "metrics: metric already registered".

Record sample := MkSample { labels : list string; value : spec_float }.
Definition joinLabels (values : list string) : string := Join values (String separator "").
Definition collect (values : gmap string spec_float) : list sample :=
  order_by (joinLabels ∘ labels)
    ((fun '(key, v) => MkSample (if String.eqb key "" then [] else Split key separator) v) <$> map_to_list values).

Definition escape_char (c : ascii) : string :=
  if Ascii.eqb c backslash then String backslash (String backslash "")
  else if Ascii.eqb c dquote then String backslash (String dquote "")
  else if Ascii.eqb c newline then String backslash "n"
  else String c "".
Fixpoint escape (s : string) : string := match s with String c r => escape_char c +:+ escape r | EmptyString => "" end.
(** A value that is missing is empty. *)
Fixpoint label_pairs (names values : list string) : list (string * string) :=
  match names with
  | [] => []
  | name :: names => (name, default "" (head values)) :: label_pairs names (tail values)
  end.
Definition pair_text (p : string * string) : string := fst p +:+ "=" +:+ String dquote (escape (snd p) +:+ String dquote "").
Definition formatLabels (names values : list string) : string :=
  match names, values with
  | [], _ | _, [] => ""
  | _, _ => "{" +:+ Join (List.map pair_text (label_pairs names values)) "," +:+ "}"
  end.

Section registry.
Context {S : Type}.
Record Cell := MkCell { labelValues : S → gmap string spec_float; set_labelValues : gmap string spec_float → S → S }.
Inductive collector :=
| Counter (metricName metricHelp : string) (labelNames : list string) (values : Cell)
| Gauge (metricName metricHelp : string) (labelNames : list string) (values : Cell)
| GaugeFunc (metricName metricHelp : string) (read : S → spec_float * S).
Definition name (m : collector) : string := match m with Counter n _ _ _ | Gauge n _ _ _ | GaugeFunc n _ _ => n end.
Definition help (m : collector) : string := match m with Counter _ h _ _ | Gauge _ h _ _ | GaugeFunc _ h _ => h end.
Definition kind (m : collector) : string := match m with Counter _ _ _ _ => "counter" | _ => "gauge" end.
Definition labelNamesOf (m : collector) : list string := match m with Counter _ _ l _ | Gauge _ _ l _ => l | GaugeFunc _ _ _ => [] end.
Definition samples (m : collector) (s : S) : list sample * S :=
  match m with
  | Counter _ _ _ c | Gauge _ _ _ c => (collect (labelValues c s), s)
  | GaugeFunc _ _ read => let '(v, s) := read s in ([MkSample [] v], s)
  end.

(** [Add] ignores a negative amount; a label that has no value starts at zero. *)
Definition Add (c : Cell) (delta : spec_float) (values : list string) (s : S) : S :=
  if SFltb delta (S754_zero false) then s
  else
    let key := joinLabels values in
    set_labelValues c (<[key := SFadd 53 1024 (default (S754_zero false) (labelValues c s !! key)) delta]> (labelValues c s)) s.
Definition Inc (c : Cell) (values : list string) : S → S := Add c (float64 1) values.
Definition Set_ (c : Cell) (v : spec_float) (values : list string) (s : S) : S :=
  set_labelValues c (<[joinLabels values := v]> (labelValues c s)) s.

Record Registry := MkRegistry { order : list string; metrics : gmap string collector }.
Definition New : Registry := MkRegistry [] ∅.
Definition register (m : collector) (r : Registry) : result Registry :=
  if negb (validMetricName (name m)) then Err [invalid_metric]
  else if negb (forallb validLabelName (labelNamesOf m)) then Err [invalid_label]
  else match metrics r !! name m with
       | Some _ => Err [taken]
       | None => Ok (MkRegistry (order r ++ [name m]) (<[name m := m]> (metrics r)))
       end.
Fixpoint register_all (l : list collector) (r : Registry) : result Registry :=
  match l with
  | [] => Ok r
  | m :: l => let? r := register m r in register_all l r
  end.

Definition sample_text (m : collector) (one : sample) : string :=
  name m +:+ formatLabels (labelNamesOf m) (labels one) +:+ " " +:+ float.FormatFloat (value one) +:+ String newline "".
Definition metric_text (m : collector) (l : list sample) : string :=
  "# HELP " +:+ name m +:+ " " +:+ help m +:+ String newline "" +:+
  "# TYPE " +:+ name m +:+ " " +:+ kind m +:+ String newline "" +:+ concat_str (sample_text m <$> l).
(** The samples of one metric after the other: reading one may change the state. *)
Fixpoint gather (l : list collector) (s : S) : list (collector * list sample) * S :=
  match l with
  | [] => ([], s)
  | m :: l => let '(one, s) := samples m s in let '(rest, s) := gather l s in ((m, one) :: rest, s)
  end.
Definition collectors (r : Registry) : list collector := order_by name (omap (fun n => metrics r !! n) (order r)).
Definition Expose (r : Registry) (s : S) : string * S :=
  let '(gathered, s) := gather (collectors r) s in (concat_str ((fun p => metric_text (fst p) (snd p)) <$> gathered), s).
End registry.
Arguments Cell : clear implicits.
Arguments collector : clear implicits.
Arguments Registry : clear implicits.

(** ** Reading the text back *)
Fixpoint read_value (s : string) : option (string * string) :=
  match s with
  | EmptyString => None
  | String c r =>
      if Ascii.eqb c dquote then Some ("", r)
      else if Ascii.eqb c newline then None
      else if Ascii.eqb c backslash then
        match r with
        | String e r =>
            let d := if Ascii.eqb e "n" then newline else e in
            '(v, rest) ← read_value r; Some (String d v, rest)
        | EmptyString => None
        end
      else '(v, rest) ← read_value r; Some (String c v, rest)
  end.
Fixpoint read_pairs (fuel : nat) (s : string) : option (list (string * string) * string) :=
  match fuel with
  | O => None
  | S fuel =>
      let '(n, r, found) := Cut s "="%char in
      if negb found then None else
      r ← CutPrefix r (String dquote "");
      '(v, r) ← read_value r;
      match r with
      | String c r =>
          if Ascii.eqb c "}" then Some ([(n, v)], r)
          else if Ascii.eqb c "," then '(l, rest) ← read_pairs fuel r; Some ((n, v) :: l, rest)
          else None
      | EmptyString => None
      end
  end.
Fixpoint take_word (s : string) : string * string :=
  match s with
  | String c r => if word c then let '(n, rest) := take_word r in (String c n, rest) else ("", s)
  | EmptyString => ("", "")
  end.
Record reading := MkReading { rd_name : string; rd_labels : list (string * string); rd_value : string }.
(** One line: nothing for a comment. *)
Definition read_line (s : string) : option (list reading * string) :=
  match s with
  | String "#" _ => let '(_, rest, found) := Cut s newline in if found then Some ([], rest) else None
  | _ =>
      let '(n, r) := take_word s in
      '(l, r) ← match r with String "{" r => read_pairs (String.length r) r | _ => Some ([], r) end;
      r ← CutPrefix r " ";
      let '(v, rest, found) := Cut r newline in
      if found then Some ([MkReading n l v], rest) else None
  end.
Fixpoint scrape (fuel : nat) (s : string) : option (list reading) :=
  match s, fuel with
  | EmptyString, _ => Some []
  | _, O => None
  | _, S fuel => '(l, rest) ← read_line s; more ← scrape fuel rest; Some (l ++ more)
  end.
(** ** What is exposed is read back *)
Lemma read_value_backslash e t : read_value (String backslash (String e t)) =
  '(v, rest) ← read_value t; Some (String (if Ascii.eqb e "n" then newline else e) v, rest).
Proof. done. Qed.
Lemma read_value_escape v rest : read_value (escape v +:+ String dquote rest) = Some (v, rest).
Proof.
  induction v as [|c v IH]; [done|]. cbn [escape]. unfold escape_char. rewrite <- str_app_assoc.
  destruct (Ascii.eqb_spec c backslash) as [->|Hb]; [by rewrite !str_app_cons, str_app_nil_l, read_value_backslash, IH|].
  destruct (Ascii.eqb_spec c dquote) as [->|Hd]; [by rewrite !str_app_cons, str_app_nil_l, read_value_backslash, IH|].
  destruct (Ascii.eqb_spec c newline) as [->|Hn]; [by rewrite !str_app_cons, str_app_nil_l, read_value_backslash, IH|].
  rewrite str_app_cons, str_app_nil_l. cbn [read_value].
  destruct (Ascii.eqb_spec c dquote), (Ascii.eqb_spec c newline), (Ascii.eqb_spec c backslash); try done. by rewrite IH.
Qed.
Lemma word_no_equals n : valid_name n = true → url.all_chars (fun a => negb (Ascii.eqb a "=")) n = true.
Proof.
  destruct n as [|c n]; [done|]. cbn [valid_name url.all_chars]. intros [Hc Hn]%andb_true_iff. apply andb_true_iff. split.
  - revert Hc. apply implb_true_iff. revert c. by apply url.every_char.
  - revert Hn. apply url.all_chars_mono. intros d. apply implb_true_iff. revert d. by apply url.every_char.
Qed.
Lemma pair_text_app n v t : pair_text (n, v) +:+ t = n +:+ String "=" (String dquote (escape v +:+ String dquote t)).
Proof. unfold pair_text. cbn [fst snd]. rewrite <- (str_app_assoc n). f_equal.
  change (String "=" (String dquote ((escape v +:+ String dquote "") +:+ t)) = String "=" (String dquote (escape v +:+ String dquote t))).
  by rewrite <- str_app_assoc.
Qed.
Lemma read_pairs_text l rest fuel : l ≠ [] → (length l <= fuel)%nat → Forall (fun p => valid_name (fst p) = true) l →
  read_pairs fuel (Join (List.map pair_text l) "," +:+ String "}" rest) = Some (l, rest).
Proof.
  revert fuel. induction l as [|[n v] l IH]; intros fuel Hne Hf Hl; [done|]. apply Forall_cons in Hl as [Hn Hl]. cbn [fst] in Hn.
  destruct fuel as [|fuel]; [cbn in Hf; lia|].
  assert (∀ t, read_pairs (S fuel) (pair_text (n, v) +:+ t) =
    match t with
    | String c r => if Ascii.eqb c "}" then Some ([(n, v)], r)
                    else if Ascii.eqb c "," then '(l, rest) ← read_pairs fuel r; Some ((n, v) :: l, rest) else None
    | EmptyString => None end) as Hpair.
  { intros t. rewrite pair_text_app. cbn [read_pairs]. rewrite (url.Cut_first n "="%char) by (by apply word_no_equals). cbn [negb CutPrefix].
    rewrite Ascii.eqb_refl. cbn [mbind option_bind]. by rewrite read_value_escape. }
  destruct l as [|q l].
  - cbn [List.map Join]. by rewrite Hpair.
  - cbn [List.map]. rewrite Join_more, <- !str_app_assoc, Hpair, str_app_cons, str_app_nil_l. cbn [Ascii.eqb].
    change (Ascii.eqb "," "}") with false. cbv iota. change (Ascii.eqb "," ",") with true. cbv iota.
    pose proof (IH fuel ltac:(done) ltac:(cbn in *; lia) Hl) as E. cbn [List.map] in E. by rewrite E.
Qed.

Definition not_newline (c : ascii) : bool := negb (Ascii.eqb c newline).
Lemma digits_one_line w x : url.all_chars not_newline (pad w x) = true.
Proof.
  induction w as [|w IH]; [done|]. cbn [pad url.all_chars]. rewrite IH, andb_true_r.
  pose proof (Z.mod_pos_bound (x / 10 ^ Z.of_nat w) 10 ltac:(lia)). unfold not_newline, digit.
  destruct (Ascii.eqb_spec (ascii_of_byte (48 + x / 10 ^ Z.of_nat w mod 10)) newline) as [E|]; [|done].
  apply (f_equal byte_of_ascii) in E. unfold newline in E. rewrite !byte_of_ascii_of_byte in E; unfold byte_ok; lia.
Qed.
Lemma Itoa_one_line x : url.all_chars not_newline (Itoa x) = true.
Proof. unfold Itoa. destruct (x <? 0); rewrite ?url.all_chars_app, digits_one_line; done. Qed.
Lemma substring_chars p s : ∀ n k, url.all_chars p s = true → url.all_chars p (String.substring n k s) = true.
Proof.
  induction s as [|c s IH]; intros [|n] [|k]; try done; cbn [url.all_chars String.substring]; intros [Hc Hs]%andb_true_iff;
    rewrite ?Hc, ?IH by done; auto.
Qed.
Lemma FormatFloat_one_line x : url.all_chars not_newline (float.FormatFloat x) = true.
Proof.
  destruct x as [[]|[]| |sg m e]; try done. unfold float.FormatFloat. destruct (float.ratio m e) as [num den].
  destruct (float.shortest _ num den) as [c0 k0]. destruct (float.trim_zeros 17 c0 k0) as [c k]. cbv zeta.
  pose proof (Itoa_one_line c) as Hc. set (digits := Itoa c) in *. clearbody digits. set (nd := len digits). set (ex := k + nd - 1).
  rewrite url.all_chars_app. apply andb_true_iff. split; [by destruct sg|]. destruct (_ || _).
  - unfold float.format_exponent. rewrite !url.all_chars_app, Itoa_one_line.
    assert (url.all_chars not_newline (match digits with EmptyString => "" | String d more => String d (if String.eqb more "" then "" else "." +:+ more) end) = true) as ->.
    { destruct digits as [|d more]; [done|]. cbn [url.all_chars] in *. apply andb_true_iff in Hc as [-> Hc]. by destruct (String.eqb more ""). }
    by destruct (ex <? 0), (Z.abs ex <? 10).
  - unfold float.format_point. cbv zeta. destruct (_ <=? 0); [by rewrite !url.all_chars_app, digits_one_line, Hc|].
    destruct (_ <=? _); [by rewrite url.all_chars_app, digits_one_line, Hc|]. by rewrite !url.all_chars_app, !substring_chars.
Qed.
Lemma take_word_stop n t : url.all_chars word n = true → match t with String c _ => word c = false | EmptyString => True end →
  take_word (n +:+ t) = (n, t).
Proof.
  intros Hn Ht. induction n as [|c n IH]; [destruct t as [|c t]; [done|]; rewrite str_app_nil_l; cbn [take_word]; by rewrite Ht|].
  cbn [url.all_chars] in Hn. apply andb_true_iff in Hn as [Hc Hn]. rewrite str_app_cons. cbn [take_word]. by rewrite Hc, IH.
Qed.
Lemma valid_name_word n : valid_name n = true → url.all_chars word n = true ∧ match n with String c _ => Ascii.eqb c "#" = false | EmptyString => False end.
Proof.
  destruct n as [|c n]; [done|]. cbn [valid_name url.all_chars]. intros [Hc Hn]%andb_true_iff. unfold word at 1. rewrite Hc, Hn. split; [done|].
  apply negb_true_iff. revert Hc. apply implb_true_iff. revert c. by apply url.every_char.
Qed.
Section exposition.
Context {S : Type}.
Definition reading_of (m : collector S) (one : sample) : reading :=
  MkReading (name m) (match labels one with [] => [] | _ => label_pairs (labelNamesOf m) (labels one) end) (float.FormatFloat (value one)).
Record well_formed_metric (m : collector S) : Prop := {
  wm_name : valid_name (name m) = true;
  wm_labels : Forall (fun l => valid_name l = true) (labelNamesOf m);
  wm_help : url.all_chars not_newline (help m) = true }.
Lemma label_pairs_fst names values : (label_pairs names values).*1 = names.
Proof. revert values. induction names as [|n names IH]; intros values; [done|]. cbn. by rewrite IH. Qed.
Lemma read_word_line n t : valid_name n = true → match t with String c _ => word c = false | EmptyString => True end →
  read_line (n +:+ t) =
  '(l, r) ← match t with String "{" r => read_pairs (String.length r) r | _ => Some ([], t) end;
  r ← CutPrefix r " ";
  let '(v, rest, found) := Cut r newline in
  if found then Some ([MkReading n l v], rest) else None.
Proof.
  intros [Hn Hh]%valid_name_word Ht. pose proof (take_word_stop n t Hn Ht) as E. destruct n as [|c n]; [done|].
  rewrite str_app_cons in *. unfold read_line. rewrite E. clear E Hn. destruct c as [[] [] [] [] [] [] [] []]; done.
Qed.
Lemma read_sample m one rest : well_formed_metric m → read_line (sample_text m one +:+ rest) = Some ([reading_of m one], rest).
Proof.
  intros [Hn Hl _]. unfold sample_text, reading_of. set (v := float.FormatFloat (value one)).
  assert (Cut (v +:+ String newline rest) newline = (v, rest, true)) as Hv by (apply url.Cut_first, FormatFloat_one_line).
  assert (∀ a b c d e, (a +:+ b +:+ c +:+ d +:+ e) +:+ rest = a +:+ b +:+ c +:+ d +:+ (e +:+ rest)) as Hassoc by (intros; by rewrite <- !str_app_assoc).
  rewrite Hassoc. change (String newline "" +:+ rest) with (String newline rest). change (" " +:+ v +:+ String newline rest) with (String " " (v +:+ String newline rest)).
  rewrite read_word_line; [|done|].
  2: { destruct (labelNamesOf m), (labels one); done. }
  unfold formatLabels. destruct (labels one) as [|w ws] eqn:Ew.
  { destruct (labelNamesOf m) as [|x xs]; rewrite str_app_nil_l; cbn -[Cut String.append newline]; by rewrite Hv. }
  destruct (labelNamesOf m) as [|x xs] eqn:Ex; [rewrite str_app_nil_l; cbn -[Cut String.append newline]; by rewrite Hv|].
  set (l := label_pairs (x :: xs) (w :: ws)).
  assert (("{" +:+ Join (List.map pair_text l) "," +:+ "}") +:+ String " " (v +:+ String newline rest)
    = String "{" (Join (List.map pair_text l) "," +:+ String "}" (String " " (v +:+ String newline rest)))) as -> by (by rewrite <- !str_app_assoc).
  rewrite read_pairs_text; [cbn -[Cut String.append newline]; by rewrite Hv|done| |].
  - rewrite length_app_string. assert (length l <= String.length (Join (List.map pair_text l) ",") + 1)%nat; [|cbn [String.length]; lia].
    clear. induction l as [|p l IH]; [cbn; lia|]. cbn [List.map]. destruct l as [|q l]; [cbn; lia|].
    cbn [List.map] in *. rewrite Join_more, !length_app_string. cbn [length String.length] in *. lia.
  - apply (Forall_fmap fst (fun n => valid_name n = true)). unfold l. rewrite (label_pairs_fst (x :: xs)). exact Hl.
Qed.
(** A text made of lines that the reader takes one by one. *)
Definition line_ok (p : string * list reading) : Prop := fst p ≠ "" ∧ ∀ rest, read_line (fst p +:+ rest) = Some (snd p, rest).
Lemma concat_str_cons x l : concat_str (x :: l) = x +:+ concat_str l.
Proof. done. Qed.
Lemma concat_str_app l k : concat_str (l ++ k) = concat_str l +:+ concat_str k.
Proof. induction l as [|x l IH]; [done|]. cbn [app]. by rewrite !concat_str_cons, IH, str_app_assoc. Qed.
Lemma scrape_lines l fuel : Forall line_ok l → (String.length (concat_str l.*1) <= fuel)%nat →
  scrape fuel (concat_str l.*1) = Some (concat l.*2).
Proof.
  revert fuel. induction l as [|[x y] l IH]; intros fuel Hl Hf; [by destruct fuel|]. apply Forall_cons in Hl as [[Hx Hr] Hl]. cbn [fst snd] in *.
  change (((x, y) :: l).*1) with (x :: l.*1) in *. rewrite concat_str_cons in *. specialize (Hr (concat_str l.*1)).
  rewrite length_app_string in Hf. destruct x as [|c x]; [done|]. destruct fuel as [|fuel]; [cbn in Hf; lia|].
  rewrite str_app_cons in *. cbn [scrape]. rewrite Hr. cbn [mbind option_bind]. rewrite IH; [done|done|cbn in Hf; lia].
Qed.
Definition metric_lines (m : collector S) (l : list sample) : list (string * list reading) :=
  [("# HELP " +:+ name m +:+ " " +:+ help m +:+ String newline "", []); ("# TYPE " +:+ name m +:+ " " +:+ kind m +:+ String newline "", [])] ++
  ((fun one => (sample_text m one, [reading_of m one])) <$> l).
Lemma metric_lines_text m l : concat_str (metric_lines m l).*1 = metric_text m l.
Proof.
  unfold metric_lines, metric_text. rewrite fmap_app, concat_str_app. cbn [fmap list_fmap fst]. rewrite !concat_str_cons, str_app_nil_r.
  assert (concat_str (fst <$> ((fun one => (sample_text m one, [reading_of m one])) <$> l)) = concat_str (sample_text m <$> l)) as ->.
  { by rewrite <- list_fmap_compose. }
  by rewrite <- !str_app_assoc.
Qed.
Lemma comment_ok t : url.all_chars not_newline t = true → line_ok ("# " +:+ t +:+ String newline "", []).
Proof.
  intros Ht. split; [done|]. intros rest. cbn [fst snd]. rewrite <- !str_app_assoc.
  change (String newline "" +:+ rest) with (String newline rest). change ("# " +:+ t +:+ String newline rest) with (String "#" ((" " +:+ t) +:+ String newline rest)).
  unfold read_line. change (String "#" ((" " +:+ t) +:+ String newline rest)) with (("# " +:+ t) +:+ String newline rest).
  rewrite url.Cut_first; [done|]. rewrite url.all_chars_app. exact Ht.
Qed.
Lemma metric_lines_ok m l : well_formed_metric m → Forall line_ok (metric_lines m l).
Proof.
  intros Hm. destruct Hm as [Hn Hl Hh] eqn:Em. clear Em.
  assert (url.all_chars not_newline (name m) = true) as Hname.
  { destruct (valid_name_word _ Hn) as [Hw _]. revert Hw. apply url.all_chars_mono. intros c. apply implb_true_iff. revert c. by apply url.every_char. }
  apply Forall_app_2; [repeat apply Forall_cons_2; [| |constructor]|].
  - rewrite (eq_refl : "# HELP " +:+ name m +:+ " " +:+ help m +:+ String newline "" = "# " +:+ ("HELP " +:+ name m +:+ " " +:+ help m +:+ String newline "")).
    rewrite !(str_app_assoc _ _ (String newline "")). apply comment_ok. by rewrite !url.all_chars_app, Hname, Hh.
  - rewrite (eq_refl : "# TYPE " +:+ name m +:+ " " +:+ kind m +:+ String newline "" = "# " +:+ ("TYPE " +:+ name m +:+ " " +:+ kind m +:+ String newline "")).
    rewrite !(str_app_assoc _ _ (String newline "")). apply comment_ok. rewrite !url.all_chars_app, Hname. by destruct m.
  - apply Forall_fmap, Forall_forall. intros one _. split; [|intros rest; by apply read_sample]. cbn [fst].
    unfold sample_text. by destruct (name m).
Qed.
Definition well_formed (r : Registry S) : Prop := ∀ n m, metrics r !! n = Some m → well_formed_metric m.
Definition readings (gathered : list (collector S * list sample)) : list reading :=
  concat (List.map (fun p => List.map (reading_of (fst p)) (snd p)) gathered).
Lemma gather_fst (l : list (collector S)) (s : S) : List.map fst (fst (gather l s)) = l.
Proof.
  revert s. induction l as [|m l IH]; intros s; [done|]. cbn [gather]. destruct (samples m s) as [one s1]. specialize (IH s1).
  destruct (gather l s1). cbn in *. by rewrite IH.
Qed.
Lemma exposition_lines (l : list (collector S * list sample)) : Forall well_formed_metric (List.map fst l) →
  ∃ lines, Forall line_ok lines ∧ concat_str lines.*1 = concat_str ((fun p => metric_text (fst p) (snd p)) <$> l) ∧ concat lines.*2 = readings l.
Proof.
  induction l as [|[m one] l IH]; [by exists []|]. intros [Hm Hl]%Forall_cons. destruct (IH Hl) as (lines&Hok&Et&Er).
  exists (metric_lines m one ++ lines). split_and!.
  - by apply Forall_app_2; [apply metric_lines_ok|].
  - by rewrite fmap_app, concat_str_app, metric_lines_text, Et.
  - rewrite fmap_app, concat_app, Er. unfold metric_lines, readings. cbn [fmap list_fmap concat fst snd]. f_equal.
    rewrite fmap_app. cbn. induction one as [|x one IHo]; [done|]. cbn. by rewrite IHo.
Qed.
Lemma Expose_scrape (r : Registry S) (s : S) : well_formed r →
  scrape (String.length (fst (Expose r s))) (fst (Expose r s)) = Some (readings (fst (gather (collectors r) s))).
Proof.
  intros Hr. unfold Expose. pose proof (gather_fst (collectors r) s) as Hf. destruct (gather (collectors r) s) as [l s']. cbn [fst] in *.
  destruct (exposition_lines l) as (lines&Hok&<-&<-); [|by apply scrape_lines].
  rewrite Hf. apply Forall_forall. intros m Hm%elem_of_order_by. apply list_elem_of_omap in Hm as (n&_&Hn). by eapply Hr.
Qed.
End exposition.
End metrics.
