(* ===== verification/GoMux.v ===== *)
(** net/http's ServeMux as the server uses it: patterns with an optional method,
  literal segments, [{name}], [{name...}] and a slash at the end, and the choice
  of a pattern for the escaped path of a request.

  The router walks the segments of a path and at every node prefers a literal
  segment to a wildcard for one and that to a wildcard for the rest, and comes
  back when a preference leads nowhere.  It does so first among the patterns of
  the request's method, then, for HEAD, among those of GET, then among those
  without a method. *)
From Stdlib Require Import ZArith Lia Ascii.
From S2P Require Import Prelude GoStrings GoTime Json GoPath GoUrl.

Module mux.
Inductive segment := Literal (s : string) | One (name : string) | Many (name : string).
Definition segment_of (s : string) : segment :=
  if String.eqb s "{$}" then Literal "/"
  else match CutPrefix s "{" with
       | Some r => match CutSuffix r "...}" with
                   | Some name => Many name
                   | None => match CutSuffix r "}" with Some name => One name | None => Literal s end
                   end
       | None => Literal s
       end.
(** A slash at the end of a pattern is a nameless wildcard for the rest. *)
Fixpoint segments_of (l : list string) : list segment :=
  match l with
  | [] => []
  | [s] => [if String.eqb s "" then Many "" else segment_of s]
  | s :: l => segment_of s :: segments_of l
  end.
Record candidate := MkCandidate { text : string; method : string; whole : list segment; rest : list segment }.
Definition named (l : list segment) : list string :=
  omap (fun s => match s with Literal _ => None | One n | Many n => if String.eqb n "" then None else Some n end) l.
Definition parse (pattern : string) : candidate :=
  let '(m, p, found) := Cut pattern " "%char in
  let '(m, p) := if found then (m, p) else ("", pattern) in
  let l := segments_of (Split (TrimPrefix p "/") "/"%char) in
  MkCandidate pattern m l l.

Definition pathUnescape (s : string) : string := default s (url.unescape url.encodePath s).
(** The path starts with a slash. *)
Definition firstSegment (path : string) : string * string :=
  if String.eqb path "/" then ("/", "")
  else let '(seg, rest, found) := Cut (TrimPrefix path "/") "/"%char in
       (pathUnescape seg, if found then String "/" rest else "").
Definition step (take : segment → bool) (l : list candidate) : list candidate :=
  omap (fun c => match rest c with s :: more => if take s then Some (MkCandidate (text c) (method c) (whole c) more) else None | [] => None end) l.
Definition literal (seg : string) (s : segment) : bool := match s with Literal t => String.eqb t seg | _ => false end.
Definition single (s : segment) : bool := match s with One _ => true | _ => false end.
Definition multi (s : segment) : bool := match s with Many _ => true | _ => false end.
Definition ended (c : candidate) : bool := match rest c with [] => true | _ => false end.
(** The candidate and the values of its wildcards. *)
Fixpoint matchPath (fuel : nat) (l : list candidate) (path : string) : option (candidate * list string) :=
  match fuel with
  | O => None
  | S fuel =>
      if String.eqb path "" then match List.find ended l with Some c => Some (c, []) | None => None end
      else
        let '(seg, more) := firstSegment path in
        match matchPath fuel (step (literal seg) l) more with
        | Some found => Some found
        | None =>
            match (if String.eqb seg "/" then None else matchPath fuel (step single l) more) with
            | Some (c, values) => Some (c, seg :: values)
            | None =>
                match step multi l with
                | c :: _ => Some (c, [pathUnescape (TrimPrefix path "/")])
                | [] => None
                end
            end
        end
  end.
Definition try_method (m : string) (l : list candidate) (path : string) : option (candidate * list string) :=
  matchPath (S (String.length path)) (List.filter (fun c => String.eqb (method c) m) l) path.
Definition match_ (l : list candidate) (m path : string) : option (candidate * list string) :=
  match try_method m l path with
  | Some found => Some found
  | None =>
      match (if String.eqb m "HEAD" then try_method "GET" l path else None) with
      | Some found => Some found
      | None => try_method "" l path
      end
  end.

(** [path.Clean], but for a slash at the end. *)
Definition ends_in_slash (p : string) : bool := HasSuffix p "/".
Definition cleanPath (p : string) : string :=
  if String.eqb p "" then "/"
  else
    let p := if HasPrefix p "/" then p else "/" +:+ p in
    let np := filepath.Clean p in
    if ends_in_slash p && negb (String.eqb np "/") then np +:+ "/" else np.
(** Whether the pattern takes the path without a wildcard for the rest that stands
  for something. *)
Definition exactMatch (found : option (candidate * list string)) (path : string) : bool :=
  match found with
  | None => false
  | Some (c, _) =>
      match last (whole c) with
      | Some (Many _) => ends_in_slash path && (Count path "/"%char =? blen (whole c))
      | _ => true
      end
  end.
Inductive outcome := Found (pattern : string) (values : list (string * string)) | Redirected (slash : bool) | Unknown.
(** A path that is not clean, or that only a slash at the end makes known, is
  redirected, in the second case ([slash]) to the path with the slash; CONNECT takes
  the path as it is. *)
Definition find (patterns : list string) (m escaped : string) : outcome :=
  let l := List.map parse patterns in
  let path := if String.eqb m "CONNECT" then escaped else cleanPath escaped in
  let found := match_ l m path in
  if negb (exactMatch found path) && negb (ends_in_slash path) && exactMatch (match_ l m (path +:+ "/")) (path +:+ "/") then Redirected true
  else if negb (String.eqb path escaped) then Redirected false
  else match found with
       | Some (c, values) => Found (text c) (combine (named (whole c)) values)
       | None => Unknown
       end.
(** Where to: the path is the decoded one when a slash is added, and the escaped one
  otherwise, which is then escaped again; [http.Redirect] cleans it once more. *)
Definition redirect_target (slash : bool) (path escaped : string) : string :=
  cleanPath (url.escapePath (if slash then cleanPath path +:+ "/" else cleanPath escaped)).
Fixpoint hexEscapeNonASCII (s : string) : string :=
  match s with
  | EmptyString => ""
  | String c r =>
      let b := byte_of_ascii c in
      (if b <? 128 then String c "" else String "%" (String (hex_digit (b / 16)) (String (hex_digit (b mod 16)) ""))) +:+ hexEscapeNonASCII r
  end.
(** The text of a link, as [html/template] would escape it. *)
Fixpoint htmlEscape (s : string) : string :=
  match s with
  | EmptyString => ""
  | String c r =>
      (if Ascii.eqb c "&" then "&amp;" else if Ascii.eqb c "<" then "&lt;" else if Ascii.eqb c ">" then "&gt;"
       else if Ascii.eqb c dquote then "&#34;" else if Ascii.eqb c "'" then "&#39;" else String c "") +:+ htmlEscape r
  end.
Definition value_of (values : list (string * string)) (name : string) : string :=
  match List.find (fun p => String.eqb (fst p) name) values with Some (_, v) => v | None => "" end.

(** ** Walking a path of plain segments *)
Lemma matchPath_nil f path : matchPath f [] path = None.
Proof.
  revert path. induction f as [|f IH]; intros path; [done|]. cbn [matchPath]. destruct (String.eqb path ""); [done|].
  destruct (firstSegment path) as [seg more]. cbn [step omap list_omap]. rewrite IH. by destruct (String.eqb seg "/").
Qed.
(** Characters of a segment that stand for themselves. *)
Definition plain_segment (s : string) : Prop := url.all_chars url.unreserved s = true ∧ s ≠ "".
Lemma unreserved_plain s : url.all_chars url.unreserved s = true → url.plain s = true.
Proof. apply url.all_chars_mono. intros c Hc. unfold url.plain_char. by rewrite Hc. Qed.
Lemma pathUnescape_plain s : url.plain s = true → pathUnescape s = s.
Proof. intros Hs. unfold pathUnescape. by rewrite url.unescape_plain. Qed.
Lemma no_slash s : url.all_chars url.unreserved s = true → url.all_chars (fun a => negb (Ascii.eqb a "/")) s = true.
Proof. apply url.all_chars_mono. intros c. apply implb_true_iff. revert c. by apply url.every_char. Qed.
Lemma firstSegment_plain seg rest : plain_segment seg → firstSegment (String "/" (seg +:+ String "/" rest)) = (seg, String "/" rest).
Proof.
  intros [Hs Hne]. unfold firstSegment. destruct (String.eqb_spec (String "/" (seg +:+ String "/" rest)) "/") as [E|_]; [by destruct seg|].
  change (TrimPrefix (String "/" (seg +:+ String "/" rest)) "/") with (seg +:+ String "/" rest).
  rewrite (url.Cut_first seg "/"%char) by (by apply no_slash). by rewrite pathUnescape_plain by (by apply unreserved_plain).
Qed.
Lemma match_literal f l seg rest found : plain_segment seg → matchPath f (step (literal seg) l) (String "/" rest) = Some found →
  matchPath (S f) l (String "/" (seg +:+ String "/" rest)) = Some found.
Proof. intros Hs Hf. cbn [matchPath String.eqb]. by rewrite firstSegment_plain, Hf. Qed.
Lemma match_single f l seg rest c values : plain_segment seg → step (literal seg) l = [] →
  matchPath f (step single l) (String "/" rest) = Some (c, values) →
  matchPath (S f) l (String "/" (seg +:+ String "/" rest)) = Some (c, seg :: values).
Proof.
  intros Hs Hl Hf. cbn [matchPath String.eqb]. rewrite firstSegment_plain, Hl, matchPath_nil by done.
  destruct (String.eqb_spec seg "/") as [->|_]; [by destruct Hs as [Hs _]|]. by rewrite Hf.
Qed.
Lemma match_multi f l p c more : url.plain p = true → (∀ seg, step (literal seg) l = []) → step single l = [] → step multi l = c :: more →
  matchPath (S f) l (String "/" p) = Some (c, [p]).
Proof.
  intros Hp Hl Hone Hm. cbn [matchPath String.eqb]. destruct (firstSegment (String "/" p)) as [seg rest]. rewrite Hl, Hone, Hm, !matchPath_nil.
  replace (if String.eqb seg "/" then None else None) with (@None (candidate * list string)) by (by destruct (String.eqb seg "/")).
  change (TrimPrefix (String "/" p) "/") with p. by rewrite pathUnescape_plain.
Qed.

Local Definition sample : list string :=
  ["/"; "GET /v1/sys/health"; "GET /v1/secret/data/{tenant}/{path...}"; "PUT /v1/secret/data/{tenant}/{path...}";
   "GET /v1/param/list/{tenant}"; "GET /ui/"; "GET /ui/app.css"].
Lemma find_examples :
  find sample "GET" "/v1/secret/data/acme/db/main" = Found "GET /v1/secret/data/{tenant}/{path...}" [("tenant", "acme"); ("path", "db/main")] ∧
  find sample "HEAD" "/v1/secret/data/acme/db%2Fmain" = Found "GET /v1/secret/data/{tenant}/{path...}" [("tenant", "acme"); ("path", "db/main")] ∧
  find sample "GET" "/v1/secret/data/a%2Fb/x" = Found "GET /v1/secret/data/{tenant}/{path...}" [("tenant", "a/b"); ("path", "x")] ∧
  find sample "GET" "/v1/secret/data/acme/" = Found "GET /v1/secret/data/{tenant}/{path...}" [("tenant", "acme"); ("path", "")] ∧
  find sample "GET" "/v1/secret/data/acme" = Redirected true ∧ find sample "DELETE" "/v1/secret/data/acme/x" = Found "/" [] ∧
  find sample "GET" "/v1/secret/data/acme/../x" = Redirected true ∧ find sample "GET" "/v1//sys/health" = Redirected false ∧
  find sample "GET" "/ui" = Redirected true ∧ find sample "GET" "/ui/" = Found "GET /ui/" [] ∧ find sample "GET" "/ui/app.css" = Found "GET /ui/app.css" [] ∧
  find sample "GET" "/ui/nothing" = Found "GET /ui/" [] ∧ find sample "GET" "/v1/param/list/acme" = Found "GET /v1/param/list/{tenant}" [("tenant", "acme")].
Proof. by vm_compute. Qed.
End mux.
