(* ===== verification/Ratelimit.v ===== *)
(** platform/ratelimit: one token bucket per key, with the number of keys
  bounded.  Tokens are the float64 the code computes with.  The order in which
  Go ranges over a map is not specified: it is a parameter. *)
From Stdlib Require Import ZArith Lia SpecFloat.
From S2P Require Import Prelude GoStrings GoTime World Interfaces.

(** The keys of [for key := range m], in the order the runtime happens to take. *)
Class MapOrder := map_order : gmap string Bucket → list string.
Class MapOrderLaws (O : MapOrder) := map_order_keys : ∀ m, map_order m ≡ₚ (map_to_list m).*1.

Module ratelimit.
Definition ErrRate : string := "ratelimit: rate must be greater than zero".
Definition ErrBurst : string := "ratelimit: burst must be at least one".
Definition ErrMaxKeys : string := "ratelimit: the key limit must be at least one".
Definition DefaultMaxKeys : Z := 8192.

Record Options := MkOptions { PerMinute : spec_float; Burst : Z; o_MaxKeys : Z }.
Record Limiter := MkLimiter { perSecond : spec_float; burst : spec_float; maxKeys : Z; idle : Z }.

Definition fadd : spec_float → spec_float → spec_float := SFadd 53 1024.
Definition fmul : spec_float → spec_float → spec_float := SFmul 53 1024.
Definition fsub : spec_float → spec_float → spec_float := SFsub 53 1024.
Definition fdiv : spec_float → spec_float → spec_float := SFdiv 53 1024.
Definition is_nan (x : spec_float) : bool := match x with S754_nan => true | _ => false end.
(** The builtin [min]: NaN wins, and -0 is below +0. *)
Definition fmin (x y : spec_float) : spec_float :=
  if is_nan x || is_nan y then S754_nan
  else match x, y with
       | S754_zero s, S754_zero s' => S754_zero (s || s')
       | _, _ => if SFltb y x then y else x
       end.

Definition New (opts : Options) : result Limiter :=
  if SFleb (PerMinute opts) (S754_zero false) then Err [ErrRate]
  else if Burst opts <? 1 then Err [ErrBurst]
  else if o_MaxKeys opts <? 0 then Err [ErrMaxKeys]
  else
    let perSecond := fdiv (PerMinute opts) (float64 60) in
    let burst := float64 (Burst opts) in
    Ok (MkLimiter perSecond burst (if o_MaxKeys opts =? 0 then DefaultMaxKeys else o_MaxKeys opts)
          (wrap64 (int_of_float (fdiv burst perSecond) * Second))).

Section limiter.
Context `{MapOrder} (l : Limiter).
(** The first loop deletes what has been idle, the second whatever comes first
  until there is room. *)
Definition drop_idle (now : Z) (m : gmap string Bucket) : gmap string Bucket :=
  foldl (fun m key => match m !! key with
                      | Some candidate => if idle l <=? Sub now (seen candidate) then delete key m else m
                      | None => m
                      end) m (map_order m).
Fixpoint drop_any (keys : list string) (m : gmap string Bucket) : gmap string Bucket :=
  match keys with
  | [] => m
  | key :: keys => if Z.of_nat (size m) <? maxKeys l then m else drop_any keys (delete key m)
  end.
Definition makeRoom (now : Z) (m : gmap string Bucket) : gmap string Bucket :=
  if Z.of_nat (size m) <? maxKeys l then m
  else let m := drop_idle now m in drop_any (map_order m) m.

(** Refills the bucket, then takes a token if there is one. *)
Definition take_token (now : Z) (current : Bucket) : bool * Bucket :=
  let elapsed := Duration_Seconds (Sub now (seen current)) in
  let current := if SFltb (S754_zero false) elapsed
                 then MkBucket (fmin (burst l) (fadd (tokens current) (fmul elapsed (perSecond l)))) now
                 else current in
  if SFltb (tokens current) (float64 1) then (false, current)
  else (true, MkBucket (fsub (tokens current) (float64 1)) (seen current)).
Definition allow_at (now : Z) (key : string) (m : gmap string Bucket) : bool * gmap string Bucket :=
  let '(m, current) := match m !! key with
                       | Some current => (m, current)
                       | None => (makeRoom now m, MkBucket (burst l) now)
                       end in
  let '(allowed, current) := take_token now current in
  (allowed, <[key := current]> m).
(** [Allow] on the limiter whose buckets are at [get]. *)
Definition Allow (get : World → gmap string Bucket) (set : gmap string Bucket → World → World) (key : string) (w : World) : bool * World :=
  let now := clock w 0%nat in
  let '(allowed, m) := allow_at now key (get w) in
  (allowed, set m (set_clock (fun n => clock w (S n)) w)).
Definition Tracked (m : gmap string Bucket) : Z := Z.of_nat (size m).
End limiter.

(** ** The number of keys stays bounded *)
Section theory.
Context `{MapOrderLaws} (l : Limiter) (Hmax : 1 ≤ maxKeys l).
Lemma drop_idle_subseteq now m : drop_idle l now m ⊆ m.
Proof.
  unfold drop_idle. assert (∀ keys m', m' ⊆ m → foldl (fun m key => match m !! key with
    | Some candidate => if idle l <=? Sub now (seen candidate) then delete key m else m | None => m end) m' keys ⊆ m) as Hx; [|by apply Hx].
  induction keys as [|k keys IH]; intros m' Hm; [done|]. cbn [foldl]. apply IH. destruct (m' !! k); [|done].
  destruct (_ <=? _); [|done]. etrans; [apply delete_subseteq|done].
Qed.
Lemma drop_any_subseteq keys m : drop_any l keys m ⊆ m.
Proof.
  revert m. induction keys as [|k keys IH]; intros m; [done|]. cbn [drop_any]. destruct (_ <? _); [done|].
  etrans; [apply IH|apply delete_subseteq].
Qed.
Lemma drop_any_room keys m : (map_to_list m).*1 ⊆ keys → Z.of_nat (size (drop_any l keys m)) < maxKeys l.
Proof.
  revert m. induction keys as [|k keys IH]; intros m Hk; cbn [drop_any].
  - assert (m = ∅) as ->; [|rewrite map_size_empty; lia]. apply map_to_list_empty_iff. destruct (map_to_list m) as [|kv rest]; [done|].
    exfalso. by apply (not_elem_of_nil kv.1), Hk, list_elem_of_here.
  - destruct (Z.ltb_spec (Z.of_nat (size m)) (maxKeys l)); [done|]. apply IH. intros j Hj.
    apply list_elem_of_fmap in Hj as ([j' b]&->&Hj). apply elem_of_map_to_list, lookup_delete_Some in Hj as [Hne Hj]. cbn.
    assert (j' ∈ k :: keys) as Hin.
    { apply Hk. change j' with ((j', b).1). apply list_elem_of_fmap_2. by apply elem_of_map_to_list. }
    apply elem_of_cons in Hin as [->|]; [done|done].
Qed.
Lemma makeRoom_room now m : Z.of_nat (size (makeRoom l now m)) < maxKeys l.
Proof.
  unfold makeRoom. destruct (Z.ltb_spec (Z.of_nat (size m)) (maxKeys l)); [done|]. apply drop_any_room.
  by rewrite (map_order_keys (drop_idle l now m)).
Qed.
Lemma makeRoom_subseteq now m : makeRoom l now m ⊆ m.
Proof. unfold makeRoom. destruct (_ <? _); [done|]. etrans; [apply drop_any_subseteq|apply drop_idle_subseteq]. Qed.

(** A sequence of calls, each at a time and for a key. *)
Fixpoint allow_all (calls : list (Z * string)) (m : gmap string Bucket) : gmap string Bucket :=
  match calls with [] => m | (now, key) :: calls => allow_all calls (snd (allow_at l now key m)) end.
Lemma allow_at_size now key m : Tracked m ≤ maxKeys l → Tracked (snd (allow_at l now key m)) ≤ maxKeys l.
Proof.
  unfold allow_at, Tracked. intros Hs. destruct (m !! key) as [current|] eqn:E.
  - destruct (take_token l now current) as [allowed current']. cbn [snd]. by rewrite map_size_insert_Some by (by rewrite E).
  - destruct (take_token l now _) as [allowed current']. cbn [snd]. rewrite map_size_insert_None.
    + pose proof (makeRoom_room now m). lia.
    + apply eq_None_not_Some. intros [x Hb]. pose proof (lookup_weaken _ _ _ _ Hb (makeRoom_subseteq now m)). congruence.
Qed.
Lemma allow_all_size calls m : Tracked m ≤ maxKeys l → Tracked (allow_all calls m) ≤ maxKeys l.
Proof.
  revert m. induction calls as [|[now key] calls IH]; intros m Hs; [done|]. cbn [allow_all]. by apply IH, allow_at_size.
Qed.
Lemma allow_at_others now key m j : j ≠ key → snd (allow_at l now key m) !! j = m !! j ∨
  (snd (allow_at l now key m) !! j = None ∧ m !! key = None ∧ maxKeys l ≤ Tracked m).
Proof.
  intros Hne. unfold allow_at, Tracked. destruct (m !! key) as [current|] eqn:E.
  - destruct (take_token l now current). cbn [snd]. rewrite lookup_insert_ne by done. by left.
  - destruct (take_token l now _). cbn [snd]. rewrite lookup_insert_ne by done. destruct (Z.ltb_spec (Z.of_nat (size m)) (maxKeys l)) as [Hlt|].
    + left. unfold makeRoom. by destruct (Z.ltb_spec (Z.of_nat (size m)) (maxKeys l)); [|lia].
    + destruct (makeRoom l now m !! j) as [x|] eqn:Eb; [left|by right]. symmetry. by apply (lookup_weaken _ _ _ _ Eb), makeRoom_subseteq.
Qed.

(** C35. However many callers there are, the limiter never tracks more keys
  than its limit; and a call only touches its own key's bucket, except that a
  key that is new while the table is full may evict others. *)
Theorem Allow_bounds (calls : list (Z * string)) (now : Z) (key : string) :
  let m := allow_all calls ∅ in
  Tracked m ≤ maxKeys l ∧
  ∀ j, j ≠ key → snd (allow_at l now key m) !! j = m !! j ∨
    (snd (allow_at l now key m) !! j = None ∧ m !! key = None ∧ Tracked m = maxKeys l).
Proof.
  intros m. assert (Tracked m ≤ maxKeys l) as Hs.
  { apply allow_all_size. unfold Tracked. rewrite map_size_empty. lia. }
  split; [done|]. intros j Hne. destruct (allow_at_others now key m j Hne) as [|(?&?&?)]; [by left|right].
  split_and!; [done..|lia].
Qed.
End theory.

(** ** Examples: one login a second, two in a row, for two keys *)
Section examples.
#[local] Instance sorted_order : MapOrder := fun m => (map_to_list m).*1.
#[local] Instance sorted_order_laws : MapOrderLaws sorted_order.
Proof. by intros m. Qed.
Local Definition limiter : Limiter := MkLimiter (float64 1) (float64 2) 2 (2 * Second).
Lemma New_ok : New (MkOptions (float64 60) 2 2) = Ok limiter.
Proof. by vm_compute. Qed.
(** Two calls pass, the third does not; half a second later not yet, a second later again. *)
Lemma burst_of_two :
  let step (t : Z) (r : list bool * gmap string Bucket) := let '(a, m) := allow_at limiter t "10.0.0.1" (snd r) in (fst r ++ [a], m) in
  fst (step Second (step (Second / 2) (step 0 (step 0 (step 0 ([], ∅)))))) = [true; true; false; false; true].
Proof. by vm_compute. Qed.
Local Definition calls : list (Z * string) := [(0, "10.0.0.1"); (0, "10.0.0.2"); (Second, "10.0.0.3")].
Lemma Allow_bounds_witness :
  let m := allow_all limiter calls ∅ in
  Tracked m ≤ maxKeys limiter ∧
  ∀ j, j ≠ "10.0.0.4" → snd (allow_at limiter Second "10.0.0.4" m) !! j = m !! j ∨
    (snd (allow_at limiter Second "10.0.0.4" m) !! j = None ∧ m !! "10.0.0.4" = None ∧ Tracked m = maxKeys limiter).
Proof. apply (Allow_bounds limiter ltac:(by vm_compute) calls Second "10.0.0.4"). Defined.
End examples.
End ratelimit.
