(* ===== verification/Config.v ===== *)
(** platform/config: the server's configuration, its defaults and the checks it
  must pass, and how it is read from the environment. *)
From Stdlib Require Import ZArith Lia Ascii SpecFloat.
From S2P Require Import Prelude GoStrings GoTime GoPath Json Interfaces GoNumbers Ratelimit.

Module config.
Record Config := MkConfig {
  ListenAddr : string; DataDir : string; TLSCertFile : string; TLSKeyFile : string; LogLevel : string;
  ShutdownTimeout : Z; AllowInsecureHTTP : bool; AllowUnprotectedMemory : bool; UIEnabled : bool;
  ControlPlaneIssuer : string; ControlPlaneAudience : string; ControlPlaneJWKSFile : string; ControlPlaneSkew : Z;
  LoginRatePerMinute : spec_float; LoginBurst : Z; RequestRatePerMinute : spec_float; RequestBurst : Z;
  LeaseTTL : Z; SweepInterval : Z; SweepBatch : Z; AuditFile : string }.

Definition InstanceLoginConfigured (c : Config) : bool :=
  negb (String.eqb (ControlPlaneIssuer c) "") || negb (String.eqb (ControlPlaneJWKSFile c) "").
Definition Default : Config := MkConfig "127.0.0.1:8200" "/var/lib/marstack-secrets" "" "" "info" (15 * Second) false false false
  "" "marstack-secrets" "" (30 * Second) (float64 10) 5 (float64 600) 60 (30 * Minute) (5 * Minute) 500 "".

(** [strings.ToLower], as far as a level name can tell: besides the capital
  letters, the dotted capital I (U+0130) is lowered to a letter of ASCII. *)
Fixpoint ToLower (s : string) : string :=
  match s with
  | EmptyString => ""
  | String c r =>
      match CutPrefix s (string_of_bytes [196; 176]), r with
      | Some _, String _ r => String "i" (ToLower r)
      | _, _ => let b := byte_of_ascii c in String (if (65 <=? b) && (b <=? 90) then ascii_of_byte (b + 32) else c) (ToLower r)
      end
  end.
(** logging.ParseLevel: the levels as slog numbers them. *)
Definition ParseLevel (name : string) : result Z :=
  let l := ToLower (TrimSpace name) in
  if String.eqb l "debug" then Ok (-4) else if String.eqb l "info" then Ok 0
  else if String.eqb l "warn" then Ok 4 else if String.eqb l "error" then Ok 8
  else Err ["unknown log level"].

Definition le_zero (x : spec_float) : bool := SFleb x (S754_zero false).
Definition problem_if (b : bool) (message : string) : list string := if b then [message] else [].
(** The problems in the order they are found; [errors.Join] of none is nil. *)
Definition problems (c : Config) : list string :=
  problem_if (String.eqb (ListenAddr c) "") "listen address must not be empty" ++
  (if String.eqb (DataDir c) "" then ["data directory must not be empty"]
   else problem_if (negb (filepath.IsAbs (DataDir c))) "data directory must be an absolute path") ++
  match ParseLevel (LogLevel c) with Ok _ => [] | Err e => e end ++
  problem_if (ShutdownTimeout c <=? 0) "shutdown timeout must be greater than zero" ++
  (if InstanceLoginConfigured c
   then if String.eqb (ControlPlaneIssuer c) "" then ["control plane issuer is required to accept instance logins"]
        else if String.eqb (ControlPlaneJWKSFile c) "" then ["control plane key set file is required to accept instance logins"]
        else if String.eqb (ControlPlaneAudience c) "" then ["control plane audience must not be empty"]
        else problem_if (ControlPlaneSkew c <? 0) "control plane clock skew must not be negative"
   else []) ++
  problem_if (le_zero (LoginRatePerMinute c) || le_zero (RequestRatePerMinute c)) "rate limits must be greater than zero" ++
  problem_if ((LoginBurst c <? 1) || (RequestBurst c <? 1)) "rate limit bursts must be at least one" ++
  problem_if (LeaseTTL c <=? 0) "lease time to live must be greater than zero" ++
  problem_if (SweepInterval c <=? 0) "sweep interval must be greater than zero" ++
  problem_if (SweepBatch c <? 1) "sweep batch must be at least one" ++
  problem_if (negb (String.eqb (AuditFile c) "") && negb (filepath.IsAbs (AuditFile c))) "audit file must be an absolute path" ++
  (if AllowInsecureHTTP c && (negb (String.eqb (TLSCertFile c) "") || negb (String.eqb (TLSKeyFile c) ""))
   then ["plaintext HTTP and TLS certificates are mutually exclusive"]
   else problem_if (negb (AllowInsecureHTTP c) && (String.eqb (TLSCertFile c) "" || String.eqb (TLSKeyFile c) ""))
          "TLS certificate and key are required unless MARSEC_ALLOW_INSECURE_HTTP is set").
Definition Validate (c : Config) : result unit :=
  match problems c with [] => Ok tt | e => Err e end.

Definition AuditPath (c : Config) : string :=
  if negb (String.eqb (AuditFile c) "") then AuditFile c else filepath.Join2 (DataDir c) "audit.log".

(** ** Reading the environment *)
Definition envPrefix : string := "MARSEC_".
Section load.
Context (getenv : string → string).
Definition stringVar (name fallback : string) : string :=
  let raw := TrimSpace (getenv (envPrefix +:+ name)) in
  if negb (String.eqb raw "") then raw else fallback.
(** A variable that is empty keeps the default; one that does not parse ends the
  loading with [message]. *)
Definition parsedVar {A} (parse : string → option A) (message raw : string) (fallback : A) : result A :=
  if String.eqb raw "" then Ok fallback
  else match parse raw with Some value => Ok value | None => Err [message] end.
Definition boolVar (name : string) (fallback : bool) : result bool :=
  parsedVar ParseBool "is not a boolean" (getenv (envPrefix +:+ name)) fallback.
Definition floatVar (name : string) (fallback : spec_float) : result spec_float :=
  parsedVar float.ParseFloat "is not a number" (TrimSpace (getenv (envPrefix +:+ name))) fallback.
Definition intVar (name : string) (fallback : Z) : result Z :=
  parsedVar Atoi "is not a whole number" (TrimSpace (getenv (envPrefix +:+ name))) fallback.
Definition durationVar (name : string) (fallback : Z) : result Z :=
  parsedVar duration.ParseDuration "is not a duration" (getenv (envPrefix +:+ name)) fallback.

Definition Load : result Config :=
  let cfg := Default in
  let? timeout := durationVar "SHUTDOWN_TIMEOUT" (ShutdownTimeout cfg) in
  let? insecure := boolVar "ALLOW_INSECURE_HTTP" (AllowInsecureHTTP cfg) in
  let? ui := boolVar "UI_ENABLED" (UIEnabled cfg) in
  let? unprotected := boolVar "ALLOW_UNPROTECTED_MEMORY" (AllowUnprotectedMemory cfg) in
  let? skew := durationVar "CONTROL_PLANE_SKEW" (ControlPlaneSkew cfg) in
  let? loginRate := floatVar "LOGIN_RATE_PER_MINUTE" (LoginRatePerMinute cfg) in
  let? loginBurst := intVar "LOGIN_BURST" (LoginBurst cfg) in
  let? requestRate := floatVar "REQUEST_RATE_PER_MINUTE" (RequestRatePerMinute cfg) in
  let? requestBurst := intVar "REQUEST_BURST" (RequestBurst cfg) in
  let? leaseTTL := durationVar "LEASE_TTL" (LeaseTTL cfg) in
  let? sweepInterval := durationVar "SWEEP_INTERVAL" (SweepInterval cfg) in
  let? sweepBatch := intVar "SWEEP_BATCH" (SweepBatch cfg) in
  let loaded := MkConfig (stringVar "LISTEN_ADDR" (ListenAddr cfg)) (stringVar "DATA_DIR" (DataDir cfg))
    (stringVar "TLS_CERT_FILE" (TLSCertFile cfg)) (stringVar "TLS_KEY_FILE" (TLSKeyFile cfg)) (stringVar "LOG_LEVEL" (LogLevel cfg))
    timeout insecure unprotected ui (stringVar "CONTROL_PLANE_ISSUER" (ControlPlaneIssuer cfg))
    (stringVar "CONTROL_PLANE_AUDIENCE" (ControlPlaneAudience cfg)) (stringVar "CONTROL_PLANE_JWKS_FILE" (ControlPlaneJWKSFile cfg)) skew
    loginRate loginBurst requestRate requestBurst leaseTTL sweepInterval sweepBatch (stringVar "AUDIT_FILE" (AuditFile cfg)) in
  let? _ := Validate loaded in
  Ok loaded.
End load.

(** ** What the server may rely on after loading *)
Lemma problem_if_nil b m : problem_if b m = [] ↔ b = false.
Proof. by destruct b. Qed.
Lemma Validate_Ok c : Validate c = Ok tt ↔ problems c = [].
Proof. unfold Validate. by destruct (problems c). Qed.
Lemma Load_inv getenv c : Load getenv = Ok c → problems c = [].
Proof.
  unfold Load. repeat (match goal with |- result_bind ?r _ = _ → _ => destruct r eqn:?; cbn [result_bind]; [|done] end).
  intros [= <-]. apply Validate_Ok. by match goal with H : Validate _ = Ok ?u |- _ => destruct u end.
Qed.
(** The transport is settled: certificates or plain HTTP, never both. *)
Definition transport_settled (c : Config) : Prop :=
  if AllowInsecureHTTP c then TLSCertFile c = "" ∧ TLSKeyFile c = "" else TLSCertFile c ≠ "" ∧ TLSKeyFile c ≠ "".
Record safe (c : Config) : Prop := {
  safe_listen : ListenAddr c ≠ "";
  safe_level : ∃ level, ParseLevel (LogLevel c) = Ok level;
  safe_transport : transport_settled c;
  safe_data : ∃ rest, DataDir c = "/" +:+ rest;
  safe_audit : AuditFile c ≠ "" → ∃ rest, AuditFile c = "/" +:+ rest;
  safe_durations : 0 < ShutdownTimeout c ∧ 0 < LeaseTTL c ∧ 0 < SweepInterval c;
  safe_batch : 1 ≤ SweepBatch c;
  safe_issuer : InstanceLoginConfigured c = true →
    ControlPlaneIssuer c ≠ "" ∧ ControlPlaneJWKSFile c ≠ "" ∧ ControlPlaneAudience c ≠ "" ∧ 0 ≤ ControlPlaneSkew c;
  safe_logins : ∃ l, ratelimit.New (ratelimit.MkOptions (LoginRatePerMinute c) (LoginBurst c) 0) = Ok l;
  safe_requests : ∃ l, ratelimit.New (ratelimit.MkOptions (RequestRatePerMinute c) (RequestBurst c) 0) = Ok l }.
Lemma limiter_accepts rate burst : le_zero rate = false → 1 ≤ burst → ∃ l, ratelimit.New (ratelimit.MkOptions rate burst 0) = Ok l.
Proof.
  unfold le_zero. intros Hr Hb. unfold ratelimit.New. cbn [ratelimit.PerMinute ratelimit.Burst ratelimit.o_MaxKeys]. rewrite Hr.
  replace (burst <? 1) with false by (symmetry; apply Z.ltb_ge; lia). by eexists.
Qed.
Lemma eqb_neq s t : String.eqb s t = false ↔ s ≠ t.
Proof. apply String.eqb_neq. Qed.

Lemma ParseLevel_error name e : ParseLevel name = Err e → e ≠ [].
Proof. unfold ParseLevel. repeat case_match; by intros [= <-]. Qed.

(** C36. A configuration that loads is one the server can start with: the transport
  is settled, the data directory is absolute, every duration and batch is
  positive, instance logins are configured completely or not at all, and the
  limiters accept their rates; the server has an address to listen on, a log level
  that parses, and an audit file that is absolute where one is named. *)
Theorem Load_safe (getenv : string → string) (c : Config) (Hload : Load getenv = Ok c) : safe c.
Proof.
  apply Load_inv in Hload. unfold problems in Hload.
  repeat match type of Hload with _ ++ _ = [] => apply app_nil in Hload as [?Hp Hload] end.
  rewrite !problem_if_nil in *.
  repeat match goal with
         | H : _ || _ = false |- _ => apply orb_false_iff in H as [? ?]
         | H : (_ <=? _) = false |- _ => apply Z.leb_gt in H
         | H : (_ <? _) = false |- _ => apply Z.ltb_ge in H
         end.
  split; [| | | | |done|done| |by apply limiter_accepts|by apply limiter_accepts].
  - by apply eqb_neq.
  - pose proof (ParseLevel_error (LogLevel c)) as Hl. destruct (ParseLevel (LogLevel c)) as [level|e]; [by exists level|by destruct (Hl e)].
  - unfold transport_settled. destruct (AllowInsecureHTTP c), (String.eqb_spec (TLSCertFile c) ""), (String.eqb_spec (TLSKeyFile c) ""); done.
  - destruct (String.eqb (DataDir c) ""); [done|]. apply problem_if_nil, negb_false_iff in Hp0. by apply HasPrefix_spec in Hp0.
  - intros Ha. apply HasPrefix_spec. apply andb_false_iff in Hp9 as [Hp9|Hp9]; apply negb_false_iff in Hp9; [by apply String.eqb_eq in Hp9|done].
  - intros Hi. rewrite Hi in Hp3. destruct (String.eqb_spec (ControlPlaneIssuer c) ""); [done|].
    destruct (String.eqb_spec (ControlPlaneJWKSFile c) ""); [done|]. destruct (String.eqb_spec (ControlPlaneAudience c) ""); [done|].
    apply problem_if_nil, Z.ltb_ge in Hp3. done.
Qed.
(** A setting that is only spaces is the default. *)
Lemma stringVar_default getenv name fallback : TrimSpace (getenv (envPrefix +:+ name)) = "" → stringVar getenv name fallback = fallback.
Proof. intros E. unfold stringVar. by rewrite E. Qed.

(** ** Example: plain HTTP for local development *)
Local Definition environment (name : string) : string :=
  if String.eqb name "MARSEC_ALLOW_INSECURE_HTTP" then "true"
  else if String.eqb name "MARSEC_DATA_DIR" then "  /srv/marsec  "
  else if String.eqb name "MARSEC_LEASE_TTL" then "1h30m"
  else if String.eqb name "MARSEC_LOGIN_RATE_PER_MINUTE" then " 2.5 " else "".
Local Definition loaded : Config :=
  MkConfig "127.0.0.1:8200" "/srv/marsec" "" "" "info" (15 * Second) true false false "" "marstack-secrets" "" (30 * Second)
    (S754_finite false 5629499534213120 (-51)) 5 (float64 600) 60 (90 * Minute) (5 * Minute) 500 "".
Lemma loaded_ok : Load environment = Ok loaded.
Proof. by vm_compute. Qed.
Lemma Load_safe_witness : Load environment = Ok loaded ∧ safe loaded.
Proof. split; [exact loaded_ok|exact (Load_safe environment loaded loaded_ok)]. Defined.
(** NaN passes every test against zero. *)
Lemma Load_nan : ∃ c, Load (fun name => if String.eqb name "MARSEC_LOGIN_RATE_PER_MINUTE" then "nan" else environment name) = Ok c ∧
  LoginRatePerMinute c = S754_nan.
Proof. eexists. split; by vm_compute. Qed.
(** The first value that does not parse hides the others. *)
Lemma Load_first : Load (fun name => if String.eqb name "MARSEC_SHUTDOWN_TIMEOUT" then "soon" else "maybe") = Err ["is not a duration"].
Proof. by vm_compute. Qed.
End config.
