(* ===== verification/Lease.v ===== *)
(** modules/lease: leases on secret versions (manager.go) and their handlers
  (http.go).  Expiry times are compared the way the code compares them: as
  texts inside SQL, as instants in Go. *)
From Stdlib Require Import ZArith Lia Ascii.
From S2P Require Import Prelude GoStrings GoTime Json World Policy Httpx AuditTrail Interfaces.

Module lease.
Definition DefaultTTL : Z := 30 * Minute.
Definition MaximumTTL : Z := 24 * Hour.
Definition Retention : Z := 24 * Hour.
Definition maxTenantLen : Z := 64.
Definition maxPathLen : Z := 512.
Definition suffixLength : nat := 12.

Definition ErrNotFound : string := "lease: no such lease".
Definition ErrNotHolder : string := "lease: the lease belongs to another identity".
Definition ErrGone : string := "lease: the lease has expired or been revoked".
Definition ErrInvalidTenant : string := "lease: tenant is empty or too long".
Definition ErrInvalidPath : string := "lease: path is empty or too long".
Definition ErrInvalidTTL : string := "lease: time to live must be positive and within the maximum".
Definition ErrInvalidBatch : string := "lease: batch size must be at least one".
Definition constraint_error : string := "sqlite: UNIQUE constraint failed: lease_records".
Definition time_error : string := "time: cannot parse the stored text".

Record Lease := MkLeaseInfo {
  ID : string; Tenant : string; IdentityID : string; Path : string; Version : Z; IssuedAt : Z; ExpiresAt : Z }.
Record Revocation := MkRevocation { Leases_ : Z; Identities : list string; Tokens : Z }.

Definition prefixCeiling (prefix : string) : string := prefix +:+ ceiling_rune.
Definition validateTenant (tenant : string) : result unit :=
  if String.eqb tenant "" || (maxTenantLen <? len tenant) then Err [ErrInvalidTenant] else Ok tt.
Definition validate (tenant path : string) (ttl : Z) : result unit :=
  let? _ := validateTenant tenant in
  if String.eqb path "" || (maxPathLen <? len path) || Contains path ceiling_rune then Err [ErrInvalidPath]
  else if (ttl <=? 0) || (MaximumTTL <? ttl) then Err [ErrInvalidTTL]
  else Ok tt.
Definition newID (path : string) : M World string :=
  let! b := rand_read 26 in ret (path +:+ "/" +:+ String.substring 0 suffixLength (httpx.rand_Text b)).

Definition parse_time (s : string) : result Z := match ParseTime s with Some t => Ok t | None => Err [time_error] end.
Definition scanLease (kv : string * LeaseRow) : result Lease :=
  let '(id, row) := kv in
  let? issued := parse_time (lr_issued_at row) in
  let? expires := parse_time (lr_expires_at row) in
  Ok (MkLeaseInfo id (lr_tenant row) (lr_identity_id row) (lr_path row) (lr_version row) issued expires).

(** ** Statements *)
Definition unrevoked (row : LeaseRow) : bool := match lr_revoked_at row with None => true | Some _ => false end.
Definition held_by (tenant identityID path : string) (version : Z) (row : LeaseRow) : bool :=
  String.eqb (lr_tenant row) tenant && String.eqb (lr_identity_id row) identityID &&
  String.eqb (lr_path row) path && (lr_version row =? version) && unrevoked row.
Definition rows_where (p : LeaseRow → bool) (d : Db) : list (string * LeaseRow) :=
  filter (fun kv => p kv.2 = true) (map_to_list (lease_records d)).
Definition revoke_row (now : string) (row : LeaseRow) : LeaseRow :=
  MkLease (lr_tenant row) (lr_identity_id row) (lr_path row) (lr_version row) (lr_issued_at row) (lr_expires_at row) (Some now).
Definition extend_row (expiry : string) (row : LeaseRow) : LeaseRow :=
  MkLease (lr_tenant row) (lr_identity_id row) (lr_path row) (lr_version row) (lr_issued_at row) expiry (lr_revoked_at row).
(** [UPDATE lease_records SET revoked_at = now WHERE p], and how many rows matched. *)
Definition update_where (p : LeaseRow → bool) (f : LeaseRow → LeaseRow) (d : Db) : result Z * Db :=
  (Ok (blen (rows_where p d)),
   set_lease_records ((fun row => if p row then f row else row) <$> lease_records d) d).
Definition update_id (id : string) (p : LeaseRow → bool) (f : LeaseRow → LeaseRow) (d : Db) : result Z * Db :=
  match lease_records d !! id with
  | Some row => if p row then (Ok 1, set_lease_records (<[id := f row]> (lease_records d)) d) else (Ok 0, d)
  | None => (Ok 0, d)
  end.
(** Primary key, and the unique index over holders of what is not revoked. *)
Definition insert_lease (id : string) (row : LeaseRow) (d : Db) : result unit * Db :=
  match lease_records d !! id with
  | Some _ => (Err [constraint_error], d)
  | None =>
      match rows_where (held_by (lr_tenant row) (lr_identity_id row) (lr_path row) (lr_version row)) d with
      | [] => (Ok tt, set_lease_records (<[id := row]> (lease_records d)) d)
      | _ => (Err [constraint_error], d)
      end
  end.

Section manager.
Context `{Revoker}.

(** [QueryRow]: the first row, if any. *)
Definition activeHolding (tenant identityID path : string) (version now : Z) : M World (option Lease) :=
  let! rows := query (rows_where (fun row =>
    held_by tenant identityID path version row && str_lt (FormatTime now) (lr_expires_at row))) in
  match rows with
  | [] => ret None
  | kv :: _ => let! held := lift_result (scanLease kv) in ret (Some held)
  end.
Definition read (id : string) : M World Lease :=
  let! row := query (fun d => lease_records d !! id) in
  match row with
  | Some row => if unrevoked row then lift_result (scanLease (id, row)) else fail [ErrGone]
  | None => fail [ErrGone]
  end.

(** The body of the transaction of [Issue]. *)
Definition issue_body (tenant identityID path : string) (version ttl : Z) : M World Lease :=
  let! t := now in
  let expiry := t + ttl in
  let! existing := activeHolding tenant identityID path version t in
  match existing with
  | Some existing =>
      if ExpiresAt existing <? expiry
      then exec (update_id (ID existing) (fun _ => true) (extend_row (FormatTime expiry))) ;!
           ret (MkLeaseInfo (ID existing) (Tenant existing) (IdentityID existing) (Path existing) (Version existing)
                  (IssuedAt existing) expiry)
      else ret existing
  | None =>
      exec (update_where (held_by tenant identityID path version) (revoke_row (FormatTime t))) ;!
      let! id := newID path in
      exec (insert_lease id (MkLease tenant identityID path version (FormatTime t) (FormatTime expiry) None)) ;!
      ret (MkLeaseInfo id tenant identityID path version t expiry)
  end.
Definition Manager_Issue (tenant identityID path : string) (version ttl : Z) : M World Lease :=
  lift_result (validate tenant path ttl) ;!
  with_tx (issue_body tenant identityID path version ttl).

Definition Renew (id identityID : string) (ttl : Z) : M World Lease :=
  if (ttl <=? 0) || (MaximumTTL <? ttl) then fail [ErrInvalidTTL]
  else
    let! held := read id in
    if negb (String.eqb (IdentityID held) identityID) then fail [ErrNotHolder]
    else
      let! t := now in
      if negb (t <? ExpiresAt held) then fail [ErrGone]
      else
        let expiry := t + ttl in
        exec (update_id id unrevoked (extend_row (FormatTime expiry))) ;!
        ret (MkLeaseInfo (ID held) (Tenant held) (IdentityID held) (Path held) (Version held) (IssuedAt held) expiry).

Definition Revoke (id : string) : M World unit :=
  let! t := now in
  let! affected := exec (update_id id unrevoked (revoke_row (FormatTime t))) in
  if affected =? 0
  then let! present := query (fun d => lease_records d !! id) in
       match present with None => fail [ErrNotFound] | Some _ => ret tt end
  else ret tt.

(** [path >= prefix AND path < prefixCeiling(prefix)] *)
Definition under (tenant prefix : string) (row : LeaseRow) : bool :=
  String.eqb (lr_tenant row) tenant && str_le prefix (lr_path row) && str_lt (lr_path row) (prefixCeiling prefix) && unrevoked row.
(** [GROUP BY identity_id ORDER BY identity_id], and the sum of the counts. *)
Definition holders (tenant prefix : string) (d : Db) : list string * Z :=
  let rows := rows_where (under tenant prefix) d in
  (order_by id (remove_dups ((fun kv => lr_identity_id kv.2) <$> rows)), blen rows).
Definition holdersUnder (tenant prefix : string) : M World (list string * Z) := query (holders tenant prefix).
Fixpoint revoke_tokens (holders : list string) (tokens : Z) : M World Z :=
  match holders with
  | [] => ret tokens
  | holder :: holders => let! n := RevokeIdentity holder in revoke_tokens holders (tokens + n)
  end.
Definition revokeHolders (leases : Z) (holders : list string) : M World Revocation :=
  let! tokens := revoke_tokens holders 0 in ret (MkRevocation leases holders tokens).

Definition RevokePrefix (tenant prefix : string) : M World Revocation :=
  lift_result (validateTenant tenant) ;!
  if String.eqb prefix "" || (maxPathLen <? len prefix) then fail [ErrInvalidPath]
  else
    let! found := holdersUnder tenant prefix in
    let! t := now in
    exec (update_where (under tenant prefix) (revoke_row (FormatTime t))) ;!
    revokeHolders (snd found) (fst found).

Definition of_identity (tenant identityID : string) (row : LeaseRow) : bool :=
  String.eqb (lr_tenant row) tenant && String.eqb (lr_identity_id row) identityID && unrevoked row.
Definition Manager_RevokeIdentity (tenant identityID : string) : M World Revocation :=
  lift_result (validateTenant tenant) ;!
  let! leases := query (fun d => blen (rows_where (of_identity tenant identityID) d)) in
  let! t := now in
  exec (update_where (of_identity tenant identityID) (revoke_row (FormatTime t))) ;!
  revokeHolders leases [identityID].

(** [ORDER BY path, identity_id]; the order among equals is not specified. *)
Definition le_path_identity (a b : string * LeaseRow) : bool :=
  if String.eqb (lr_path a.2) (lr_path b.2) then str_le (lr_identity_id a.2) (lr_identity_id b.2)
  else str_le (lr_path a.2) (lr_path b.2).
Fixpoint scan_all (rows : list (string * LeaseRow)) : result (list Lease) :=
  match rows with
  | [] => Ok []
  | row :: rows => let? held := scanLease row in let? rest := scan_all rows in Ok (held :: rest)
  end.
Definition Active (tenant identityID : string) : M World (list Lease) :=
  lift_result (validateTenant tenant) ;!
  let! t := now in
  let! rows := query (fun d => sort_with le_path_identity (rows_where (fun row =>
    String.eqb (lr_tenant row) tenant && unrevoked row && str_lt (FormatTime t) (lr_expires_at row)
    && (String.eqb identityID "" || String.eqb (lr_identity_id row) identityID)) d)) in
  lift_result (scan_all rows).
Definition CountActive : M World Z :=
  let! t := now in
  query (fun d => blen (rows_where (fun row => unrevoked row && str_lt (FormatTime t) (lr_expires_at row)) d)).

(** [DELETE ... WHERE id IN (SELECT id ... WHERE expires_at <= cutoff LIMIT batch)]; which
  expired rows fill a full batch is not specified. *)
Definition swept (cutoff : string) (batch : Z) (d : Db) : list string :=
  take (Z.to_nat batch) (rows_where (fun row => str_le (lr_expires_at row) cutoff) d).*1.
Definition delete_swept (cutoff : string) (batch : Z) (d : Db) : result Z * Db :=
  let ids := swept cutoff batch d in
  (Ok (blen ids), set_lease_records (filter (fun kv => kv.1 ∉ ids) (lease_records d)) d).
Definition Sweep (batch : Z) : M World Z :=
  if batch <? 1 then fail [ErrInvalidBatch]
  else let! t := now in exec (delete_swept (FormatTime (t - Retention)) batch).
End manager.

(** ** http.go *)
Section http.
Context `{Revoker} `{Authorizer}.

Definition caller (r : Request) (k : authn.Identity → World → Response * World) : World → Response * World :=
  match Httpx.Identity r with
  | None => reply (httpx.Problem StatusUnauthorized "unauthenticated")
  | Some identity => k identity
  end.
Definition internal : World → Response * World := reply (httpx.Problem StatusInternalServerError "internal_error").
Definition refuse (e : list string) : World → Response * World :=
  if errors_Is e ErrGone || errors_Is e ErrNotFound || errors_Is e ErrNotHolder
  then reply (httpx.Problem StatusNotFound "not_found")
  else if errors_Is e ErrInvalidTTL || errors_Is e ErrInvalidPath || errors_Is e ErrInvalidTenant
  then reply (httpx.Problem StatusBadRequest "invalid_request")
  else internal.
Definition render (held : Lease) : json :=
  JObj [("lease_id", JStr (ID held)); ("path", JStr (Path held)); ("version", JNum (Itoa (Version held)));
        ("issued_at", JStr (RFC3339 (IssuedAt held))); ("expires_at", JStr (RFC3339 (ExpiresAt held)))].

Definition handleList : Handler := fun r =>
  caller r (fun identity =>
    run_or (Active (authn.Tenant identity) (authn.ID identity)) (fun _ => internal) (fun held =>
    reply (httpx.JSON StatusOK (JObj [("leases", JArr (render <$> held))])))).

Definition renewRequest_of (l : list (string * json)) : option (string * Z) :=
  id ← field_value ["lease_id"; "ttl"] "lease_id" to_str "" l;
  ttl ← field_value ["lease_id"; "ttl"] "ttl" to_int 0 l; Some (id, ttl).
(** The multiplication of a [time.Duration] wraps. *)
Definition requested_ttl (ttl : Z) : Z := if 0 <? ttl then wrap64 (ttl * Second) else DefaultTTL.
Definition handleRenew : Handler := fun r =>
  caller r (fun identity =>
    match httpx.DecodeJSON ["lease_id"; "ttl"] renewRequest_of (Body r) with
    | Err _ => reply (httpx.Problem StatusBadRequest "malformed_body")
    | Ok request =>
        run_or (Renew (fst request) (authn.ID identity) (requested_ttl (snd request))) refuse (fun renewed =>
        reply (httpx.JSON StatusOK (render renewed)))
    end).

Definition revokeRequest_of (l : list (string * json)) : option string :=
  field_value ["lease_id"] "lease_id" to_str "" l.
Definition handleRevoke : Handler := fun r =>
  caller r (fun identity =>
    match httpx.DecodeJSON ["lease_id"] revokeRequest_of (Body r) with
    | Err _ => reply (httpx.Problem StatusBadRequest "malformed_body")
    | Ok id =>
        run_or (read id) refuse (fun held =>
        if negb (String.eqb (IdentityID held) (authn.ID identity)) || negb (String.eqb (Tenant held) (authn.Tenant identity))
        then reply (httpx.Problem StatusNotFound "not_found")
        else run_or (Revoke id) refuse (fun _ => reply httpx.no_content))
    end).

Definition prefixRequest_of (l : list (string * json)) : option string :=
  field_value ["prefix"] "prefix" to_str "" l.
Definition revocationResponse (v : Revocation) : json :=
  JObj [("leases", JNum (Itoa (Leases_ v))); ("identities", JArr (JStr <$> Identities v)); ("tokens", JNum (Itoa (Tokens v)))].
Definition handleRevokePrefix : Handler := fun r =>
  caller r (fun identity =>
    match httpx.DecodeJSON ["prefix"] prefixRequest_of (Body r) with
    | Err _ => reply (httpx.Problem StatusBadRequest "malformed_body")
    | Ok prefix =>
        run_or (Permitted identity (authn.Tenant identity) prefix) (fun _ => internal) (fun permitted =>
        if negb permitted then reply (httpx.Problem StatusForbidden "forbidden")
        else run_or (RevokePrefix (authn.Tenant identity) prefix) refuse (fun revocation =>
             reply (httpx.JSON StatusOK (revocationResponse revocation))))
    end).
End http.

(** ** One lease per holding *)
Definition holding (row : LeaseRow) : string * string * string * Z :=
  (lr_tenant row, lr_identity_id row, lr_path row, lr_version row).
Definition lease_ok (d : Db) : Prop := ∀ id1 id2 r1 r2,
  lease_records d !! id1 = Some r1 → lease_records d !! id2 = Some r2 →
  unrevoked r1 = true → unrevoked r2 = true → holding r1 = holding r2 → id1 = id2.
(** Every row that is not revoked was there before, for the same holding. *)
Definition shrinks (d d' : Db) : Prop := ∀ id r', lease_records d' !! id = Some r' → unrevoked r' = true →
  ∃ r, lease_records d !! id = Some r ∧ unrevoked r = true ∧ holding r = holding r'.
Lemma lease_ok_shrinks d d' : lease_ok d → shrinks d d' → lease_ok d'.
Proof.
  intros Hd Hs id1 id2 r1 r2 H1 H2 U1 U2 Hh.
  destruct (Hs _ _ H1 U1) as (s1&?&?&?). destruct (Hs _ _ H2 U2) as (s2&?&?&?). eapply Hd; eauto. congruence.
Qed.
Lemma held_by_spec t i p v row : held_by t i p v row = true ↔ holding row = (t, i, p, v) ∧ unrevoked row = true.
Proof.
  unfold held_by, holding. rewrite !andb_true_iff, !String.eqb_eq, Z.eqb_eq. split.
  - intros ((((->&->)&->)&->)&?). done.
  - intros [[= -> -> -> ->] ?]. done.
Qed.
Lemma elem_of_rows_where p d id row : (id, row) ∈ rows_where p d ↔ lease_records d !! id = Some row ∧ p row = true.
Proof. unfold rows_where. rewrite list_elem_of_filter, elem_of_map_to_list. cbn. tauto. Qed.

Lemma update_where_shrinks p ts d n d' : update_where p (revoke_row ts) d = (Ok n, d') → shrinks d d'.
Proof.
  intros [= _ <-] id r'. cbn. rewrite lookup_fmap. intros Hr. apply fmap_Some in Hr as (r&Hr&->). intros Hu.
  destruct (p r); [done|]. eauto.
Qed.
Lemma update_id_shrinks id p f d n d' : (∀ r, holding (f r) = holding r) → (∀ r, unrevoked (f r) = true → unrevoked r = true) →
  update_id id p f d = (Ok n, d') → shrinks d d'.
Proof.
  intros Hh Hu. unfold update_id. destruct (lease_records d !! id) as [row|] eqn:E; [destruct (p row)|];
    intros [= _ <-] j r' Hj Hj'; [|by exists r'..].
  cbn in Hj. apply lookup_insert_Some in Hj as [[<- <-]|[_ Hj]]; [|by exists r']. exists row. eauto.
Qed.
Lemma extend_shrinks id p e d n d' : update_id id p (extend_row e) d = (Ok n, d') → shrinks d d'.
Proof. by apply update_id_shrinks. Qed.
Lemma revoke_shrinks id p e d n d' : update_id id p (revoke_row e) d = (Ok n, d') → shrinks d d'.
Proof. by apply update_id_shrinks. Qed.
Lemma insert_lease_ok id row d d' : lease_ok d → insert_lease id row d = (Ok tt, d') → lease_ok d'.
Proof.
  intros Hd. unfold insert_lease. destruct (lease_records d !! id) eqn:E; [done|].
  destruct (rows_where _ d) eqn:Ew; [|done]. intros [= <-].
  assert (∀ j r, lease_records d !! j = Some r → unrevoked r = true → holding r ≠ holding row) as Hfree.
  { intros j r Hj Hu Hh. assert ((j, r) ∈ rows_where (held_by (lr_tenant row) (lr_identity_id row) (lr_path row) (lr_version row)) d) as Hin.
    { apply elem_of_rows_where. split; [done|]. by apply held_by_spec. }
    rewrite Ew in Hin. by apply elem_of_nil in Hin. }
  intros i1 i2 r1 r2. cbn. rewrite !lookup_insert_Some. intros [[<- <-]|[N1 H1]] [[<- <-]|[N2 H2]] U1 U2 Hh; try done.
  - by destruct (Hfree _ _ H2 U2).
  - by destruct (Hfree _ _ H1 U1).
  - by eapply Hd.
Qed.
Lemma delete_swept_shrinks cutoff batch d n d' : delete_swept cutoff batch d = (Ok n, d') → shrinks d d'.
Proof. intros [= _ <-] id r'. cbn. intros Hr Hu. apply map_lookup_filter_Some in Hr as [Hr _]. eauto. Qed.

(** What the revoker must leave alone. *)
Class RevokerLaws (R : Revoker) := {
  revoker_leases : ∀ id w, lease_records (database (snd (RevokeIdentity id w))) = lease_records (database w) }.

Section theory.
Context `{RevokerLaws}.
Inductive lease_step : World → World → Prop :=
| ls_issue t i p v ttl o w w' : Manager_Issue t i p v ttl w = (o, w') → lease_step w w'
| ls_renew id i ttl o w w' : Renew id i ttl w = (o, w') → lease_step w w'
| ls_revoke id o w w' : Revoke id w = (o, w') → lease_step w w'
| ls_prefix t p o w w' : RevokePrefix t p w = (o, w') → lease_step w w'
| ls_identity t i o w w' : Manager_RevokeIdentity t i w = (o, w') → lease_step w w'
| ls_active t i o w w' : Active t i w = (o, w') → lease_step w w'
| ls_count o w w' : CountActive w = (o, w') → lease_step w w'
| ls_sweep n o w w' : Sweep n w = (o, w') → lease_step w w'
| ls_other w w' : lease_records (database w') = lease_records (database w) → lease_step w w'.
Inductive lease_steps : World → World → Prop :=
| ls_refl w : lease_steps w w
| ls_step w1 w2 w3 : lease_steps w1 w2 → lease_step w2 w3 → lease_steps w1 w3.

Lemma keeps_exec_shrinks {A} (f : Db → result A * Db) : (∀ d a d', f d = (Ok a, d') → shrinks d d') → keeps_db lease_ok (exec f).
Proof. intros Hf. apply keeps_db_exec. intros d a d' Hd E. eapply lease_ok_shrinks; eauto. Qed.
Lemma keeps_tokens hs n : keeps_db lease_ok (revoke_tokens hs n).
Proof.
  revert n. induction hs as [|h hs IH]; intros n; [by apply keeps_db_same; auto with world|]. cbn [revoke_tokens].
  apply keeps_db_bind; [|done]. intros w Hw. unfold lease_ok in *. by rewrite revoker_leases.
Qed.
Lemma same_db_active_holding t i p v n : same_db (activeHolding t i p v n).
Proof. unfold activeHolding. apply same_db_bind; [auto with world|intros [|kv rows]]; auto with world. Qed.
Lemma same_db_read id : same_db (read id).
Proof. unfold read. apply same_db_bind; [auto with world|intros [r|]]; [destruct (unrevoked r)|]; auto with world. Qed.
Ltac keeps_here := first [apply keeps_exec_shrinks; intros; first [by eapply update_where_shrinks|by eapply extend_shrinks|by eapply revoke_shrinks|by eapply delete_swept_shrinks]
  | apply keeps_db_same; solve [auto using same_db_active_holding, same_db_read with world]].
Lemma keeps_Issue t i p v ttl : keeps_db lease_ok (Manager_Issue t i p v ttl).
Proof.
  unfold Manager_Issue, issue_body. apply keeps_db_bind; [keeps_here|intros _]. apply keeps_db_with_tx.
  apply keeps_db_bind; [keeps_here|intros n]. apply keeps_db_bind; [keeps_here|intros [l|]].
  - destruct (_ <? _); [|keeps_here]. apply keeps_db_bind; [|intros; keeps_here]. keeps_here.
  - apply keeps_db_bind; [keeps_here|intros _]. apply keeps_db_bind; [keeps_here|intros id].
    apply keeps_db_bind; [|intros; keeps_here]. apply keeps_db_exec. intros d [] d' Hd E. by eapply insert_lease_ok.
Qed.
Lemma step_keeps_ok w w' : lease_step w w' → lease_ok (database w) → lease_ok (database w').
Proof.
  intros Hs Hw. destruct Hs as [t i p v ttl o w w' E|id i ttl o w w' E|id o w w' E|t p o w w' E|t i o w w' E|t i o w w' E|o w w' E|n o w w' E|w w' E];
    [change w' with (snd (o, w')); rewrite <- E; clear E; revert w Hw..|].
  - apply keeps_Issue.
  - unfold Renew. destruct (_ || _); [keeps_here|]. apply keeps_db_bind; [keeps_here|intros l].
    destruct (negb _); [keeps_here|]. apply keeps_db_bind; [keeps_here|intros n]. destruct (negb _); [keeps_here|].
    apply keeps_db_bind; [keeps_here|intros; keeps_here].
  - unfold Revoke. apply keeps_db_bind; [keeps_here|intros n]. apply keeps_db_bind; [|intros a].
    + keeps_here.
    + destruct (_ =? _); [|keeps_here]. apply keeps_db_bind; [keeps_here|intros [r|]]; keeps_here.
  - unfold RevokePrefix, holdersUnder, revokeHolders. apply keeps_db_bind; [keeps_here|intros _]. destruct (_ || _); [keeps_here|].
    apply keeps_db_bind; [keeps_here|intros f]. apply keeps_db_bind; [keeps_here|intros n].
    apply keeps_db_bind; [keeps_here|intros _]. apply keeps_db_bind; [apply keeps_tokens|intros; keeps_here].
  - unfold Manager_RevokeIdentity, revokeHolders. apply keeps_db_bind; [keeps_here|intros _].
    apply keeps_db_bind; [keeps_here|intros f]. apply keeps_db_bind; [keeps_here|intros n].
    apply keeps_db_bind; [keeps_here|intros _]. apply keeps_db_bind; [apply keeps_tokens|intros; keeps_here].
  - unfold Active. apply keeps_db_bind; [keeps_here|intros _]. apply keeps_db_bind; [keeps_here|intros n].
    apply keeps_db_bind; [keeps_here|intros; keeps_here].
  - unfold CountActive. apply keeps_db_bind; [keeps_here|intros; keeps_here].
  - unfold Sweep. destruct (_ <? _); [keeps_here|]. apply keeps_db_bind; [keeps_here|intros; keeps_here].
  - unfold lease_ok. by rewrite E.
Qed.

(** C29. Whatever is issued, renewed, revoked and swept, an identity holds at
  most one lease that is not revoked on a version of a path. *)
Theorem lease_invariant (w0 w : World) (Hempty : lease_records (database w0) = ∅) (Hsteps : lease_steps w0 w) :
  lease_ok (database w).
Proof.
  induction Hsteps as [w|w1 w2 w3 _ IH Hs].
  - intros id1 id2 r1 r2 H1. by rewrite Hempty, lookup_empty in H1.
  - eapply step_keeps_ok; [exact Hs|]. by apply IH.
Qed.

Definition active_at (t : Z) (row : LeaseRow) : bool := str_lt (FormatTime t) (lr_expires_at row).
Lemma activeHolding_Ok t i p v n w o w' : activeHolding t i p v n w = (Ok o, w') → w' = tick w ∧
  match o with
  | None => ∀ id row, lease_records (database w) !! id = Some row → held_by t i p v row = true → active_at n row = false
  | Some l => ∃ row, lease_records (database w) !! ID l = Some row ∧ held_by t i p v row = true ∧ scanLease (ID l, row) = Ok l
  end.
Proof.
  unfold activeHolding. intros E. apply bind_ok_inv in E as (rows&w1&Eq&E). apply query_Ok in Eq as [-> ->].
  destruct (rows_where _ (database w)) as [|[id row] rows] eqn:Er.
  - injection E as <- <-. split; [done|]. intros id row Hr Hh. destruct (active_at n row) eqn:Ea; [|done]. exfalso.
    assert ((id, row) ∈ @nil (string * LeaseRow)) as Hin; [|by apply elem_of_nil in Hin].
    rewrite <- Er. apply elem_of_rows_where. split; [done|]. by rewrite Hh.
  - unfold bind, lift_result in E. destruct (scanLease (id, row)) as [l|] eqn:El; [|done]. injection E as <- <-.
    split; [done|]. assert ((id, row) ∈ (id, row) :: rows) as Hin by left. rewrite <- Er in Hin.
    apply elem_of_rows_where in Hin as [Hr [Hh _]%andb_true_iff].
    assert (ID l = id) as ->; [|by exists row]. unfold scanLease in El.
    destruct (parse_time _); [|done]. cbn in El. destruct (parse_time _); [|done]. by injection El as <-.
Qed.
Lemma scanLease_fields id row l : scanLease (id, row) = Ok l →
  ID l = id ∧ Tenant l = lr_tenant row ∧ IdentityID l = lr_identity_id row ∧ Path l = lr_path row ∧ Version l = lr_version row ∧
  ParseTime (lr_expires_at row) = Some (ExpiresAt l).
Proof.
  unfold scanLease, parse_time. destruct (ParseTime (lr_issued_at row)); [|done]. cbn [result_bind].
  destruct (ParseTime (lr_expires_at row)) eqn:E; [|done]. cbn [result_bind]. intros [= <-]. done.
Qed.

(** What a successful [Issue] leaves, from the database before. *)
Definition issued (t i p : string) (v now ttl : Z) (d d' : Db) (l : Lease) : Prop :=
  (∃ row old, lease_records d !! ID l = Some row ∧ held_by t i p v row = true ∧ scanLease (ID l, row) = Ok old ∧
     ExpiresAt l = Z.max (ExpiresAt old) (now + ttl) ∧ ID l = ID old ∧ Tenant l = Tenant old ∧ IdentityID l = IdentityID old ∧
     Path l = Path old ∧ Version l = Version old ∧
     lease_records d' = if ExpiresAt old <? now + ttl then <[ID l := extend_row (FormatTime (now + ttl)) row]> (lease_records d) else lease_records d) ∨
  ((∀ id row, lease_records d !! id = Some row → held_by t i p v row = true → active_at now row = false) ∧
   (Tenant l, IdentityID l, Path l, Version l, ExpiresAt l) = (t, i, p, v, now + ttl) ∧
   lease_records d !! ID l = None ∧
   lease_records d' = <[ID l := MkLease t i p v (FormatTime now) (FormatTime (now + ttl)) None]>
     ((fun row => if held_by t i p v row then revoke_row (FormatTime now) row else row) <$> lease_records d)).
Lemma Manager_Issue_quiet t i p v ttl : quiet (Manager_Issue t i p v ttl).
Proof. unfold Manager_Issue, issue_body, activeHolding, newID. solve_quiet. Qed.
Lemma Manager_Issue_Ok t i p v ttl w l w' : Manager_Issue t i p v ttl w = (Ok l, w') →
  validate t p ttl = Ok tt ∧ issued t i p v (clock w 0%nat) ttl (database w) (database w') l.
Proof.
  unfold Manager_Issue, issue_body. intros E. apply bind_ok_inv in E as ([]&w1&Ev&E). injection Ev as Ev <-. split; [done|].
  apply with_tx_ok in E as (w1&w2&->&E&->). change (set_faults _ w) with (tick w) in E. change (database (set_faults _ w2)) with (database w2).
  rewrite bind_now in E. change (clock (tick w) 0%nat) with (clock w 0%nat) in E. set (n := clock w 0%nat) in *.
  apply bind_ok_inv in E as (o&w1&Ea&E). apply activeHolding_Ok in Ea as [-> Ho].
  change (database (set_clock _ (tick w))) with (database w) in Ho. destruct o as [old|].
  - destruct Ho as (row&Hr&Hh&Hs). left. pose proof (scanLease_fields _ _ _ Hs) as (HI&_).
    destruct (Z.ltb_spec (ExpiresAt old) (n + ttl)) as [Hlt|Hge].
    + apply bind_ok_inv in E as (k&w1&Ee&E). injection E as <- <-. apply exec_Ok in Ee as (d&Ed&->).
      unfold update_id in Ed. cbn [database tick set_clock set_faults] in Ed. rewrite Hr in Ed. injection Ed as <- <-.
      exists row, old. cbn [ID Tenant IdentityID Path Version ExpiresAt]. split_and!; try done; [lia|].
      destruct (Z.ltb_spec (ExpiresAt old) (n + ttl)); [done|lia].
    + injection E as <- <-. exists row, old. split_and!; try done; [lia|].
      destruct (Z.ltb_spec (ExpiresAt old) (n + ttl)); [lia|done].
  - right. apply bind_ok_inv in E as (k&w1&Ee&E). apply exec_Ok in Ee as (d&Ed&->). injection Ed as <- <-.
    apply bind_ok_inv in E as (id&w3&Eid&E). unfold newID, rand_read in Eid. injection Eid as <- <-.
    apply bind_ok_inv in E as ([]&w4&Ei&E). injection E as <- <-. apply exec_Ok in Ei as (d2&Ed2&->).
    set (id := _ +:+ _) in *. unfold insert_lease in Ed2. cbn [database set_entropy set_database tick set_faults set_clock lease_records set_lease_records] in Ed2.
    destruct ((_ <$> _) !! id) eqn:El; [done|]. destruct (rows_where _ _) eqn:Er; [|done]. injection Ed2 as <-.
    split; [done|]. split; [done|]. cbn [ID]. rewrite lookup_fmap in El. split; [by apply fmap_None in El|done].
Qed.

(** Issuing touches no other table. *)
Lemma Manager_Issue_keeps (P : Db → Prop) t i p v ttl : (∀ d m, P d → P (set_lease_records m d)) → keeps_db P (Manager_Issue t i p v ttl).
Proof.
  intros HP. assert (∀ id q f, keeps_db P (exec (update_id id q f))) as Hid.
  { intros id q f. apply keeps_db_exec. unfold update_id. intros d n d' Hd. repeat case_match; intros [= _ <-]; auto. }
  assert (∀ q f, keeps_db P (exec (update_where q f))) as Hwhere.
  { intros q f. apply keeps_db_exec. intros d n d' Hd [= _ <-]. auto. }
  assert (∀ id row, keeps_db P (exec (insert_lease id row))) as Hins.
  { intros id row. apply keeps_db_exec. unfold insert_lease. intros d n d' Hd. repeat case_match; intros [= _ <-]; auto. }
  unfold Manager_Issue, issue_body. apply keeps_db_bind; [keeps_here|intros _]. apply keeps_db_with_tx.
  apply keeps_db_bind; [keeps_here|intros n]. apply keeps_db_bind; [keeps_here|intros [l|]].
  - destruct (_ <? _); [|keeps_here]. apply keeps_db_bind; [apply Hid|intros; keeps_here].
  - apply keeps_db_bind; [apply Hwhere|intros _]. apply keeps_db_bind; [keeps_here|intros id].
    apply keeps_db_bind; [apply Hins|intros; keeps_here].
Qed.
Lemma Manager_Issue_only t i p v ttl w l w' : Manager_Issue t i p v ttl w = (Ok l, w') →
  database w' = set_lease_records (lease_records (database w')) (database w).
Proof.
  intros E. pose proof (Manager_Issue_keeps (fun d => d = set_lease_records (lease_records d) (database w)) t i p v ttl) as Hk.
  specialize (Hk ltac:(by intros d m ->) w). rewrite E in Hk. apply Hk. by destruct (database w).
Qed.
Lemma Manager_Issue_row t i p v ttl w l w' : Manager_Issue t i p v ttl w = (Ok l, w') →
  ∃ row, lease_records (database w') !! ID l = Some row ∧ held_by t i p v row = true.
Proof.
  intros E. destruct (Manager_Issue_Ok _ _ _ _ _ _ _ _ E) as [_ [(row&old&Hr&Hh&_&_&_&_&_&_&_&Hd)|(_&_&_&Hd)]]; rewrite Hd.
  - destruct (_ <? _); [|by exists row]. rewrite lookup_insert_eq. by eexists.
  - rewrite lookup_insert_eq. eexists. split; [done|]. by apply held_by_spec.
Qed.

(** Issuing returns a lease for what was asked that lasts at least as long
  as asked and is in the table; an active lease of the same holder on the same
  version is the one returned, and it is never shortened; leases on anything
  else are untouched. *)
Theorem Issue_extends (t i p : string) (v ttl : Z) (w w' : World) (l : Lease)
  (Hrun : Manager_Issue t i p v ttl w = (Ok l, w')) (Hok : lease_ok (database w))
  (Htime : representable (clock w 0%nat + ttl)) :
  let n := clock w 0%nat in
  (Tenant l, IdentityID l, Path l, Version l) = (t, i, p, v) ∧ n + ttl ≤ ExpiresAt l ∧
  (∃ row, lease_records (database w') !! ID l = Some row ∧ held_by t i p v row = true ∧
     ParseTime (lr_expires_at row) = Some (ExpiresAt l)) ∧
  (∀ id row e, lease_records (database w) !! id = Some row → held_by t i p v row = true → active_at n row = true →
     ParseTime (lr_expires_at row) = Some e → ID l = id ∧ ExpiresAt l = Z.max e (n + ttl)) ∧
  ∀ id row, lease_records (database w) !! id = Some row → holding row ≠ (t, i, p, v) →
    lease_records (database w') !! id = Some row.
Proof.
  destruct (Manager_Issue_Ok _ _ _ _ _ _ _ _ Hrun) as [_ [(row&old&Hr&Hh&Hs&He&_&HT&HI&HP&HV&Hd)|(Hnone&Hl&Hfree&Hd)]]; cbv zeta.
  - pose proof (scanLease_fields _ _ _ Hs) as (_&HT'&HI'&HP'&HV'&Hexp). pose proof (proj1 (held_by_spec _ _ _ _ _) Hh) as [Hhold Hu].
    split_and!.
    + unfold holding in Hhold. congruence.
    + lia.
    + rewrite Hd. destruct (Z.ltb_spec (ExpiresAt old) (clock w 0%nat + ttl)).
      * exists (extend_row (FormatTime (clock w 0%nat + ttl)) row). rewrite lookup_insert_eq. split_and!; [done|done|].
        change (ParseTime (FormatTime (clock w 0%nat + ttl)) = Some (ExpiresAt l)). rewrite ParseTime_FormatTime by done. f_equal. lia.
      * exists row. split_and!; [done|done|]. rewrite Hexp. f_equal. lia.
    + intros id row' e Hr' Hh' Ha' Hp'. apply held_by_spec in Hh' as [Hh' Hu'].
      assert (ID l = id) as <- by (eapply Hok; try done; congruence). split; [done|]. assert (row' = row) as -> by congruence.
      rewrite He. congruence.
    + intros id row' Hr' Hne. rewrite Hd. destruct (_ <? _); [|done]. rewrite lookup_insert_ne; [done|]. intros <-. congruence.
  - injection Hl as HT HI HP HV HE. split_and!.
    + congruence.
    + lia.
    + eexists. rewrite Hd, lookup_insert_eq. split_and!; [done|by apply held_by_spec|].
      rewrite HE. by apply ParseTime_FormatTime.
    + intros id row' e Hr' Hh' Ha' Hp'. by rewrite (Hnone _ _ Hr' Hh') in Ha'.
    + intros id row' Hr' Hne. rewrite Hd, lookup_insert_ne by congruence. rewrite lookup_fmap, Hr'. cbn.
      destruct (held_by t i p v row') eqn:Eh; [|done]. by apply held_by_spec in Eh as [Eh _].
Qed.

(** ** Revocation by prefix *)
Lemma under_spec tenant prefix row : under tenant prefix row = true ↔
  lr_tenant row = tenant ∧ unrevoked row = true ∧
  ∃ rest, lr_path row = prefix +:+ rest ∧ str_lt rest ceiling_rune = true.
Proof.
  unfold under, prefixCeiling. rewrite !andb_true_iff, String.eqb_eq. split.
  - intros (((->&H1)&H2)&?). split_and!; [done|done|]. by apply in_range.
  - intros (->&->&Hr). apply in_range in Hr as [-> ->]. by split_and!.
Qed.

Lemma tokens_leases hs n w o w' : revoke_tokens hs n w = (o, w') → lease_records (database w') = lease_records (database w).
Proof.
  revert n w. induction hs as [|h hs IH]; intros n w; [by intros [= _ <-]|]. cbn [revoke_tokens]. unfold bind.
  pose proof (revoker_leases h w) as Hl. destruct (RevokeIdentity h w) as [[k|e] w1]; cbn in Hl; [|by intros [= _ <-]].
  intros E. rewrite <- Hl. by eapply IH.
Qed.
(** C30. Revocation by prefix revokes every lease of the tenant that is not
  revoked and whose path continues the prefix with something below U+FFFF, and
  changes no other row; it reports exactly the identities that held them.  So
  the prefix itself and every path that goes on with a byte below 239 (a
  character up to U+EFFF) is reached, and a path that goes on with a byte from
  240 up (a character of four bytes) is missed. *)
Theorem RevokePrefix_exact (t p : string) (w w' : World) (v : Revocation) (Hrun : RevokePrefix t p w = (Ok v, w')) :
  let now := FormatTime (clock w 0%nat) in
  (∀ id row, lease_records (database w) !! id = Some row → lr_tenant row = t → unrevoked row = true →
     ∀ rest, lr_path row = p +:+ rest →
       lease_records (database w') !! id = Some (if str_lt rest ceiling_rune then revoke_row now row else row) ∧
       match rest with
       | EmptyString => lease_records (database w') !! id = Some (revoke_row now row)
       | String c _ => (byte_of_ascii c < 239 → lease_records (database w') !! id = Some (revoke_row now row)) ∧
                       (240 ≤ byte_of_ascii c → lease_records (database w') !! id = Some row)
       end) ∧
  (∀ id row, lease_records (database w) !! id = Some row →
     lr_tenant row ≠ t ∨ unrevoked row = false ∨ HasPrefix (lr_path row) p = false →
     lease_records (database w') !! id = Some row) ∧
  (∀ i, i ∈ Identities v ↔ ∃ id row, lease_records (database w) !! id = Some row ∧ under t p row = true ∧ lr_identity_id row = i) ∧
  NoDup (Identities v).
Proof.
  unfold RevokePrefix in Hrun. apply bind_ok_inv in Hrun as ([]&w1&Ev&E). injection Ev as _ <-.
  destruct (_ || _); [done|]. apply bind_ok_inv in E as (found&w1&Ef&E). apply query_Ok in Ef as [-> ->].
  rewrite bind_now in E. apply bind_ok_inv in E as (k&w1&Eu&E). apply exec_Ok in Eu as (d&Ed&->). injection Ed as <- <-.
  apply bind_ok_inv in E as (tokens&w2&Et&E). injection E as <- <-. apply tokens_leases in Et.
  cbn [database set_database tick set_clock set_faults lease_records set_lease_records clock] in Et.
  assert (∀ id row, lease_records (database w) !! id = Some row →
    lease_records (database w2) !! id = Some (if under t p row then revoke_row (FormatTime (clock w 0%nat)) row else row)) as Hall.
  { intros id row Hr. by rewrite Et, lookup_fmap, Hr. }
  cbv zeta. split_and!.
  - intros id row Hr Ht Hu rest Hp.
    assert (lease_records (database w2) !! id = Some (if str_lt rest ceiling_rune then revoke_row (FormatTime (clock w 0%nat)) row else row)) as Hx.
    { rewrite (Hall _ _ Hr). f_equal. destruct (str_lt rest ceiling_rune) eqn:E.
      - assert (under t p row = true) as ->; [|done]. apply under_spec. eauto.
      - destruct (under t p row) eqn:E2; [|done]. apply under_spec in E2 as (_&_&rest'&Hp'&Hl').
        rewrite Hp in Hp'. assert (rest = rest') as <- by by apply app_inj_len in Hp' as [_ ?]. congruence. }
    split; [done|]. destruct rest as [|c rest]; [done|]. split; intros Hc; rewrite Hx; f_equal.
    + by rewrite lt_ceiling_small.
    + by rewrite lt_ceiling_large.
  - intros id row Hr Hor. rewrite (Hall _ _ Hr). destruct (under t p row) eqn:E2; [|done].
    apply under_spec in E2 as (?&?&rest&Hp&_). destruct Hor as [?|[?|Hpre]]; [congruence..|].
    exfalso. apply not_true_iff_false in Hpre. apply Hpre, HasPrefix_spec. by exists rest.
  - intros i. cbn [Identities holders fst snd]. rewrite elem_of_order_by, elem_of_remove_dups, list_elem_of_fmap. split.
    + intros ([id row]&->&Hin). apply elem_of_rows_where in Hin as [??]. eauto.
    + intros (id&row&Hr&Hu&<-). exists (id, row). split; [done|]. by apply elem_of_rows_where.
  - cbn [Identities holders fst snd]. rewrite order_by_Permutation. apply NoDup_remove_dups.
Qed.
End theory.

(** ** Examples *)
Section examples.
#[local] Instance one_token : Revoker := fun _ => ret 1.
#[local] Instance one_token_laws : RevokerLaws one_token.
Proof. by split. Qed.
Local Definition w0 : World := fresh_world (fun n => (1700000000 + 60 * Z.of_nat n) * Second) (fun n => Z.of_nat (7 * n + 3)).
(** A path that goes on with U+1F511, which has four bytes. *)
Local Definition emoji : string := "secret/acme/db" +:+ string_of_bytes [240; 159; 148; 145].
Local Definition w1 : World := snd (Manager_Issue "acme" "id-1" "secret/acme/db/main" 1 DefaultTTL w0).
Local Definition w2 : World := snd (Manager_Issue "acme" "id-2" emoji 1 DefaultTTL w1).
Local Definition w3 : World := snd (Manager_Issue "acme" "id-1" "secret/acme/db/main" 1 DefaultTTL w2).
Local Definition w4 : World := snd (RevokePrefix "acme" "secret/acme/db" w3).
#[local] Opaque Manager_Issue RevokePrefix.
Lemma w2_steps : lease_steps w0 w2.
Proof.
  apply (ls_step _ w1); [apply (ls_step _ w0); [apply ls_refl|]|].
  - exact (ls_issue _ _ _ _ _ _ w0 w1 (surjective_pairing (Manager_Issue "acme" "id-1" "secret/acme/db/main" 1 DefaultTTL w0))).
  - exact (ls_issue _ _ _ _ _ _ w1 w2 (surjective_pairing (Manager_Issue "acme" "id-2" emoji 1 DefaultTTL w1))).
Qed.
Lemma lease_invariant_witness : lease_ok (database w2).
Proof. exact (lease_invariant w0 w2 eq_refl w2_steps). Defined.
Lemma w2_ok : lease_ok (database w2).
Proof.
  eapply step_keeps_ok; [exact (ls_issue _ _ _ _ _ _ w1 w2 (surjective_pairing (Manager_Issue "acme" "id-2" emoji 1 DefaultTTL w1)))|].
  eapply step_keeps_ok; [exact (ls_issue _ _ _ _ _ _ w0 w1 (surjective_pairing (Manager_Issue "acme" "id-1" "secret/acme/db/main" 1 DefaultTTL w0)))|].
  intros id1 id2 r1 r2 H1. done.
Qed.

(** The second lease of the same identity is the first one, renewed. *)
Local Definition renewed : Lease :=
  MkLeaseInfo "secret/acme/db/main/DKRY7GNU3CJQ" "acme" "id-1" "secret/acme/db/main" 1 (1700000000 * Second)
    ((1700000120 + 1800) * Second).
Lemma renewed_ok : fst (Manager_Issue "acme" "id-1" "secret/acme/db/main" 1 DefaultTTL w2) = Ok renewed.
Proof. by vm_compute. Qed.
Lemma Issue_extends_witness :
  let n := clock w2 0%nat in
  (Tenant renewed, IdentityID renewed, Path renewed, Version renewed) = ("acme", "id-1", "secret/acme/db/main", 1) ∧
  n + DefaultTTL ≤ ExpiresAt renewed ∧
  (∃ row, lease_records (database w3) !! ID renewed = Some row ∧ held_by "acme" "id-1" "secret/acme/db/main" 1 row = true ∧
     ParseTime (lr_expires_at row) = Some (ExpiresAt renewed)) ∧
  (∀ id row e, lease_records (database w2) !! id = Some row → held_by "acme" "id-1" "secret/acme/db/main" 1 row = true →
     active_at n row = true → ParseTime (lr_expires_at row) = Some e → ID renewed = id ∧ ExpiresAt renewed = Z.max e (n + DefaultTTL)) ∧
  ∀ id row, lease_records (database w2) !! id = Some row → holding row ≠ ("acme", "id-1", "secret/acme/db/main", 1) →
    lease_records (database w3) !! id = Some row.
Proof.
  refine (Issue_extends "acme" "id-1" "secret/acme/db/main" 1 DefaultTTL w2 w3 renewed (pair_fst _ _ renewed_ok) w2_ok _).
  split; by vm_compute.
Defined.

Lemma revoked_ok : fst (RevokePrefix "acme" "secret/acme/db" w3) = Ok (MkRevocation 1 ["id-1"] 1).
Proof. by vm_compute. Qed.
Lemma RevokePrefix_exact_witness :
  let now := FormatTime (clock w3 0%nat) in
  (∀ id row, lease_records (database w3) !! id = Some row → lr_tenant row = "acme" → unrevoked row = true →
     ∀ rest, lr_path row = "secret/acme/db" +:+ rest →
       lease_records (database w4) !! id = Some (if str_lt rest ceiling_rune then revoke_row now row else row) ∧
       match rest with
       | EmptyString => lease_records (database w4) !! id = Some (revoke_row now row)
       | String c _ => (byte_of_ascii c < 239 → lease_records (database w4) !! id = Some (revoke_row now row)) ∧
                       (240 ≤ byte_of_ascii c → lease_records (database w4) !! id = Some row)
       end) ∧
  (∀ id row, lease_records (database w3) !! id = Some row →
     lr_tenant row ≠ "acme" ∨ unrevoked row = false ∨ HasPrefix (lr_path row) "secret/acme/db" = false →
     lease_records (database w4) !! id = Some row) ∧
  (∀ i, i ∈ ["id-1"] ↔ ∃ id row, lease_records (database w3) !! id = Some row ∧ under "acme" "secret/acme/db" row = true ∧ lr_identity_id row = i) ∧
  NoDup ["id-1"].
Proof. exact (RevokePrefix_exact "acme" "secret/acme/db" w3 w4 (MkRevocation 1 ["id-1"] 1) (pair_fst _ _ revoked_ok)). Defined.
End examples.
End lease.
