(* ===== verification/Param.v ===== *)
(** modules/param: configuration parameters with inheritance (param.go,
  store.go), references to secrets (service.go), rewrapping (rewrap.go) and the
  HTTP side (http.go). *)
From Stdlib Require Import ZArith Lia Ascii.
From S2P Require Import Prelude GoStrings GoTime Json World Policy Httpx Envelope AuditTrail SealManager Cipher Walk Interfaces GoNumbers.

(** param.Secrets: the value and its version. *)
Class Secrets := Reveal : ∀ (tenant path : string), M World (list Z * Z).

Module param.
Definition KindString : string := "string".
Definition KindInt : string := "int".
Definition KindBool : string := "bool".
Definition KindStringList : string := "stringlist".
Definition Namespace : string := "param".
Definition maxTenantLen : Z := 64.
Definition maxPathLen : Z := 512.
Definition maxValueBytes : Z := Z.shiftl 64 10.
Definition listSeparator : ascii := ","%char.
Definition storedVersion : Z := 1.
Definition maxReferences : nat := 8.
Definition secretNamespace : string := "secret".

Definition ErrNotFound : string := "param: no such parameter".
Definition ErrInvalidTenant : string := "param: tenant is empty or too long".
Definition ErrInvalidPath : string := "param: path is empty, too long, or contains a traversal".
Definition ErrInvalidKind : string := "param: unknown parameter kind".
Definition ErrInvalidValue : string := "param: the value does not match its declared kind".
Definition ErrValueTooLarge : string := "param: the value is larger than the accepted maximum".
Definition ErrBadReference : string := "param: a reference must name a secret in the same tenant".
Definition ErrTooManyReferences : string := "param: too many references in one value".
Definition ErrReferenceForbidden : string := "param: the caller may not read a referenced secret".
Definition ErrReferenceMissing : string := "param: a referenced secret does not exist".
Definition time_error : string := "time: cannot parse the stored text".

(** ** param.go *)
Definition kinds : list string := [KindString; KindInt; KindBool; KindStringList].
Definition Valid (k : string) : bool := bool_decide (k ∈ kinds).
Definition accepts (k raw : string) : result unit :=
  if String.eqb k KindString then Ok tt
  else if String.eqb k KindInt then match Atoi (TrimSpace raw) with Some _ => Ok tt | None => Err [ErrInvalidValue] end
  else if String.eqb k KindBool then match ParseBool (TrimSpace raw) with Some _ => Ok tt | None => Err [ErrInvalidValue] end
  else if String.eqb k KindStringList
  then if existsb (fun entry => String.eqb (TrimSpace entry) "") (Split raw listSeparator) then Err [ErrInvalidValue] else Ok tt
  else Err [ErrInvalidKind].

(** The body of the loop over the segments. *)
Definition safe_segment (segment : string) : bool :=
  negb (String.eqb segment "" || String.eqb segment "." || String.eqb segment "..") && String.eqb (TrimSpace segment) segment.
Definition safePath (path : string) : bool :=
  if String.eqb path "" || (maxPathLen <? len path) then false
  else if HasPrefix path "/" || Contains path "//" then false
  else forallb safe_segment (Split path "/"%char).

Definition validateTenant (tenant : string) : result unit :=
  if String.eqb tenant "" || (maxTenantLen <? len tenant) then Err [ErrInvalidTenant] else Ok tt.
Definition validateLocation (tenant path : string) : result unit :=
  let? _ := validateTenant tenant in
  if negb (safePath path) then Err [ErrInvalidPath] else Ok tt.
Definition validate (tenant path kind raw : string) : result unit :=
  if String.eqb tenant "" || (maxTenantLen <? len tenant) then Err [ErrInvalidTenant]
  else if negb (safePath path) then Err [ErrInvalidPath]
  else if negb (Valid kind) then Err [ErrInvalidKind]
  else if maxValueBytes <? len raw then Err [ErrValueTooLarge]
  else accepts kind raw.

(** The loop from [depth] down to 1. *)
Fixpoint chain_loop (segments : list string) (leaf : string) (depth : nat) (chain : list string) : list string :=
  match depth with
  | O => chain
  | S below =>
      let candidate := Join (take below segments ++ [leaf]) "/" in
      chain_loop segments leaf below
        (if String.eqb candidate (List.last chain "") then chain else chain ++ [candidate])
  end.
Definition inheritanceChain (path : string) : list string :=
  let segments := Split path "/"%char in
  chain_loop segments (List.last segments "") (length segments - 1) [path].

Definition PolicyPath (tenant path : string) : string := Namespace +:+ "/" +:+ tenant +:+ "/" +:+ path.
Definition locate (tenant path : string) : crypto.AAD := crypto.MkAAD tenant (PolicyPath tenant path) storedVersion.
Definition ceiling (prefix : string) : string := prefix +:+ ceiling_rune.

(** ** store.go *)
Record Parameter_ := MkParameter {
  p_Tenant : string; p_Path : string; ResolvedFrom : string; p_Kind : string; p_Value : string;
  UpdatedAt : Z; UpdatedBy : string }.
Definition Inherited (p : Parameter_) : bool := negb (String.eqb (ResolvedFrom p) (p_Path p)).

Definition parse_time (s : string) : result Z := match ParseTime s with Some t => Ok t | None => Err [time_error] end.
Definition envelope_of_param (row : ParamRow) : crypto.Envelope :=
  crypto.MkEnvelope (pv_kek_version row) (pv_wrapped_dek row) (pv_ciphertext row).
(** [INSERT ... ON CONFLICT DO UPDATE] of every column but the key. *)
Definition upsert (tenant path kind actor now : string) (envelope : crypto.Envelope) (d : Db) : Db :=
  set_param_values (<[(tenant, path) := MkParam kind (crypto.KEKVersion envelope) (crypto.WrappedDEK envelope)
    (crypto.Ciphertext envelope) now actor]> (param_values d)) d.
Definition delete_param (tenant path : string) (d : Db) : result Z * Db :=
  match param_values d !! (tenant, path) with
  | None => (Ok 0, d)
  | Some _ => (Ok 1, set_param_values (delete (tenant, path) (param_values d)) d)
  end.
(** [WHERE tenant = ? AND path >= ? AND path < ? ORDER BY path] *)
Definition under (tenant prefix : string) (d : Db) : list (string * ParamRow) :=
  order_by fst (omap (fun kv : string * string * ParamRow =>
    if String.eqb kv.1.1 tenant && str_le prefix kv.1.2 && str_lt kv.1.2 (ceiling prefix)
    then Some (kv.1.2, kv.2) else None) (map_to_list (param_values d))).
(** The loop over the rows: an entry without its value. *)
Fixpoint list_entries (tenant : string) (l : list (string * ParamRow)) : result (list Parameter_) :=
  match l with
  | [] => Ok []
  | (path, row) :: l =>
      let? t := parse_time (pv_updated_at row) in
      let? rest := list_entries tenant l in
      Ok (MkParameter tenant path path (pv_kind row) "" t (pv_updated_by row) :: rest)
  end.

Section store.
Context `{Cipher}.
Definition Put (tenant path kind raw actor : string) : M World unit :=
  lift_result (validate tenant path kind raw) ;!
  let! envelope := cipher_Seal tenant (bytes_of_string raw) (locate tenant path) in
  let! t := now in
  exec_ (upsert tenant path kind actor (FormatTime t) envelope).
Definition read (tenant stored requested : string) : M World Parameter_ :=
  let! row := query (fun d => param_values d !! (tenant, stored)) in
  match row with
  | None => fail [ErrNotFound]
  | Some row =>
      let! plaintext := cipher_Open tenant (envelope_of_param row) (locate tenant stored) in
      let! t := lift_result (parse_time (pv_updated_at row)) in
      ret (MkParameter tenant requested stored (pv_kind row) (string_of_bytes plaintext) t (pv_updated_by row))
  end.
Definition Get (tenant path : string) : M World Parameter_ :=
  lift_result (validateLocation tenant path) ;! read tenant path path.
Fixpoint resolve_loop (tenant path : string) (candidates : list string) : M World Parameter_ :=
  match candidates with
  | [] => fail [ErrNotFound]
  | candidate :: candidates =>
      let! found := attempt (read tenant candidate path) in
      match found with
      | Ok p => ret p
      | Err e => if errors_Is e ErrNotFound then resolve_loop tenant path candidates else fail e
      end
  end.
Definition Resolve (tenant path : string) : M World Parameter_ :=
  lift_result (validateLocation tenant path) ;! resolve_loop tenant path (inheritanceChain path).
Definition List_ (tenant prefix : string) : M World (list Parameter_) :=
  lift_result (validateTenant tenant) ;!
  let! rows := query (under tenant prefix) in
  lift_result (list_entries tenant rows).
Definition Delete (tenant path : string) : M World unit :=
  lift_result (validateLocation tenant path) ;!
  let! affected := exec (delete_param tenant path) in
  if affected =? 0 then fail [ErrNotFound] else ret tt.
End store.

(** ** rewrap.go: the walk over [param_values] *)
Definition rewrapped_param (env : crypto.Envelope) (row : ParamRow) : ParamRow :=
  MkParam (pv_kind row) (crypto.KEKVersion env) (crypto.WrappedDEK env) (pv_ciphertext row) (pv_updated_at row) (pv_updated_by row).
#[export] Instance param_rows : Walkable (string * string) ParamRow := {|
  rows := param_values; set_rows := set_param_values; live row := true;
  envelope_of := envelope_of_param; rewrapped := rewrapped_param; before := lex str_lt |}.
#[export] Instance param_rows_laws : WalkableLaws (string * string) ParamRow.
Proof.
  split; try done.
  - intros [v d c] row. cbn. unfold envelope_of_param, rewrapped_param. cbn. by intros ->.
  - by intros [].
  - intros k. apply lex_irrefl, str_lt_irrefl.
  - intros k k'. apply lex_total, str_lt_total.
  - intros k1 k2 k3. apply lex_trans. intros x y z. apply str_lt_trans.
Qed.
Definition Rewrap `{Cipher} : World → RewrapProgress * result unit * World :=
  walk (fun k envelope => cipher_Rewrap k.1 envelope (locate k.1 k.2)) ("", "").

(** ** service.go *)

(** [reference], the expression [\$\{([^{}$]+)\}]: the longest run of characters
  that are none of the three must be followed by a closing brace. *)
Definition plain (c : ascii) : bool := negb (Ascii.eqb c "{"%char || Ascii.eqb c "}"%char || Ascii.eqb c "$"%char).
Fixpoint span (f : ascii → bool) (s : string) : string * string :=
  match s with
  | EmptyString => ("", "")
  | String c s' => if f c then let '(a, b) := span f s' in (String c a, b) else ("", s)
  end.
Definition match_here (s : string) : option (string * string) :=
  rest ← CutPrefix s "${";
  let '(inner, rest) := span plain rest in
  rest ← CutPrefix rest "}";
  if String.eqb inner "" then None else Some (inner, rest).
(** [reference.FindAllStringSubmatch(s, -1)]: what the parentheses matched, from
  left to right, without overlaps. *)
Fixpoint find_all (fuel : nat) (s : string) : list string :=
  match fuel with
  | O => []
  | S fuel =>
      match match_here s with
      | Some (inner, rest) => inner :: find_all fuel rest
      | None => match s with EmptyString => [] | String _ s => find_all fuel s end
      end
  end.
Definition FindAll (s : string) : list string := find_all (S (String.length s)) s.
Definition whole (inner : string) : string := "${" +:+ inner +:+ "}".
(** [strings.ReplaceAll] of a text that is not empty. *)
Fixpoint replace_all (fuel : nat) (s old new : string) : string :=
  match fuel with
  | O => s
  | S fuel =>
      match CutPrefix s old with
      | Some rest => new +:+ replace_all fuel rest old new
      | None => match s with EmptyString => "" | String c s => String c (replace_all fuel s old new) end
      end
  end.
Definition ReplaceAll (s old new : string) : string := replace_all (S (String.length s)) s old new.

Record Resolved := MkResolved { r_Parameter : Parameter_; r_Value : string; Sensitive : bool; References : list string }.
Definition secret_prefix (tenant : string) : string := secretNamespace +:+ "/" +:+ tenant +:+ "/".
Definition acceptable (tenant target : string) : result unit :=
  if negb (HasPrefix target (secret_prefix tenant)) then Err [ErrBadReference]
  else if negb (safePath (TrimPrefix target (secret_prefix tenant))) then Err [ErrBadReference]
  else Ok tt.

Section service.
Context `{Cipher} `{Authorizer} `{Secrets}.
(** The loop over the matches, with [value] and [resolved.References]. *)
Fixpoint substitute (identity : authn.Identity) (tenant : string) (matches : list string) (value : string) (references : list string)
  : M World (string * list string) :=
  match matches with
  | [] => ret (value, references)
  | inner :: matches =>
      let target := TrimSpace inner in
      lift_result (acceptable tenant target) ;!
      let! decision := Authorize identity tenant target authz.Read in
      if negb (authz.Allowed decision) then fail [ErrReferenceForbidden]
      else
        let! revealed := attempt (Reveal tenant (TrimPrefix target (secret_prefix tenant))) in
        match revealed with
        | Err e => fail (errors_Join [ErrReferenceMissing] e)
        | Ok (plaintext, _) =>
            substitute identity tenant matches (ReplaceAll value (whole inner) (string_of_bytes plaintext)) (references ++ [target])
        end
  end.
Definition Service_Resolve (identity : authn.Identity) (tenant path : string) : M World Resolved :=
  let! found := Resolve tenant path in
  let matches := FindAll (p_Value found) in
  if (length matches =? 0)%nat then ret (MkResolved found (p_Value found) false [])
  else if (maxReferences <? length matches)%nat then fail [ErrTooManyReferences]
  else
    let! done := substitute identity tenant matches (p_Value found) [] in
    ret (MkResolved found (fst done) true (snd done)).
End service.

(** ** http.go *)
Section http.
Context `{Cipher} `{Authorizer} `{Secrets} `{Sink}.
Definition recorded (r : Request) (operation : string) (identity : authn.Identity) (tenant path res : string)
  (decision : authz.Decision) (k : World → Response * World) : World → Response * World :=
  run_or (Append (audit.MkEvent operation (authn.ID identity) tenant (PolicyPath tenant path) 0 res
            (authz.Policy decision) (authz.Rule decision) (RequestID r) (httpx.RemoteIP r)))
    (fun _ => reply (httpx.Problem StatusServiceUnavailable "audit_unavailable")) (fun _ => k).
Definition no_decision : authz.Decision := authz.MkDecision false "" "" "".
Definition permitted (r : Request) (capability path : string) (k : authn.Identity → string → World → Response * World)
  : World → Response * World :=
  match Identity r with
  | None => reply (httpx.Problem StatusUnauthorized "unauthenticated")
  | Some identity =>
      let tenant := PathValue r "tenant" in
      if String.eqb tenant "" then reply (httpx.Problem StatusNotFound "not_found")
      else
        run_or (Authorize identity tenant (PolicyPath tenant path) capability)
          (fun _ => reply (httpx.Problem StatusInternalServerError "internal_error"))
          (fun decision =>
             if negb (authz.Allowed decision)
             then recorded r ("param." +:+ capability) identity tenant path audit.ResultDeny decision
                    (reply (httpx.Problem StatusForbidden "forbidden"))
             else k identity tenant)
  end.
Definition fail_with (e : list string) : World → Response * World :=
  if errors_Is e ErrNotFound || errors_Is e ErrReferenceMissing then reply (httpx.Problem StatusNotFound "not_found")
  else if errors_Is e ErrReferenceForbidden then reply (httpx.Problem StatusForbidden "forbidden")
  else if errors_Is e ErrInvalidKind || errors_Is e ErrInvalidValue then reply (httpx.Problem StatusBadRequest "invalid_value")
  else if errors_Is e ErrBadReference || errors_Is e ErrTooManyReferences
  then reply (httpx.Problem StatusUnprocessableEntity "invalid_reference")
  else if errors_Is e ErrInvalidTenant || errors_Is e ErrInvalidPath || errors_Is e ErrValueTooLarge
  then reply (httpx.Problem StatusBadRequest "invalid_location")
  else reply (httpx.Problem StatusInternalServerError "internal_error").

Definition readResponse (resolved : Resolved) : json :=
  let p := r_Parameter resolved in
  JObj [("path", JStr (p_Path p)); ("resolved_from", JStr (ResolvedFrom p)); ("inherited", JBool (Inherited p));
        ("kind", JStr (p_Kind p)); ("value", JStr (r_Value resolved)); ("sensitive", JBool (Sensitive resolved));
        ("references", JArr (map JStr (References resolved))); ("updated_at", JStr (RFC3339 (UpdatedAt p)));
        ("updated_by", JStr (UpdatedBy p))].
Definition handleRead : Handler := fun r =>
  let path := PathValue r "path" in
  permitted r authz.Read path (fun identity tenant =>
    run_or (Service_Resolve identity tenant path) fail_with (fun resolved =>
    recorded r "param.read" identity tenant path audit.ResultAllow no_decision
      (reply (httpx.JSON StatusOK (readResponse resolved))))).
Definition write_fields : list string := ["kind"; "value"].
Definition writeRequest_of (l : list (string * json)) : option (string * string) :=
  kind ← field_value write_fields "kind" to_str "" l;
  value ← field_value write_fields "value" to_str "" l;
  Some (kind, value).
Definition handleWrite : Handler := fun r =>
  let path := PathValue r "path" in
  permitted r authz.Write path (fun identity tenant =>
    match httpx.DecodeJSON write_fields writeRequest_of (Body r) with
    | Err _ => reply (httpx.Problem StatusBadRequest "malformed_body")
    | Ok request =>
        run_or (Put tenant path (fst request) (snd request) (authn.ID identity)) fail_with (fun _ =>
        recorded r "param.write" identity tenant path audit.ResultAllow no_decision (reply httpx.no_content))
    end).
Definition handleDelete : Handler := fun r =>
  let path := PathValue r "path" in
  permitted r authz.Delete path (fun identity tenant =>
    run_or (Delete tenant path) fail_with (fun _ =>
    recorded r "param.delete" identity tenant path audit.ResultAllow no_decision (reply httpx.no_content))).
Definition listEntry (p : Parameter_) : json :=
  JObj [("path", JStr (p_Path p)); ("kind", JStr (p_Kind p)); ("updated_at", JStr (RFC3339 (UpdatedAt p)));
        ("updated_by", JStr (UpdatedBy p))].
Definition handleList : Handler := fun r =>
  let prefix := Query r "prefix" in
  permitted r authz.List (prefix +:+ "*") (fun identity tenant =>
    run_or (List_ tenant prefix) fail_with (fun found =>
    recorded r "param.list" identity tenant prefix audit.ResultAllow no_decision
      (reply (httpx.JSON StatusOK (JObj [("parameters", JArr (map listEntry found))]))))).
End http.

(** ** The chain of candidates *)
Lemma Split_length s c : (1 <= length (Split s c))%nat.
Proof. pose proof (Split_nonempty s c). destruct (Split s c); [done|]. cbn. lia. Qed.
Definition candidate_at (segments : list string) (k : nat) : string := Join (take k segments ++ [List.last segments ""]) "/".
Lemma Join_length l x sep : l ≠ [] → String.length (Join (l ++ [x]) sep) = (String.length (Join l sep) + String.length sep + String.length x)%nat.
Proof.
  induction l as [|a l IH]; [done|]. intros _. destruct l as [|b l].
  - cbn [app Join]. rewrite !length_app_string. lia.
  - change ((a :: b :: l) ++ [x]) with (a :: ((b :: l) ++ [x])). rewrite !Join_cons by done.
    rewrite !length_app_string, IH by done. lia.
Qed.
Lemma candidate_shorter segments k : (S k < length segments)%nat →
  (String.length (candidate_at segments k) < String.length (candidate_at segments (S k)))%nat.
Proof.
  intros Hk. unfold candidate_at. destruct (lookup_lt_is_Some_2 segments k) as [x Hx]; [lia|].
  rewrite (take_S_r _ _ _ Hx). rewrite (Join_length (take k segments ++ [x])) by (by destruct (take k segments)).
  destruct (decide (take k segments = [])) as [E|Hne].
  - rewrite E. cbn [app Join]. cbn. lia.
  - rewrite !Join_length by done. cbn. lia.
Qed.
Lemma chain_loop_spec segments n chain : (n < length segments)%nat → List.last chain "" = candidate_at segments n →
  chain_loop segments (List.last segments "") n chain = chain ++ map (candidate_at segments) (rev (seq 0 n)).
Proof.
  revert chain. induction n as [|n IH]; intros chain Hn Hl; [by rewrite app_nil_r|]. cbn [chain_loop]. rewrite Hl.
  fold (candidate_at segments n). destruct (String.eqb_spec (candidate_at segments n) (candidate_at segments (S n))) as [E|_].
  { pose proof (candidate_shorter segments n Hn) as Hs. rewrite E in Hs. lia. }
  rewrite IH; [|lia|by rewrite List.last_last]. rewrite seq_S, rev_app_distr. cbn [rev app map Nat.add]. by rewrite <- app_assoc.
Qed.
Lemma last_take {A} (l : list A) d : l ≠ [] → take (length l - 1) l ++ [List.last l d] = l.
Proof.
  intros Hl. destruct (exists_last Hl) as (f&x&->). rewrite List.last_last, length_app. cbn. rewrite Nat.add_sub. by rewrite take_app_length.
Qed.
(** The path itself, then the leaf under ever shorter prefixes of its parents. *)
Lemma inheritanceChain_spec path :
  inheritanceChain path = map (candidate_at (Split path "/"%char)) (rev (seq 0 (length (Split path "/"%char)))).
Proof.
  unfold inheritanceChain. pose proof (Split_length path "/"%char) as Hl. set (segments := Split path "/"%char) in *.
  assert (candidate_at segments (length segments - 1) = path) as Hp.
  { unfold candidate_at. rewrite last_take; [apply Join_Split|]. apply Split_nonempty. }
  rewrite chain_loop_spec; [|lia|done]. destruct (length segments) as [|n]; [lia|]. cbn [Nat.sub] in *. rewrite Nat.sub_0_r in *.
  rewrite seq_S, rev_app_distr. cbn [rev app map Nat.add]. by rewrite Hp.
Qed.

(** ** Reading *)
Section theory.
Context `{CipherLaws}.
Lemma param_time_Ok s t : parse_time s = Ok t ↔ ParseTime s = Some t.
Proof. unfold parse_time. destruct (ParseTime s); split; congruence. Qed.
Lemma param_open_db tenant env aad : same_db (cipher_Open tenant env aad).
Proof. intros w. by rewrite open_effect. Qed.
Lemma read_db tenant stored requested : same_db (read tenant stored requested).
Proof.
  unfold read. apply same_db_bind; [auto with world|]. intros [row|]; [|auto with world].
  apply same_db_bind; [apply param_open_db|auto with world].
Qed.
Lemma read_mem tenant stored requested : same_mem (read tenant stored requested).
Proof.
  unfold read. apply same_mem_bind; [auto with world|]. intros [row|]; [|auto with world].
  apply same_mem_bind; [|auto with world]. intros w. by rewrite open_effect.
Qed.
(** What it means that a parameter was read from the row at [stored]. *)
Lemma read_quiet tenant stored requested : quiet (read tenant stored requested).
Proof. unfold read. solve_quiet. Qed.
Lemma resolve_loop_quiet tenant path candidates : quiet (resolve_loop tenant path candidates).
Proof. induction candidates; cbn [resolve_loop]; solve_quiet. apply read_quiet. Qed.
Lemma Resolve_quiet tenant path : quiet (Resolve tenant path).
Proof. unfold Resolve. solve_quiet. apply resolve_loop_quiet. Qed.
Lemma Put_quiet tenant path kind raw actor : quiet (Put tenant path kind raw actor).
Proof. unfold Put. solve_quiet. Qed.
Lemma Delete_quiet tenant path : quiet (Delete tenant path).
Proof. unfold Delete. solve_quiet. Qed.
Lemma List_quiet tenant prefix : quiet (List_ tenant prefix).
Proof. unfold List_. solve_quiet. Qed.
Lemma Service_Resolve_quiet `{Authorizer} `{Secrets} :
  (∀ i t p c, quiet (Authorize i t p c)) → (∀ t p, quiet (Reveal t p)) →
  ∀ identity tenant path, quiet (Service_Resolve identity tenant path).
Proof.
  intros Ha Hr identity tenant path.
  assert (∀ matches value refs, quiet (substitute identity tenant matches value refs)) as Hs.
  { intros matches. induction matches; intros value refs; cbn [substitute]; solve_quiet; eauto. }
  unfold Service_Resolve. pose proof Resolve_quiet. solve_quiet.
Qed.
Record read_from (tenant stored requested : string) (w : World) (p : Parameter_) (row : ParamRow) : Prop := {
  rf_row : param_values (database w) !! (tenant, stored) = Some row;
  rf_value : ∃ b, fst (cipher_Open tenant (envelope_of_param row) (locate tenant stored) w) = Ok b ∧ p_Value p = string_of_bytes b;
  rf_names : (p_Tenant p, p_Path p, ResolvedFrom p) = (tenant, requested, stored);
  rf_columns : (p_Kind p, UpdatedBy p) = (pv_kind row, pv_updated_by row);
  rf_time : ParseTime (pv_updated_at row) = Some (UpdatedAt p) }.
Lemma read_Ok tenant stored requested w p w' : read tenant stored requested w = (Ok p, w') →
  ∃ row, read_from tenant stored requested w p row.
Proof.
  unfold read. intros E. apply bind_ok_inv in E as (o&w1&Eq&E). apply query_Ok in Eq as [-> ->].
  destruct (param_values (database w) !! (tenant, stored)) as [row|] eqn:Er; [|done].
  apply bind_ok_inv in E as (b&w1&Eo&E). apply bind_ok_inv in E as (t&w2&Et&E). injection Et as Et%param_time_Ok ->. injection E as <- <-.
  exists row. split; try done. exists b. split; [|done].
  rewrite (open_memory _ _ _ w (tick w)) by done. by rewrite Eo.
Qed.

Lemma resolve_loop_Ok tenant path candidates w p w' : resolve_loop tenant path candidates w = (Ok p, w') →
  database w' = database w ∧ ∃ skipped stored rest row, candidates = skipped ++ stored :: rest ∧
    read_from tenant stored path w p row ∧ ∀ c, c ∈ skipped → ∃ w1 e, database w1 = database w ∧ seal_memory w1 = seal_memory w ∧
      fst (read tenant c path w1) = Err e ∧ errors_Is e ErrNotFound = true.
Proof.
  revert w. induction candidates as [|c candidates IH]; intros w; [done|]. cbn [resolve_loop]. unfold bind, attempt.
  pose proof (read_db tenant c path w) as Hdb. pose proof (read_mem tenant c path w) as Hmem.
  destruct (read tenant c path w) as [[p1|e] w1] eqn:Er; cbn [snd] in Hdb, Hmem.
  - intros [= <- <-]. split; [done|]. apply read_Ok in Er as [row Hrow]. exists [], c, candidates, row.
    split_and!; [done|done|]. by intros ? ?%elem_of_nil.
  - destruct (errors_Is e ErrNotFound) eqn:Ee; [|done]. intros E. apply IH in E as (Hd&skipped&stored&rest&row&->&Hr&Hs).
    split; [congruence|]. exists (c :: skipped), stored, rest, row. split_and!; [done| |].
    + destruct Hr as [H1 (b&Hb&Hv) H3 H4 H5]. split; try done; [by rewrite <- Hdb|]. exists b. split; [|done].
      by rewrite (open_memory _ _ _ w w1) by done.
    + intros c' [->|Hc]%elem_of_cons; [exists w, e; by rewrite Er|]. destruct (Hs c' Hc) as (w2&e'&?&?&?&?).
      exists w2, e'. split_and!; congruence.
Qed.
(** The cipher does not answer with the store's own error. *)
Class CipherErrors := cipher_not_found : ∀ tenant env aad w e,
  fst (cipher_Open tenant env aad w) = Err e → errors_Is e ErrNotFound = false.
Lemma read_absent `{CipherErrors} tenant c path w e : fst (read tenant c path w) = Err e → errors_Is e ErrNotFound = true →
  param_values (database w) !! (tenant, c) = None.
Proof.
  unfold read, bind. destruct (query_cases (fun d => param_values d !! (tenant, c)) w) as [->| ->]; [by intros [= <-]|].
  destruct (param_values (database w) !! (tenant, c)) as [row|]; [|done].
  pose proof (cipher_not_found tenant (envelope_of_param row) (locate tenant c) (tick w)) as Hc.
  destruct (cipher_Open _ _ _ _) as [[b|e1] w1]; cbn [fst] in *.
  - unfold lift_result, parse_time. destruct (ParseTime _); [done|]. by intros [= <-].
  - intros [= <-]. by rewrite Hc.
Qed.

(** Resolving a path reads the row of the nearest candidate: with the
  path's segments [s1 .. sn], the row at [s1/../sk/sn] for the largest [k < n]
  that has one.  The value is what that row's envelope opens to at its own
  place, and nothing is changed. *)
Theorem Resolve_nearest `{CipherErrors} (tenant path : string) (w w' : World) (p : Parameter_)
  (Hrun : Resolve tenant path w = (Ok p, w')) :
  let segments := Split path "/"%char in
  database w' = database w ∧ validateLocation tenant path = Ok tt ∧
  ∃ k row, (k < length segments)%nat ∧ read_from tenant (candidate_at segments k) path w p row ∧
    ∀ j, (k < j < length segments)%nat → param_values (database w) !! (tenant, candidate_at segments j) = None.
Proof.
  cbn zeta. set (segments := Split path "/"%char). unfold Resolve in Hrun. apply bind_ok_inv in Hrun as ([]&w1&Ev&E).
  injection Ev as Ev <-. apply resolve_loop_Ok in E as (Hd&skipped&stored&rest&row&Hc&Hr&Hs). split_and!; [done|done|].
  rewrite inheritanceChain_spec in Hc. fold segments in Hc. set (n := length segments) in *.
  assert (∀ j, map (candidate_at segments) (rev (seq 0 n)) !! j = if decide (j < n)%nat then Some (candidate_at segments (n - 1 - j)) else None) as Hl.
  { intros j. change (map (candidate_at segments) (rev (seq 0 n))) with (candidate_at segments <$> rev (seq 0 n)). rewrite list_lookup_fmap.
    destruct (decide (j < n)%nat) as [Hj|Hj].
    - rewrite rev_alt. change (rev_append (seq 0 n) []) with (reverse (seq 0 n)).
      rewrite reverse_lookup by (rewrite length_seq; lia). rewrite length_seq, (lookup_seq_lt 0 n) by lia. cbn [fmap option_fmap option_map]. do 2 f_equal. lia.
    - rewrite lookup_ge_None_2; [done|]. rewrite length_rev, length_seq. lia. }
  assert (length skipped < n)%nat as Hlen.
  { pose proof (Hl (length skipped)) as Hx. rewrite Hc, list_lookup_middle in Hx by done. by case_decide. }
  exists (n - 1 - length skipped)%nat, row. split; [lia|]. split.
  - pose proof (Hl (length skipped)) as Hx. rewrite Hc, list_lookup_middle, decide_True in Hx by done. injection Hx as <-. done.
  - intros j Hj. destruct (Hs (candidate_at segments j)) as (w1&e&Hd1&_&He&Hn).
    + apply list_elem_of_lookup. exists (n - 1 - j)%nat. assert (skipped !! (n - 1 - j)%nat = (skipped ++ stored :: rest) !! (n - 1 - j)%nat) as ->.
      { symmetry. apply lookup_app_l. lia. }
      rewrite <- Hc, Hl, decide_True by lia. do 2 f_equal. lia.
    + rewrite <- Hd1. by eapply read_absent.
Qed.

(** ** Writing, then reading from below *)
Lemma Put_Ok tenant path kind raw actor w w' : Put tenant path kind raw actor w = (Ok tt, w') →
  validate tenant path kind raw = Ok tt ∧ seal_memory w' = seal_memory w ∧ ∃ env,
    (∀ u, seal_memory u = seal_memory w → fst (cipher_Open tenant env (locate tenant path) u) = Ok (bytes_of_string raw)) ∧
    database w' = upsert tenant path kind actor (FormatTime (clock w 0%nat)) env (database w).
Proof.
  unfold Put. intros E. apply bind_ok_inv in E as ([]&w1&Ev&E). injection Ev as Ev <-.
  apply bind_ok_inv in E as (env&w1&Es&E). pose proof (seal_opens _ _ _ _ _ _ Es) as Hop.
  destruct (seal_effect tenant (bytes_of_string raw) (locate tenant path) w) as [e He]. rewrite Es in He. cbn [snd] in He. subst w1.
  rewrite bind_now in E. unfold exec_ in E. apply exec_Ok in E as (d&Hd&->). injection Hd as <-. split; [done|]. split; [done|].
  exists env. split; [|done]. intros u Hu. by rewrite (open_memory _ env (locate tenant path) u w).
Qed.
Lemma resolve_skip tenant path skipped rest w : no_faults w → (∀ c, c ∈ skipped → param_values (database w) !! (tenant, c) = None) →
  ∃ w', resolve_loop tenant path (skipped ++ rest) w = resolve_loop tenant path rest w' ∧
    no_faults w' ∧ database w' = database w ∧ seal_memory w' = seal_memory w.
Proof.
  revert w. induction skipped as [|c skipped IH]; intros w Hnf Hs; [by exists w|]. cbn [app resolve_loop].
  unfold bind at 1, attempt. unfold read at 1. rewrite bind_query_nf by done. rewrite (Hs c) by by left.
  cbn [fail]. change (errors_Is [ErrNotFound] ErrNotFound) with true. cbv iota.
  destruct (IH (tick w)) as (w'&E&?&Hd&Hm); [auto with world|intros c' Hc; apply Hs; by right|]. exists w'. by rewrite E.
Qed.

(** A parameter that was written is what every path resolves to whose
  nearest candidate it is: its value, kind, author and time, found at the place
  it was written to; no other parameter changes. *)
Theorem Put_Resolve (tenant stored path kind raw actor : string) (k : nat) (w w' : World)
  (Hput : Put tenant stored kind raw actor w = (Ok tt, w')) (Hnf : no_faults w') (Hrep : representable (clock w 0%nat))
  (Hpath : validateLocation tenant path = Ok tt) (Hk : (k < length (Split path "/"%char))%nat)
  (Hstored : stored = candidate_at (Split path "/"%char) k)
  (Hnone : ∀ j, (k < j < length (Split path "/"%char))%nat →
     param_values (database w) !! (tenant, candidate_at (Split path "/"%char) j) = None ∧ candidate_at (Split path "/"%char) j ≠ stored) :
  fst (Resolve tenant path w') = Ok (MkParameter tenant path stored kind raw (clock w 0%nat) actor) ∧
  ∀ key, key ≠ (tenant, stored) → param_values (database w') !! key = param_values (database w) !! key.
Proof.
  apply Put_Ok in Hput as (_&Hmem&env&Hop&Hdb). split.
  2: { intros key Hne. rewrite Hdb. cbn. by rewrite lookup_insert_ne. }
  unfold Resolve. erewrite bind_lift by done. rewrite inheritanceChain_spec. set (segments := Split path "/"%char) in *. set (n := length segments) in *.
  assert (seq 0 n = seq 0 k ++ k :: seq (S k) (n - S k)) as ->.
  { replace n with (k + S (n - S k))%nat by lia. rewrite seq_app. cbn [seq Nat.add]. do 3 f_equal. lia. }
  rewrite rev_app_distr. cbn [rev]. rewrite <- app_assoc, map_app. cbn [app map]. rewrite <- Hstored.
  destruct (resolve_skip tenant path (map (candidate_at segments) (rev (seq (S k) (n - S k))))
    (stored :: map (candidate_at segments) (rev (seq 0 k))) w') as (w2&->&Hnf2&Hd2&Hm2).
  { done. }
  { intros c Hc. apply list_elem_of_fmap in Hc as (j&->&Hj). rewrite <- list_elem_of_In, <- in_rev, in_seq in Hj || apply list_elem_of_In, in_rev, in_seq in Hj.
    destruct (Hnone j ltac:(lia)) as [Hn Hne]. rewrite Hdb. cbn. rewrite lookup_insert_ne by congruence. done. }
  cbn [resolve_loop]. unfold bind at 1, attempt. unfold read. rewrite bind_query_nf by done. rewrite Hd2, Hdb. cbn [param_values upsert set_param_values].
  rewrite lookup_insert_eq. erewrite bind_ok; [|apply cipher_Open_run; cbn [pv_kek_version pv_wrapped_dek pv_ciphertext envelope_of_param]].
  2: { unfold envelope_of_param. cbn. destruct env. apply Hop. cbn [seal_memory tick set_faults]. congruence. }
  cbn [pv_updated_at]. erewrite bind_lift by by apply param_time_Ok, ParseTime_FormatTime.
  cbn. by rewrite string_of_bytes_of_string.
Qed.
End theory.

(** ** References *)
Section references.
Context `{Cipher} `{Authorizer} `{Secrets}.
(** A reference to [target] was acceptable, the identity was allowed to read it,
  and the secret was revealed. *)
Definition granted (identity : authn.Identity) (tenant target : string) : Prop :=
  ∃ path, target = secret_prefix tenant +:+ path ∧ safePath path = true ∧
    (∃ w1 decision w2, Authorize identity tenant target authz.Read w1 = (Ok decision, w2) ∧ authz.Allowed decision = true) ∧
    ∃ w1 plaintext w2, Reveal tenant path w1 = (Ok plaintext, w2).
Lemma acceptable_ok tenant target : acceptable tenant target = Ok tt →
  ∃ path, target = secret_prefix tenant +:+ path ∧ TrimPrefix target (secret_prefix tenant) = path ∧ safePath path = true.
Proof.
  unfold acceptable. destruct (HasPrefix target (secret_prefix tenant)) eqn:Hp; [|done]. cbn [negb].
  destruct (safePath _) eqn:Hs; [|done]. intros _. apply HasPrefix_spec in Hp as [path ->]. exists path.
  assert (TrimPrefix (secret_prefix tenant +:+ path) (secret_prefix tenant) = path) as Ht.
  { unfold TrimPrefix. assert (CutPrefix (secret_prefix tenant +:+ path) (secret_prefix tenant) = Some path) as -> by by apply CutPrefix_Some. done. }
  by rewrite Ht in Hs.
Qed.
Lemma substitute_Ok identity tenant matches value references w v refs w' :
  substitute identity tenant matches value references w = (Ok (v, refs), w') →
  ∃ targets, refs = references ++ targets ∧ targets = map TrimSpace matches ∧ Forall (granted identity tenant) targets.
Proof.
  revert value references w. induction matches as [|inner matches IH]; intros value references w.
  { intros [= <- <- <-]. exists []. by rewrite app_nil_r. }
  cbn [substitute]. intros E. apply bind_ok_inv in E as ([]&w1&Ea&E). injection Ea as Ea <-.
  apply bind_ok_inv in E as (decision&w1&Eauth&E). destruct (authz.Allowed decision) eqn:Hal; [|done]. cbn [negb] in E.
  unfold bind, attempt in E. destruct (Reveal _ _ w1) as [[[b n]|e] w2] eqn:Er; [|done].
  apply IH in E as (targets&->&->&Hall). exists (TrimSpace inner :: map TrimSpace matches).
  split; [by rewrite <- app_assoc|]. split; [done|]. constructor; [|done].
  apply acceptable_ok in Ea as (path&Ht&Htr&Hs). exists path. rewrite Htr in Er. split_and!; eauto 10.
Qed.

(** C34. The value a caller gets has a reference substituted only if the caller
  may read that secret: every reference of the answer names a secret of the same
  tenant by a safe path, was allowed to this identity, and was read; they are
  the references in the stored value, at most eight, and a value without any is
  returned as it is stored and not marked as sensitive. *)
Theorem Resolve_references (identity : authn.Identity) (tenant path : string) (w w' : World) (resolved : Resolved)
  (Hrun : Service_Resolve identity tenant path w = (Ok resolved, w')) :
  (∃ w1, Resolve tenant path w = (Ok (r_Parameter resolved), w1)) ∧
  References resolved = map TrimSpace (FindAll (p_Value (r_Parameter resolved))) ∧
  Forall (granted identity tenant) (References resolved) ∧ (length (References resolved) ≤ maxReferences)%nat ∧
  (Sensitive resolved = true ↔ References resolved ≠ []) ∧
  (References resolved = [] → r_Value resolved = p_Value (r_Parameter resolved)).
Proof.
  unfold Service_Resolve in Hrun. apply bind_ok_inv in Hrun as (found&w1&Er&E).
  destruct (FindAll (p_Value found)) as [|m ms] eqn:Ef.
  - injection E as <- <-. cbn [r_Parameter References Sensitive r_Value]. rewrite Ef. split_and!; try done; [by eexists|cbn; lia].
  - rewrite <- Ef in E. destruct (Nat.eqb_spec (length (FindAll (p_Value found))) 0) as [E0|]; [by rewrite Ef in E0|].
    destruct (Nat.ltb_spec maxReferences (length (FindAll (p_Value found)))) as [|Hle]; [done|].
    apply bind_ok_inv in E as ([v refs]&w2&Es&E). apply substitute_Ok in Es as (targets&->&->&Hall). injection E as <- <-.
    cbn [r_Parameter References Sensitive r_Value fst snd app]. rewrite length_map.
    split_and!; [by eexists|done..| |]; rewrite Ef; done.
Qed.
End references.

(** ** Rewrapping *)
Section rewrapping.
Context `{CipherLaws}.
Definition tenant_of (k : string * string) : string := k.1.
Definition place_of (k : string * string) : crypto.AAD := locate k.1 k.2.
(** Every parameter of [w] is in [w'] with its value: only its key may differ. *)
Definition same_parameters (w w' : World) : Prop := same_values tenant_of place_of w w'.
Lemma Rewrap_keeps (P : Db → Prop) w : (∀ d m, P d → P (set_param_values m d)) → P (database w) →
  P (database (snd (Rewrap w))).
Proof. intros HP. apply keeps_walk; [|intros; apply rewrap_effect]. intros d k row env Hd _ _. by apply HP. Qed.
Lemma Rewrap_Ok w w' progress : Rewrap w = (progress, Ok tt, w') →
  (∀ t p, is_Some (param_values (database w) !! (t, p)) → t ≠ "") →
  same_parameters w w' ∧ ∀ k row, param_values (database w') !! k = Some row → pv_kek_version row = cipher_version (seal_memory w').
Proof.
  intros E Hnames. destruct (walk_complete tenant_of place_of ("", "") w progress w') as [Hs Hall].
  - intros [t p] Hk. apply Hnames in Hk. cbn. unfold lex. cbn [fst snd].
    destruct (String.eqb_spec "" t) as [<-|]; [done|]. by destruct t.
  - exact E.
  - split; [exact Hs|]. intros k row Hk. by apply (Hall k row Hk).
Qed.
End rewrapping.

(** The seal's cipher reports its own errors. *)
#[export] Instance seal_cipher_errors `{Primitives} : CipherErrors.
Proof.
  intros tenant env aad w e. unfold cipher_Open, seal_cipher, seal.Cipher_Open, bind, seal.mem, lift_result.
  destruct (_ <? 1); [by intros [= <-]|]. destruct (seal.deriveKEKLocked _ _ _) as [kek|e1] eqn:Ek; cbn [fst].
  - unfold crypto.Open, crypto.AAD_encode, crypto.AAD_Validate, crypto.unwrapDEK, crypto.openWith, crypto.newAEAD, crypto.Key_Validate, result_bind.
    repeat case_match; intros; by simplify_eq.
  - intros [= <-]. revert Ek. unfold seal.deriveKEKLocked, crypto.Label, crypto.label_bytes, crypto.DeriveKey, crypto.Key_Validate, result_map, result_bind.
    repeat case_match; intros; by simplify_eq.
Qed.

(** ** Examples *)
Section examples.
Import sample.
#[local] Instance allow_read : Authorizer := {
  Authorize identity tenant path capability w :=
    (Ok (authz.MkDecision (String.eqb path "secret/acme/db/password") "readers" "secret/acme/*" ""), w);
  Permitted identity tenant path w := (Ok true, w) }.
#[local] Instance one_secret : Secrets := fun tenant path w =>
  (if String.eqb path "db/password" then Ok (bytes_of_string "hunter2", 3) else Err ["secret: not found"], w).
Local Definition caller : authn.Identity := authn.MkIdentity "svc-1" authn.KindService "acme" 0 false.
Local Definition w0 : World := set_seal_memory (MkSealMemory (Some (crypto.sample_key 9)) 1 [])
  (fresh_world (fun n => (1700000000 + Z.of_nat n) * Second) (fun n => Z.of_nat (5 * n + 1))).
Local Definition w1 : World := snd (Put "acme" "timeout" "int" "30" "ops" w0).
Local Definition w2 : World := snd (Put "acme" "app/dsn" "string" "db:${ secret/acme/db/password }@db" "ops" w1).
Local Definition timeout : Parameter_ :=
  MkParameter "acme" "app/db/timeout" "timeout" "int" "30" (1700000000 * Second) "ops".
Lemma timeout_ok : fst (Resolve "acme" "app/db/timeout" w2) = Ok timeout.
Proof. by vm_compute. Qed.
Local Definition dsn : Resolved :=
  MkResolved (MkParameter "acme" "app/svc/dsn" "app/dsn" "string" "db:${ secret/acme/db/password }@db" (1700000001 * Second) "ops")
    "db:hunter2@db" true ["secret/acme/db/password"].
Lemma dsn_ok : fst (Service_Resolve caller "acme" "app/svc/dsn" w2) = Ok dsn.
Proof. by vm_compute. Qed.
(** A secret whose value looks like a later reference is substituted once more. *)
Lemma substitute_again :
  ReplaceAll (ReplaceAll "${secret/acme/a} ${secret/acme/b}" (whole "secret/acme/a") "${secret/acme/b}") (whole "secret/acme/b") "B" = "B B".
Proof. by vm_compute. Qed.

#[local] Opaque Put Resolve Service_Resolve.
Lemma Resolve_nearest_witness :
  let segments := Split "app/db/timeout" "/"%char in
  let w' := snd (Resolve "acme" "app/db/timeout" w2) in
  database w' = database w2 ∧ validateLocation "acme" "app/db/timeout" = Ok tt ∧
  ∃ k row, (k < length segments)%nat ∧ read_from "acme" (candidate_at segments k) "app/db/timeout" w2 timeout row ∧
    ∀ j, (k < j < length segments)%nat → param_values (database w2) !! ("acme", candidate_at segments j) = None.
Proof. exact (Resolve_nearest "acme" "app/db/timeout" w2 _ timeout (pair_fst _ _ timeout_ok)). Defined.
Lemma put_ok : fst (Put "acme" "timeout" "int" "30" "ops" w0) = Ok tt.
Proof. by vm_compute. Qed.
Lemma Put_Resolve_witness :
  fst (Resolve "acme" "app/db/timeout" w1) = Ok timeout ∧
  ∀ key, key ≠ ("acme", "timeout") → param_values (database w1) !! key = param_values (database w0) !! key.
Proof.
  refine (Put_Resolve "acme" "timeout" "app/db/timeout" "int" "30" "ops" 0 w0 w1 (pair_fst _ _ put_ok) _ _ eq_refl _ eq_refl _).
  - intros n. by vm_compute.
  - split; by vm_compute.
  - vm_compute. lia.
  - intros j. destruct j as [|[|[|j]]]; vm_compute; intros [? ?]; [lia|done|done|lia].
Defined.
Lemma Resolve_references_witness :
  (∃ w', Resolve "acme" "app/svc/dsn" w2 = (Ok (r_Parameter dsn), w')) ∧
  References dsn = map TrimSpace (FindAll (p_Value (r_Parameter dsn))) ∧
  Forall (granted caller "acme") (References dsn) ∧ (length (References dsn) ≤ maxReferences)%nat ∧
  (Sensitive dsn = true ↔ References dsn ≠ []) ∧
  (References dsn = [] → r_Value dsn = p_Value (r_Parameter dsn)).
Proof. exact (Resolve_references caller "acme" "app/svc/dsn" w2 _ dsn (pair_fst _ _ dsn_ok)). Defined.
End examples.
End param.
