(* ===== verification/Rotate.v ===== *)
(** modules/rotate: one rotation of the key encryption key at a time, with every
  stored value moved under the new key (rotate.go), over HTTP (http.go).  The
  keys and the subjects are interfaces, as in the code. *)
From Stdlib Require Import ZArith Lia.
From S2P Require Import Prelude GoStrings GoTime Json World Policy Httpx AuditTrail Walk Interfaces.

(** rotate.Keys *)
Class Keys := { KEKVersion : M World Z; RotateKEK : M World (Z * Z) }.

Module rotate.
Definition policyPath : string := "sys/rotate".
Definition ErrInProgress : string := "rotate: a rotation is already running".

(** rotate.Subject: its name and its [Rewrap], which reports its progress also when it fails. *)
Record Subject := MkSubject { Name : string; Rewrap : World → RewrapProgress * result unit * World }.
Record named := MkNamed { name : string; progress : RewrapProgress }.
Record outcome := MkOutcome { from : Z; to : Z; subjects : list named }.
Definition no_outcome : outcome := MkOutcome 0 0 [].

Definition claim (w : World) : bool * World :=
  if rotation_busy w then (false, w) else (true, set_rotation_busy true w).
Definition release (w : World) : World := set_rotation_busy false w.

(** The loop over the subjects, with [result.subjects]. *)
Fixpoint rewrap_subjects (l : list Subject) (acc : list named) (w : World) : list named * result unit * World :=
  match l with
  | [] => (acc, Ok tt, w)
  | subject :: l =>
      match Rewrap subject w with
      | (progress, Err e, w) => (acc ++ [MkNamed (Name subject) progress], Err e, w)
      | (progress, Ok _, w) => rewrap_subjects l (acc ++ [MkNamed (Name subject) progress]) w
      end
  end.

Section rotate.
Context `{Keys} `{Authorizer} (all : list Subject) (sink : option (audit.Event → M World unit)).
Definition rotate_ (w : World) : outcome * result unit * World :=
  let '(claimed, w) := claim w in
  if negb claimed then (no_outcome, Err [ErrInProgress], w)
  else
    match RotateKEK w with
    | (Err e, w) => (no_outcome, Err e, release w)
    | (Ok (from, to), w) =>
        let '(subjects, r, w) := rewrap_subjects all [] w in (MkOutcome from to subjects, r, release w)
    end.

(** The error of the sink is logged and dropped. *)
Definition record (r : Request) (identity : authn.Identity) (res : string) (w : World) : World :=
  match sink with
  | None => w
  | Some append =>
      snd (append (audit.MkEvent "rotate.kek" (authn.ID identity) (authn.Tenant identity) policyPath 0 res "" ""
                     (RequestID r) (httpx.RemoteIP r)) w)
  end.
Definition internal : World → Response * World := reply (httpx.Problem StatusInternalServerError "internal_error").
Definition refuse (e : list string) : World → Response * World :=
  if errors_Is e ErrInProgress then reply (httpx.Problem StatusConflict "rotation_in_progress") else internal.
Definition render (o : outcome) : json :=
  JObj [("from", JNum (Itoa (from o))); ("to", JNum (Itoa (to o)));
        ("subjects", match subjects o with
                     | [] => JNull
                     | l => JArr (map (fun s => JObj [("name", JStr (name s)); ("examined", JNum (Itoa (Examined (progress s))));
                                                       ("rewrapped", JNum (Itoa (Rewrapped (progress s))))]) l)
                     end)].
Definition request_of (l : list (string * json)) : option Z := field_value ["current_version"] "current_version" to_int 0 l.
Definition handleRotate : Handler := fun r =>
  match Identity r with
  | None => reply (httpx.Problem StatusUnauthorized "unauthenticated")
  | Some identity =>
      match httpx.DecodeJSON ["current_version"] request_of (Body r) with
      | Err _ => reply (httpx.Problem StatusBadRequest "malformed_body")
      | Ok CurrentVersion =>
          run_or (Permitted identity (authn.Tenant identity) policyPath) (fun _ => internal) (fun permitted =>
          if negb permitted
          then fun w => reply (httpx.Problem StatusForbidden "forbidden") (record r identity audit.ResultDeny w)
          else
            run_or KEKVersion refuse (fun current =>
            if negb (CurrentVersion =? current) then reply (httpx.Problem StatusConflict "version_mismatch")
            else fun w =>
              match rotate_ w with
              | (_, Err e, w) => refuse e w
              | (result, Ok _, w) => (httpx.JSON StatusOK (render result), record r identity audit.ResultAllow w)
              end))
      end
  end.
End rotate.

(** ** One rotation at a time *)
Section theory.
Context `{Keys} (all : list Subject).
(** While a rotation runs, a second one is refused and changes nothing. *)
Lemma rotate_busy w : rotation_busy w = true → rotate_ all w = (no_outcome, Err [ErrInProgress], w).
Proof. unfold rotate_, claim. by intros ->. Qed.
Lemma rotate_Ok w o w' : rotate_ all w = (o, Ok tt, w') → rotation_busy w = false ∧
  ∃ w1 w2, RotateKEK (set_rotation_busy true w) = (Ok (from o, to o), w1) ∧
    rewrap_subjects all [] w1 = (subjects o, Ok tt, w2) ∧ w' = set_rotation_busy false w2.
Proof.
  unfold rotate_, claim. destruct (rotation_busy w); [done|]. cbn [negb].
  destruct (RotateKEK _) as [[[f t]|e] w1]; [|done]. destruct (rewrap_subjects all [] w1) as [[subs r] w2] eqn:E.
  intros [= <- -> <-]. split; [done|]. by exists w1, w2.
Qed.
(** Whatever happens, the claim is released. *)
Lemma rotate_releases w o r w' : rotation_busy w = false → rotate_ all w = (o, r, w') → rotation_busy w' = false.
Proof.
  intros Hb. unfold rotate_, claim. rewrite Hb. cbn [negb]. destruct (RotateKEK _) as [[[f t]|e] w1]; [|by intros [= _ _ <-]].
  destruct (rewrap_subjects all [] w1) as [[subs r'] w2]. by intros [= _ _ <-].
Qed.
End theory.
End rotate.
