(* ===== verification/SecretHttp.v ===== *)
(** modules/secret/http.go: reading, writing and deleting secrets over HTTP,
  against the interfaces of the authorizer, the lease manager and the audit
  sink.  Log lines are left out. *)
From Stdlib Require Import ZArith Lia.
From S2P Require Import Prelude GoStrings GoTime Json World Policy Httpx Envelope AuditTrail Cipher SecretStore Interfaces.

Module secret_http.
Import secret.
Definition namespace : string := "secret".
Definition PolicyPath (tenant path : string) : string := namespace +:+ "/" +:+ tenant +:+ "/" +:+ path.

Section http.
Context `{Cipher} `{Authorizer} `{Leases} `{Sink} (maxVersions leaseTTL : Z).

(** [false] is an early return of the handler after the problem was written. *)
Definition recorded (r : Request) (operation : string) (identity : authn.Identity) (tenant path : string) (version : Z)
  (res : string) (decision : authz.Decision) (k : World → Response * World) : World → Response * World :=
  run_or (Append (audit.MkEvent operation (authn.ID identity) tenant (PolicyPath tenant path) version res
            (authz.Policy decision) (authz.Rule decision) (RequestID r) (httpx.RemoteIP r)))
    (fun _ => reply (httpx.Problem StatusServiceUnavailable "audit_unavailable")) (fun _ => k).

Definition no_decision : authz.Decision := authz.MkDecision false "" "" "".

Definition permitted (r : Request) (capability : string)
  (k : authn.Identity → string → string → World → Response * World) : World → Response * World :=
  match Identity r with
  | None => reply (httpx.Problem StatusUnauthorized "unauthenticated")
  | Some identity =>
      let tenant := PathValue r "tenant" in
      let path := PathValue r "path" in
      if String.eqb tenant "" || String.eqb path "" then reply (httpx.Problem StatusNotFound "not_found")
      else
        run_or (Authorize identity tenant (PolicyPath tenant path) capability)
          (fun _ => reply (httpx.Problem StatusInternalServerError "internal_error"))
          (fun decision =>
             if negb (authz.Allowed decision)
             then recorded r ("secret." +:+ capability) identity tenant path 0 audit.ResultDeny decision
                    (reply (httpx.Problem StatusForbidden "forbidden"))
             else k identity tenant path)
  end.

Definition fail_with (e : list string) : World → Response * World :=
  if errors_Is e ErrNotFound || errors_Is e ErrDeleted || errors_Is e ErrDestroyed
  then reply (httpx.Problem StatusNotFound "not_found")
  else if errors_Is e ErrConflict then reply (httpx.Problem StatusConflict "version_conflict")
  else if errors_Is e ErrInvalidTenant || errors_Is e ErrInvalidPath || errors_Is e ErrInvalidVersion
  then reply (httpx.Problem StatusBadRequest "invalid_location")
  else reply (httpx.Problem StatusInternalServerError "internal_error").

Definition requestedVersion (r : Request) : result Z :=
  let raw := Query r "version" in
  if String.eqb raw "" then Ok currentVersion
  else match Atoi raw with
       | Some version => if version <? 0 then Err [ErrInvalidVersion] else Ok version
       | None => Err [ErrInvalidVersion]
       end.

Definition readResponse (value : Value) (leaseID : string) (ttl : Z) : json :=
  JObj [("value", JStr (string_of_bytes (Data value))); ("version", JNum (Itoa (v_Version value)));
        ("created_at", JStr (RFC3339 (v_CreatedAt value))); ("lease_id", JStr leaseID); ("lease_ttl", JNum (Itoa ttl))].
Definition handleRead : Handler := fun r =>
  permitted r authz.Read (fun identity tenant path =>
    match requestedVersion r with
    | Err _ => reply (httpx.Problem StatusBadRequest "invalid_version")
    | Ok version =>
        run_or (Service_Get tenant path version) fail_with (fun value =>
        run_or (Issue tenant (authn.ID identity) (PolicyPath tenant path) (v_Version value) leaseTTL)
          (fun _ => reply (httpx.Problem StatusInternalServerError "internal_error")) (fun lease =>
        recorded r "secret.read" identity tenant path (v_Version value) audit.ResultAllow no_decision (fun w =>
          let '(t, w) := (clock w 0%nat, set_clock (fun n => clock w (S n)) w) in
          (httpx.JSON StatusOK (readResponse value (fst lease) (int_Seconds (Sub (snd lease) t))), w))))
    end).

Definition write_fields : list string := ["value"; "cas"].
(** [CAS] is a pointer: absent is [None], and so is a [null], whatever came before it. *)
Definition pointer_field {A} (names : list string) (name : string) (conv : json → option A) (l : list (string * json)) : option (option A) :=
  foldl (fun acc m =>
    a ← acc;
    if bool_decide (field_of names (fst m) = Some name)
    then match snd m with JNull => Some None | v => n ← conv v; Some (Some n) end else Some a) (Some None) l.
Definition writeRequest_of (l : list (string * json)) : option (string * option Z) :=
  value ← field_value write_fields "value" to_str "" l;
  cas ← pointer_field write_fields "cas" to_int l;
  Some (value, cas).
Definition handleWrite : Handler := fun r =>
  permitted r authz.Write (fun identity tenant path =>
    match httpx.DecodeJSON write_fields writeRequest_of (Body r) with
    | Err _ => reply (httpx.Problem StatusBadRequest "malformed_body")
    | Ok request =>
        let put expectation :=
          run_or (Service_Put maxVersions tenant path (bytes_of_string (fst request)) expectation) fail_with (fun version =>
          recorded r "secret.write" identity tenant path version audit.ResultAllow no_decision
            (reply (httpx.JSON StatusOK (JObj [("version", JNum (Itoa version))])))) in
        match snd request with
        | None => put Any
        | Some cas => if cas <? 0 then reply (httpx.Problem StatusBadRequest "invalid_version") else put (AtVersion cas)
        end
    end).

Definition handleDelete : Handler := fun r =>
  permitted r authz.Delete (fun identity tenant path =>
    run_or (Service_Delete tenant path []) fail_with (fun _ =>
    recorded r "secret.delete" identity tenant path 0 audit.ResultAllow no_decision (reply httpx.no_content))).

Definition handleMetadata : Handler := fun r =>
  permitted r authz.Read (fun identity tenant path =>
    run_or (Service_Metadata tenant path) fail_with (fun metadata =>
    reply (httpx.JSON StatusOK (JObj [("current_version", JNum (Itoa (CurrentVersion metadata)));
      ("max_versions", JNum (Itoa (MaxVersions metadata))); ("created_at", JStr (RFC3339 (CreatedAt metadata)));
      ("updated_at", JStr (RFC3339 (UpdatedAt metadata)))])))).
End http.
End secret_http.
