(* ===== verification/Jwt.v ===== *)
(** platform/jwt: the assertions an instance logs in with (jwt.go) and the key
  set they are verified under (jwks.go).  Ed25519 verification is a parameter. *)
From Stdlib Require Import ZArith Lia Ascii.
From S2P Require Import Prelude GoStrings GoTime Base64 Json World.

(** [ed25519.Verify(key, message, signature)] *)
Class Ed25519 := ed25519_Verify : ∀ (key message signature : list Z), bool.

Module jwt.
Definition algorithmEdDSA : string := "EdDSA".
Definition typeJWT : string := "JWT".
Definition MaxTokenBytes : Z := Z.shiftl 8 10.
Definition MaxSkew : Z := Minute.
Definition PublicKeySize : nat := 32.
Definition SignatureSize : nat := 64.

Definition ErrMalformed : string := "jwt: token is malformed".
Definition ErrTooLarge : string := "jwt: token is larger than the accepted maximum".
Definition ErrAlgorithm : string := "jwt: unsupported signing algorithm".
Definition ErrCritical : string := "jwt: token declares header extensions that are not understood".
Definition ErrUnknownKey : string := "jwt: no verification key for the declared key id".
Definition ErrSignature : string := "jwt: signature does not verify".
Definition ErrExpired : string := "jwt: token has expired".
Definition ErrNotYetValid : string := "jwt: token is not valid yet".
Definition ErrIssuedInFuture : string := "jwt: token claims to be issued in the future".
Definition ErrIssuer : string := "jwt: unexpected issuer".
Definition ErrAudience : string := "jwt: token is not addressed to this store".
Definition ErrSubject : string := "jwt: token carries no subject".
Definition ErrTokenID : string := "jwt: token carries no identifier".
Definition ErrTenant : string := "jwt: token carries no tenant".
Definition ErrNoExpiry : string := "jwt: token carries no expiry".
Definition ErrNoIssuer : string := "jwt: an expected issuer is required".
Definition ErrNoAudience : string := "jwt: an expected audience is required".
Definition ErrNegativeSkew : string := "jwt: clock skew must not be negative".
Definition ErrJWKSMalformed : string := "jwt: key set is malformed".
Definition ErrJWKSEmpty : string := "jwt: key set contains no usable Ed25519 signing key".
Definition ErrJWKSTooLarge : string := "jwt: key set is larger than the accepted maximum".
Definition ErrJWKSDuplicate : string := "jwt: key set repeats a key id".

(** ** Decoding *)

(** One value, then [decoder.More]: a closing bracket after it goes unnoticed. *)
Definition strictUnmarshal (raw : string) : option json :=
  match parse_value (S (2 * String.length raw)) raw with
  | None => None
  | Some (v, rest) =>
      match skip_ws rest with
      | EmptyString => Some v
      | String c _ => if Ascii.eqb c "]"%char || Ascii.eqb c "}"%char then Some v else None
      end
  end.
(** The members of a struct; [null] leaves the struct as it is. *)
Definition members (v : json) : option (list (string * json)) :=
  match v with JObj l => Some l | JNull => Some [] | _ => None end.
Definition to_text (v : json) : option string := match v with JStr s => Some s | JNull => Some "" | _ => None end.
Definition to_texts (v : json) : option (list string) := match v with JArr l => mapM to_text l | _ => None end.

(** [Audience.UnmarshalJSON], which is called for [null] too. *)
Definition Audience_UnmarshalJSON (v : json) : option (list string) :=
  match v with
  | JStr s => Some [s]
  | JNull => Some [""]
  | _ => to_texts v
  end.
Definition field_audience (names : list string) (l : list (string * json)) : option (list string) :=
  foldl (fun acc m => a ← acc; if bool_decide (field_of names (fst m) = Some "aud") then Audience_UnmarshalJSON (snd m) else Some a)
    (Some []) l.
Definition contains (a : list string) (value : string) : bool := existsb (fun entry => String.eqb entry value) a.

Record Claims := MkClaims {
  Issuer : string; Subject : string; Audience : list string; ExpiresAt : Z; NotBefore : Z; IssuedAt : Z;
  ID : string; Tenant : string }.
Definition claim_fields : list string := ["iss"; "sub"; "aud"; "exp"; "nbf"; "iat"; "jti"; "tenant"].
Definition Claims_of_json (v : json) : option Claims :=
  l ← members v;
  iss ← field_value claim_fields "iss" to_str "" l;
  sub ← field_value claim_fields "sub" to_str "" l;
  aud ← field_audience claim_fields l;
  exp ← field_value claim_fields "exp" to_int 0 l;
  nbf ← field_value claim_fields "nbf" to_int 0 l;
  iat ← field_value claim_fields "iat" to_int 0 l;
  jti ← field_value claim_fields "jti" to_str "" l;
  tenant ← field_value claim_fields "tenant" to_str "" l;
  Some (MkClaims iss sub aud exp nbf iat jti tenant).

Record header := MkHeader { Algorithm : string; Type_ : string; KeyID : string; Critical : list string }.
Definition header_fields : list string := ["alg"; "typ"; "kid"; "crit"].
Definition header_of_json (v : json) : option header :=
  l ← members v;
  alg ← field_value header_fields "alg" to_str "" l;
  typ ← field_value header_fields "typ" to_str "" l;
  kid ← field_value header_fields "kid" to_str "" l;
  crit ← field_value header_fields "crit" to_texts [] l;
  Some (MkHeader alg typ kid crit).

(** [bytes.Split(token, ".")] into three parts that are not empty. *)
Definition split (token : string) : result (string * string * string) :=
  match Split token "."%char with
  | [h; p; s] => if String.eqb h "" || String.eqb p "" || String.eqb s "" then Err [ErrMalformed] else Ok (h, p, s)
  | _ => Err [ErrMalformed]
  end.
Definition decodeSegment (segment : string) : result (list Z) :=
  match RawURLDecode segment with Some b => Ok b | None => Err [ErrMalformed] end.
Definition decodeHeader (raw : list Z) : result header :=
  match v ← strictUnmarshal (string_of_bytes raw); header_of_json v with
  | None => Err [ErrMalformed]
  | Some head =>
      if negb (String.eqb (Algorithm head) algorithmEdDSA) then Err [ErrAlgorithm]
      else if negb (String.eqb (Type_ head) "") && negb (String.eqb (Type_ head) typeJWT) then Err [ErrMalformed]
      else if negb (bool_decide (Critical head = [])) then Err [ErrCritical]
      else Ok head
  end.

(** ** The verifier *)
Definition StaticKeys : Type := gmap string (list Z).
Definition PublicKey (s : StaticKeys) (keyID : string) : result (list Z) :=
  match s !! keyID with Some key => Ok key | None => Err [ErrUnknownKey] end.

Record Verifier := MkVerifier { keys : string → result (list Z); issuer : string; audience : string; skew : Z }.
Definition NewVerifier (keys : string → result (list Z)) (issuer audience : string) (skew : Z) : result Verifier :=
  if String.eqb issuer "" then Err [ErrNoIssuer]
  else if String.eqb audience "" then Err [ErrNoAudience]
  else if skew <? 0 then Err [ErrNegativeSkew]
  else Ok (MkVerifier keys issuer audience (if MaxSkew <? skew then MaxSkew else skew)).

(** Instants are nanoseconds since 1970, the claims seconds. *)
Definition check (v : Verifier) (now : Z) (claims : Claims) : result unit :=
  if ExpiresAt claims =? 0 then Err [ErrNoExpiry]
  else if String.eqb (Subject claims) "" then Err [ErrSubject]
  else if String.eqb (ID claims) "" then Err [ErrTokenID]
  else if String.eqb (Tenant claims) "" then Err [ErrTenant]
  else if negb (String.eqb (Issuer claims) (issuer v)) then Err [ErrIssuer]
  else if negb (contains (Audience claims) (audience v)) then Err [ErrAudience]
  else if negb (now - skew v <? Unix (ExpiresAt claims)) then Err [ErrExpired]
  else if negb (NotBefore claims =? 0) && (now + skew v <? Unix (NotBefore claims)) then Err [ErrNotYetValid]
  else if negb (IssuedAt claims =? 0) && (now + skew v <? Unix (IssuedAt claims)) then Err [ErrIssuedInFuture]
  else Ok tt.

Section verify.
Context `{Ed25519}.
(** Everything that comes before the claims are looked at: the signed text is
  the token up to its second dot. *)
Definition authenticated (v : Verifier) (token : string) : result (list Z) :=
  if MaxTokenBytes <? len token then Err [ErrTooLarge]
  else
    let? parts := split token in
    let '(h, p, s) := parts in
    let? rawHeader := decodeSegment h in
    let? head := decodeHeader rawHeader in
    let? signature := decodeSegment s in
    if negb (length signature =? SignatureSize)%nat then Err [ErrSignature]
    else
      let signed := String.substring 0 (String.length h + 1 + String.length p) token in
      let? key := keys v (KeyID head) in
      if negb (length key =? PublicKeySize)%nat then Err [ErrUnknownKey]
      else if negb (ed25519_Verify key (bytes_of_string signed) signature) then Err [ErrSignature]
      else decodeSegment p.
Definition Verify (v : Verifier) (token : string) : M World Claims :=
  let! rawClaims := lift_result (authenticated v token) in
  match c ← strictUnmarshal (string_of_bytes rawClaims); Claims_of_json c with
  | None => fail [ErrMalformed]
  | Some claims =>
      let! t := now in
      lift_result (check v t claims) ;!
      ret claims
  end.
End verify.

(** ** jwks.go *)
Definition keyTypeOKP : string := "OKP".
Definition curveEd25519 : string := "Ed25519".
Definition useSignature : string := "sig".
Definition MaxJWKSBytes : Z := Z.shiftl 64 10.
Definition maxKeysInSet : Z := 32.

Record jsonWebKey := MkJsonWebKey {
  k_KeyType : string; k_Curve : string; k_KeyID : string; k_PublicKey : string; k_Use : string; k_Algorithm : string }.
Definition key_fields : list string := ["kty"; "crv"; "kid"; "x"; "use"; "alg"].
Definition jsonWebKey_of_json (v : json) : option jsonWebKey :=
  l ← members v;
  kty ← field_value key_fields "kty" to_str "" l;
  crv ← field_value key_fields "crv" to_str "" l;
  kid ← field_value key_fields "kid" to_str "" l;
  x ← field_value key_fields "x" to_str "" l;
  use ← field_value key_fields "use" to_str "" l;
  alg ← field_value key_fields "alg" to_str "" l;
  Some (MkJsonWebKey kty crv kid x use alg).
Definition keys_of_json (v : json) : option (list jsonWebKey) :=
  match v with JArr l => mapM jsonWebKey_of_json l | _ => None end.
Definition usable (c : jsonWebKey) : bool :=
  if String.eqb (k_KeyID c) "" then false
  else if negb (String.eqb (k_KeyType c) keyTypeOKP) then false
  else if negb (String.eqb (k_Curve c) curveEd25519) then false
  else if negb (String.eqb (k_Use c) "") && negb (String.eqb (k_Use c) useSignature) then false
  else if negb (String.eqb (k_Algorithm c) "") && negb (String.eqb (k_Algorithm c) algorithmEdDSA) then false
  else true.
(** The loop over the candidates. *)
Fixpoint collect_keys (keys : StaticKeys) (l : list jsonWebKey) : result StaticKeys :=
  match l with
  | [] => Ok keys
  | candidate :: l =>
      if negb (usable candidate) then collect_keys keys l
      else match RawURLDecode (k_PublicKey candidate) with
           | None => collect_keys keys l
           | Some material =>
               if negb (length material =? PublicKeySize)%nat then collect_keys keys l
               else match keys !! k_KeyID candidate with
                    | Some _ => Err [ErrJWKSDuplicate]
                    | None => collect_keys (<[k_KeyID candidate := material]> keys) l
                    end
           end
  end.
Definition ParseJWKS (raw : string) : result StaticKeys :=
  if MaxJWKSBytes <? len raw then Err [ErrJWKSTooLarge]
  else
    match v ← strictUnmarshal raw; l ← members v; field_value ["keys"] "keys" keys_of_json [] l with
    | None => Err [ErrJWKSMalformed]
    | Some set =>
        if maxKeysInSet <? blen set then Err [ErrJWKSTooLarge]
        else let? keys := collect_keys ∅ set in
             if bool_decide (keys = ∅) then Err [ErrJWKSEmpty] else Ok keys
    end.

(** ** What an accepted token guarantees *)
Section theory.
Context `{Ed25519}.
(** The window of validity, with the clock skew on both ends. *)
Definition valid_at (v : Verifier) (now : Z) (claims : Claims) : Prop :=
  now - skew v < Unix (ExpiresAt claims) ∧
  (NotBefore claims = 0 ∨ Unix (NotBefore claims) ≤ now + skew v) ∧
  (IssuedAt claims = 0 ∨ Unix (IssuedAt claims) ≤ now + skew v).
Lemma check_ok v now claims : check v now claims = Ok tt ↔
  ExpiresAt claims ≠ 0 ∧ Subject claims ≠ "" ∧ ID claims ≠ "" ∧ Tenant claims ≠ "" ∧
  Issuer claims = issuer v ∧ audience v ∈ Audience claims ∧ valid_at v now claims.
Proof.
  unfold check, valid_at. destruct (Z.eqb_spec (ExpiresAt claims) 0); [split; [done|tauto]|].
  destruct (String.eqb_spec (Subject claims) ""); [split; [done|tauto]|].
  destruct (String.eqb_spec (ID claims) ""); [split; [done|tauto]|].
  destruct (String.eqb_spec (Tenant claims) ""); [split; [done|tauto]|].
  destruct (String.eqb_spec (Issuer claims) (issuer v)); cbn [negb]; [|split; [done|tauto]].
  assert (contains (Audience claims) (audience v) = true ↔ audience v ∈ Audience claims) as Ha.
  { unfold contains. rewrite existsb_exists, list_elem_of_In. split.
    - intros (x&Hx&Heq). apply String.eqb_eq in Heq. by subst.
    - intros Hx. exists (audience v). by rewrite String.eqb_refl. }
  destruct (contains (Audience claims) (audience v)); cbn [negb]; [|split; [done|]; intros (_&_&_&_&_&Hx&_); by apply Ha in Hx].
  destruct (Z.ltb_spec (now - skew v) (Unix (ExpiresAt claims))); cbn [negb]; [|split; [done|lia]].
  destruct (Z.eqb_spec (NotBefore claims) 0), (Z.ltb_spec (now + skew v) (Unix (NotBefore claims))); cbn [negb andb];
    try (split; [done|lia]);
    destruct (Z.eqb_spec (IssuedAt claims) 0), (Z.ltb_spec (now + skew v) (Unix (IssuedAt claims))); cbn [negb andb];
    try (split; [done|lia]); (split; [intros _; split_and!; try done; try lia; by apply Ha|done]).
Qed.
Lemma split_ok token h p s : split token = Ok (h, p, s) →
  token = (h +:+ "." +:+ p) +:+ "." +:+ s ∧ h ≠ "" ∧ p ≠ "" ∧ s ≠ "".
Proof.
  unfold split. pose proof (Join_Split token "."%char) as Hj.
  destruct (Split token "."%char) as [|a [|b [|c [|]]]]; try done.
  destruct (String.eqb_spec a ""), (String.eqb_spec b ""), (String.eqb_spec c ""); try done.
  intros [= <- <- <-]. split; [|done]. rewrite <- Hj. cbn [Join]. by rewrite <- !str_app_assoc.
Qed.

Lemma Verify_inv (v : Verifier) (token : string) (w w' : World) (claims : Claims) :
  Verify v token w = (Ok claims, w') →
  w' = set_clock (fun n => clock w (S n)) w ∧
  (∃ h p s head key signature raw, token = (h +:+ "." +:+ p) +:+ "." +:+ s ∧
     (b ← RawURLDecode h; c ← strictUnmarshal (string_of_bytes b); header_of_json c) = Some head ∧
     Algorithm head = algorithmEdDSA ∧ Critical head = [] ∧
     keys v (KeyID head) = Ok key ∧ length key = PublicKeySize ∧
     RawURLDecode s = Some signature ∧ length signature = SignatureSize ∧
     ed25519_Verify key (bytes_of_string (h +:+ "." +:+ p)) signature = true ∧
     RawURLDecode p = Some raw ∧ (c ← strictUnmarshal (string_of_bytes raw); Claims_of_json c) = Some claims) ∧
  check v (clock w 0%nat) claims = Ok tt.
Proof.
  unfold Verify. intros E. apply bind_ok_inv in E as (raw&w1&Ea&E). unfold lift_result in Ea. injection Ea as Ha <-.
  destruct (c ← strictUnmarshal (string_of_bytes raw); Claims_of_json c) as [cl|] eqn:Ec; [|done].
  rewrite bind_now in E. apply bind_ok_inv in E as ([]&w1&Ek&E). unfold lift_result in Ek. injection Ek as Hk <-.
  injection E as <- <-. split; [done|]. split; [|done].
  unfold authenticated in Ha. destruct (_ <? len token); [done|].
  destruct (split token) as [[[h p] s]|] eqn:Es; [|done]. cbn [result_bind] in Ha.
  unfold decodeSegment at 1 in Ha. destruct (RawURLDecode h) as [rh|] eqn:Eh; [|done]. cbn [result_bind] in Ha.
  unfold decodeHeader in Ha. destruct (c ← strictUnmarshal (string_of_bytes rh); header_of_json c) as [head|] eqn:Ehd; [|done].
  destruct (String.eqb_spec (Algorithm head) algorithmEdDSA); [|done]. cbn [negb] in Ha.
  destruct (_ && _); [done|]. destruct (bool_decide_reflect (Critical head = [])); [|done]. cbn [negb result_bind] in Ha.
  unfold decodeSegment at 1 in Ha. destruct (RawURLDecode s) as [sg|] eqn:Esg; [|done]. cbn [result_bind] in Ha.
  destruct (Nat.eqb_spec (length sg) SignatureSize); [|done]. cbn [negb] in Ha.
  destruct (keys v (KeyID head)) as [key|] eqn:Ekey; [|done]. cbn [result_bind] in Ha.
  destruct (Nat.eqb_spec (length key) PublicKeySize); [|done]. cbn [negb] in Ha.
  apply split_ok in Es as (Ht&_&_&_).
  assert (String.substring 0 (String.length h + 1 + String.length p) token = h +:+ "." +:+ p) as Hsub.
  { rewrite Ht. replace (String.length h + 1 + String.length p)%nat with (String.length (h +:+ "." +:+ p)).
    - apply substring_app.
    - rewrite !length_app_string. cbn. lia. }
  rewrite Hsub in Ha. destruct (ed25519_Verify key _ sg) eqn:Ev; [|done]. cbn [negb] in Ha.
  unfold decodeSegment in Ha. destruct (RawURLDecode p) as [rp|] eqn:Ep; [|done]. injection Ha as <-.
  exists h, p, s, head, key, sg, rp. rewrite Eh. cbn. split_and!; done.
Qed.

(** C31. A token is accepted only if its header names the EdDSA algorithm and
  no critical extension, the key of its key id verifies the signature over
  exactly the text before the second dot, and the claims in that text name a
  subject, an identifier, a tenant, this store and the expected issuer and are
  valid now, up to the skew. *)
Theorem Verify_accepts (v : Verifier) (token : string) (w w' : World) (claims : Claims)
  (Hrun : Verify v token w = (Ok claims, w')) :
  (∃ signed s head key signature, token = signed +:+ "." +:+ s ∧
     Algorithm head = algorithmEdDSA ∧ Critical head = [] ∧ keys v (KeyID head) = Ok key ∧
     RawURLDecode s = Some signature ∧ ed25519_Verify key (bytes_of_string signed) signature = true ∧
     ∃ h p raw, signed = h +:+ "." +:+ p ∧ RawURLDecode p = Some raw ∧
       (b ← RawURLDecode h; c ← strictUnmarshal (string_of_bytes b); header_of_json c) = Some head ∧
       (c ← strictUnmarshal (string_of_bytes raw); Claims_of_json c) = Some claims) ∧
  Subject claims ≠ "" ∧ ID claims ≠ "" ∧ Tenant claims ≠ "" ∧
  Issuer claims = issuer v ∧ audience v ∈ Audience claims ∧ ExpiresAt claims ≠ 0 ∧ valid_at v (clock w 0%nat) claims.
Proof.
  destruct (Verify_inv _ _ _ _ _ Hrun) as (_&(h&p&s&head&key&sg&raw&Ht&Hh&Ha&Hc&Hk&_&Hs&_&Hv&Hp&Hcl)&Hck).
  apply check_ok in Hck as (?&?&?&?&?&?&?). split; [|done].
  exists (h +:+ "." +:+ p), s, head, key, sg. split_and!; try done. by exists h, p, raw.
Qed.
End theory.

(** ** Examples *)
Section examples.
(** A stand-in that accepts one signature. *)
#[local] Instance sample_ed25519 : Ed25519 := fun key message signature => bool_decide (signature = replicate 64 7).
Local Definition sample_keys : string → result (list Z) := fun id => if String.eqb id "k1" then Ok (replicate 32 1) else Err [ErrUnknownKey].
Local Definition verifier : Verifier := MkVerifier sample_keys "control" "marsec" (30 * Second).
Local Definition claims0 : Claims := MkClaims "control" "instance-7" ["marsec"] 1700000300 0 1700000000 "jti-1" "acme".
Local Definition text (v : json) : string := RawURLEncode (bytes_of_string (print v)).
Local Definition token0 : string :=
  text (JObj [("alg", JStr "EdDSA"); ("typ", JStr "JWT"); ("kid", JStr "k1")]) +:+ "." +:+
  text (JObj [("iss", JStr "control"); ("sub", JStr "instance-7"); ("aud", JStr "marsec"); ("exp", JNum "1700000300");
              ("iat", JNum "1700000000"); ("jti", JStr "jti-1"); ("tenant", JStr "acme")]) +:+ "." +:+
  RawURLEncode (replicate 64 7).
Local Definition w0 : World := fresh_world (fun _ => 1700000010 * Second) (fun _ => 0).
Lemma token0_ok : fst (Verify verifier token0 w0) = Ok claims0.
Proof. by vm_compute. Qed.
Lemma Verify_accepts_witness :
  (∃ signed s head key signature, token0 = signed +:+ "." +:+ s ∧
     Algorithm head = algorithmEdDSA ∧ Critical head = [] ∧ keys verifier (KeyID head) = Ok key ∧
     RawURLDecode s = Some signature ∧ ed25519_Verify key (bytes_of_string signed) signature = true ∧
     ∃ h p raw, signed = h +:+ "." +:+ p ∧ RawURLDecode p = Some raw ∧
       (b ← RawURLDecode h; c ← strictUnmarshal (string_of_bytes b); header_of_json c) = Some head ∧
       (c ← strictUnmarshal (string_of_bytes raw); Claims_of_json c) = Some claims0) ∧
  Subject claims0 ≠ "" ∧ ID claims0 ≠ "" ∧ Tenant claims0 ≠ "" ∧
  Issuer claims0 = issuer verifier ∧ audience verifier ∈ Audience claims0 ∧ ExpiresAt claims0 ≠ 0 ∧
  valid_at verifier (clock w0 0%nat) claims0.
Proof. exact (Verify_accepts verifier token0 w0 _ claims0 (pair_fst _ _ token0_ok)). Defined.
End examples.
End jwt.
