(* ===== verification/Client.v ===== *)
(** internal/client: the library the agent and the command line talk to a store
  with (client.go, api.go).  The network is a parameter: a request as it goes out
  comes back as an answer, or as an error.  What net/http's client makes of an answer,
  following redirects ([http.Client.Do], without a [CheckRedirect]), is modelled. *)
From Stdlib Require Import ZArith Lia Ascii.
From S2P Require Import Prelude GoStrings GoTime Json Interfaces GoNumbers GoUrl Jwt.

(** What goes out, and what does not change on the way: the method, the whole
  target, two headers when they are set, the body when there is one. *)
Record WireRequest := MkWire {
  wr_method : string; wr_target : string; wr_headers : list (string * string); wr_body : option string }.
(** The status, the header [Location] or nothing, and the body. *)
Record Answer := MkAnswer { an_status : Z; an_location : string; an_text : string }.
(** One request and its answer, in a network whose state is [S], and the form of a host
  name in ASCII (the package idna; a name it refuses is left as it is). *)
Class Transport (S : Type) := { RoundTrip : WireRequest → M S Answer; ToASCII : string → string }.

Module client.
Definition DefaultTimeout : Z := 10 * Second.
Definition maxResponseSize : Z := 2 ^ 20.
Definition bearerScheme : string := "Bearer ".
Definition ErrNoAddress : string := "client: an address is required".
Definition ErrPlaintext : string := "client: refusing to talk plaintext HTTP without an explicit opt-in".
Definition ErrBadAddress : string := "client: the address is not a usable URL".
Definition ErrNoToken : string := "client: this call needs a token".
Definition ErrUnauthorized : string := "client: the store refused the credential".
Definition ErrForbidden : string := "client: the store refused the request".
Definition ErrNotFound : string := "client: no such path".
Definition ErrConflict : string := "client: the expected version does not match".
Definition ErrSealed : string := "client: the store is sealed".
Definition ErrRateLimited : string := "client: the store is rate limiting this caller".
Definition ErrUnavailable : string := "client: the store cannot serve this request".
Definition ErrResponseLarge : string := "client: the response is larger than the accepted maximum".
(** Errors without a sentinel. *)
Definition bad_certificate : string := "client: the file holds no usable certificate".
Definition bad_url : string := "net/url: the target does not parse".
Definition bad_json : string := "json: the body does not decode".
Definition bad_time : string := "time: the text does not parse".
Definition unsupported : string := "http: the scheme or the host of the target is not one to send to".
Definition bad_location : string := "http: the location of a redirect does not parse".
Definition too_many_redirects : string := "http: stopped after 10 redirects".
Definition other_status : string := "client: the store answered".

Record Options := MkOptions {
  Address : string; CACertFile : string; RootCAs : bool; AllowPlainHTTP : bool; Timeout : Z }.
(** Certificates and the timeout are for the transport. *)
Record Client := MkClient { base : string; timeout : Z; token : list Z }.
Definition set_token (t : list Z) (c : Client) : Client := MkClient (base c) (timeout c) t.

Section new.
Context `{IPLiterals}.
(** [pem] is the certificate file: whether it can be read, and whether it holds a
  certificate. *)
Definition New (pem : result bool) (opts : Options) : result Client :=
  if String.eqb (Address opts) "" then Err [ErrNoAddress]
  else
    match url.Parse (Address opts) with
    | None => Err [ErrBadAddress]
    | Some parsed =>
        if String.eqb (url.Host parsed) "" then Err [ErrBadAddress]
        else
          let made := Ok (MkClient (TrimSuffix (Address opts) "/") (if Timeout opts <=? 0 then DefaultTimeout else Timeout opts) []) in
          let with_roots :=
            if negb (RootCAs opts) && negb (String.eqb (CACertFile opts) "")
            then let? usable := pem in if usable then made else Err [bad_certificate]
            else made in
          if String.eqb (url.Scheme parsed) "https" then with_roots
          else if String.eqb (url.Scheme parsed) "http" then if AllowPlainHTTP opts then with_roots else Err [ErrPlaintext]
          else Err [ErrBadAddress]
    end.
End new.

(** ** One call *)
Record request := MkCall {
  method : string; path : string; query : list (string * string); content : option json; needsToken : bool }.
(** A client and the network it lives in. *)
Record Linked (S : Type) := MkLinked { linked : Client; network : S }.
Arguments MkLinked {S} linked network.
Arguments linked {S} l.
Arguments network {S} l.

(** [url.QueryEscape] *)
Fixpoint QueryEscape (s : string) : string :=
  match s with
  | EmptyString => ""
  | String c r =>
      let b := byte_of_ascii c in
      (if url.unreserved c then String c "" else if Ascii.eqb c " " then "+"
       else String "%" (String (url.upper_hex (b / 16)) (String (url.upper_hex (b mod 16)) ""))) +:+ QueryEscape r
  end.
(** [Values.Encode]: the pairs are given in the order of their names. *)
Definition Encode (query : list (string * string)) : string :=
  Join (List.map (fun p => QueryEscape (fst p) +:+ "=" +:+ QueryEscape (snd p)) query) "&".

(** The code of a problem; what does not decode leaves it empty. *)
Definition code_in (v : json) (code : string) : string :=
  match v with
  | JObj l => foldl (fun code m => if bool_decide (field_of ["code"] (fst m) = Some "code")
                                   then match snd m with JStr s => s | _ => code end else code) code l
  | _ => code
  end.
Definition problem_code (text : string) : string :=
  match parse text with
  | Some (JObj l) => foldl (fun code m => if bool_decide (field_of ["error"] (fst m) = Some "error") then code_in (snd m) code else code) "" l
  | _ => ""
  end.
Definition statusError (status : Z) (text : string) : list string :=
  if status =? 401 then [ErrUnauthorized]
  else if status =? 403 then [ErrForbidden]
  else if status =? 404 then [ErrNotFound]
  else if status =? 409 then [ErrConflict]
  else if status =? 429 then [ErrRateLimited]
  else if status =? 503 then if String.eqb (problem_code text) "sealed" then [ErrSealed] else [ErrUnavailable]
  else [other_status].

Section calls.
Context {S : Type} `{Transport S} `{IPLiterals}.
Definition SetToken (t : list Z) : M (Linked S) unit := modify (fun l => MkLinked (set_token t (linked l)) (network l)).
Definition Token : M (Linked S) (list Z) := fun l => (Ok (token (linked l)), l).
Definition Forget : M (Linked S) unit := SetToken [].
Definition over {A} (m : M S A) : M (Linked S) A := fun l =>
  let '(r, n) := m (network l) in (r, MkLinked (linked l) n).

(** [json.Unmarshal] of a struct, from the members of an object. *)
Definition Unmarshal {A} (of_members : list (string * json) → option A) (text : string) : result A :=
  match v ← parse text; l ← jwt.members v; of_members l with Some a => Ok a | None => Err [bad_json] end.
Definition target (c : Client) (spec : request) : string :=
  base c +:+ path spec +:+ (if bool_decide (query spec = []) then "" else "?" +:+ Encode (query spec)).
Definition wire (c : Client) (spec : request) : WireRequest :=
  MkWire (method spec) (target c spec)
    (match content spec with Some _ => [("Content-Type", "application/json")] | None => [] end ++
     (if 0 <? blen (token c) then [("Authorization", bearerScheme +:+ string_of_bytes (token c))] else []))
    (print <$> content spec).

(** ** net/http's client
  [redirectBehavior]: the method of the next request, and whether the body goes with it
  (the body of a request of this client can always be had again). *)
Definition redirectBehavior (m : string) (status : Z) : option (string * bool) :=
  if bool_decide (status ∈ [301; 302; 303]) then Some (if bool_decide (m ∈ ["GET"; "HEAD"]) then m else "GET", false)
  else if bool_decide (status ∈ [307; 308]) then Some (m, true)
  else None.
Definition isDomainOrSubdomain (sub parent : string) : bool :=
  String.eqb sub parent || (negb (url.one_in ":%" sub) && HasSuffix sub ("." +:+ parent)).
(** [shouldCopyHeaderOnRedirect], for another host than that of the first request. *)
Definition host_in_ascii (host : string) : string :=
  let name := url.Hostname host in if ascii_only name then name else ToASCII name.
Definition trusts (first target : string) : bool :=
  match url.Parse first, url.Parse target with
  | Some i, Some t => String.eqb (url.Host i) (url.Host t) || isDomainOrSubdomain (host_in_ascii (url.Host t)) (host_in_ascii (url.Host i))
  | _, _ => false
  end.
(** The request after a redirect: the headers are those of the first one, less the
  credential once a host was not trusted with it, and less the type of a body that is
  left behind.  The [Referer] it also gets is left out. *)
Definition hop (first : WireRequest) (m target : string) (strip keep : bool) : WireRequest :=
  MkWire m target
    (List.filter (fun h => negb (strip && String.eqb (fst h) "Authorization") && negb (negb keep && String.eqb (fst h) "Content-Type")) (wr_headers first))
    (if keep then wr_body first else None).
(** The transport takes a target with a host and one of two schemes. *)
Definition send (w : WireRequest) : M S Answer :=
  match url.Parse (wr_target w) with
  | Some u => if bool_decide (url.Scheme u ∈ ["http"; "https"]) && negb (String.eqb (url.Host u) "") then RoundTrip w else fail [unsupported]
  | None => fail [unsupported]
  end.
(** [more] is how many redirects are followed still. *)
Fixpoint follow (more : nat) (first w : WireRequest) (strip keep : bool) : M S Answer :=
  let! answer := send w in
  match redirectBehavior (wr_method w) (an_status answer) with
  | None => ret answer
  | Some (m, keepHop) =>
      if String.eqb (an_location answer) "" then ret answer
      else match url.resolve (wr_target w) (an_location answer) with
           | None => fail [bad_location]
           | Some target =>
               let strip := strip || negb (trusts (wr_target first) target) in
               match more with
               | O => fail [too_many_redirects]
               | Datatypes.S more => follow more first (hop first m target strip (keep && keepHop)) strip (keep && keepHop)
               end
           end
  end.
(** [defaultCheckRedirect] stops before the eleventh request. *)
Definition maxRedirects : nat := 9.
Definition Do (w : WireRequest) : M S Answer := follow maxRedirects w w false true.
(** What a body means to the caller: nothing is decoded when nothing is wanted or
  nothing came. *)
Definition received {A} (zero : A) (into : option (list (string * json) → option A)) (answer : Answer) : result A :=
  let text := an_text answer in
  if maxResponseSize <? len text then Err [ErrResponseLarge]
  else if 400 <=? an_status answer then Err (statusError (an_status answer) text)
  else match into with
       | None => Ok zero
       | Some of_members => if String.eqb text "" then Ok zero else Unmarshal of_members text
       end.
Definition call {A} (spec : request) (zero : A) (into : option (list (string * json) → option A)) : M (Linked S) A := fun l =>
  let c := linked l in
  if needsToken spec && (blen (token c) =? 0) then (Err [ErrNoToken], l)
  else if bool_decide (url.Parse (target c spec) = None) then (Err [bad_url], l)
  else (let! answer := over (Do (wire c spec)) in lift_result (received zero into answer)) l.
Definition call_ (spec : request) : M (Linked S) unit := call spec tt None.

(** ** The operations *)
Record Session := MkSession { s_Token : list Z; s_ExpiresAt : option Z }.
Record Secret := MkSecret { Value : list Z; Version : Z; CreatedAt : option Z; LeaseID : string; LeaseTTL : Z }.
Record Parameter_ := MkParameter {
  p_Path : string; ResolvedFrom : string; p_Inherited : bool; Kind : string; p_Value : list Z; Sensitive : bool; References : list string }.
Record SealStatus_ := MkSealStatus { State : string; Shares : Z; Threshold : Z; Progress : Z; KEKVersion : Z }.

(** An instant that may be missing; [None] is the zero time. *)
Definition optional_time (text : string) : result (option Z) :=
  if String.eqb text "" then Ok None else match ParseTime text with Some t => Ok (Some t) | None => Err [bad_time] end.

Definition session_fields : list string := ["token"; "expires_at"].
Definition session_of (l : list (string * json)) : option (string * string) :=
  t ← field_value session_fields "token" to_str "" l;
  e ← field_value session_fields "expires_at" to_str "" l;
  Some (t, e).
Definition login (p : string) (b : json) : M (Linked S) Session :=
  let! answer := call (MkCall "POST" p [] (Some b) false) ("", "") (Some session_of) in
  let! expires := lift_result (optional_time (snd answer)) in
  let session := MkSession (bytes_of_string (fst answer)) expires in
  SetToken (s_Token session) ;!
  ret session.
Definition LoginBootstrap (t : list Z) : M (Linked S) Session :=
  login "/v1/auth/bootstrap/login" (JObj [("token", JStr (string_of_bytes t))]).
Definition LoginInstance (assertion : list Z) : M (Linked S) Session :=
  login "/v1/auth/instance/login" (JObj [("assertion", JStr (string_of_bytes assertion))]).

Definition secret_fields : list string := ["value"; "version"; "created_at"; "lease_id"; "lease_ttl"].
Definition secret_of (l : list (string * json)) : option (string * Z * string * string * Z) :=
  value ← field_value secret_fields "value" to_str "" l;
  version ← field_value secret_fields "version" to_int 0 l;
  created ← field_value secret_fields "created_at" to_str "" l;
  leaseID ← field_value secret_fields "lease_id" to_str "" l;
  leaseTTL ← field_value secret_fields "lease_ttl" to_int 0 l;
  Some (value, version, created, leaseID, leaseTTL).
Definition secret_path (tenant p : string) : string := "/v1/secret/data/" +:+ tenant +:+ "/" +:+ p.
Definition param_path (tenant p : string) : string := "/v1/param/data/" +:+ tenant +:+ "/" +:+ p.
Definition ReadSecret (tenant p : string) (version : Z) : M (Linked S) Secret :=
  let query := if 0 <? version then [("version", Itoa version)] else [] in
  let! answer := call (MkCall "GET" (secret_path tenant p) query None true) ("", 0, "", "", 0) (Some secret_of) in
  let '(value, version, created, leaseID, leaseTTL) := answer in
  let! at_ := lift_result (optional_time created) in
  ret (MkSecret (bytes_of_string value) version at_ leaseID (wrap64 (leaseTTL * Second))).
Definition written_of (l : list (string * json)) : option Z := field_value ["version"] "version" to_int 0 l.
Definition WriteSecret (tenant p : string) (value : list Z) (cas : option Z) : M (Linked S) Z :=
  call (MkCall "PUT" (secret_path tenant p) []
          (Some (JObj (("value", JStr (string_of_bytes value)) :: match cas with Some n => [("cas", JNum (Itoa n))] | None => [] end))) true)
    0 (Some written_of).
Definition DeleteSecret (tenant p : string) : M (Linked S) unit := call_ (MkCall "DELETE" (secret_path tenant p) [] None true).

Definition parameter_fields : list string := ["path"; "resolved_from"; "inherited"; "kind"; "value"; "sensitive"; "references"].
Definition parameter_of (l : list (string * json)) : option Parameter_ :=
  p ← field_value parameter_fields "path" to_str "" l;
  from ← field_value parameter_fields "resolved_from" to_str "" l;
  inherited ← field_value parameter_fields "inherited" to_bool false l;
  kind ← field_value parameter_fields "kind" to_str "" l;
  value ← field_value parameter_fields "value" to_str "" l;
  sensitive ← field_value parameter_fields "sensitive" to_bool false l;
  references ← field_value parameter_fields "references" jwt.to_texts [] l;
  Some (MkParameter p from inherited kind (bytes_of_string value) sensitive references).
Definition ReadParameter (tenant p : string) : M (Linked S) Parameter_ :=
  call (MkCall "GET" (param_path tenant p) [] None true) (MkParameter "" "" false "" [] false []) (Some parameter_of).
Definition WriteParameter (tenant p kind : string) (value : list Z) : M (Linked S) unit :=
  call_ (MkCall "PUT" (param_path tenant p) []
    (Some (JObj [("kind", JStr kind); ("value", JStr (string_of_bytes value))])) true).
Definition RenewLease (id : string) (ttl : Z) : M (Linked S) unit :=
  call_ (MkCall "PUT" "/v1/sys/leases/renew" [] (Some (JObj [("lease_id", JStr id); ("ttl", JNum (Itoa (int_Seconds ttl)))])) true).
Definition status_fields : list string := ["state"; "shares"; "threshold"; "progress"; "kek_version"].
Definition status_of (l : list (string * json)) : option SealStatus_ :=
  state ← field_value status_fields "state" to_str "" l;
  shares ← field_value status_fields "shares" to_int 0 l;
  threshold ← field_value status_fields "threshold" to_int 0 l;
  progress ← field_value status_fields "progress" to_int 0 l;
  version ← field_value status_fields "kek_version" to_int 0 l;
  Some (MkSealStatus state shares threshold progress version).
Definition SealStatus : M (Linked S) SealStatus_ :=
  call (MkCall "GET" "/v1/sys/seal-status" [] None false) (MkSealStatus "" 0 0 0 0) (Some status_of).
End calls.

(** ** Where requests go *)
Inductive operation : Type :=
| OLoginBootstrap (t : list Z) | OLoginInstance (assertion : list Z) | OReadSecret (tenant p : string) (version : Z)
| OWriteSecret (tenant p : string) (value : list Z) (cas : option Z) | ODeleteSecret (tenant p : string)
| OReadParameter (tenant p : string) | OWriteParameter (tenant p kind : string) (value : list Z)
| ORenewLease (id : string) (ttl : Z) | OSealStatus | OSetToken (t : list Z) | OForget.
Definition forget_answer {S A} (m : M S A) : M S unit := let! _ := m in ret tt.
Definition run {S} `{Transport S} `{IPLiterals} (o : operation) : M (Linked S) unit :=
  match o with
  | OLoginBootstrap t => forget_answer (LoginBootstrap t)
  | OLoginInstance assertion => forget_answer (LoginInstance assertion)
  | OReadSecret tenant p version => forget_answer (ReadSecret tenant p version)
  | OWriteSecret tenant p value cas => forget_answer (WriteSecret tenant p value cas)
  | ODeleteSecret tenant p => DeleteSecret tenant p
  | OReadParameter tenant p => forget_answer (ReadParameter tenant p)
  | OWriteParameter tenant p kind value => WriteParameter tenant p kind value
  | ORenewLease id ttl => RenewLease id ttl
  | OSealStatus => forget_answer SealStatus
  | OSetToken t => SetToken t
  | OForget => Forget
  end.
Section home.
Context {S : Type} `{Transport S} `{IPLiterals}.
(** A target at the host of the address, encrypted unless plain HTTP was asked for. *)
Definition home_target (opts : Options) (target : string) : Prop := ∃ u v,
  url.Parse (Address opts) = Some u ∧ url.Parse target = Some v ∧ url.same_place v u ∧
  (url.Scheme u = "https" ∨ url.Scheme u = "http" ∧ AllowPlainHTTP opts = true).
Definition home (opts : Options) (w : WireRequest) : Prop := home_target opts (wr_target w).
(** The answer sends the client on to [target]. *)
Definition leads (w : WireRequest) (a : Answer) (target : string) : Prop :=
  is_Some (redirectBehavior (wr_method w) (an_status a)) ∧ an_location a ≠ "" ∧ url.resolve (wr_target w) (an_location a) = Some target.
(** A request that is at home, or carries no credential, or goes to a host with the name
  of that of the address or a name below it. *)
Definition careful (opts : Options) (w : WireRequest) : Prop := home opts w ∨ Forall (fun h => fst h ≠ "Authorization") (wr_headers w) ∨
  ∃ u v, url.Parse (Address opts) = Some u ∧ url.Parse (wr_target w) = Some v ∧
    isDomainOrSubdomain (host_in_ascii (url.Host v)) (host_in_ascii (url.Host u)) = true.
Lemma New_Ok pem opts c : New pem opts = Ok c → ∃ u, url.Parse (Address opts) = Some u ∧ url.Host u ≠ "" ∧
  base c = TrimSuffix (Address opts) "/" ∧ token c = [] ∧
  (url.Scheme u = "https" ∨ url.Scheme u = "http" ∧ AllowPlainHTTP opts = true).
Proof.
  unfold New. destruct (String.eqb (Address opts) ""); [done|]. destruct (url.Parse (Address opts)) as [u|]; [|done].
  destruct (String.eqb_spec (url.Host u) ""); [done|]. cbv zeta. intros E. exists u. split; [done|]. split; [done|].
  assert (∀ r, (if negb (RootCAs opts) && negb (String.eqb (CACertFile opts) "") then let? usable := pem in if usable then Ok r else Err [bad_certificate] else Ok r)%go
    = Ok c → r = c) as Hr.
  { intros r. destruct (_ && _); [|by intros [= ->]]. destruct pem as [[]|]; [by intros [= ->]|done..]. }
  destruct (String.eqb_spec (url.Scheme u) "https"); [apply Hr in E as <-; cbn; auto|].
  destruct (String.eqb_spec (url.Scheme u) "http"); [|done]. destruct (AllowPlainHTTP opts); [|done]. apply Hr in E as <-; cbn; auto.
Qed.
Lemma target_home pem opts c c' spec v : New pem opts = Ok c → base c' = base c → HasPrefix (path spec) "/" = true →
  url.Parse (target c' spec) = Some v → home opts (wire c' spec).
Proof.
  intros Hnew Hbase (p&Hp)%HasPrefix_spec Hv. destruct (New_Ok _ _ _ Hnew) as (u&Hu&Hhost&Hb&_&Hs).
  assert (url.Scheme u ≠ "") as Hscheme by (destruct Hs as [->|[-> _]]; done).
  exists u, v. split_and!; [done|done| |done]. revert Hv. unfold target. rewrite Hbase, Hb, Hp.
  unfold TrimSuffix. destruct (CutSuffix (Address opts) "/") as [b|] eqn:Ec.
  - apply CutSuffix_Some in Ec. rewrite Ec in Hu. rewrite <- str_app_assoc. by apply url.Parse_trim.
  - rewrite <- str_app_assoc. by apply url.Parse_extend.
Qed.

(** ** What the requests of one [Do] keep *)
Section followed.
Context (opts : Options) (P : S → Prop).
Lemma send_keeps w n : (P n → P (snd (RoundTrip w n))) → P n → P (snd (send w n)).
Proof. intros Hw Hn. unfold send. destruct (url.Parse (wr_target w)) as [u|]; [|done]. destruct (_ && _); [by apply Hw|done]. Qed.
Lemma send_answer w n a n' : send w n = (Ok a, n') → RoundTrip w n = (Ok a, n').
Proof. unfold send. destruct (url.Parse (wr_target w)) as [u|]; [|done]. by destruct (_ && _). Qed.
Lemma follow_home more first w strip keep n : (∀ w n, home opts w → P n → P (snd (RoundTrip w n))) →
  (∀ w n a t, home opts w → P n → fst (RoundTrip w n) = Ok a → leads w a t → home_target opts t) →
  home opts w → P n → P (snd (follow more first w strip keep n)).
Proof.
  intros HP Hstay. revert w strip keep n. induction more as [|more IH]; intros w strip keep n Hw Hn; cbn [follow]; unfold bind;
    pose proof (send_keeps w n (HP w n Hw) Hn) as Hs; destruct (send w n) as [[a|e] n1] eqn:E; try done; cbn [snd] in Hs; apply send_answer in E;
    destruct (redirectBehavior (wr_method w) (an_status a)) as [[m kh]|] eqn:Er; try done;
    destruct (String.eqb_spec (an_location a) ""); try done; destruct (url.resolve _ _) as [t|] eqn:Et; try done.
  apply IH; [|done]. unfold home. cbn [hop wr_target]. apply (Hstay w n a t Hw Hn); [by rewrite E|]. split; [by rewrite Er|done].
Qed.
Lemma trusts_careful target w : home_target opts (wr_target w) → trusts (wr_target w) target = true → ∃ u v, url.Parse (Address opts) = Some u ∧
  url.Parse target = Some v ∧ isDomainOrSubdomain (host_in_ascii (url.Host v)) (host_in_ascii (url.Host u)) = true.
Proof.
  intros (u&v&Hu&Hv&[_ Hh]&_). unfold trusts. rewrite Hv. destruct (url.Parse target) as [t|]; [|done]. intros Ht. exists u, t. split_and!; [done|done|].
  rewrite Hh in Ht. apply orb_true_iff in Ht as [->%String.eqb_eq|Ht]; [|done]. unfold isDomainOrSubdomain. by rewrite String.eqb_refl.
Qed.
Lemma follow_careful more first w strip keep n : (∀ w n, careful opts w → P n → P (snd (RoundTrip w n))) →
  home opts first → careful opts w → P n → P (snd (follow more first w strip keep n)).
Proof.
  intros HP Hfirst. revert w strip keep n. induction more as [|more IH]; intros w strip keep n Hw Hn; cbn [follow]; unfold bind;
    pose proof (send_keeps w n (HP w n Hw) Hn) as Hs; destruct (send w n) as [[a|e] n1]; try done; cbn [snd] in Hs;
    destruct (redirectBehavior (wr_method w) (an_status a)) as [[m kh]|]; try done;
    destruct (String.eqb_spec (an_location a) ""); try done; destruct (url.resolve _ _) as [t|]; try done.
  apply IH; [|done]. destruct (strip || negb (trusts (wr_target first) t)) eqn:Es.
  - right; left. cbn [hop wr_headers]. apply Forall_forall. intros h Hin%list_elem_of_In. apply List.filter_In in Hin as [_ Hh].
    apply andb_true_iff in Hh as [Hh _]. intros E. rewrite E in Hh. done.
  - right; right. apply orb_false_iff in Es as [_ Ht]. apply negb_false_iff in Ht. by apply (trusts_careful t first).
Qed.
End followed.

Context (pem : result bool) (opts : Options) (c : Client) (Hnew : New pem opts = Ok c) (P : S → Prop).
Definition at_home (l : Linked S) : Prop := base (linked l) = base c ∧ P (network l).
(** What the requests of a call keep whose own target is the store's place. *)
Hypothesis (HP : ∀ w n, home opts w → P n → P (snd (Do w n))).
Lemma keeps_call {A} spec (zero : A) into : HasPrefix (path spec) "/" = true → keeps at_home (call spec zero into).
Proof.
  intros Hp l [Hb Hl]. unfold call. destruct (_ && _); [done|]. case_bool_decide as Hparse; [done|].
  unfold bind, over. pose proof (HP (wire (linked l) spec) (network l)) as Hdo.
  destruct (url.Parse (target (linked l) spec)) as [v|] eqn:E; [|done]. specialize (Hdo (target_home _ _ _ _ _ _ Hnew Hb Hp E) Hl).
  by destruct (Do _ (network l)) as [[a|e] n].
Qed.
Lemma keeps_set_token t : keeps at_home (SetToken t).
Proof. by intros l [Hb Hl]. Qed.
Lemma keeps_login p b : HasPrefix p "/" = true → keeps at_home (login p b).
Proof.
  intros Hp. unfold login. apply keeps_bind; [by apply keeps_call|]. intros answer. apply keeps_bind; [apply keeps_lift|]. intros e.
  apply keeps_bind; [apply keeps_set_token|]. intros []. apply keeps_ret.
Qed.
Lemma keeps_run o : keeps at_home (run o).
Proof.
  destruct o; cbn [run]; unfold forget_answer; try (apply keeps_bind; [|intros ?; apply keeps_ret]);
    try (by apply keeps_login); try apply keeps_set_token; try (by apply keeps_call).
  apply keeps_bind; [by apply keeps_call|]. intros [[[[value number] created] leaseID] held].
  apply keeps_bind; [apply keeps_lift|]. intros e. apply keeps_ret.
Qed.
End home.
Fixpoint run_all {S} `{Transport S} `{IPLiterals} (os : list operation) (l : Linked S) : Linked S :=
  match os with [] => l | o :: os => run_all os (snd (run o l)) end.

Lemma run_all_home {S} `{Transport S} `{IPLiterals} pem opts c (P : S → Prop) os n : New pem opts = Ok c →
  (∀ w n, home opts w → P n → P (snd (Do w n))) → P n → P (network (run_all os (MkLinked c n))).
Proof.
  intros Hnew HP Hstart. assert (at_home c P (MkLinked c n)) as Hh by done. revert Hh. generalize (MkLinked c n). induction os as [|o os IH]; intros l Hl; [apply Hl|].
  cbn [run_all]. apply IH. by eapply keeps_run.
Qed.
(** C12. Where a client's requests go, whatever it is asked to do and whatever tenants and
  paths it is given.  As long as no answer from the host of its address redirects it
  away from there, every request goes to that host, over TLS unless plain HTTP was
  allowed: what such requests preserve, every sequence of operations preserves.  And
  whatever the answers are, redirects included, the token is sent nowhere but to that
  host, to a host with the same name (then on any port, and perhaps in plain text), or
  to one with a name below it. *)
Theorem client_stays_home {S} `{Transport S} `{IPLiterals} (pem : result bool) (opts : Options) (c : Client) (n : S) (os : list operation)
  (Hnew : New pem opts = Ok c) :
  (∀ P : S → Prop, (∀ w n, home opts w → P n → P (snd (RoundTrip w n))) →
     (∀ w n a t, home opts w → P n → fst (RoundTrip w n) = Ok a → leads w a t → home_target opts t) →
     P n → P (network (run_all os (MkLinked c n)))) ∧
  (∀ P : S → Prop, (∀ w n, careful opts w → P n → P (snd (RoundTrip w n))) → P n → P (network (run_all os (MkLinked c n)))).
Proof.
  split; intros P HP; [intros Hstay Hstart|intros Hstart]; (eapply run_all_home; [done| |done]); intros w n' Hw Hn'.
  - unfold Do. by apply (follow_home opts).
  - unfold Do. apply (follow_careful opts); [done|done|by left|done].
Qed.

(** ** Example: a network that notes every request and answers with a token *)
Section examples.
Local Instance no_literals : IPLiterals := fun _ => false.
Local Instance notes : Transport (list WireRequest) := {|
  RoundTrip w n := (Ok (MkAnswer 200 "" (print (JObj [("token", JStr "mss_0"); ("value", JStr "hunter2"); ("version", JNum "3")]))), n ++ [w]);
  ToASCII name := name |}.
Local Definition address : Options := MkOptions "https://secrets.internal:8200/" "" false false 0.
Local Definition fresh_client : Client := MkClient "https://secrets.internal:8200" DefaultTimeout [].
Lemma fresh_client_ok : New (Ok true) address = Ok fresh_client.
Proof. by vm_compute. Qed.
Local Definition session : list operation :=
  [OReadSecret "acme" "db" 0; OLoginBootstrap [1]; OReadSecret "acme" "@evil.example/db?x" 3; OWriteSecret "acme" "db" [7] (Some 2)].
Lemma session_requests : wr_target <$> network (run_all session (MkLinked fresh_client [])) =
  ["https://secrets.internal:8200/v1/auth/bootstrap/login"; "https://secrets.internal:8200/v1/secret/data/acme/@evil.example/db?x?version=3";
   "https://secrets.internal:8200/v1/secret/data/acme/db"].
Proof. by vm_compute. Qed.
Lemma client_stays_home_witness : Forall (home address) (network (run_all session (MkLinked fresh_client []))).
Proof.
  refine (proj1 (client_stays_home (Ok true) address fresh_client [] session fresh_client_ok) (Forall (home address)) _ _ _).
  - intros w n Hw Hn. by apply Forall_app_2; [|constructor].
  - intros w n a t _ _ [= <-] [[x Hx] _]. revert Hx. cbn. unfold redirectBehavior. rewrite !bool_decide_false by (apply (bool_decide_unpack _); by vm_compute). done.
  - constructor.
Defined.
Lemma read_example : fst (ReadSecret "acme" "db" 0 (MkLinked (set_token [1] fresh_client) [])) =
  Ok (MkSecret (bytes_of_string "hunter2") 3 None "" 0).
Proof. by vm_compute. Qed.
End examples.

(** ** Example: a store, or what answers in its place, that redirects *)
Section redirected.
Local Instance literals : IPLiterals := fun _ => false.
(** It notes every request, and sends the client on to [place]; from there it answers. *)
Local Definition redirects (place : string) : Transport (list WireRequest) := {|
  RoundTrip w n := (Ok (if HasPrefix (wr_target w) place then MkAnswer 200 "" (print (JObj [("version", JNum "3")])) else MkAnswer 307 place ""), n ++ [w]);
  ToASCII name := name |}.
Local Definition signed_in : Client := MkClient "https://secrets.internal:8200" DefaultTimeout (bytes_of_string "mss_0").
Local Definition requests_of (place : string) : list WireRequest :=
  network (snd (WriteSecret (H := redirects place) "acme" "db" (bytes_of_string "hunter2") None (MkLinked signed_in []))).
Local Definition body : option string := Some (print (JObj [("value", JStr "hunter2")])).
(** A secret on its way to the store follows the redirect to any host, in plain text even;
  the token stays behind unless the name of the host is the same. *)
Lemma redirect_leaves_home :
  (fun w => (wr_target w, map fst (wr_headers w), bool_decide (wr_body w = body))) <$> requests_of "http://elsewhere.example/" =
    [("https://secrets.internal:8200/v1/secret/data/acme/db", ["Content-Type"; "Authorization"], true); ("http://elsewhere.example/", ["Content-Type"], true)] ∧
  (fun w => (wr_target w, map fst (wr_headers w), bool_decide (wr_body w = body))) <$> requests_of "http://secrets.internal/" =
    [("https://secrets.internal:8200/v1/secret/data/acme/db", ["Content-Type"; "Authorization"], true);
     ("http://secrets.internal/", ["Content-Type"; "Authorization"], true)].
Proof. by vm_compute. Qed.
(** A circle ends after ten requests. *)
Lemma redirect_circle : length (network (snd (ReadSecret (H := {| RoundTrip w n := (Ok (MkAnswer 302 "?" ""), n ++ [w]); ToASCII name := name |})
  "acme" "db" 0 (MkLinked signed_in [])))) = 10%nat.
Proof. by vm_compute. Qed.
End redirected.
End client.
