(* ===== verification/Snapshot.v ===== *)
(** platform/sqlite/sqlite.go and snapshot.go: opening the database file, copying
  it to a snapshot, checking a snapshot and restoring one.

  SQLite itself is a parameter, at a type [D] of what a database holds: what a
  connection to a source name reads and what it leaves in the files, the text
  VACUUM INTO writes, and what its checks answer.  [SQLiteLaws] is what its
  documentation promises of them. *)
From Stdlib Require Import ZArith Lia Ascii.
From S2P Require Import Prelude GoStrings GoPath Files GoNumbers GoUrl Client.

Class SQLite (D : Type) := {
  sqlite_load : ∀ (dsn : string) (m : Files), result D;
  sqlite_save : ∀ (dsn : string) (d : D) (m : Files), Files;
  sqlite_image : D → string;
  (** the file an SQL text names *)
  sqlite_named : string → string;
  sqlite_pragma : ∀ (dsn name : string), result string;
  sqlite_integrity : ∀ (dsn : string) (m : Files), result string;
  sqlite_migrations : ∀ (dsn : string) (m : Files), result Z }.

Module snapshot.
Import os.
Definition dirPerm : Z := 448.
Definition filePerm : Z := 384.
Definition ErrEmptyPath : string := "sqlite: database path must not be empty".
Definition ErrSnapshotExists : string := "sqlite: the snapshot path is already taken".
Definition ErrSnapshotEmpty : string := "sqlite: the snapshot holds no applied migrations".
Definition ErrSnapshotCorrupt : string := "sqlite: the snapshot fails its integrity check".
Definition ErrTargetExists : string := "sqlite: the target already holds a database; move it aside first".
Definition ErrSnapshotQuoted : string := "sqlite: a snapshot path may not contain a single quote".
Definition bad_pragma : string := "sqlite: a pragma does not have the value wanted".
Definition sql_error : string := "SQL logic error".
Definition pragmas : list string :=
  ["journal_mode(WAL)"; "synchronous(FULL)"; "foreign_keys(ON)"; "secure_delete(ON)"; "busy_timeout(5000)"].
(** Ranged over in any order; the errors differ in their text only. *)
Definition expected : list (string * string) :=
  [("journal_mode", "wal"); ("synchronous", "2"); ("foreign_keys", "1"); ("secure_delete", "1")].
Definition dsn (path : string) : string :=
  "file:" +:+ path +:+ "?" +:+ client.Encode (List.map (pair "_pragma") pragmas).
Definition read_only (path : string) : string := "file:" +:+ path +:+ "?mode=ro".
Record SnapshotReport := MkSnapshotReport { Path : string; Bytes : Z; Migrations : Z }.

Section files.
Context {D S : Type} `{SQLite D} `{FileSystem S}.
(** A query that may also fail outside of SQLite. *)
Definition ask {A} (answer : Files → result A) : M S A := io ;! fun s => (answer (files s), s).
(** [strings.EqualFold] with digits and letters that have no further case forms. *)
Definition same_fold (got want : string) : bool := String.eqb (float.lower_string got) (float.lower_string want).
Fixpoint verifyPragmas (source : string) (wanted : list (string * string)) : M S unit :=
  match wanted with
  | [] => ret tt
  | (pragma, want) :: wanted =>
      let! got := ask (fun _ => sqlite_pragma source pragma) in
      if same_fold got want then verifyPragmas source wanted else fail [bad_pragma]
  end.
(** [PingContext] connects: the file is there afterwards. *)
Definition Ping (source : string) : M S D :=
  let! d := ask (sqlite_load source) in
  fun s => (Ok d, set_files (sqlite_save source d (files s)) s).
Definition Open (path : string) : M S D :=
  if String.eqb path "" then fail [ErrEmptyPath]
  else
    MkdirAll (filepath.Dir path) ;!
    let! d := or_close (Ping (dsn path)) in
    or_close (verifyPragmas (dsn path) expected) ;!
    or_close (ChmodPath path filePerm) ;!
    ret d.

(** The statement refuses a file that is not empty; one that fails may leave the
  beginning. *)
Definition VacuumInto (d : D) (path : string) : M S unit := fun s =>
  let file := sqlite_named path in
  let taken := match files s !! file with Some f => negb (String.eqb (f_content f) "") | None => false end in
  if taken then (Err [sql_error], s)
  else
    let mode := match files s !! file with Some f => f_mode f | None => 420 end in
    match io s with
    | (Ok _, s) => (Ok tt, set_files (<[file := MkFile (sqlite_image d) mode]> (files s)) s)
    | (Err e, s) => (Err e, set_files (<[file := MkFile (String.substring 0 (short_write s) (sqlite_image d)) mode]> (files s)) s)
    end.
(** [errors.Join (sentinel, err)] *)
Definition joined {A} (sentinel : string) (m : M S A) : M S A := fun s =>
  match m s with (Err e, s) => (Err (errors_Join [sentinel] e), s) | ok => ok end.
Definition Verify (path : string) : M S SnapshotReport :=
  if String.eqb path "" then fail [ErrEmptyPath]
  else
    let! size := Stat path in
    deferred Close
      (let! integrity := joined ErrSnapshotCorrupt (ask (sqlite_integrity (read_only path))) in
       if negb (String.eqb integrity "ok") then fail [ErrSnapshotCorrupt]
       else
         let! migrations := joined ErrSnapshotEmpty (ask (sqlite_migrations (read_only path))) in
         if migrations =? 0 then fail [ErrSnapshotEmpty]
         else ret (MkSnapshotReport path size migrations)).
Definition Snapshot (d : D) (path : string) : M S SnapshotReport :=
  if String.eqb path "" then fail [ErrEmptyPath]
  else if Contains path "'" then fail [ErrSnapshotQuoted]
  else
    let! there := attempt (Stat path) in
    if is_ok there then fail [ErrSnapshotExists]
    else
      MkdirAll (filepath.Dir path) ;!
      VacuumInto d path ;!
      ChmodPath path filePerm ;!
      Verify path.
Definition Restore (snapshot target : string) : M S SnapshotReport :=
  let! report := Verify snapshot in
  if String.eqb target "" then fail [ErrEmptyPath]
  else
    let! there := attempt (Stat target) in
    if is_ok there then fail [ErrTargetExists]
    else
      MkdirAll (filepath.Dir target) ;!
      OpenRead snapshot ;!
      deferred Close
        (CreateExclusive target filePerm ;!
         or_else (both Close (Remove target)) (Copy snapshot target) ;!
         or_close Sync ;!
         Close ;!
         ret (MkSnapshotReport target (Bytes report) (Migrations report))).
End files.

(** ** What SQLite promises *)
(** A path that a source name carries unchanged. *)
Definition path_char (c : ascii) : bool := negb (Ascii.eqb c "?" || Ascii.eqb c "#" || Ascii.eqb c "%").
Record plain_path (path : string) : Prop := {
  pp_chars : url.all_chars path_char path = true;
  pp_scheme : HasPrefix path "file:" = false;
  pp_authority : HasPrefix path "//" = false }.
(** No transactions wait beside the database to be applied to it. *)
Definition settled (path : string) (m : Files) : Prop := m !! (path +:+ "-wal") = None ∧ m !! (path +:+ "-journal") = None.
Definition holds {D} `{SQLite D} (path : string) (d : D) (m : Files) : Prop :=
  settled path m ∧ ∃ f, m !! path = Some f ∧ f_content f = sqlite_image d.
Class SQLiteLaws (D : Type) (applied : D → Z) `{SQLite D} := {
  sqlite_named_plain : ∀ path, plain_path path → sqlite_named path = path;
  sqlite_image_text : ∀ d, sqlite_image d ≠ "";
  sqlite_load_image : ∀ path d m, plain_path path → holds path d m → sqlite_load (dsn path) m = Ok d;
  sqlite_integrity_image : ∀ path d m, plain_path path → holds path d m → sqlite_integrity (read_only path) m = Ok "ok";
  (** the table is there when a migration was applied *)
  sqlite_migrations_image : ∀ path d m, plain_path path → holds path d m → 0 < applied d →
    sqlite_migrations (read_only path) m = Ok (applied d);
  sqlite_load_save : ∀ path d m, plain_path path → sqlite_load (dsn path) (sqlite_save (dsn path) d m) = Ok d;
  sqlite_save_others : ∀ path d m other, plain_path path → other ∉ [path; path +:+ "-wal"; path +:+ "-shm"; path +:+ "-journal"] →
    sqlite_save (dsn path) d m !! other = m !! other }.

Section theory.
Context {D S : Type} `{SQLite D} `{FileSystemLaws S}.
Lemma untouched_ask {A} (answer : Files → result A) : untouched (ask answer).
Proof. apply untouched_bind; [apply untouched_io|done]. Qed.
Lemma untouched_joined {A} sentinel (m : M S A) : untouched m → untouched (joined sentinel m).
Proof. intros Hm s. unfold joined. specialize (Hm s). by destruct (m s) as [[]]. Qed.
Lemma untouched_deferred {A} (m : M S A) : untouched m → untouched (deferred Close m).
Proof.
  intros Hm s. unfold deferred. specialize (Hm s). destruct (m s) as [r s1]. cbn in *. unfold Close. by rewrite files_io.
Qed.
Hint Resolve untouched_ask untouched_joined untouched_deferred untouched_bind : files.
Lemma untouched_Verify path : untouched (Verify path).
Proof.
  unfold Verify. destruct (String.eqb path ""); [done|]. apply untouched_bind; [auto with files|]. intros size.
  apply untouched_deferred, untouched_bind; [auto with files|]. intros integrity. destruct (negb _); [done|].
  apply untouched_bind; [auto with files|]. intros n. by destruct (n =? 0).
Qed.
Lemma Stat_Ok path s n s' : Stat path s = (Ok n, s') → ∃ f, files s !! path = Some f ∧ n = len (f_content f).
Proof.
  unfold Stat. intros E. apply ReadOk_io in E. rewrite files_io in E. destruct (files s !! path) as [f|]; [|done]. injection E as <- <-. by exists f.
Qed.
Lemma ask_Ok {A} (answer : Files → result A) s x s' : ask answer s = (Ok x, s') → answer (files s) = Ok x ∧ files s' = files s.
Proof. unfold ask. intros E. apply ReadOk_io in E. injection E as E <-. split; [by rewrite <- (files_io s)|apply files_io]. Qed.
(** A snapshot that verifies is intact and has migrations. *)
Record verified (path : string) (m : Files) (report : SnapshotReport) : Prop := {
  vf_path : Path report = path;
  vf_bytes : ∃ f, m !! path = Some f ∧ Bytes report = len (f_content f);
  vf_integrity : sqlite_integrity (read_only path) m = Ok "ok";
  vf_migrations : sqlite_migrations (read_only path) m = Ok (Migrations report) ∧ Migrations report ≠ 0 }.
Lemma Verify_Ok path s report s' : Verify path s = (Ok report, s') → verified path (files s) report ∧ files s' = files s.
Proof.
  intros E. pose proof (untouched_Verify path s) as Hkeep. rewrite E in Hkeep. split; [|exact Hkeep]. revert E. unfold Verify.
  destruct (String.eqb path ""); [done|]. intros (size&s1&Es&E)%bind_ok_inv. pose proof (untouched_Stat path s) as F1. rewrite Es in F1. cbn in F1.
  apply Stat_Ok in Es as (f&Hf&->). unfold deferred in E. destruct (bind _ _ s1) as [r s2] eqn:E2. injection E as -> _.
  apply bind_ok_inv in E2 as (integrity&s3&Ei&E2). unfold joined in Ei. destruct (ask _ s1) as [[]] eqn:Ea in Ei; [|done]. injection Ei as -> ->.
  apply ask_Ok in Ea as [Hint F3]. destruct (String.eqb_spec integrity "ok") as [->|]; [|done]. cbn [negb] in E2.
  apply bind_ok_inv in E2 as (n&s4&Em&E2). unfold joined in Em. destruct (ask _ s3) as [[]] eqn:Ea in Em; [|done]. injection Em as -> ->.
  apply ask_Ok in Ea as [Hm F4]. destruct (Z.eqb_spec n 0); [done|]. injection E2 as <- _. rewrite F3, F1 in Hm. rewrite F1 in Hint.
  split; cbn; eauto.
Qed.
Lemma only_deferred {A} path (m : M S A) : only path m → only path (deferred Close m).
Proof.
  intros Hm s other Ho. unfold deferred. specialize (Hm s other Ho). destruct (m s) as [r s1]. cbn in *. unfold Close. by rewrite files_io.
Qed.
Lemma only_both path (m1 m2 : M S unit) : only path m1 → only path m2 → only path (both m1 m2).
Proof.
  intros F1 F2 s other Ho. unfold both. specialize (F1 s other Ho). destruct (m1 s) as [r1 s1]. cbn in *.
  specialize (F2 s1 other Ho). destruct (m2 s1) as [r2 s2]. cbn in *. by rewrite F2.
Qed.
Lemma only_Restore snapshot target : only target (Restore snapshot target).
Proof.
  unfold Restore. apply only_bind; [apply untouched_only, untouched_Verify|]. intros report. destruct (String.eqb target ""); [done|].
  apply only_bind; [auto with files|]. intros there. destruct (is_ok there); [done|].
  do 2 (apply only_bind; [auto with files|intros ?]).
  apply only_deferred. repeat (apply only_bind; [auto using only_both with files|intros ?]). done.
Qed.
(** A file that exists stops a restore. *)
Lemma CreateExclusive_taken path mode s f : files s !! path = Some f →
  ∃ e, CreateExclusive path mode s = (Err e, snd (io s)).
Proof.
  intros Hf. unfold CreateExclusive, bind. pose proof (files_io s) as F1. destruct (io s) as [[u|e] s1]; [|by eexists]. cbn in *.
  rewrite F1, Hf. by eexists.
Qed.
Lemma Restore_taken snapshot target s f : files s !! target = Some f → files (snd (Restore snapshot target s)) = files s.
Proof.
  intros Hf. unfold Restore, bind at 1. pose proof (untouched_Verify snapshot s) as F1. destruct (Verify snapshot s) as [[report|e] s1]; [|done]. cbn in F1.
  destruct (String.eqb target ""); [done|]. unfold bind at 1, attempt. pose proof (untouched_Stat target s1) as F2. destruct (Stat target s1) as [there s2]. cbn in F2.
  destruct (is_ok there); [cbn; congruence|]. unfold bind at 1. pose proof (untouched_MkdirAll (filepath.Dir target) s2) as F3.
  destruct (MkdirAll _ s2) as [[u|e] s3]; [|cbn in *; congruence]. cbn in F3. unfold bind at 1. pose proof (untouched_OpenRead snapshot s3) as F4.
  destruct (OpenRead snapshot s3) as [[u'|e] s4]; [|cbn in *; congruence]. cbn in F4. unfold deferred, bind at 1.
  destruct (CreateExclusive_taken target filePerm s4 f) as [e Ee]; [congruence|]. rewrite Ee. cbn. unfold Close. rewrite !files_io. congruence.
Qed.
Lemma Restore_Ok snapshot target s report s' : Restore snapshot target s = (Ok report, s') →
  ∃ checked f, verified snapshot (files s) checked ∧ files s !! snapshot = Some f ∧ files s !! target = None ∧
    files s' !! target = Some (MkFile (f_content f) filePerm) ∧ report = MkSnapshotReport target (Bytes checked) (Migrations checked).
Proof.
  unfold Restore. intros (checked&s1&Ev&E)%bind_ok_inv. apply Verify_Ok in Ev as [Hv F1]. exists checked.
  destruct (String.eqb target ""); [done|]. apply bind_ok_inv in E as (there&s2&Et&E). pose proof (untouched_attempt _ (untouched_Stat target) s1) as F2.
  rewrite Et in F2. cbn in F2. destruct (is_ok there); [done|]. apply bind_ok_inv in E as (u&s3&Em&E). apply io_Ok in Em as F3.
  apply bind_ok_inv in E as (u'&s4&Eo&E). pose proof (untouched_OpenRead snapshot s3) as F4. rewrite Eo in F4. cbn in F4.
  apply ReadOk_io in Eo. rewrite files_io in Eo. destruct (files s3 !! snapshot) as [f|] eqn:Ef; [|done]. clear Eo.
  unfold deferred in E. destruct (bind _ _ s4) as [r s5] eqn:E5. injection E as -> <-. unfold Close at 1. rewrite files_io.
  apply bind_ok_inv in E5 as (?&s6&Ec&E5). apply ReadOk_io in Ec. rewrite files_io in Ec. destruct (files s4 !! target) eqn:Etarget; [done|].
  injection Ec as _ Ec. assert (files s6 = <[target := MkFile "" filePerm]> (files s4)) as F6 by (by rewrite <- Ec, files_set).
  apply bind_ok_inv in E5 as (?&s7&Ecopy%or_else_Ok&E5). apply ReadOk_io in Ecopy. rewrite files_io in Ecopy. apply Write_Ok in Ecopy as F7. rewrite files_io in F7.
  apply bind_ok_inv in E5 as (?&s8&Esync%or_else_Ok%io_Ok&E5). apply bind_ok_inv in E5 as (?&s9&Eclose%io_Ok&E5). injection E5 as <- <-.
  assert (target ≠ snapshot) as Hne by (intros ->; congruence).
  exists f. split_and!; [done|congruence|congruence| |done]. rewrite Eclose, Esync, F7, F6, lookup_alter_eq, lookup_insert_eq.
  rewrite lookup_insert_ne by done. rewrite F4, Ef. done.
Qed.
Lemma holds_at path d m f : settled path m → m !! path = Some f → f_content f = sqlite_image d → holds path d m.
Proof. intros Hs Hf Hc. split; [done|]. by exists f. Qed.

(** C40. Restoring a snapshot never harms what is there: whatever happens, every
  file that exists stays as it is and nothing but the target is made; and when it
  succeeds, the snapshot had passed SQLite's integrity check and holds migrations,
  the target did not exist, and it now has exactly the snapshot's bytes and is
  private to its owner. *)
Theorem Restore_safe (snapshot target : string) (s s' : S) (r : result SnapshotReport) (Hrun : Restore snapshot target s = (r, s')) :
  (∀ path f, files s !! path = Some f → files s' !! path = Some f) ∧
  (∀ path, path ≠ target → files s' !! path = files s !! path) ∧
  match r with
  | Ok report => ∃ checked f, verified snapshot (files s) checked ∧ files s !! snapshot = Some f ∧ files s !! target = None ∧
      files s' !! target = Some (MkFile (f_content f) filePerm) ∧ report = MkSnapshotReport target (Bytes checked) (Migrations checked)
  | Err _ => True
  end.
Proof.
  pose proof (only_Restore snapshot target s) as Honly. rewrite Hrun in Honly. cbn in Honly. split_and!; [|done|].
  - intros path f Hf. destruct (decide (path = target)) as [->|Hne]; [|by rewrite Honly].
    pose proof (Restore_taken snapshot target s f Hf) as F1. rewrite Hrun in F1. cbn in F1. by rewrite F1.
  - destruct r as [report|e]; [|done]. by apply Restore_Ok.
Qed.

Section laws.
Context (applied : D → Z) `{!SQLiteLaws D applied}.
Lemma VacuumInto_Ok d path s x s' : plain_path path → VacuumInto d path s = (Ok x, s') →
  ∃ mode, files s' !! path = Some (MkFile (sqlite_image d) mode).
Proof.
  intros Hp. unfold VacuumInto. rewrite (sqlite_named_plain path Hp). destruct (match files s !! path with Some f => _ | None => _ end); [done|].
  destruct (io s) as [[u|e] s1]; [|done]. intros [= _ <-]. rewrite files_set, lookup_insert_eq. by eexists.
Qed.
Lemma Snapshot_Ok d path s report s' : plain_path path → Snapshot d path s = (Ok report, s') →
  files s' !! path = Some (MkFile (sqlite_image d) filePerm) ∧ verified path (files s') report.
Proof.
  intros Hp. unfold Snapshot. destruct (String.eqb path ""); [done|]. destruct (Contains path "'"); [done|].
  intros (there&s1&_&E)%bind_ok_inv. destruct (is_ok there); [done|]. apply bind_ok_inv in E as (?&s2&_&E).
  apply bind_ok_inv in E as (?&s3&Ev&E). apply (VacuumInto_Ok d path s2) in Ev as [mode F3]; [|done].
  apply bind_ok_inv in E as (?&s4&Ec&E). apply ReadOk_io in Ec. rewrite files_io, F3 in Ec. injection Ec as _ Ec.
  assert (files s4 !! path = Some (MkFile (sqlite_image d) filePerm)) as F4 by (by rewrite <- Ec, files_set, lookup_alter_eq, files_io, F3).
  apply Verify_Ok in E as [Hv F5]. rewrite F5. by split.
Qed.

(** What a snapshot took comes back: if the snapshot's file is carried
  anywhere, even to another machine, and restored there, SQLite reads in the
  restored database what it held when the snapshot was taken, with as many bytes
  and as many migrations as were reported then, as long as no journal of an older
  database lies next to the target. *)
Theorem snapshot_comes_back (d : D) (path carried target : string) (s s1 s2 s3 : S) (saved report : SnapshotReport)
  (Hpath : plain_path path) (Hcarried : plain_path carried) (Htarget : plain_path target)
  (Hsave : Snapshot d path s = (Ok saved, s1)) (Hsame : files s2 !! carried = files s1 !! path) (Halone : settled carried (files s2))
  (Hrestore : Restore carried target s2 = (Ok report, s3)) (Hfresh : settled target (files s3)) :
  sqlite_load (dsn target) (files s3) = Ok d ∧ Bytes report = Bytes saved ∧
  (settled path (files s1) → 0 < applied d → Migrations report = applied d ∧ Migrations saved = applied d).
Proof.
  apply Snapshot_Ok in Hsave as [Hfile Hsaved]; [|done]. apply Restore_Ok in Hrestore as (checked&f&Hchecked&Hf&_&Hnew&->).
  assert (f = MkFile (sqlite_image d) filePerm) as -> by congruence. cbn [f_content Bytes Migrations] in *. split_and!.
  - apply sqlite_load_image; [done|]. by eapply holds_at.
  - destruct (vf_bytes _ _ _ Hchecked) as (f1&E1&->), (vf_bytes _ _ _ Hsaved) as (f2&E2&->). congruence.
  - intros Hs Hn. destruct (vf_migrations _ _ _ Hchecked) as [M1 _], (vf_migrations _ _ _ Hsaved) as [M2 _].
    rewrite (sqlite_migrations_image carried d) in M1 by (done || by eapply holds_at).
    rewrite (sqlite_migrations_image path d) in M2 by (done || by eapply holds_at). by injection M1; injection M2.
Qed.
End laws.
End theory.

(** ** Example: a SQLite for databases that only count migrations *)
Section examples.
Local Definition file_of (source : string) : string := fst (fst (Cut (default "" (CutPrefix source "file:")) "?")).
Local Definition marks (n : nat) : string := "SQLite " +:+ Nat.iter n (String "m") "".
Local Definition count_in (source : string) (m : Files) : nat :=
  match m !! file_of source with Some f => (String.length (f_content f) - 7)%nat | None => O end.
#[local] Instance tally : SQLite nat := {
  sqlite_load := fun source m => Ok (count_in source m);
  sqlite_save := fun source n m => <[file_of source := MkFile (marks n) 420]> m;
  sqlite_image := marks;
  sqlite_named := fun path => path;
  sqlite_pragma := fun _ name => match find (fun p => String.eqb (fst p) name) expected with Some p => Ok (snd p) | None => Err [sql_error] end;
  sqlite_integrity := fun source m => match m !! file_of source with Some _ => Ok "ok" | None => Err [sql_error] end;
  sqlite_migrations := fun source m => Ok (Z.of_nat (count_in source m)) }.
Lemma file_of_source path query : plain_path path → file_of ("file:" +:+ path +:+ "?" +:+ query) = path.
Proof.
  intros [Hc _ _]. unfold file_of. rewrite (proj2 (CutPrefix_Some _ "file:" _) eq_refl). cbn [from_option id]. change ("?" +:+ query) with (String "?" query). rewrite (url.Cut_first path "?" query); [done|].
  revert Hc. apply url.all_chars_mono. intros c. unfold path_char. by destruct (Ascii.eqb c "?").
Qed.
Lemma file_of_dsn path : plain_path path → file_of (dsn path) = path.
Proof. apply file_of_source. Qed.
Lemma file_of_read_only path : plain_path path → file_of (read_only path) = path.
Proof. apply (file_of_source path "mode=ro"). Qed.
Lemma length_marks n : (String.length (marks n) - 7)%nat = n.
Proof. unfold marks. rewrite length_app_string. change (String.length "SQLite ") with 7%nat. rewrite Nat.add_comm, Nat.add_sub. induction n as [|n IH]; [done|]. cbn. by f_equal. Qed.
Lemma tally_laws : SQLiteLaws nat Z.of_nat.
Proof.
  split; [done|done|..]; cbn [sqlite_load sqlite_save sqlite_image sqlite_integrity sqlite_migrations tally].
  - intros path n m Hp (_&f&Hf&E). unfold count_in. by rewrite file_of_dsn, Hf, E, length_marks.
  - intros path n m Hp (_&f&Hf&_). by rewrite file_of_read_only, Hf.
  - intros path n m Hp (_&f&Hf&E) _. unfold count_in. by rewrite file_of_read_only, Hf, E, length_marks.
  - intros path n m Hp. unfold count_in. rewrite file_of_dsn by done. by rewrite lookup_insert_eq; cbn [f_content]; rewrite length_marks.
  - intros path n m other Hp Ho. rewrite file_of_dsn by done. apply lookup_insert_ne. intros ->. apply Ho. by left.
Qed.
Local Definition machine : Disk := MkDisk {["/srv/marsec.db-shm" := MkFile "" 384]} (fun _ => false) 0.
Local Definition saved_run : result SnapshotReport * Disk := Snapshot 7%nat "/backup/nightly" machine.
Local Definition restored_run : result SnapshotReport * Disk := Restore "/backup/nightly" "/srv/marsec.db" (snd saved_run).
Local Definition saved_report : SnapshotReport := MkSnapshotReport "/backup/nightly" 14 7.
Local Definition restored_report : SnapshotReport := MkSnapshotReport "/srv/marsec.db" 14 7.
Lemma saved_ok : Snapshot 7%nat "/backup/nightly" machine = (Ok saved_report, snd saved_run).
Proof. by vm_compute. Qed.
Lemma restored_ok : Restore "/backup/nightly" "/srv/marsec.db" (snd saved_run) = (Ok restored_report, snd restored_run).
Proof. by vm_compute. Qed.
(** Restoring a second time is refused. *)
Lemma restored_twice : fst (Restore "/backup/nightly" "/srv/marsec.db" (snd restored_run)) = Err [ErrTargetExists].
Proof. by vm_compute. Qed.
Local Definition opened : result nat * Disk := Open "/srv/marsec.db" (snd restored_run).
Lemma opened_ok : fst opened = Ok 7%nat.
Proof. by vm_compute. Qed.
Lemma Restore_safe_witness : ∃ checked f, verified "/backup/nightly" (files (snd saved_run)) checked ∧
  files (snd saved_run) !! "/backup/nightly" = Some f ∧ files (snd saved_run) !! "/srv/marsec.db" = None ∧
  files (snd restored_run) !! "/srv/marsec.db" = Some (MkFile (f_content f) filePerm) ∧
  restored_report = MkSnapshotReport "/srv/marsec.db" (Bytes checked) (Migrations checked).
Proof. exact (proj2 (proj2 (Restore_safe "/backup/nightly" "/srv/marsec.db" _ _ _ restored_ok))). Defined.
Lemma snapshot_comes_back_witness : sqlite_load (dsn "/srv/marsec.db") (files (snd restored_run)) = Ok 7%nat ∧
  Bytes restored_report = Bytes saved_report ∧
  (settled "/backup/nightly" (files (snd saved_run)) → 0 < 7 → Migrations restored_report = 7 ∧ Migrations saved_report = 7).
Proof.
  refine (snapshot_comes_back (H0 := disk_files) Z.of_nat (SQLiteLaws0 := tally_laws) 7%nat "/backup/nightly" "/backup/nightly" "/srv/marsec.db" machine
    (snd saved_run) (snd saved_run) (snd restored_run) saved_report restored_report _ _ _ saved_ok eq_refl _ restored_ok _); by split.
Defined.
End examples.
End snapshot.
