(* ===== verification/AgentConfig.v ===== *)
(** internal/agent/config.go: the agent's configuration file, read strictly, and
  the checks it must pass. *)
From Stdlib Require Import ZArith Lia Ascii.
From S2P Require Import Prelude GoStrings GoTime GoPath Json GoNumbers.

Module agent_config.
Definition MethodBootstrap : string := "bootstrap".
Definition MethodInstance : string := "instance".
Definition defaultPollInterval : Z := Minute.
Definition defaultRenewBefore : Z := 5 * Minute.
Definition defaultMode : string := "0400".
Definition maxConfigBytes : Z := Z.shiftl 256 10.
Definition ErrNoAddress : string := "agent: an address is required".
Definition ErrNoTenant : string := "agent: a tenant is required".
Definition ErrNoMethod : string := "agent: the auth method must be bootstrap or instance".
Definition ErrNoCredential : string := "agent: a credential file is required".
Definition ErrNoTemplates : string := "agent: at least one template is required".
Definition ErrBadTemplate : string := "agent: a template needs a source and a destination".
Definition ErrBadMode : string := "agent: a template mode must be an octal file mode".
Definition ErrConfigLarge : string := "agent: the configuration is larger than the accepted maximum".
Definition ErrBadInterval : string := "agent: intervals must be positive durations".
Definition bad_config : string := "agent: reading the configuration".

Record Auth := MkAuth { Method : string; CredentialFile : string }.
Record Template := MkTemplate { Source : string; Destination : string; Mode : string; Command : list string }.
Record Config := MkConfig {
  Address : string; CACertFile : string; AllowPlainHTTP : bool; Tenant : string; Auth_ : Auth;
  PollInterval : string; RenewBefore : string; Templates : list Template }.
Record intervals := MkIntervals { poll : Z; renewBefore : Z }.

Definition Template_mode (t : Template) : result Z :=
  let raw := if String.eqb (Mode t) "" then defaultMode else Mode t in
  match ParseUint raw 8 32 with Some parsed => Ok parsed | None => Err [ErrBadMode] end.

(** ** Reading: a value is decoded into what is already there *)
Section into.
Context {A : Type} (zero : A) (into : A → json → option A).
Fixpoint elements_into (old : list A) (l : list json) : option (list A) :=
  match l with
  | [] => Some []
  | v :: l => a ← into (List.hd zero old) v; rest ← elements_into (List.tl old) l; Some (a :: rest)
  end.
Definition list_into (old : list A) (v : json) : option (list A) :=
  match v with JArr l => elements_into old l | JNull => Some [] | _ => None end.
End into.
Definition str_into (old : string) (v : json) : option string :=
  match v with JStr s => Some s | JNull => Some old | _ => None end.
Definition bool_into (old : bool) (v : json) : option bool :=
  match v with JBool b => Some b | JNull => Some old | _ => None end.
(** A struct: every member must be one of its fields. *)
Definition struct_into {A} (names : list string) (set : string → json → A → option A) (old : A) (v : json) : option A :=
  match v with
  | JObj l => foldl (fun acc m => a ← acc; name ← field_of names (fst m); set name (snd m) a) (Some old) l
  | JNull => Some old
  | _ => None
  end.
Definition Auth_into : Auth → json → option Auth :=
  struct_into ["method"; "credential_file"] (fun name v a =>
    if String.eqb name "method" then x ← str_into (Method a) v; Some (MkAuth x (CredentialFile a))
    else x ← str_into (CredentialFile a) v; Some (MkAuth (Method a) x)).
Definition Template_into : Template → json → option Template :=
  struct_into ["source"; "destination"; "mode"; "command"] (fun name v t =>
    if String.eqb name "source" then x ← str_into (Source t) v; Some (MkTemplate x (Destination t) (Mode t) (Command t))
    else if String.eqb name "destination" then x ← str_into (Destination t) v; Some (MkTemplate (Source t) x (Mode t) (Command t))
    else if String.eqb name "mode" then x ← str_into (Mode t) v; Some (MkTemplate (Source t) (Destination t) x (Command t))
    else x ← list_into "" str_into (Command t) v; Some (MkTemplate (Source t) (Destination t) (Mode t) x)).
Definition no_template : Template := MkTemplate "" "" "" [].
Definition Config_into : Config → json → option Config :=
  struct_into ["address"; "ca_cert_file"; "allow_plain_http"; "tenant"; "auth"; "poll_interval"; "renew_before"; "templates"] (fun name v c =>
    let '(MkConfig address ca plain tenant auth poll renew templates) := c in
    if String.eqb name "address" then x ← str_into address v; Some (MkConfig x ca plain tenant auth poll renew templates)
    else if String.eqb name "ca_cert_file" then x ← str_into ca v; Some (MkConfig address x plain tenant auth poll renew templates)
    else if String.eqb name "allow_plain_http" then x ← bool_into plain v; Some (MkConfig address ca x tenant auth poll renew templates)
    else if String.eqb name "tenant" then x ← str_into tenant v; Some (MkConfig address ca plain x auth poll renew templates)
    else if String.eqb name "auth" then x ← Auth_into auth v; Some (MkConfig address ca plain tenant x poll renew templates)
    else if String.eqb name "poll_interval" then x ← str_into poll v; Some (MkConfig address ca plain tenant auth x renew templates)
    else if String.eqb name "renew_before" then x ← str_into renew v; Some (MkConfig address ca plain tenant auth poll x templates)
    else x ← list_into no_template Template_into templates v; Some (MkConfig address ca plain tenant auth poll renew x)).
Definition no_config : Config := MkConfig "" "" false "" (MkAuth "" "") "" "" [].

(** ** Checks *)
Definition positive_or (default : Z) (raw : string) : result Z :=
  if String.eqb raw "" then Ok default
  else match duration.ParseDuration raw with
       | Some parsed => if parsed <=? 0 then Err [ErrBadInterval] else Ok parsed
       | None => Err [ErrBadInterval]
       end.
Definition Config_intervals (c : Config) : result intervals :=
  let? poll := positive_or defaultPollInterval (PollInterval c) in
  let? renew := positive_or defaultRenewBefore (RenewBefore c) in
  Ok (MkIntervals poll renew).
Definition check_template (t : Template) : result unit :=
  if String.eqb (Source t) "" || String.eqb (Destination t) "" then Err [ErrBadTemplate]
  else if negb (filepath.IsAbs (Destination t)) then Err [ErrBadTemplate]
  else let? _ := Template_mode t in Ok tt.
Fixpoint check_templates (ts : list Template) : result unit :=
  match ts with [] => Ok tt | t :: ts => let? _ := check_template t in check_templates ts end.
Definition Validate (c : Config) : result unit :=
  if String.eqb (Address c) "" then Err [ErrNoAddress]
  else if String.eqb (Tenant c) "" then Err [ErrNoTenant]
  else if negb (String.eqb (Method (Auth_ c)) MethodBootstrap) && negb (String.eqb (Method (Auth_ c)) MethodInstance) then Err [ErrNoMethod]
  else if String.eqb (CredentialFile (Auth_ c)) "" then Err [ErrNoCredential]
  else if bool_decide (Templates c = []) then Err [ErrNoTemplates]
  else
    let? _ := check_templates (Templates c) in
    let? _ := Config_intervals c in
    Ok tt.
(** [raw] is the file, when it can be read; one value is decoded, and whatever
  follows it in the file is left. *)
Definition Load (raw : result string) : result Config :=
  let? text := raw in
  if maxConfigBytes <? len text then Err [ErrConfigLarge]
  else match '(v, _) ← parse_value (S (2 * String.length text)) text; Config_into no_config v with
       | None => Err [bad_config]
       | Some config => let? _ := Validate config in Ok config
       end.

(** ** What the agent may rely on *)
Lemma positive_or_pos default raw d : 0 < default → positive_or default raw = Ok d → 0 < d.
Proof.
  unfold positive_or. destruct (String.eqb raw ""); [by intros ? [= <-]|]. destruct (duration.ParseDuration raw) as [p|]; [|done].
  destruct (Z.leb_spec p 0); [done|]. by intros ? [= <-].
Qed.
Lemma Config_intervals_pos c i : Config_intervals c = Ok i → 0 < poll i ∧ 0 < renewBefore i.
Proof.
  unfold Config_intervals. destruct (positive_or defaultPollInterval _) as [p|] eqn:Ep; [|done]. cbn [result_bind].
  destruct (positive_or defaultRenewBefore _) as [r|] eqn:Er; [|done]. intros [= <-]. split; cbn; eapply positive_or_pos; eauto; done.
Qed.
Record valid (c : Config) : Prop := {
  valid_named : Address c ≠ "" ∧ Tenant c ≠ "" ∧ CredentialFile (Auth_ c) ≠ "";
  valid_method : Method (Auth_ c) = MethodBootstrap ∨ Method (Auth_ c) = MethodInstance;
  valid_templates : Templates c ≠ [] ∧ Forall (fun t => Source t ≠ "" ∧ (∃ rest, Destination t = "/" +:+ rest) ∧ is_ok (Template_mode t) = true) (Templates c);
  valid_intervals : ∃ i, Config_intervals c = Ok i ∧ 0 < poll i ∧ 0 < renewBefore i }.
Lemma check_templates_Ok ts : check_templates ts = Ok tt →
  Forall (fun t => Source t ≠ "" ∧ (∃ rest, Destination t = "/" +:+ rest) ∧ is_ok (Template_mode t) = true) ts.
Proof.
  induction ts as [|t ts IH]; [constructor|]. cbn [check_templates]. unfold check_template.
  destruct (String.eqb_spec (Source t) ""); [done|]. destruct (String.eqb (Destination t) ""); [done|].
  destruct (filepath.IsAbs (Destination t)) eqn:Ea; [|done]. cbn [orb negb]. destruct (Template_mode t) eqn:Em; [|done]. cbn [result_bind].
  intros H'. constructor; [|by apply IH]. split_and!; [done| |by rewrite Em]. by apply HasPrefix_spec in Ea.
Qed.
Lemma Validate_valid c : Validate c = Ok tt → valid c.
Proof.
  unfold Validate. destruct (String.eqb_spec (Address c) ""); [done|]. destruct (String.eqb_spec (Tenant c) ""); [done|].
  destruct (_ && _) eqn:Em; [done|]. destruct (String.eqb_spec (CredentialFile (Auth_ c)) ""); [done|].
  case_bool_decide; [done|]. destruct (check_templates (Templates c)) as [[]|] eqn:Et; [|done]. cbn [result_bind].
  destruct (Config_intervals c) as [i|] eqn:Ei; [|done]. intros _. split; [done| |split; [done|by apply check_templates_Ok]|eauto using Config_intervals_pos].
  apply andb_false_iff in Em. by rewrite !negb_false_iff, !String.eqb_eq in Em.
Qed.
Lemma Load_valid raw c : Load raw = Ok c → valid c.
Proof.
  unfold Load. destruct raw as [text|]; [|done]. cbn [result_bind]. destruct (_ <? _); [done|].
  destruct (_ ≫= _) as [c'|]; [|done]. destruct (Validate c') as [[]|] eqn:E; [|done]. intros [= <-]. by apply Validate_valid.
Qed.
End agent_config.
