(* ===== verification/Agent.v ===== *)
(** internal/agent/agent.go: the process that renders templates from the store
  into files, runs a command when a file changed, and renews the leases it was
  given.

  What lies outside is a parameter: the network and the commands share a state
  [E]; text/template is a function from a template's text to a [program], which
  asks for secrets and parameters and in the end puts out a text or breaks; the
  names of temporary files; the order of ranging over a map.  Every call of the
  operating system may fail, and every state of the files that another process
  may see is kept in [seen]. *)
From Stdlib Require Import ZArith Lia Ascii.
From S2P Require Import Prelude GoStrings GoTime GoPath Files Json GoNumbers GoUrl Client AgentConfig.

Inductive program : Type :=
| Output (text : string)
| Broken
| AskSecret (path : string) (k : string → program)
| AskParam (path : string) (k : string → program).
(** [None]: the text is no template. *)
Class TextTemplate := template_Parse : ∀ (name source : string), option program.
(** [Runner] *)
Class Runner (E : Type) := run_command : list string → M E unit.
Class LeaseOrder := lease_order : gmap string Z → list string.

Module agent.
Import agent_config os.
Definition maxTemplateBytes : Z := Z.shiftl 1 20.
Definition tempPrefix : string := ".marsec-".
Definition ErrNoStore : string := "agent: the store is not reachable".
Definition ErrNoRunner : string := "agent: a command runner is required".
Definition ErrRenderFail : string := "agent: a template did not render".
Definition command_failed : string := "agent: running the command".

(** The agent's own memory, the files, and what is around them. *)
Record State (E : Type) := MkState {
  link : client.Linked E; loggedIn : bool; leases : gmap string Z; on_disk : Files; seen : list Files;
  clock : nat → Z; faults : nat → bool; written_short : nat }.
Arguments MkState {E} link loggedIn leases on_disk seen clock faults written_short.
Arguments link {E} s.
Arguments loggedIn {E} s.
Arguments leases {E} s.
Arguments on_disk {E} s.
Arguments seen {E} s.
Arguments clock {E} s.
Arguments faults {E} s.
Arguments written_short {E} s.
Record Agent := MkAgent { config : Config; spans : intervals }.

Section state.
Context {E : Type}.
Definition set_link (l : client.Linked E) (s : State E) : State E :=
  MkState l (loggedIn s) (leases s) (on_disk s) (seen s) (clock s) (faults s) (written_short s).
Definition set_loggedIn (b : bool) (s : State E) : State E :=
  MkState (link s) b (leases s) (on_disk s) (seen s) (clock s) (faults s) (written_short s).
Definition set_leases (m : gmap string Z) (s : State E) : State E :=
  MkState (link s) (loggedIn s) m (on_disk s) (seen s) (clock s) (faults s) (written_short s).
Definition now : M (State E) Z := fun s =>
  (Ok (clock s 0%nat), MkState (link s) (loggedIn s) (leases s) (on_disk s) (seen s) (fun n => clock s (S n)) (faults s) (written_short s)).
(** A change of the files is seen. *)
#[export] Instance state_files : FileSystem (State E) := {
  files := on_disk;
  set_files := fun m s => MkState (link s) (loggedIn s) (leases s) m (m :: seen s) (clock s) (faults s) (written_short s);
  io := fun s =>
    let s' := MkState (link s) (loggedIn s) (leases s) (on_disk s) (seen s) (clock s) (fun n => faults s (S n)) (written_short s) in
    if faults s 0%nat then (Err [os_error], s') else (Ok tt, s');
  short_write := written_short }.
#[export] Instance state_files_laws : FileSystemLaws (State E).
Proof. split; [done|]. intros s. unfold io; cbn. by destruct (faults s 0%nat). Qed.
Definition over_client {A} (m : M (client.Linked E) A) : M (State E) A := fun s =>
  let '(r, l) := m (link s) in (r, set_link l s).
End state.

Definition New `{IPLiterals} (pem : result bool) (c : Config) : result (Agent * client.Client) :=
  let? _ := Validate c in
  let? spans := Config_intervals c in
  let? made := client.New pem (client.MkOptions (Address c) (CACertFile c) false (AllowPlainHTTP c) 0) in
  Ok (MkAgent c spans, made).

Section cycles.
Context {E : Type} `{Transport E} `{IPLiterals} `{TextTemplate} `{Runner E} `{TempNames} `{LeaseOrder} (a : Agent).

(** ** One cycle *)
Definition ensureSession : M (State E) unit := fun s =>
  if loggedIn s then (Ok tt, s)
  else
    (let! credential := ReadFile (CredentialFile (Auth_ (config a))) in
     let trimmed := bytes_of_string (TrimSpace credential) in
     let! _ := (if String.eqb (Method (Auth_ (config a))) MethodBootstrap then over_client (client.LoginBootstrap trimmed)
                else if String.eqb (Method (Auth_ (config a))) MethodInstance then over_client (client.LoginInstance trimmed)
                else fail [ErrNoMethod]) in
     modify (set_loggedIn true)) s.

(** The functions a template may call. *)
Definition secret_function (path : string) : M (State E) string :=
  let! found := over_client (client.ReadSecret (Tenant (config a)) path 0) in
  (if String.eqb (client.LeaseID found) "" then ret tt
   else let! t := now in modify (fun s => set_leases (<[client.LeaseID found := t + client.LeaseTTL found]> (leases s)) s)) ;!
  ret (string_of_bytes (client.Value found)).
Definition param_function (path : string) : M (State E) string :=
  let! found := over_client (client.ReadParameter (Tenant (config a)) path) in
  ret (string_of_bytes (client.p_Value found)).
(** [Execute]: the error of a function is the error of the template. *)
Fixpoint execute (p : program) : M (State E) string :=
  match p with
  | Output text => ret text
  | Broken => fail [ErrRenderFail]
  | AskSecret path k => fun s => match secret_function path s with
                                 | (Ok v, s) => execute (k v) s
                                 | (Err e, s) => (Err (errors_Join [ErrRenderFail] e), s)
                                 end
  | AskParam path k => fun s => match param_function path s with
                                | (Ok v, s) => execute (k v) s
                                | (Err e, s) => (Err (errors_Join [ErrRenderFail] e), s)
                                end
  end.

(** [true] when the file changed. *)
Definition place (spec : Template) (content : string) : M (State E) bool :=
  let! mode := lift_result (Template_mode spec) in
  let! existing := attempt (ReadFile (Destination spec)) in
  if match existing with Ok old => String.eqb old content | Err _ => false end then ret false
  else
    let directory := filepath.Dir (Destination spec) in
    MkdirAll directory ;!
    let! name := CreateTemp directory tempPrefix in
    deferred (Remove name)
      (or_close (Chmod name mode) ;!
       or_close (Write name content) ;!
       or_close Sync ;!
       Close ;!
       Rename name (Destination spec) ;!
       ret true).
Definition render (spec : Template) : M (State E) bool :=
  let! source := ReadFile (Source spec) in
  if maxTemplateBytes <? len source then fail [ErrRenderFail]
  else match template_Parse (filepath.Base (Source spec)) source with
       | None => fail [ErrRenderFail]
       | Some parsed => let! rendered := execute parsed in place spec rendered
       end.
(** [Commands.Run] runs nothing for no command. *)
Definition command (argv : list string) : M (State E) unit := fun s =>
  let '(r, e) := run_command argv (client.network (link s)) in
  (match r with Ok _ => Ok tt | Err x => Err (command_failed :: x) end, set_link (client.MkLinked (client.linked (link s)) e) s).
Fixpoint render_all (specs : list Template) : M (State E) unit :=
  match specs with
  | [] => ret tt
  | one :: specs =>
      let! changed := render one in
      (if changed && negb (bool_decide (Command one = [])) then command (Command one) else ret tt) ;!
      render_all specs
  end.

(** The leases one after the other, in the order of the map. *)
Fixpoint renew_loop (deadline : Z) (ids : list string) : M (State E) unit :=
  match ids with
  | [] => ret tt
  | id :: ids =>
      let! s := get in
      match leases s !! id with
      | None => renew_loop deadline ids
      | Some expiry =>
          if deadline <? expiry then renew_loop deadline ids
          else
            let! r := attempt (over_client (client.RenewLease id 0)) in
            match r with
            | Err e => if errors_Is e client.ErrNotFound
                       then modify (fun s => set_leases (delete id (leases s)) s) ;! renew_loop deadline ids
                       else fail e
            | Ok _ => let! t := now in
                      modify (fun s => set_leases (<[id := t + wrap64 (renewBefore (spans a) * 2)]> (leases s)) s) ;!
                      renew_loop deadline ids
            end
      end
  end.
Definition renewLeases : M (State E) unit :=
  let! t := now in
  let! s := get in
  renew_loop (t + renewBefore (spans a)) (lease_order (leases s)).
Definition Cycle : M (State E) unit :=
  ensureSession ;!
  render_all (Templates (config a)) ;!
  renewLeases.
(** One round of [Run]: a failed cycle forgets the session, nothing else. *)
Definition round (s : State E) : State E :=
  match Cycle s with
  | (Ok _, s) => s
  | (Err _, s) => set_loggedIn false s
  end.
(** [Run] until its context is done, after [n] rounds. *)
Fixpoint Run (n : nat) (s : State E) : State E :=
  match n with O => s | S n => Run n (round s) end.
Definition Tracked (s : State E) : Z := Z.of_nat (size (leases s)).
End cycles.

(** ** What the files hold *)
(** Nobody but the agent uses names that start so. *)
Definition temporary (path : string) : bool := HasPrefix (filepath.Base path) tempPrefix.
Class TempNamesLaws (T : TempNames) := {
  temp_name_free : ∀ dir m, m !! temp_name dir tempPrefix m = None;
  temp_name_temporary : ∀ dir m, temporary (temp_name dir tempPrefix m) = true }.

Section files.
Context {E : Type} `{Transport E} `{IPLiterals} `{TextTemplate} `{Runner E} `{T : TempNames} `{!TempNamesLaws T} `{LeaseOrder} (a : Agent).

(** The steps a running agent takes, between which it can be observed. *)
Inductive step : State E → State E → Prop :=
| step_session s : step s (snd (ensureSession a s))
| step_render spec s : spec ∈ Templates (config a) → step s (snd (render a spec s))
| step_command argv s : step s (snd (command argv s))
| step_renew s : step s (snd (renewLeases a s))
| step_forget s : step s (set_loggedIn false s).
Definition reached : State E → State E → Prop := rtc step.

(** [text] is what a template came to, every lookup in it answered, at some
  point since [start]. *)
Definition rendered_since (start : State E) (spec : Template) (text : string) : Prop :=
  ∃ s0 source s1 parsed s2, reached start s0 ∧ ReadFile (Source spec) s0 = (Ok source, s1) ∧
    template_Parse (filepath.Base (Source spec)) source = Some parsed ∧ execute a parsed s1 = (Ok text, s2).
Definition whole (start : State E) (spec : Template) (f : File) : Prop :=
  rendered_since start spec (f_content f) ∧ ∃ mode, Template_mode spec = Ok mode ∧ f_mode f = syscallMode mode.
(** Every path holds what it held at the start, or a whole rendering of a
  template that has it for its destination. *)
Definition sound (start : State E) (m : Files) : Prop := ∀ path, temporary path = false →
  m !! path = files start !! path ∨
  ∃ spec f, spec ∈ Templates (config a) ∧ Destination spec = path ∧ m !! path = Some f ∧ whole start spec f.
Definition clean (start s : State E) : Prop := sound start (files s) ∧ Forall (sound start) (seen s).

(** What [m] does from [P]: [Q] when it succeeds, [R] when it fails. *)
Definition triple {A} (P : State E → Prop) (m : M (State E) A) (Q : A → State E → Prop) (R : State E → Prop) : Prop :=
  ∀ s, P s → match m s with (Ok x, s') => Q x s' | (Err _, s') => R s' end.
Lemma triple_bind {A B} P (m : M (State E) A) Q (k : A → M (State E) B) Q' R :
  triple P m Q R → (∀ x, triple (Q x) (k x) Q' R) → triple P (bind m k) Q' R.
Proof.
  intros Hm Hk s Hs. unfold bind. specialize (Hm s Hs). destruct (m s) as [[x|e] s1]; [by apply Hk|done].
Qed.
Lemma triple_or_close {A} P (m : M (State E) A) Q R : triple P m Q R → (∀ s s', files s' = files s → seen s' = seen s → R s → R s') → triple P (or_close m) Q R.
Proof.
  intros Hm HR s Hs. specialize (Hm s Hs). unfold or_close, or_else. destruct (m s) as [[x|e] s1]; [done|].
  unfold Close, io; cbn. destruct (faults s1 0%nat); by apply (HR s1).
Qed.
(** Operations that leave the files alone. *)
Definition same_files {A} (m : M (State E) A) : Prop := ∀ s, files (snd (m s)) = files s ∧ seen (snd (m s)) = seen s.
Lemma same_files_bind {A B} (m : M (State E) A) (k : A → M (State E) B) : same_files m → (∀ x, same_files (k x)) → same_files (bind m k).
Proof.
  intros Hm Hk s. unfold bind. destruct (Hm s) as [F1 F2]. destruct (m s) as [[x|e] s1]; [|done]. cbn [snd] in *.
  destruct (Hk x s1) as [F3 F4]. by rewrite F3, F4.
Qed.
Lemma same_files_ret {A} (x : A) : same_files (ret x).
Proof. done. Qed.
Lemma same_files_fail {A} e : same_files (fail (A:=A) e).
Proof. done. Qed.
Lemma same_files_lift {A} (r : result A) : same_files (lift_result r).
Proof. done. Qed.
Lemma same_files_attempt {A} (m : M (State E) A) : same_files m → same_files (attempt m).
Proof. intros Hm s. unfold attempt. specialize (Hm s). by destruct (m s). Qed.
Lemma same_files_get : same_files get.
Proof. done. Qed.
Lemma same_files_now : same_files now.
Proof. done. Qed.
Lemma same_files_io : same_files io.
Proof. intros s. unfold io; cbn. by destruct (faults s 0%nat). Qed.
Lemma same_files_modify f : (∀ s, files (f s) = files s ∧ seen (f s) = seen s) → same_files (modify f).
Proof. intros Hf s. apply Hf. Qed.
Lemma same_files_client {A} (m : M (client.Linked E) A) : same_files (over_client m).
Proof. intros s. unfold over_client. by destruct (m (link s)). Qed.
Lemma same_files_ReadFile path : same_files (ReadFile path).
Proof. apply same_files_bind; [apply same_files_io|]. intros _ s. by destruct (files s !! path). Qed.
Create HintDb agent_files discriminated.
Hint Resolve same_files_bind same_files_ret same_files_fail same_files_lift same_files_attempt same_files_get same_files_now same_files_io
  same_files_modify same_files_client same_files_ReadFile : agent_files.
Lemma same_files_execute p : same_files (execute a p).
Proof.
  induction p as [text| |path k IH|path k IH]; cbn [execute]; auto with agent_files.
  - intros s. assert (same_files (secret_function a path)) as Hf by
      (unfold secret_function; apply same_files_bind; [auto with agent_files|]; intros x; apply same_files_bind; [case_match|]; auto 6 with agent_files).
    destruct (Hf s) as [F1 F2]. destruct (secret_function a path s) as [[v|e] s1]; [|done]. cbn [snd] in *.
    destruct (IH v s1) as [F3 F4]. by rewrite F3, F4.
  - intros s. assert (same_files (param_function a path)) as Hf by (unfold param_function; auto with agent_files).
    destruct (Hf s) as [F1 F2]. destruct (param_function a path s) as [[v|e] s1]; [|done]. cbn [snd] in *.
    destruct (IH v s1) as [F3 F4]. by rewrite F3, F4.
Qed.
Lemma same_files_command argv : same_files (command argv).
Proof. intros s. unfold command. by destruct (run_command argv _) as [[]]. Qed.
Lemma same_files_ensureSession : same_files (ensureSession a).
Proof.
  intros s. unfold ensureSession. destruct (loggedIn s); [done|]. revert s. apply same_files_bind; [auto with agent_files|]. intros credential.
  cbv zeta. apply same_files_bind; [repeat case_match; auto with agent_files|]. auto with agent_files.
Qed.
Lemma same_files_renew_loop deadline ids : same_files (renew_loop a deadline ids).
Proof.
  induction ids as [|id ids IH]; cbn [renew_loop]; [auto with agent_files|]. apply same_files_bind; [auto with agent_files|]. intros s.
  destruct (leases s !! id) as [expiry|]; [|done]. destruct (deadline <? expiry); [done|].
  apply same_files_bind; [auto with agent_files|]. intros [u|e].
  - apply same_files_bind; [auto with agent_files|]. intros t. apply same_files_bind; auto with agent_files.
  - destruct (errors_Is _ _); [apply same_files_bind|]; auto with agent_files.
Qed.
Lemma same_files_renewLeases : same_files (renewLeases a).
Proof. unfold renewLeases. apply same_files_bind; [auto with agent_files|]. intros t. apply same_files_bind; [auto with agent_files|]. intros s. apply same_files_renew_loop. Qed.

(** ** Placing a rendered text *)
Lemma triple_same {A} (P : State E → Prop) (m : M (State E) A) : (∀ s s', files s' = files s → seen s' = seen s → P s → P s') →
  same_files m → triple P m (fun _ => P) P.
Proof. intros HP Hm s Hs. destruct (Hm s) as [F1 F2]. destruct (m s) as [[x|e] s1]; by eapply HP. Qed.
Lemma sound_same_at start (m m' : Files) path : sound start m → m' !! path = m !! path → temporary path = false →
  m' !! path = files start !! path ∨ ∃ spec f, spec ∈ Templates (config a) ∧ Destination spec = path ∧ m' !! path = Some f ∧ whole start spec f.
Proof. intros Hm E0 Ht. rewrite E0. by apply Hm. Qed.
Lemma sound_temporary start (m m' : Files) name : temporary name = true → (∀ path, path ≠ name → m' !! path = m !! path) →
  sound start m → sound start m'.
Proof. intros Hname Heq Hm path Ht. apply (sound_same_at start m); [done| |done]. apply Heq. by intros ->; rewrite Hname in Ht. Qed.
Lemma clean_set_files start m s : clean start s → sound start m → clean start (set_files m s).
Proof. intros [Hf Hs] Hm. split; [done|]. by constructor. Qed.
Lemma clean_same start s s' : files s' = files s → seen s' = seen s → clean start s → clean start s'.
Proof. unfold clean. by intros -> ->. Qed.

Section placed.
Context (start : State E) (name : string) (Hname : temporary name = true).
(** The temporary file exists and holds what [P] says. *)
Definition prepared (P : File → Prop) (s : State E) : Prop := clean start s ∧ ∃ f, files s !! name = Some f ∧ P f.
Lemma prepared_same P s s' : files s' = files s → seen s' = seen s → prepared P s → prepared P s'.
Proof. unfold prepared, clean. by intros -> ->. Qed.
Lemma change_prepared (P Q : File → Prop) g : (∀ f, P f → Q (g f)) →
  triple (prepared P) (change_file name g) (fun _ => prepared Q) (clean start).
Proof.
  intros Hg s [Hc (f&Hf&HP)]. unfold change_file. split.
  - apply clean_set_files; [done|]. apply (sound_temporary _ (files s) _ name); [done| |apply Hc]. intros path Hne. by rewrite lookup_alter_ne.
  - exists (g f). split; [|by apply Hg]. change (alter g name (files s) !! name = Some (g f)). by rewrite lookup_alter_eq, Hf.
Qed.
Lemma triple_io_prepared P : triple (prepared P) (io : M (State E) unit) (fun _ => prepared P) (clean start).
Proof.
  intros s Hs. destruct (same_files_io s) as [F1 F2]. destruct (io s) as [[x|e] s1]; [by eapply prepared_same|].
  eapply clean_same; [done..|apply Hs].
Qed.
Lemma Chmod_prepared mode : triple (prepared (fun f => f_content f = "")) (Chmod name mode)
  (fun _ => prepared (fun f => f_content f = "" ∧ f_mode f = syscallMode mode)) (clean start).
Proof. eapply triple_bind; [apply triple_io_prepared|]. intros ?. by apply change_prepared. Qed.
Lemma Write_prepared mode content : triple (prepared (fun f => f_content f = "" ∧ f_mode f = mode)) (Write name content)
  (fun _ => prepared (fun f => f_content f = content ∧ f_mode f = mode)) (clean start).
Proof.
  intros s Hs. unfold Write. pose proof (triple_io_prepared _ s Hs) as Hio. destruct (same_files_io s) as [F1 F2].
  destruct (io s) as [[x|e] s1]; cbn [snd] in *.
  - revert Hio. apply (change_prepared (fun f => f_content f = "" ∧ f_mode f = mode)). by intros f [-> ->].
  - assert (prepared (fun _ => True) s1) as Hp.
    { apply (prepared_same _ s); [done..|]. destruct Hs as [Hc (f&Hf&_)]. split; [done|]. by exists f. }
    exact (proj1 (change_prepared (fun _ => True) (fun _ => True) (fun f => MkFile (f_content f +:+ String.substring 0 (short_write s1) content) (f_mode f))
      (fun _ _ => I) s1 Hp)).
Qed.
Lemma Rename_prepared spec content mode : spec ∈ Templates (config a) → rendered_since start spec content → Template_mode spec = Ok mode →
  triple (prepared (fun f => f_content f = content ∧ f_mode f = syscallMode mode)) (Rename name (Destination spec))
    (fun _ s => clean start s ∧ ∃ f, files s !! Destination spec = Some f ∧ f_content f = content) (clean start).
Proof.
  intros Hspec Hr Hmode. eapply triple_bind; [apply triple_io_prepared|]. intros ? s [Hc (f&Hf&Hcontent&Hm)]. rewrite Hf. split.
  2: { exists f. split; [|done]. cbn. apply lookup_insert_eq. }
  apply clean_set_files; [done|]. intros path Ht.
  destruct (decide (path = Destination spec)) as [->|Hne].
  - right. exists spec, f. split_and!; [done|done|apply lookup_insert_eq|]. split; [by rewrite Hcontent|eauto].
  - apply (sound_same_at start (files s)); [apply Hc| |done]. rewrite lookup_insert_ne by done. apply lookup_delete_ne.
    intros <-. by rewrite Hname in Ht.
Qed.
Lemma triple_weaken {A} P (m : M (State E) A) Q R (R' : State E → Prop) : triple P m Q R → (∀ s, R s → R' s) → triple P m Q R'.
Proof. intros Hm HR s Hs. specialize (Hm s Hs). destruct (m s) as [[x|e] s1]; auto. Qed.
Lemma or_close_clean {A} P (m : M (State E) A) Q : triple P m Q (clean start) → triple P (or_close m) Q (clean start).
Proof. intros Hm. apply triple_or_close; [done|]. intros s s' F1 F2. by apply clean_same. Qed.
Lemma deferred_clean {A} P (m : M (State E) A) (Q : A → State E → Prop) (Q' : A → State E → Prop) :
  triple P m Q (clean start) → (∀ x s, Q x s → clean start s) →
  (∀ x s s', Q x s → clean start s' → (∀ path, path ≠ name → files s' !! path = files s !! path) → Q' x s') →
  triple P (deferred (Remove name) m) Q' (clean start).
Proof.
  intros Hm HQ HQ' s Hs. specialize (Hm s Hs). unfold deferred. destruct (m s) as [r s1].
  assert (clean start s1) as Hc1 by (destruct r; eauto).
  assert (clean start (snd (Remove name s1)) ∧ ∀ path, path ≠ name → files (snd (Remove name s1)) !! path = files s1 !! path) as [Hc2 Heq].
  { unfold Remove, bind, io; cbn. destruct (faults s1 0%nat); cbn; [by split|]. split.
    - apply clean_set_files; [done|]. apply (sound_temporary _ (files s1) _ name); [done| |apply Hc1]. intros path Hne. by rewrite lookup_delete_ne.
    - intros path Hne. by rewrite lookup_delete_ne. }
  destruct r as [x|e]; [|done]. by eapply HQ'.
Qed.
End placed.
Lemma place_clean start spec content : spec ∈ Templates (config a) → temporary (Destination spec) = false → rendered_since start spec content →
  triple (clean start) (place spec content)
    (fun _ s => clean start s ∧ ∃ f, files s !! Destination spec = Some f ∧ f_content f = content) (clean start).
Proof.
  intros Hspec Hdest Hr. unfold place. intros s Hs. unfold lift_result, bind at 1. destruct (Template_mode spec) as [mode|e] eqn:Hmode; [|done].
  revert s Hs. assert (∀ s s', files s' = files s → seen s' = seen s → clean start s → clean start s') as Hsame by (intros s s'; apply clean_same).
  intros s Hs. unfold bind at 1. unfold attempt at 1. destruct (same_files_ReadFile (Destination spec) s) as [F1 F2].
  destruct (ReadFile (Destination spec) s) as [old s1] eqn:Eold. cbn [snd] in *.
  assert (clean start s1) as Hs1 by (by eapply clean_same). destruct (match old with Ok old => String.eqb old content | Err _ => false end) eqn:Ecmp.
  { destruct old as [old|]; [|done]. apply String.eqb_eq in Ecmp as ->. split; [done|]. unfold ReadFile, bind in Eold.
    destruct (io s) as [[u|e] s2] eqn:Eio; [|done]. cbn in Eold. destruct (on_disk s2 !! Destination spec) as [f|] eqn:Ef; [|done].
    injection Eold as <- <-. by exists f. }
  clear Eold Ecmp old F1 F2 Hs s. revert s1 Hs1. cbv zeta.
  eapply triple_bind; [by apply triple_same, same_files_io|]. intros ?.
  eapply triple_bind with (Q := fun name s => temporary name = true ∧ prepared start name (fun f => f_content f = "") s).
  { unfold CreateTemp. eapply triple_bind; [by apply triple_same, same_files_io|]. intros ? s Hs.
    split; [apply temp_name_temporary|]. split.
    - apply clean_set_files; [done|]. apply (sound_temporary _ (files s) _ (temp_name (filepath.Dir (Destination spec)) tempPrefix (files s)));
        [apply temp_name_temporary| |apply Hs]. intros path Hne. by rewrite lookup_insert_ne.
    - eexists. cbn. by rewrite lookup_insert_eq. }
  intros name. intros s [Hname Hs]. revert s Hs.
  apply (deferred_clean start name Hname) with
    (Q := fun _ s => clean start s ∧ ∃ f, files s !! Destination spec = Some f ∧ f_content f = content).
  2: by intros ? ? [].
  2: { intros ? ? s' [_ (f&Hf&Hc)] Hs' Heq. split; [done|]. exists f. split; [|done]. rewrite Heq; [done|]. intros <-. by rewrite Hname in Hdest. }
  eapply triple_bind; [apply or_close_clean, Chmod_prepared; done|]. intros ?.
  eapply triple_bind; [apply or_close_clean, Write_prepared; done|]. intros ?.
  eapply triple_bind; [apply or_close_clean, triple_io_prepared|]. intros ?.
  eapply triple_bind; [apply triple_io_prepared|]. intros ?.
  eapply triple_bind; [by eapply Rename_prepared|]. intros ? s Hs. exact Hs.
Qed.

(** ** The agent as a whole *)
Hypothesis Hdest : Forall (fun spec => temporary (Destination spec) = false) (Templates (config a)).
Lemma dest_kept spec : spec ∈ Templates (config a) → temporary (Destination spec) = false.
Proof. intros Hspec. rewrite Forall_forall in Hdest. auto. Qed.
Lemma clean_refl start : seen start = [] → clean start start.
Proof. intros Hs. split; [by left|]. rewrite Hs. constructor. Qed.
Definition holds_rendered (start : State E) (spec : Template) (s : State E) : Prop :=
  ∃ f, files s !! Destination spec = Some f ∧ rendered_since start spec (f_content f).
Lemma render_clean start spec s : spec ∈ Templates (config a) → reached start s → clean start s →
  match render a spec s with
  | (Ok _, s') => clean start s' ∧ holds_rendered start spec s'
  | (Err _, s') => clean start s'
  end.
Proof.
  intros Hspec Hreach Hs. unfold render. unfold bind at 1. destruct (same_files_ReadFile (Source spec) s) as [F1 F2].
  destruct (ReadFile (Source spec) s) as [[source|e] s1] eqn:Er; cbn [snd] in *; [|by eapply clean_same].
  assert (clean start s1) as Hs1 by (by eapply clean_same). destruct (_ <? _); [done|].
  destruct (template_Parse _ source) as [parsed|] eqn:Ep; [|done]. unfold bind. destruct (same_files_execute parsed s1) as [F3 F4].
  destruct (execute a parsed s1) as [[text|e] s2] eqn:Ex; cbn [snd] in *; [|by eapply clean_same].
  assert (rendered_since start spec text) as Htext by (by exists s, source, s1, parsed, s2).
  pose proof (place_clean start spec text Hspec (dest_kept spec Hspec) Htext s2 (clean_same _ _ _ F3 F4 Hs1)) as Hp.
  destruct (place spec text s2) as [[b|e] s3]; [|done]. destruct Hp as [Hc (f&Hf&<-)]. split; [done|]. by exists f.
Qed.
Lemma step_clean start s s' : reached start s → clean start s → step s s' → clean start s'.
Proof.
  intros Hreach Hs Hstep. destruct Hstep as [s|spec s Hspec|argv s|s|s].
  - destruct (same_files_ensureSession s). by eapply clean_same.
  - pose proof (render_clean start spec s Hspec Hreach Hs) as Hr. destruct (render a spec s) as [[b|e] s1]; [apply Hr|done].
  - destruct (same_files_command argv s). by eapply clean_same.
  - destruct (same_files_renewLeases s). by eapply clean_same.
  - by eapply clean_same.
Qed.
Lemma reached_clean start s : seen start = [] → reached start s → clean start s.
Proof.
  intros Hs Hreach. assert (∀ s0 s, rtc step s0 s → reached start s0 → clean start s0 → clean start s) as Hall.
  { induction 1 as [|s0 s1 s2 Hstep _ IH]; [done|]. intros Hr Hc. apply IH; [by eapply rtc_r|by eapply step_clean]. }
  apply (Hall start); [done|apply rtc_refl|by apply clean_refl].
Qed.
Lemma render_all_reached specs s : Forall (fun spec => spec ∈ Templates (config a)) specs → reached s (snd (render_all a specs s)).
Proof.
  revert s. induction specs as [|one specs IH]; intros s Hin; [apply rtc_refl|]. apply Forall_cons in Hin as [Hone Hin]. cbn [render_all].
  unfold bind at 1. pose proof (step_render one s Hone) as Hstep. destruct (render a one s) as [[changed|e] s1]; [|by apply rtc_once].
  cbn [snd] in Hstep. eapply rtc_l; [exact Hstep|]. unfold bind. destruct (changed && _); cbn [ret]; [|by apply IH].
  pose proof (step_command (Command one) s1) as Hc. destruct (command (Command one) s1) as [[u|e] s2]; [|by apply rtc_once].
  cbn [snd] in Hc. eapply rtc_l; [exact Hc|]. by apply IH.
Qed.
Lemma all_specs : Forall (fun spec => spec ∈ Templates (config a)) (Templates (config a)).
Proof. by apply Forall_forall. Qed.
Lemma Cycle_reached s : reached s (snd (Cycle a s)).
Proof.
  unfold Cycle. unfold bind at 1. pose proof (step_session s) as Hstep. destruct (ensureSession a s) as [[u|e] s1]; [|by apply rtc_once].
  cbn [snd] in Hstep. eapply rtc_l; [exact Hstep|]. unfold bind. pose proof (render_all_reached _ s1 all_specs) as Hr.
  destruct (render_all a _ s1) as [[u'|e] s2]; cbn [snd] in *; [|done]. eapply rtc_r; [exact Hr|]. apply step_renew.
Qed.
Lemma Run_reached n s : reached s (Run a n s).
Proof.
  revert s. induction n as [|n IH]; intros s; [apply rtc_refl|]. cbn [Run]. trans (round a s); [|apply IH]. unfold round.
  pose proof (Cycle_reached s) as Hr. destruct (Cycle a s) as [[u|e] s1]; [done|]. eapply rtc_r; [exact Hr|]. apply step_forget.
Qed.

(** C11. However long the agent runs and whatever fails, the files another process
  may see hold at every moment what they held before the agent started or a
  whole rendering of a template, every lookup of which was answered, in its
  destination, with the template's mode. *)
Theorem agent_never_partial (start : State E) (n : nat) (Hseen : seen start = []) :
  Forall (sound start) (files (Run a n start) :: seen (Run a n start)).
Proof. destruct (reached_clean start _ Hseen (Run_reached n start)). by constructor. Qed.

(** A rendering of one template leaves the destinations of the others. *)
Lemma rendered_since_later s0 s1 spec text : reached s0 s1 → rendered_since s1 spec text → rendered_since s0 spec text.
Proof. intros Hr (s&source&s2&parsed&s3&Hs&Hrest). exists s, source, s2, parsed, s3. split; [by trans s1|done]. Qed.
Section others.
Context (path : string) (x : option File) (Hpath : temporary path = false).
Definition at_path (s : State E) : Prop := files s !! path = x.
Lemma at_path_same {A} (m : M (State E) A) : same_files m → triple at_path m (fun _ => at_path) at_path.
Proof. intros Hm. apply triple_same; [|done]. unfold at_path. by intros s s' ->. Qed.
Lemma at_path_set m s : m !! path = files s !! path → at_path s → at_path (set_files m s).
Proof. unfold at_path. by intros <-. Qed.
Lemma at_path_change name f : temporary name = true → triple at_path (change_file name f : M (State E) unit) (fun _ => at_path) at_path.
Proof. intros Hn s. apply at_path_set. apply lookup_alter_ne. intros ->. by rewrite Hpath in Hn. Qed.
Lemma at_path_or_close {A} (m : M (State E) A) : triple at_path m (fun _ => at_path) at_path → triple at_path (or_close m) (fun _ => at_path) at_path.
Proof. intros Hm. apply triple_or_close; [done|]. unfold at_path. by intros s s' ->. Qed.
Lemma at_path_Write name content : temporary name = true → triple at_path (Write name content : M (State E) unit) (fun _ => at_path) at_path.
Proof.
  intros Hn s Hs. unfold Write. pose proof (at_path_same io same_files_io s Hs) as Hio. destruct (io s) as [[u|e] s1].
  - by apply (at_path_change name _ Hn s1).
  - by apply (at_path_change name _ Hn s1).
Qed.
Lemma at_path_Rename name dest : temporary name = true → path ≠ dest → triple at_path (Rename name dest : M (State E) unit) (fun _ => at_path) at_path.
Proof.
  intros Hn Hne. eapply triple_bind; [apply at_path_same, same_files_io|]. intros ? s Hs. destruct (files s !! name) as [f|]; [|done].
  apply at_path_set; [|done]. rewrite lookup_insert_ne by done. apply lookup_delete_ne. intros ->. by rewrite Hpath in Hn.
Qed.
Lemma at_path_Remove name : temporary name = true → triple at_path (Remove name : M (State E) unit) (fun _ => at_path) at_path.
Proof.
  intros Hn. eapply triple_bind; [apply at_path_same, same_files_io|]. intros ? s Hs. apply at_path_set; [|done].
  apply lookup_delete_ne. intros ->. by rewrite Hpath in Hn.
Qed.
Lemma at_path_deferred {A} name (m : M (State E) A) : temporary name = true → triple at_path m (fun _ => at_path) at_path →
  triple at_path (deferred (Remove name) m) (fun _ => at_path) at_path.
Proof.
  intros Hn Hm s Hs. specialize (Hm s Hs). unfold deferred. destruct (m s) as [r s1].
  assert (at_path s1) as Hs1 by (by destruct r). pose proof (at_path_Remove name Hn s1 Hs1) as Hr.
  destruct (Remove name s1) as [[u|e] s2]; by destruct r.
Qed.
Lemma at_path_place spec content : path ≠ Destination spec → triple at_path (place spec content) (fun _ => at_path) at_path.
Proof.
  intros Hne. unfold place. eapply triple_bind; [by apply at_path_same|]. intros mode.
  eapply triple_bind; [apply at_path_same, same_files_attempt, same_files_ReadFile|]. intros old.
  destruct (match old with Ok old => String.eqb old content | Err _ => false end); [by apply at_path_same|]. cbv zeta.
  eapply triple_bind; [apply at_path_same, same_files_io|]. intros ?.
  eapply triple_bind with (Q := fun name s => temporary name = true ∧ at_path s).
  { eapply triple_bind; [apply at_path_same, same_files_io|]. intros ? s Hs. split; [apply temp_name_temporary|]. apply at_path_set; [|done].
    apply lookup_insert_ne. intros En. pose proof (temp_name_temporary (filepath.Dir (Destination spec)) (files s)) as Ht. rewrite En in Ht. by rewrite Hpath in Ht. }
  intros name s [Hn Hs]. revert s Hs. apply at_path_deferred; [done|].
  eapply triple_bind; [apply at_path_or_close; eapply triple_bind; [apply at_path_same, same_files_io|intros ?; by apply at_path_change]|]. intros ?.
  eapply triple_bind; [by apply at_path_or_close, at_path_Write|]. intros ?.
  eapply triple_bind; [apply at_path_or_close, at_path_same, same_files_io|]. intros ?.
  eapply triple_bind; [apply at_path_same, same_files_io|]. intros ?.
  eapply triple_bind; [by apply at_path_Rename|]. intros ?. by apply at_path_same.
Qed.
Lemma at_path_render spec : path ≠ Destination spec → triple at_path (render a spec) (fun _ => at_path) at_path.
Proof.
  intros Hne. unfold render. eapply triple_bind; [apply at_path_same, same_files_ReadFile|]. intros source.
  destruct (_ <? _); [by apply at_path_same|]. destruct (template_Parse _ source) as [parsed|]; [|by apply at_path_same].
  eapply triple_bind; [apply at_path_same, same_files_execute|]. intros text. by apply at_path_place.
Qed.
End others.
Lemma render_all_others path x specs : temporary path = false → path ∉ (Destination <$> specs) →
  triple (at_path path x) (render_all a specs) (fun _ => at_path path x) (at_path path x).
Proof.
  intros Ht. induction specs as [|one specs IH]; intros Hnot; cbn [render_all]; [by apply at_path_same|].
  rewrite fmap_cons, not_elem_of_cons in Hnot. destruct Hnot as [Hne Hnot].
  eapply triple_bind; [by apply at_path_render|]. intros changed.
  eapply triple_bind; [apply at_path_same; destruct (changed && _); [apply same_files_command|done]|]. intros ?. by apply IH.
Qed.
Lemma render_all_holds start specs s s' : NoDup (Destination <$> specs) → Forall (fun spec => spec ∈ Templates (config a)) specs →
  reached start s → clean start s → render_all a specs s = (Ok tt, s') → Forall (fun spec => holds_rendered start spec s') specs.
Proof.
  revert s. induction specs as [|one specs IH]; intros s Hnd Hin Hreach Hs; [constructor|].
  apply Forall_cons in Hin as [Hone Hin]. rewrite fmap_cons in Hnd. apply NoDup_cons in Hnd as [Hnot Hnd]. cbn [render_all]. unfold bind at 1.
  pose proof (render_clean start one s Hone Hreach Hs) as Hr. pose proof (step_render one s Hone) as Hstep.
  destruct (render a one s) as [[changed|e] s1]; [|done]. destruct Hr as [Hs1 (f&Hf&Htext)]. cbn [snd] in Hstep. unfold bind.
  set (m := if changed && _ then _ else _). assert (same_files m) as Hm by (unfold m; destruct (changed && _); [apply same_files_command|done]).
  assert (reached s1 (snd (m s1))) as Hreach1.
  { unfold m. destruct (changed && _); [apply rtc_once, step_command|apply rtc_refl]. }
  destruct (Hm s1) as [F1 F2]. destruct (m s1) as [[u|e] s2]; [|done]. cbn [snd] in *. intros E2.
  assert (reached start s2) as Hreach2 by (trans s1; [by eapply rtc_r|done]).
  constructor; [|eapply (IH s2); try done; by eapply clean_same].
  pose proof (render_all_others (Destination one) (Some f) specs (dest_kept one Hone) Hnot s2) as Hothers. unfold at_path in Hothers.
  rewrite F1, E2 in Hothers. exists f. split; [by apply Hothers|done].
Qed.

(** After a cycle that succeeds, every destination holds what its template came
  to in that very cycle, every lookup answered by the store as the cycle asked
  it. *)
Theorem Cycle_current (start s' : State E) (Hseen : seen start = []) (Hdistinct : NoDup (Destination <$> Templates (config a)))
  (Hcycle : Cycle a start = (Ok tt, s')) :
  ∀ spec, spec ∈ Templates (config a) → holds_rendered start spec s'.
Proof.
  revert Hcycle. unfold Cycle. unfold bind at 1. pose proof (step_session start) as Hstep. destruct (ensureSession a start) as [[u|e] s1]; [|done].
  cbn [snd] in Hstep. unfold bind. destruct (render_all a _ s1) as [[[]|e] s2] eqn:Er; [|done]. intros Er2 spec Hspec.
  assert (clean start s1) as Hc1 by (by apply reached_clean, rtc_once).
  pose proof (render_all_holds start _ s1 s2 Hdistinct all_specs (rtc_once _ _ Hstep) Hc1 Er) as Hall. rewrite Forall_forall in Hall.
  destruct (Hall spec Hspec) as (f&Hf&Htext). exists f. split; [|done]. destruct (same_files_renewLeases s2) as [F1 _].
  rewrite Er2 in F1. cbn [snd] in F1. by rewrite F1.
Qed.
End files.

(** ** Leases *)
Class LeaseOrderLaws (O : LeaseOrder) := lease_order_keys : ∀ m, lease_order m ≡ₚ (map_to_list m).*1.
Section leases.
Context {E : Type} `{Transport E} `{IPLiterals} `{O : LeaseOrder} `{!LeaseOrderLaws O} (a : Agent).
(** Every lease the agent tracks lasts beyond the deadline, by its own books. *)
Definition ahead (deadline : Z) (ids : list string) (m : gmap string Z) : Prop :=
  ∀ id expiry, m !! id = Some expiry → id ∈ ids → deadline < expiry.
Definition clock_from (t : Z) (s : State E) : Prop := ∀ n, t ≤ clock s n.
Lemma clock_from_client {A} (m : M (client.Linked E) A) t s : clock_from t s → clock_from t (snd (over_client m s)) ∧
  leases (snd (over_client m s)) = leases s.
Proof. unfold over_client. by destruct (m (link s)). Qed.
Lemma renew_loop_ahead t deadline ids done_ s s' : clock_from t s → deadline < t + wrap64 (renewBefore (spans a) * 2) →
  ahead deadline done_ (leases s) → renew_loop a deadline ids s = (Ok tt, s') →
  ahead deadline (done_ ++ ids) (leases s') ∧ dom (leases s') ⊆ dom (leases s).
Proof.
  intros Hclock Hspan. revert done_ s Hclock. induction ids as [|id ids IH]; intros done_ s Hclock Hahead; cbn [renew_loop].
  { intros [= <-]. by rewrite app_nil_r. }
  assert (done_ ++ id :: ids = (done_ ++ [id]) ++ ids) as -> by (by rewrite <- app_assoc).
  unfold bind at 1, get. destruct (leases s !! id) as [expiry|] eqn:El.
  2: { apply IH; [done|]. intros i e Hi [?|Hin]%elem_of_app; [by eapply Hahead|]. apply list_elem_of_singleton in Hin as ->. by rewrite El in Hi. }
  destruct (Z.ltb_spec deadline expiry) as [Hlt|Hge].
  { apply IH; [done|]. intros i e Hi [?|Hin]%elem_of_app; [by eapply Hahead|]. apply list_elem_of_singleton in Hin as ->. rewrite El in Hi. by injection Hi as <-. }
  unfold bind at 1, attempt. destruct (clock_from_client (client.RenewLease id 0) t s Hclock) as [Hc1 Hl1].
  destruct (over_client (client.RenewLease id 0) s) as [[u|e] s1]; cbn [snd] in *.
  - unfold bind, now, modify. intros Er. apply (IH (done_ ++ [id])) in Er as [Ha Hd]; [|intros n; apply Hc1|].
    + split; [done|]. cbn in Hd. rewrite dom_insert_L, Hl1 in Hd. intros i Hi. apply Hd in Hi. apply elem_of_union in Hi as [Hi|Hi]; [|done].
      apply elem_of_singleton in Hi as ->. by apply elem_of_dom.
    + intros i ex. cbn. destruct (decide (i = id)) as [->|Hne].
      * rewrite lookup_insert_eq. intros [= <-] _. specialize (Hc1 0%nat). lia.
      * rewrite lookup_insert_ne by done. rewrite Hl1. intros Hi [?|Hin]%elem_of_app; [by eapply Hahead|]. by apply list_elem_of_singleton in Hin.
  - destruct (errors_Is e client.ErrNotFound); [|done]. unfold bind, modify. intros Er. apply (IH (done_ ++ [id])) in Er as [Ha Hd]; [|done|].
    + split; [done|]. cbn in Hd. rewrite dom_delete_L, Hl1 in Hd. set_solver.
    + intros i ex. cbn. rewrite Hl1. intros [Hne Hi]%lookup_delete_Some [?|Hin]%elem_of_app; [by eapply Hahead|].
      by apply list_elem_of_singleton in Hin.
Qed.

(** After leases were renewed without an error, every lease the agent still
  tracks runs, as far as the agent knows, for longer than the margin it renews
  by; it tracks none it did not track before. *)
Theorem renewLeases_ahead (s s' : State E) (Hclock : clock_from (clock s 0%nat) s)
  (Hspan : 0 < renewBefore (spans a) ≤ 2 ^ 61) (Hrun : renewLeases a s = (Ok tt, s')) :
  (∀ id expiry, leases s' !! id = Some expiry → clock s 0%nat + renewBefore (spans a) < expiry) ∧
  dom (leases s') ⊆ dom (leases s).
Proof.
  unfold renewLeases in Hrun. unfold bind at 1, now, bind, get in Hrun. cbn [leases] in Hrun.
  apply (renew_loop_ahead (clock s 0%nat) _ _ []) in Hrun as [Ha Hd]; [| | |by intros i e _ ?%not_elem_of_nil].
  - split; [|done]. intros id expiry Hid. apply (Ha id expiry Hid). cbn [app]. rewrite lease_order_keys.
    assert (id ∈ dom (leases s)) as [old Hold]%elem_of_dom by (apply Hd; by apply elem_of_dom).
    apply list_elem_of_fmap. exists (id, old). split; [done|]. by apply elem_of_map_to_list.
  - intros n. apply Hclock.
  - rewrite wrap64_id by (unfold in_i64, i64_min, i64_max; lia). lia.
Qed.
End leases.

(** ** Example: one template with a reload command that fails the first time *)
Section examples.
Local Instance no_literals : IPLiterals := fun _ => false.
Record Around := MkAround { attempts : nat; reloads : list (list string) }.
Local Instance reloader : Runner Around := fun argv e =>
  match attempts e with
  | O => (Err ["exit status 1"], MkAround 1 (reloads e))
  | S n => (Ok tt, MkAround (S (S n)) (reloads e ++ [argv]))
  end.
Local Instance answers : Transport Around := {|
  ToASCII name := name;
  RoundTrip w e :=
  (Ok (MkAnswer 200 "" (print (if Contains (wr_target w) "/v1/auth/" then JObj [("token", JStr "mss_0")]
                   else JObj [("value", JStr "hunter2"); ("version", JNum "1"); ("lease_id", JStr "l1"); ("lease_ttl", JNum "60")]))), e) |}.
Local Instance passwords : TextTemplate := fun _ source =>
  if String.eqb source "template" then Some (AskSecret "db/main" (fun v => Output ("password = " +:+ v))) else None.
Fixpoint letters (n : nat) : string := match n with O => "" | S n => String "a" (letters n) end.
Local Instance long_names : TempNames := fun _ prefix m =>
  prefix +:+ letters (S (list_max (String.length <$> (map_to_list m).*1))).
Local Instance in_order : LeaseOrder := fun m => (map_to_list m).*1.
Local Instance in_order_laws : LeaseOrderLaws in_order.
Proof. by intros m. Qed.
Lemma letters_length n : String.length (letters n) = n.
Proof. induction n as [|n IH]; [done|]. cbn. by rewrite IH. Qed.
Lemma letters_no_slash n : Contains (letters n) "/" = false.
Proof. induction n as [|n IH]; [done|]. cbn [letters Contains]. by rewrite IH. Qed.
Local Instance long_names_laws : TempNamesLaws long_names.
Proof.
  split.
  - intros dir m. unfold temp_name, long_names. set (n := S (list_max _)). destruct (m !! _) as [f|] eqn:E; [|done]. exfalso.
    assert (String.length (tempPrefix +:+ letters n) <= list_max (String.length <$> (map_to_list m).*1))%nat as Hle.
    { assert (Forall (fun k => k <= list_max (String.length <$> (map_to_list m).*1))%nat (String.length <$> (map_to_list m).*1)) as Hall
        by (apply list_max_le; lia).
      rewrite Forall_forall in Hall. apply Hall, list_elem_of_fmap_2, list_elem_of_fmap. eexists (_, f). split; [reflexivity|].
      by apply elem_of_map_to_list. }
    rewrite !length_app_string, letters_length in Hle. cbn in Hle. lia.
  - intros dir m. unfold temp_name, long_names, temporary. generalize (S (list_max (String.length <$> (map_to_list m).*1))). intros n.
    rewrite filepath.Base_plain; [|done|].
    + apply HasPrefix_spec. by exists (letters n).
    + unfold tempPrefix. rewrite !str_app_cons, str_app_nil_l. rewrite !filepath.Contains_slash, letters_no_slash. done.
Qed.
Local Definition spec : Template := MkTemplate "/etc/app.tmpl" "/run/app.ini" "0400" ["reload"].
Local Definition sample_agent : Agent :=
  MkAgent (MkConfig "https://store" "" false "prod" (MkAuth MethodBootstrap "/run/token") "" "" [spec]) (MkIntervals Minute (5 * Minute)).
Local Definition begin : State Around :=
  MkState (client.MkLinked (client.MkClient "https://store" 0 []) (MkAround 0 [])) false ∅
    (<["/etc/app.tmpl" := MkFile "template" 292]> (<["/run/token" := MkFile "mss_b" 256]> (<["/run/app.ini" := MkFile "password = old" 256]> ∅)))
    [] (fun n => Z.of_nat n * Second) (fun _ => false) 3.
Lemma sample_destinations : Forall (fun spec => temporary (Destination spec) = false) (Templates (config sample_agent)).
Proof. by repeat constructor. Qed.
Local Definition after_one : State Around := snd (Cycle sample_agent begin).
Local Definition with_session : State Around := set_loggedIn true after_one.
Local Definition restarted : State Around :=
  MkState (link with_session) true (leases with_session) (files with_session) [] (clock with_session) (faults with_session) 3.
Local Definition after_two : State Around := snd (Cycle sample_agent restarted).
Lemma second_ok : fst (Cycle sample_agent restarted) = Ok tt.
Proof. by vm_compute. Qed.
(** The text is new, the command failed and is not run again: the next cycle
  finds nothing changed. *)
Lemma reload_lost : fst (Cycle sample_agent begin) = Err [command_failed; "exit status 1"] ∧
  f_content <$> files (Run sample_agent 5 begin) !! "/run/app.ini" = Some "password = hunter2" ∧
  client.network (link (Run sample_agent 5 begin)) = MkAround 1 [].
Proof. by vm_compute. Qed.
(** A failed cycle logs in again, with the credential already spent. *)
Lemma failed_cycle_logs_in_again : loggedIn (round sample_agent begin) = false.
Proof. by vm_compute. Qed.
#[local] Opaque Cycle Run renewLeases.

Lemma agent_never_partial_witness : seen begin = [] ∧
  Forall (sound sample_agent begin) (files (Run sample_agent 2 begin) :: seen (Run sample_agent 2 begin)).
Proof. split; [reflexivity|]. exact (agent_never_partial sample_agent sample_destinations begin 2 eq_refl). Defined.
Lemma Cycle_current_witness : holds_rendered sample_agent restarted spec after_two.
Proof.
  refine (Cycle_current sample_agent sample_destinations restarted after_two eq_refl _ (pair_fst _ _ second_ok) spec _).
  - apply (bool_decide_unpack _). by vm_compute.
  - by left.
Defined.
Local Definition tracking : State Around := set_leases (<["l1" := 3600 * Second]> (<["l2" := 5 * Second]> ∅)) with_session.
Lemma tracking_ok : fst (renewLeases sample_agent tracking) = Ok tt.
Proof. by vm_compute. Qed.
Lemma tracking_clock : clock_from (clock tracking 0%nat) tracking.
Proof.
  assert (clock tracking = fun n => Z.of_nat (1 + n) * Second) as E by (by vm_compute). intros n. rewrite E. unfold Second. lia.
Qed.
Lemma renewLeases_ahead_witness :
  (∀ id expiry, leases (snd (renewLeases sample_agent tracking)) !! id = Some expiry → clock tracking 0%nat + renewBefore (spans sample_agent) < expiry) ∧
  dom (leases (snd (renewLeases sample_agent tracking))) ⊆ dom (leases tracking).
Proof.
  refine (renewLeases_ahead sample_agent tracking _ tracking_clock _ (pair_fst _ _ tracking_ok)). split; by vm_compute.
Defined.
End examples.
End agent.
