(* ===== verification/GoFlag.v ===== *)
(** Go's flag package, as far as the command line uses it: flag sets with string,
  int, bool and duration flags, [Parse], and the integers it reads.  What the
  package prints about a flag it refuses is left out. *)
From Stdlib Require Import ZArith Lia Ascii.
From S2P Require Import Prelude GoStrings GoTime Json GoNumbers.

(** ** [strconv.ParseInt (_, 0, 64)] *)
Module integers.
(** The base a prefix announces, and the text after it. *)
Definition base_prefix (s : string) : Z * string :=
  match s with
  | String "0" r =>
      match r with
      | String x (String _ _ as digits) =>
          let x := float.lower x in
          if Ascii.eqb x "b" then (2, digits) else if Ascii.eqb x "o" then (8, digits) else if Ascii.eqb x "x" then (16, digits) else (8, r)
      | _ => (8, r)
      end
  | _ => (10, s)
  end.
(** Underscores are passed over here and judged by [float.underscore_ok]. *)
Fixpoint digits (base acc : Z) (s : string) : option Z :=
  match s with
  | EmptyString => Some acc
  | String c r => if Ascii.eqb c "_" then digits base acc r
                  else d ← float.hex_digit_val c; if d <? base then digits base (acc * base + d) r else None
  end.
Definition ParseInt0 (s : string) : option Z :=
  let '(neg, r) := float.split_sign s in
  if String.eqb r "" then None
  else
    let '(base, ds) := base_prefix r in
    x ← digits base 0 ds;
    if Contains r "_" && negb (float.underscore_ok r) then None
    else let x := if neg then - x else x in
         if (i64_min <=? x) && (x <=? i64_max) then Some x else None.
Lemma ParseInt0_range s x : ParseInt0 s = Some x → in_i64 x.
Proof.
  unfold ParseInt0, in_i64. destruct (float.split_sign s) as [neg r]. destruct (String.eqb r ""); [done|].
  destruct (base_prefix r) as [base ds]. destruct (digits base 0 ds) as [y|]; [|done]. cbn [mbind option_bind].
  destruct (Contains r "_" && _); [done|]. cbv zeta. case_match; [|done]. intros [= <-]. lia.
Qed.
Lemma ParseInt0_examples :
  ParseInt0 "-12" = Some (-12) ∧ ParseInt0 "0x1F" = Some 31 ∧ ParseInt0 "010" = Some 8 ∧ ParseInt0 "0b1_01" = Some 5 ∧ ParseInt0 "0" = Some 0 ∧
  ParseInt0 "1__0" = None ∧ ParseInt0 "08" = None ∧ ParseInt0 "" = None ∧ ParseInt0 "+" = None ∧ ParseInt0 "0x" = None ∧
  ParseInt0 "9223372036854775808" = None ∧ ParseInt0 "-9223372036854775808" = Some i64_min.
Proof. by vm_compute. Qed.
End integers.

Module flag.
Definition ErrHelp : string := "flag: help requested".
Definition bad_syntax : string := "flag: bad flag syntax".
Definition not_defined : string := "flag: flag provided but not defined".
Definition needs_argument : string := "flag: flag needs an argument".
Definition bad_value : string := "flag: invalid value".
Inductive value : Type := VString (s : string) | VInt (x : Z) | VBool (b : bool) | VDuration (d : Z).
(** The flags that are defined, with the values they have. *)
Definition FlagSet : Type := list (string * value).
Fixpoint lookup (flags : FlagSet) (name : string) : option value :=
  match flags with
  | [] => None
  | (known, v) :: flags => if String.eqb known name then Some v else lookup flags name
  end.
(** [Value.Set] *)
Definition Set_ (old : value) (text : string) : option value :=
  match old with
  | VString _ => Some (VString text)
  | VInt _ => VInt <$> integers.ParseInt0 text
  | VBool _ => VBool <$> ParseBool text
  | VDuration _ => VDuration <$> duration.ParseDuration text
  end.
Fixpoint assign (flags : FlagSet) (name : string) (v : value) : FlagSet :=
  match flags with
  | [] => []
  | (known, old) :: flags => if String.eqb known name then (known, v) :: flags else (known, old) :: assign flags name v
  end.
(** An argument that names a flag: what follows its dashes. *)
Inductive argument : Type := Word | Terminator | Flag (text : string).
Definition classify (s : string) : argument :=
  match s with
  | String "-" EmptyString => Word
  | String "-" (String "-" EmptyString) => Terminator
  | String "-" (String "-" r) => Flag r
  | String "-" r => Flag r
  | _ => Word
  end.
(** The name, and what follows the first [=] that is not at the start. *)
Definition split_value (text : string) : string * option string :=
  match text with
  | String c r => let '(before, after, found) := Cut r "=" in
                  if found : bool then (String c before, Some after) else (text, None)
  | EmptyString => (text, None)
  end.
Definition starts_badly (text : string) : bool := String.eqb text "" || HasPrefix text "-" || HasPrefix text "=".
Definition is_bool (v : value) : bool := match v with VBool _ => true | _ => false end.
Definition set_flag (flags : FlagSet) (name : string) (old : value) (text : string) : result FlagSet :=
  match Set_ old text with Some v => Ok (assign flags name v) | None => Err [bad_value] end.
(** [Parse]: the values set, and the arguments that are left. *)
Fixpoint Parse (flags : FlagSet) (args : list string) : result (FlagSet * list string) :=
  match args with
  | [] => Ok (flags, [])
  | arg :: rest =>
      match classify arg with
      | Word => Ok (flags, args)
      | Terminator => Ok (flags, rest)
      | Flag text =>
          if starts_badly text then Err [bad_syntax]
          else
            let '(name, given) := split_value text in
            match lookup flags name with
            | None => Err [if String.eqb name "help" || String.eqb name "h" then ErrHelp else not_defined]
            | Some old =>
                if is_bool old then
                  let? flags := set_flag flags name old (default "true" given) in Parse flags rest
                else match given, rest with
                     | Some text, _ => let? flags := set_flag flags name old text in Parse flags rest
                     | None, text :: rest => let? flags := set_flag flags name old text in Parse flags rest
                     | None, [] => Err [needs_argument]
                     end
            end
      end
  end.
(** The value behind the pointer a flag was defined with. *)
Definition string_of (flags : FlagSet) (name : string) : string := match lookup flags name with Some (VString s) => s | _ => "" end.
Definition int_of (flags : FlagSet) (name : string) : Z := match lookup flags name with Some (VInt x) | Some (VDuration x) => x | _ => 0 end.
Definition bool_of (flags : FlagSet) (name : string) : bool := match lookup flags name with Some (VBool b) => b | _ => false end.

(** ** What parsing does to a set of flags *)
Definition same_type (v w : value) : Prop :=
  match v, w with
  | VString _, VString _ | VBool _, VBool _ => True
  | VInt _, VInt x | VDuration _, VDuration x => in_i64 x
  | _, _ => False
  end.
Lemma same_type_trans u v w : same_type u v → same_type v w → same_type u w.
Proof. by destruct u, v, w. Qed.
Definition kept_flag (p q : string * value) : Prop := fst p = fst q ∧ (p = q ∨ same_type (snd p) (snd q)).
#[local] Instance kept_flag_preorder : PreOrder kept_flag.
Proof.
  split; [by split; [|left]|]. intros p q r [Hn Hpq] [Hn' Hqr]. split; [congruence|].
  destruct Hpq as [->|Hpq], Hqr as [<-|Hqr]; auto. right. by eapply same_type_trans.
Qed.
Definition refines : FlagSet → FlagSet → Prop := Forall2 kept_flag.
#[local] Instance refines_preorder : PreOrder refines.
Proof. unfold refines. split; apply _. Qed.
Lemma Set_type old text v : Set_ old text = Some v → same_type old v.
Proof.
  destruct old; cbn; [by intros [= <-]|..]; intros (y&E&->)%fmap_Some; [by eapply integers.ParseInt0_range|done|by eapply ParseDuration_range].
Qed.
Lemma assign_refines flags name old v : lookup flags name = Some old → same_type old v → refines flags (assign flags name v).
Proof.
  intros Hl Ht. induction flags as [|[known u] flags IH]; [done|]. cbn [lookup assign] in *. destruct (String.eqb known name).
  - injection Hl as ->. constructor; [|reflexivity]. split; [done|by right].
  - constructor; [split; [done|by left]|by apply IH].
Qed.
Lemma set_flag_refines flags name old text flags' : lookup flags name = Some old → set_flag flags name old text = Ok flags' → refines flags flags'.
Proof.
  intros Hl. unfold set_flag. destruct (Set_ old text) as [v|] eqn:E; [|done]. intros [= <-]. eapply assign_refines; [done|]. by eapply Set_type.
Qed.
(** Parsing keeps every flag and its type, and integers in range. *)
Lemma Parse_refines args flags flags' rest : Parse flags args = Ok (flags', rest) → refines flags flags'.
Proof.
  remember (length args) as n eqn:Hn. revert args Hn flags. induction (lt_wf n) as [n _ IH]. intros [|arg args] -> flags; cbn [Parse].
  { intros [= <- _]. reflexivity. }
  destruct (classify arg) as [| |text]; [intros [= <- _]; reflexivity..|]. destruct (starts_badly text); [done|].
  destruct (split_value text) as [name given]. destruct (lookup flags name) as [old|] eqn:Hl; [|done].
  assert (∀ text rest', (length rest' <= length args)%nat →
    (let? flags := set_flag flags name old text in Parse flags rest') = Ok (flags', rest) → refines flags flags') as Hstep.
  { intros text' rest' Hlen. destruct (set_flag flags name old text') as [flags1|] eqn:Es; [|done]. cbn. intros E.
    etrans; [by eapply set_flag_refines|]. eapply (IH (length rest')); [cbn; lia|done|exact E]. }
  destruct (is_bool old); [by apply Hstep|]. destruct given as [text'|]; [by apply Hstep|].
  destruct args as [|text' args]; [done|]. apply Hstep. cbn. lia.
Qed.
(** Integers that were in range stay so. *)
Definition ints_ok (flags : FlagSet) : Prop := Forall (fun p => match snd p with VInt x | VDuration x => in_i64 x | _ => True end) flags.
Lemma ints_ok_refines flags flags' : refines flags flags' → ints_ok flags → ints_ok flags'.
Proof.
  intros Hr. unfold ints_ok. induction Hr as [|p q flags flags' [_ Hpq] Hr IH]; [done|]. rewrite !Forall_cons. intros [Hp Hf]. split; [|auto].
  destruct Hpq as [<-|Ht]; [done|]. by destruct (snd p), (snd q).
Qed.
Lemma int_of_range flags name : ints_ok flags → in_i64 (int_of flags name).
Proof.
  intros Hf. unfold int_of. induction Hf as [|[known v] flags Hv Hf IH]; cbn [lookup]; [done|]. destruct (String.eqb known name); [|done]. by destruct v.
Qed.
(** What follows the first argument that is not a flag is not looked at. *)
Definition plain_word (arg : string) : Prop := classify arg = Word.
Lemma Parse_stops args flags word more flags' : plain_word word → Parse flags args = Ok (flags', []) →
  Parse flags (args ++ word :: more) = Ok (flags', word :: more).
Proof.
  intros Hw. remember (length args) as n eqn:Hn. revert args Hn flags. induction (lt_wf n) as [n _ IH]. intros [|arg args] -> flags; cbn [Parse app].
  { intros [= <-]. by rewrite Hw. }
  destruct (classify arg) as [| |text]; [done|by intros [= <- ->]|]. destruct (starts_badly text); [done|].
  destruct (split_value text) as [name given]. destruct (lookup flags name) as [old|]; [|done].
  assert (∀ text rest, (length rest <= length args)%nat →
    (let? flags := set_flag flags name old text in Parse flags rest) = Ok (flags', []) →
    (let? flags := set_flag flags name old text in Parse flags (rest ++ word :: more)) = Ok (flags', word :: more)) as Hstep.
  { intros text' rest Hlen. destruct (set_flag flags name old text') as [flags1|]; [|done]. cbn. apply (IH (length rest)); [cbn; lia|done]. }
  destruct (is_bool old); [by apply Hstep|]. destruct given as [text'|]; [by apply Hstep|].
  destruct args as [|text' args]; [done|]. apply Hstep. cbn. lia.
Qed.
Lemma Parse_examples (flags := [("version", VInt 0); ("value", VString ""); ("verbose", VBool false); ("ttl", VDuration 0)]) :
  Parse flags ["--version"; "3"; "-value=a=b"; "-verbose"; "--ttl=5m"] =
    Ok ([("version", VInt 3); ("value", VString "a=b"); ("verbose", VBool true); ("ttl", VDuration (5 * Minute))], []) ∧
  Parse flags ["-verbose=false"; "x"; "--version"; "3"] = Ok (flags, ["x"; "--version"; "3"]) ∧
  Parse flags ["--value"; "--version"] = Ok (assign flags "value" (VString "--version"), []) ∧
  Parse flags ["--version"] = Err [needs_argument] ∧ Parse flags ["--version=x"] = Err [bad_value] ∧ Parse flags ["---version"] = Err [bad_syntax] ∧
  Parse flags ["-cas"; "1"] = Err [not_defined] ∧ Parse flags ["-h"] = Err [ErrHelp].
Proof. by vm_compute. Qed.
End flag.
