(* ===== verification/Command.v ===== *)
(** cmd/marsec/cli.go: the commands that talk to a store over the network, with
  what they read of the environment, of files and of the standard input, and what
  they print.  Texts for the standard error stream are left out, as are those the
  flag package prints when it refuses an argument. *)
From Stdlib Require Import ZArith Lia Ascii.
From S2P Require Import Prelude GoStrings GoTime GoPath Files Json World Interfaces GoNumbers GoUrl Client GoFlag.

(** [os.Getenv] *)
Class Environment := Getenv : string → string.
(** Whether a text holds a certificate that a pool takes. *)
Class Certificates := AppendCertsFromPEM : string → bool.
(** What a command has around it: the files, its own clock, random source and
  database, the network, its standard input and what it has printed. *)
Record Host (E : Type) := MkHost { disk : Disk; process : World; outside : E; stdin : string; stdout : string }.
Arguments MkHost {E} disk process outside stdin stdout.
Arguments disk {E} h.
Arguments process {E} h.
Arguments outside {E} h.
Arguments stdin {E} h.
Arguments stdout {E} h.

Section host.
Context {E : Type}.
Definition set_disk (d : Disk) (h : Host E) : Host E := MkHost d (process h) (outside h) (stdin h) (stdout h).
Definition set_process (w : World) (h : Host E) : Host E := MkHost (disk h) w (outside h) (stdin h) (stdout h).
Definition set_outside (e : E) (h : Host E) : Host E := MkHost (disk h) (process h) e (stdin h) (stdout h).
Definition set_stdin (s : string) (h : Host E) : Host E := MkHost (disk h) (process h) (outside h) s (stdout h).
#[export] Instance host_files : FileSystem (Host E) := {
  files := fun h => files (disk h);
  set_files := fun m h => set_disk (set_files m (disk h)) h;
  io := fun h => let '(r, d) := io (disk h) in (r, set_disk d h);
  short_write := fun h => short_write (disk h) }.
#[export] Instance host_laws : FileSystemLaws (Host E).
Proof. split; [done|]. intros h. pose proof (files_io (disk h)) as F1. cbn in *. by destruct (d_faults (disk h) 0%nat). Qed.
End host.

Module cli.
Import os flag.
Definition defaultAddress : string := "https://127.0.0.1:8200".
Definition tokenFilePerm : Z := 384.
Definition tokenDirPerm : Z := 448.
Definition maxInput : Z := Z.shiftl 1 20.
Definition usage_error : string := "usage".
Definition unknown_command : string := "unknown subcommand".
Definition no_session : string := "no session token; run marsec login first".
Definition no_value : string := "no value given: pass --value or pipe it on stdin".
Definition bad_location : string := "the location should be <tenant>/<path>".
Definition newline : string := String "010" "".

(** ** Arguments *)
Definition positional (args : list string) : result (string * list string) :=
  match args with
  | first :: rest => if HasPrefix first "-" then Err [usage_error] else Ok (first, rest)
  | [] => Err [usage_error]
  end.
Definition split (location : string) : result (string * string) :=
  let '(tenant, path, found) := Cut location "/" in
  if negb found || String.eqb tenant "" || String.eqb path "" then Err [bad_location] else Ok (tenant, path).
(** [strings.TrimRight] of one byte. *)
Fixpoint TrimRight (s : string) (c : ascii) : string :=
  match s with
  | EmptyString => ""
  | String a r => match TrimRight r c with
                  | EmptyString => if Ascii.eqb a c then "" else String a ""
                  | r => String a r
                  end
  end.
(** What [io.LimitReader] lets through, and what is left behind. *)
Fixpoint limited (n : Z) (s : string) : string * string :=
  match s with
  | EmptyString => ("", "")
  | String c r => if n <=? 0 then ("", s) else let '(taken, behind) := limited (n - 1) r in (String c taken, behind)
  end.

Section commands.
Context {E : Type} `{Transport E} `{IPLiterals} `{Environment} `{Certificates}.
Definition envOr (name fallback : string) : string :=
  let value := TrimSpace (Getenv name) in if negb (String.eqb value "") then value else fallback.
(** [os.UserHomeDir] and [os.TempDir] on Unix. *)
Definition defaultTokenFile : string :=
  let home := Getenv "HOME" in
  if String.eqb home ""
  then filepath.Join2 (let temporary := Getenv "TMPDIR" in if String.eqb temporary "" then "/tmp" else temporary) "marsec-token"
  else filepath.Join2 home ".marsec/token".
Record connection := MkConnection { address : string; caCertFile : string; plainHTTP : bool; tokenFile : string }.
Definition bind_ : FlagSet := [
  ("address", VString (envOr "MARSEC_ADDRESS" defaultAddress));
  ("ca-cert", VString (Getenv "MARSEC_CACERT"));
  ("allow-plain-http", VBool false);
  ("token-file", VString (envOr "MARSEC_TOKEN_FILE" defaultTokenFile))].
Definition connection_of (flags : FlagSet) : connection :=
  MkConnection (string_of flags "address") (string_of flags "ca-cert") (bool_of flags "allow-plain-http") (string_of flags "token-file").

Definition Fprintf (text : string) : M (Host E) unit := modify (fun h =>
  MkHost (disk h) (process h) (outside h) (stdin h) (stdout h +:+ text)).
Definition Fprintln (text : string) : M (Host E) unit := Fprintf (text +:+ newline).
Definition ReadStdin : M (Host E) string :=
  io ;! fun h => let '(taken, behind) := limited maxInput (stdin h) in (Ok taken, set_stdin behind h).
(** A client is a command's own; the network is there before and after. *)
Definition with_client {A} (c : client.Client) (m : M (client.Linked E) A) : M (Host E) A := fun h =>
  let '(r, l) := m (client.MkLinked c (outside h)) in (r, set_outside (client.network l) h).

(** ** The session token *)
Definition readToken (c : connection) : M (Host E) (list Z) :=
  let fromEnv := TrimSpace (Getenv "MARSEC_TOKEN") in
  if negb (String.eqb fromEnv "") then ret (bytes_of_string fromEnv)
  else
    let! raw := attempt (ReadFile (tokenFile c)) in
    match raw with
    | Ok raw => ret (bytes_of_string (TrimSpace raw))
    | Err e => fail (if errors_Is e not_exist then [no_session] else e)
    end.
Definition writeToken (c : connection) (token : list Z) : M (Host E) unit :=
  MkdirAll (filepath.Dir (tokenFile c)) ;!
  WriteFile (tokenFile c) (string_of_bytes token +:+ newline) tokenFilePerm.
(** [client.New] reads the file of certificates when it is named. *)
Definition open (c : connection) (withToken : bool) : M (Host E) client.Client :=
  let! pem := (if String.eqb (caCertFile c) "" then ret (Ok true)
               else let! raw := attempt (ReadFile (caCertFile c)) in ret (result_map AppendCertsFromPEM raw)) in
  let! made := lift_result (client.New pem (client.MkOptions (address c) (caCertFile c) false (plainHTTP c) 0)) in
  if negb withToken then ret made
  else
    let! token := readToken c in
    ret (client.set_token token made).
Definition valueFrom (inline : string) : M (Host E) (list Z) :=
  if negb (String.eqb inline "") then ret (bytes_of_string inline)
  else
    let! raw := ReadStdin in
    if String.eqb raw "" then fail [no_value] else ret (bytes_of_string (TrimRight raw "010")).
Definition readCredential (source : string) : M (Host E) (list Z) :=
  let! raw := (if String.eqb source "-" then ReadStdin else ReadFile source) in
  ret (bytes_of_string (TrimSpace raw)).
(** The year of the zero [time.Time] is 1. *)
Definition expiry (session : client.Session) : string :=
  match client.s_ExpiresAt session with Some t => RFC3339 t | None => "0001-01-01T00:00:00Z" end.

(** ** The commands *)
Definition runLogin (args : list string) : M (Host E) unit :=
  let! parsed := lift_result (Parse (bind_ ++ [("bootstrap-file", VString ""); ("assertion-file", VString "")]) args) in
  let flags := fst parsed in
  let link := connection_of flags in
  let bootstrapFile := string_of flags "bootstrap-file" in
  let assertionFile := string_of flags "assertion-file" in
  if Bool.eqb (String.eqb bootstrapFile "") (String.eqb assertionFile "") then fail [usage_error]
  else
    let! made := open link false in
    let! session := (if negb (String.eqb bootstrapFile "")
                     then let! credential := readCredential bootstrapFile in with_client made (client.LoginBootstrap credential)
                     else let! assertion := readCredential assertionFile in with_client made (client.LoginInstance assertion)) in
    writeToken link (client.s_Token session) ;!
    Fprintln ("logged in; token kept in " +:+ tokenFile link +:+ ", expires " +:+ expiry session).
(** What the commands with a location share: the flags, the location, and the
  client, which forgets its token in the end. *)
Definition located (more : FlagSet) (args : list string) : result (FlagSet * (string * string)) :=
  let? taken := positional args in
  let? parsed := Parse (bind_ ++ more) (snd taken) in
  let? place := split (fst taken) in
  Ok (fst parsed, place).
Definition get_flags : FlagSet := [("version", VInt 0)].
Definition put_flags : FlagSet := [("value", VString ""); ("cas", VInt (-1))].
Definition forgetting {A} (m : M (client.Linked E) A) : M (client.Linked E) A := deferred client.Forget m.
Definition runSecretGet (args : list string) : M (Host E) unit :=
  let! got := lift_result (located get_flags args) in
  let '(flags, (tenant, path)) := got in
  let! made := open (connection_of flags) true in
  let! found := with_client made (forgetting (client.ReadSecret tenant path (int_of flags "version"))) in
  Fprintln (string_of_bytes (client.Value found)).
Definition runSecretPut (args : list string) : M (Host E) unit :=
  let! got := lift_result (located put_flags args) in
  let '(flags, (tenant, path)) := got in
  let! secret := valueFrom (string_of flags "value") in
  let! made := open (connection_of flags) true in
  let cas := int_of flags "cas" in
  let! version := with_client made (forgetting (client.WriteSecret tenant path secret (if 0 <=? cas then Some cas else None))) in
  Fprintln ("wrote version " +:+ Itoa version).
Definition runSecretDelete (args : list string) : M (Host E) unit :=
  let! got := lift_result (located [] args) in
  let '(flags, (tenant, path)) := got in
  let! made := open (connection_of flags) true in
  with_client made (forgetting (client.DeleteSecret tenant path)) ;!
  Fprintln "deleted".
Definition runSecret (args : list string) : M (Host E) unit :=
  match args with
  | [] => fail [usage_error]
  | name :: args =>
      if String.eqb name "get" then runSecretGet args
      else if String.eqb name "put" then runSecretPut args
      else if String.eqb name "delete" then runSecretDelete args
      else fail [unknown_command]
  end.
Definition format_bool (b : bool) : string := if b then "true" else "false".
Definition runParamGet (args : list string) : M (Host E) unit :=
  let! got := lift_result (located [("verbose", VBool false)] args) in
  let '(flags, (tenant, path)) := got in
  let! made := open (connection_of flags) true in
  let! found := with_client made (forgetting (client.ReadParameter tenant path)) in
  (if bool_of flags "verbose" then
     Fprintln ("kind      " +:+ client.Kind found) ;!
     Fprintln ("from      " +:+ client.ResolvedFrom found) ;!
     Fprintln ("inherited " +:+ format_bool (client.p_Inherited found)) ;!
     Fprintln ("sensitive " +:+ format_bool (client.Sensitive found)) ;!
     (if bool_decide (client.References found = []) then ret tt else Fprintln ("refers to " +:+ Join (client.References found) " "))
   else ret tt) ;!
  Fprintln (string_of_bytes (client.p_Value found)).
Definition runParamPut (args : list string) : M (Host E) unit :=
  let! got := lift_result (located [("kind", VString "string"); ("value", VString "")] args) in
  let '(flags, (tenant, path)) := got in
  let! parameter := valueFrom (string_of flags "value") in
  let! made := open (connection_of flags) true in
  with_client made (forgetting (client.WriteParameter tenant path (string_of flags "kind") parameter)) ;!
  Fprintln "written".
Definition runParam (args : list string) : M (Host E) unit :=
  match args with
  | [] => fail [usage_error]
  | name :: args =>
      if String.eqb name "get" then runParamGet args
      else if String.eqb name "put" then runParamPut args
      else fail [unknown_command]
  end.
Definition runStatus (args : list string) : M (Host E) unit :=
  let! parsed := lift_result (Parse bind_ args) in
  let! made := open (connection_of (fst parsed)) false in
  let! status := with_client made client.SealStatus in
  Fprintln ("state       " +:+ client.State status) ;!
  Fprintln ("shares      " +:+ Itoa (client.Shares status)) ;!
  Fprintln ("threshold   " +:+ Itoa (client.Threshold status)) ;!
  Fprintln ("progress    " +:+ Itoa (client.Progress status)) ;!
  Fprintln ("kek version " +:+ Itoa (client.KEKVersion status)).
End commands.

(** ** What a command leaves alone *)
(** All but the files is as it was. *)
Record beside {E} (h h' : Host E) : Prop := {
  bs_outside : outside h' = outside h; bs_process : process h' = process h;
  bs_stdin : stdin h' = stdin h; bs_stdout : stdout h' = stdout h }.
Section theory.
Context {E : Type} `{Transport E} `{IPLiterals} `{Environment} `{Certificates}.
#[export] Instance beside_preorder : PreOrder (beside (E:=E)).
Proof. split; [by split|]. intros h1 h2 h3 [] []. split; congruence. Qed.
Definition quietly {A} (m : M (Host E) A) : Prop := ∀ h, beside h (snd (m h)).
Lemma quietly_bind {A B} (m : M (Host E) A) (k : A → M (Host E) B) : quietly m → (∀ x, quietly (k x)) → quietly (bind m k).
Proof.
  intros Hm Hk h. unfold bind. specialize (Hm h). destruct (m h) as [[x|e] h1]; cbn in *; [|done]. etrans; [exact Hm|apply Hk].
Qed.
Lemma quietly_ret {A} (x : A) : quietly (ret x).
Proof. done. Qed.
Lemma quietly_fail {A} e : quietly (fail (A:=A) e).
Proof. done. Qed.
Lemma quietly_lift {A} (r : result A) : quietly (lift_result r).
Proof. done. Qed.
Lemma quietly_attempt {A} (m : M (Host E) A) : quietly m → quietly (attempt m).
Proof. intros Hm h. unfold attempt. specialize (Hm h). by destruct (m h). Qed.
Lemma quietly_io : quietly io.
Proof. intros h. cbn. by destruct (d_faults (disk h) 0%nat). Qed.
Lemma quietly_ReadFile path : quietly (ReadFile path).
Proof. apply quietly_bind; [apply quietly_io|]. intros _ h. by destruct (files h !! path). Qed.
Create HintDb cli discriminated.
Hint Resolve quietly_bind quietly_ret quietly_fail quietly_lift quietly_attempt quietly_io quietly_ReadFile : cli.
Lemma quietly_readToken c : quietly (readToken c).
Proof.
  unfold readToken. cbv zeta. destruct (negb _); [auto with cli|]. apply quietly_bind; [auto with cli|]. intros [raw|e]; auto with cli.
Qed.
Lemma quietly_open c withToken : quietly (open c withToken).
Proof.
  unfold open. apply quietly_bind; [destruct (String.eqb _ _); auto with cli|]. intros pem. apply quietly_bind; [auto with cli|]. intros made.
  destruct (negb withToken); [auto with cli|]. apply quietly_bind; [apply quietly_readToken|]. auto with cli.
Qed.
Lemma New_base pem opts c : client.New pem opts = Ok c → client.base c = TrimSuffix (client.Address opts) "/".
Proof.
  unfold client.New. destruct (String.eqb _ _); [done|]. destruct (url.Parse _) as [u|]; [|done]. destruct (String.eqb (url.Host u) ""); [done|]. cbv zeta.
  set (made := Ok (client.MkClient _ _ _)). assert (∀ r, r = made ∨ (∃ e, r = Err e) → r = Ok c → client.base c = TrimSuffix (client.Address opts) "/") as Hr.
  { intros r [->|[e ->]]; [by intros [= <-]|done]. }
  apply Hr. destruct pem as [[]|e]; cbn [result_bind]; repeat case_match; eauto.
Qed.
Lemma open_Ok c withToken (h : Host E) made h' : open c withToken h = (Ok made, h') → client.base made = TrimSuffix (address c) "/" ∧ beside h h'.
Proof.
  intros Eo. split; [|pose proof (quietly_open c withToken h) as Hq; by rewrite Eo in Hq]. revert Eo. unfold open.
  intros (pem&h1&_&Eo)%bind_ok_inv. apply bind_ok_inv in Eo as (c0&h2&Enew&Eo). injection Enew as Enew _. apply New_base in Enew.
  destruct (negb withToken); [by injection Eo as <- _|]. apply bind_ok_inv in Eo as (token&h3&_&Eo). by injection Eo as <- _.
Qed.
(** The value a command is given: inline, or else the standard input up to its
  limit, without the line feeds at its end. *)
Definition given (inline input : string) : string :=
  if negb (String.eqb inline "") then inline else TrimRight (fst (limited maxInput input)) "010".
Lemma valueFrom_Ok inline (h : Host E) value h' : valueFrom inline h = (Ok value, h') → value = bytes_of_string (given inline (stdin h)) ∧
  outside h' = outside h ∧ stdout h' = stdout h.
Proof.
  unfold valueFrom, given. destruct (negb _); [by intros [= <- <-]|]. intros (raw&h1&Er&Ev)%bind_ok_inv. unfold ReadStdin, bind in Er.
  pose proof (quietly_io h) as Hq. destruct (io h) as [[u|e] h2]; [|done]. destruct Hq as [F1 _ F3 F4]. cbn [snd] in *.
  rewrite <- F3. destruct (limited maxInput (stdin h2)) as [taken behind]. injection Er as <- <-. cbn [fst].
  destruct (String.eqb taken ""); [done|]. injection Ev as <- <-. split; [done|]. cbn. by rewrite F1, F4.
Qed.
Lemma with_client_run {A} c (m : M (client.Linked E) A) (h : Host E) r h' : with_client c (forgetting m) h = (r, h') → ∃ l,
  m (client.MkLinked c (outside h)) = (r, l) ∧ outside h' = client.network l ∧ stdin h' = stdin h ∧ stdout h' = stdout h.
Proof.
  unfold with_client, forgetting, deferred. destruct (m _) as [r1 l]. intros [= <- <-]. by exists l.
Qed.
End theory.
End cli.
