(* ===== verification/Auth.v ===== *)
(** modules/auth: identities and tokens (manager.go, token.go), single-use
  bootstrap tokens (bootstrap.go), instance logins (instance.go) and the HTTP
  side, with the guard every protected handler runs behind (http.go). *)
From Stdlib Require Import ZArith Lia Ascii.
From S2P Require Import Prelude GoStrings GoTime Base64 Json World Policy Httpx Envelope AuditTrail Interfaces Jwt.

(** auth.Assertions *)
Class Assertions := assertions_Verify : ∀ (assertion : string), M World jwt.Claims.

Module auth.
Definition tokenPrefix : string := "mss_".
Definition tokenBytes : nat := 32.
Definition DefaultTTL : Z := Hour.
Definition MaximumTTL : Z := 30 * 24 * Hour.
Definition NoBinding : string := "".
Definition minTokenLength : nat := 47.
Definition reusable : Z := 0.
Definition singleUse : Z := 1.
Definition BootstrapTTL : Z := 5 * Minute.
Definition InstanceTTL : Z := Hour.
Definition maxIdentityLen : Z := 128.
Definition maxTenantLen : Z := 64.

Definition ErrUnauthenticated : string := "auth: the presented credential is not valid".
Definition ErrUnknownIdentity : string := "auth: no such identity".
Definition ErrIdentityExists : string := "auth: identity already registered".
Definition ErrInvalidIdentity : string := "auth: identity name is empty or too long".
Definition ErrInvalidKind : string := "auth: unknown identity kind".
Definition ErrInvalidTenant : string := "auth: tenant is empty or too long".
Definition ErrInvalidTTL : string := "auth: time to live must be positive and within the maximum".
Definition ErrIdentityDisabled : string := "auth: identity is disabled".
Definition ErrReplayed : string := "auth: assertion has already been used".
Definition ErrTenantMismatch : string := "auth: assertion claims a different tenant than the registered identity".
Definition ErrKindMismatch : string := "auth: identity is registered with a different kind".
Definition constraint_error : string := "sqlite: constraint failed".
Definition time_error : string := "time: cannot parse the stored text".

Record Token := MkAuthToken { t_Value : list Z; t_Identity : authn.Identity; t_ExpiresAt : Z }.

Definition validateIdentity (id kind tenant : string) : result unit :=
  if String.eqb id "" || (maxIdentityLen <? len id) then Err [ErrInvalidIdentity]
  else if negb (authn.KindValid kind) then Err [ErrInvalidKind]
  else if String.eqb tenant "" || (maxTenantLen <? len tenant) then Err [ErrInvalidTenant]
  else Ok tt.

Definition newTokenValue : M World (list Z) :=
  let! material := rand_read tokenBytes in ret (bytes_of_string (tokenPrefix +:+ RawURLEncode material)).
Definition looksLikeToken (presented : list Z) : bool :=
  (minTokenLength <=? length presented)%nat && HasPrefix (string_of_bytes presented) tokenPrefix.

Definition parse_time (s : string) : result Z := match ParseTime s with Some t => Ok t | None => Err [time_error] end.
Definition is_some {A} (o : option A) : bool := match o with Some _ => true | None => false end.

(** ** Statements *)
Definition insert_identity (id kind tenant now : string) (d : Db) : result unit * Db :=
  match auth_identities d !! id with
  | Some _ => (Err [constraint_error], d)
  | None => (Ok tt, set_auth_identities (<[id := MkIdentityRow kind tenant now None]> (auth_identities d)) d)
  end.
Definition disable_row (id now : string) (d : Db) : result Z * Db :=
  match auth_identities d !! id with
  | Some row =>
      match ai_disabled_at row with
      | None => (Ok 1, set_auth_identities (<[id := MkIdentityRow (ai_kind row) (ai_tenant row) (ai_created_at row) (Some now)]> (auth_identities d)) d)
      | Some _ => (Ok 0, d)
      end
  | None => (Ok 0, d)
  end.
(** Primary key, and the foreign key to the identity. *)
Definition insert_token (hash : list Z) (row : TokenRow) (d : Db) : result unit * Db :=
  match auth_tokens d !! hash, auth_identities d !! tk_identity_id row with
  | None, Some _ => (Ok tt, set_auth_tokens (<[hash := row]> (auth_tokens d)) d)
  | _, _ => (Err [constraint_error], d)
  end.
Definition revoke_row (now : string) (row : TokenRow) : TokenRow :=
  MkToken (tk_identity_id row) (tk_binding row) (tk_issued_at row) (tk_expires_at row)
    (match tk_revoked_at row with None => Some now | r => r end) (tk_single_use row) (tk_consumed_at row).
Definition revoke_token (hash : list Z) (now : string) (d : Db) : Db :=
  set_auth_tokens (alter (revoke_row now) hash (auth_tokens d)) d.
Definition owned (identityID : string) (row : TokenRow) : bool :=
  String.eqb (tk_identity_id row) identityID && negb (is_some (tk_revoked_at row)).
Definition revoke_owned (identityID now : string) (d : Db) : result Z * Db :=
  (Ok (Z.of_nat (size (filter (fun kv => owned identityID kv.2 = true) (auth_tokens d)))),
   set_auth_tokens ((fun row => if owned identityID row then revoke_row now row else row) <$> auth_tokens d) d).
Definition purge_tokens (now : string) (d : Db) : result Z * Db :=
  let kept := filter (fun kv => str_le (tk_expires_at kv.2) now = false) (auth_tokens d) in
  (Ok (Z.of_nat (size (auth_tokens d)) - Z.of_nat (size kept)), set_auth_tokens kept d).
Definition consume_row (hash : list Z) (now : string) (d : Db) : result Z * Db :=
  match auth_tokens d !! hash with
  | Some row =>
      match tk_consumed_at row with
      | None => (Ok 1, set_auth_tokens (<[hash := MkToken (tk_identity_id row) (tk_binding row) (tk_issued_at row)
                   (tk_expires_at row) (tk_revoked_at row) (tk_single_use row) (Some now)]> (auth_tokens d)) d)
      | Some _ => (Ok 0, d)
      end
  | None => (Ok 0, d)
  end.
Definition insert_spent (id : string) (row : SpentRow) (d : Db) : result unit * Db :=
  match auth_spent_assertions d !! id with
  | Some _ => (Err [constraint_error], d)
  | None => (Ok tt, set_auth_spent_assertions (<[id := row]> (auth_spent_assertions d)) d)
  end.
Definition purge_spent (now : string) (d : Db) : result Z * Db :=
  let kept := filter (fun kv => str_le (sp_expires_at kv.2) now = false) (auth_spent_assertions d) in
  (Ok (Z.of_nat (size (auth_spent_assertions d)) - Z.of_nat (size kept)), set_auth_spent_assertions kept d).
(** The join of a token with its identity. *)
Definition token_of (hash : list Z) (d : Db) : option (TokenRow * IdentityRow) :=
  token ← auth_tokens d !! hash;
  identity ← auth_identities d !! tk_identity_id token;
  Some (token, identity).

Section manager.
Context `{Primitives}.
Definition fingerprint (presented : list Z) : list Z := sha256_sum presented.

Definition identityOn (id : string) : M World authn.Identity :=
  let! row := query (fun d => auth_identities d !! id) in
  match row with
  | None => fail [ErrUnknownIdentity]
  | Some row =>
      let! created := lift_result (parse_time (ai_created_at row)) in
      ret (authn.MkIdentity id (ai_kind row) (ai_tenant row) created (is_some (ai_disabled_at row)))
  end.
Definition RegisterIdentity (id kind tenant : string) : M World authn.Identity :=
  lift_result (validateIdentity id kind tenant) ;!
  let! t := now in
  let! inserted := attempt (exec (insert_identity id kind tenant (FormatTime t))) in
  match inserted with
  | Ok _ => ret (authn.MkIdentity id kind tenant t false)
  | Err err =>
      let! existing := attempt (identityOn id) in
      match existing with Ok _ => fail [ErrIdentityExists] | Err _ => fail err end
  end.
Definition DisableIdentity (id : string) : M World unit :=
  let! t := now in
  let! affected := exec (disable_row id (FormatTime t)) in
  if affected =? 0 then identityOn id ;! ret tt else ret tt.

Definition issue (identityID binding : string) (ttl single : Z) : M World Token :=
  if (ttl <=? 0) || (MaximumTTL <? ttl) then fail [ErrInvalidTTL]
  else
    let! identity := identityOn identityID in
    if authn.Disabled identity then fail [ErrIdentityDisabled]
    else
      let! value := newTokenValue in
      let! issuedAt := now in
      let expiresAt := issuedAt + ttl in
      exec (insert_token (fingerprint value)
              (MkToken identityID binding (FormatTime issuedAt) (FormatTime expiresAt) None single None)) ;!
      ret (MkAuthToken value identity expiresAt).
Definition Manager_Issue (identityID binding : string) (ttl : Z) : M World Token := issue identityID binding ttl reusable.
Definition IssueBootstrap (identityID : string) (ttl : Z) : M World Token := issue identityID NoBinding ttl singleUse.

Definition Authenticate (presented : list Z) (binding : string) : M World authn.Identity :=
  if negb (looksLikeToken presented) then fail [ErrUnauthenticated]
  else
    let! row := query (token_of (fingerprint presented)) in
    match row with
    | None => fail [ErrUnauthenticated]
    | Some (token, identity) =>
        let! expiry := lift_result (parse_time (tk_expires_at token)) in
        let! created := lift_result (parse_time (ai_created_at identity)) in
        if tk_single_use token =? singleUse then fail [ErrUnauthenticated]
        else if is_some (tk_revoked_at token) then fail [ErrUnauthenticated]
        else if is_some (ai_disabled_at identity) then fail [ErrUnauthenticated]
        else
          let! t := now in
          if negb (t <? expiry) then fail [ErrUnauthenticated]
          else if negb (String.eqb (tk_binding token) binding) then fail [ErrUnauthenticated]
          else ret (authn.MkIdentity (tk_identity_id token) (ai_kind identity) (ai_tenant identity) created false)
    end.

Definition Revoke (presented : list Z) : M World unit :=
  if negb (looksLikeToken presented) then fail [ErrUnauthenticated]
  else let! t := now in exec_ (revoke_token (fingerprint presented) (FormatTime t)).
Definition Manager_RevokeIdentity (identityID : string) : M World Z :=
  let! t := now in exec (revoke_owned identityID (FormatTime t)).
Definition PurgeExpired : M World Z := let! t := now in exec (purge_tokens (FormatTime t)).

(** ** bootstrap.go *)
Definition consume (presented : list Z) : M World string :=
  let! row := query (token_of (fingerprint presented)) in
  match row with
  | None => fail [ErrUnauthenticated]
  | Some (token, identity) =>
      let! expiry := lift_result (parse_time (tk_expires_at token)) in
      if negb (tk_single_use token =? singleUse) then fail [ErrUnauthenticated]
      else if is_some (tk_revoked_at token) || is_some (tk_consumed_at token) || is_some (ai_disabled_at identity)
      then fail [ErrUnauthenticated]
      else
        let! t := now in
        if negb (t <? expiry) then fail [ErrUnauthenticated]
        else
          let! t := now in
          let! affected := exec (consume_row (fingerprint presented) (FormatTime t)) in
          if negb (affected =? 1) then fail [ErrUnauthenticated] else ret (tk_identity_id token)
  end.
Definition Exchange (presented : list Z) (binding : string) (ttl : Z) : M World Token :=
  if (ttl <=? 0) || (MaximumTTL <? ttl) then fail [ErrInvalidTTL]
  else if negb (looksLikeToken presented) then fail [ErrUnauthenticated]
  else with_tx (
    let! identityID := consume presented in
    issue identityID binding ttl reusable).

(** ** instance.go *)
Definition spend (claims : jwt.Claims) : M World unit :=
  let! t := now in
  let! inserted := attempt (exec (insert_spent (jwt.ID claims)
    (MkSpent (jwt.Subject claims) (FormatTime t) (FormatTime (Unix (jwt.ExpiresAt claims)))))) in
  match inserted with
  | Ok _ => ret tt
  | Err err =>
      let! spent := attempt (query (fun d => auth_spent_assertions d !! jwt.ID claims)) in
      match spent with
      | Err _ => fail err
      | Ok (Some _) => fail [ErrReplayed]
      | Ok None => fail err
      end
  end.
Definition enrol (claims : jwt.Claims) : M World unit :=
  let! existing := attempt (identityOn (jwt.Subject claims)) in
  match existing with
  | Err err =>
      if errors_Is err ErrUnknownIdentity
      then let! t := now in
           exec (insert_identity (jwt.Subject claims) authn.KindInstance (jwt.Tenant claims) (FormatTime t))
      else fail err
  | Ok existing =>
      if negb (String.eqb (authn.Tenant existing) (jwt.Tenant claims)) then fail [ErrTenantMismatch]
      else if negb (String.eqb (authn.Kind existing) authn.KindInstance) then fail [ErrKindMismatch]
      else ret tt
  end.
(** The error of a disabled identity is replaced, inside the transaction. *)
Definition masking_disabled (m : M World Token) : M World Token :=
  let! outcome := attempt m in
  match outcome with
  | Ok token => ret token
  | Err err => if errors_Is err ErrIdentityDisabled then fail [ErrUnauthenticated] else fail err
  end.
Definition joined (r : result jwt.Claims) : result jwt.Claims :=
  match r with Ok c => Ok c | Err err => Err (errors_Join [ErrUnauthenticated] err) end.
Definition LoginInstance `{Assertions} (assertion : string) : M World Token :=
  let! verified := attempt (assertions_Verify assertion) in
  let! claims := lift_result (joined verified) in
  match validateIdentity (jwt.Subject claims) authn.KindInstance (jwt.Tenant claims) with
  | Err err => fail (errors_Join [ErrUnauthenticated] err)
  | Ok _ =>
      with_tx (
        spend claims ;!
        enrol claims ;!
        masking_disabled (issue (jwt.Subject claims) NoBinding InstanceTTL reusable))
  end.
Definition PurgeSpentAssertions : M World Z := let! t := now in exec (purge_spent (FormatTime t)).
End manager.

(** ** http.go *)
Section http.
Context `{Primitives} `{Assertions}.
(** The sink, when there is one, and the two rate limiters, when there are any. *)
Context (sink : option (audit.Event → M World unit)) (logins requests : option (string → World → bool * World)).

Definition bearerScheme : string := "Bearer ".
(** [strings.EqualFold] with a text of ASCII letters that have no other case forms. *)
Fixpoint lower (s : string) : string :=
  match s with EmptyString => "" | String c s => String (fold_char c) (lower s) end.
Definition bearerToken (r : Request) : option (list Z) :=
  let header := Header r "Authorization" in
  let n := String.length bearerScheme in
  if (String.length header <=? n)%nat || negb (String.eqb (lower (String.substring 0 n header)) (lower bearerScheme)) then None
  else
    let value := TrimSpace (String.substring n (String.length header - n) header) in
    if String.eqb value "" then None else Some (bytes_of_string value).
Definition unauthorized : Response :=
  httpx.set_header "WWW-Authenticate" "Bearer" (httpx.Problem StatusUnauthorized "unauthenticated").

(** The error is returned; [record] callers decide what it means. *)
Definition record (r : Request) (operation identity tenant res : string) : M World unit :=
  match sink with
  | None => ret tt
  | Some append =>
      append (audit.MkEvent operation identity tenant "" 0 res "" "" (RequestID r) (httpx.RemoteIP r))
  end.

Definition perSource : httpx.Middleware := fun next =>
  match logins with None => next | Some allow => httpx.RateLimit allow httpx.RemoteIP next end.

Definition Require_ : httpx.Middleware := fun next r =>
  match bearerToken r with
  | None => reply unauthorized
  | Some presented =>
      run_or (Authenticate presented NoBinding) (fun _ => reply unauthorized) (fun identity w =>
        let '(allowed, w) := match requests with None => (true, w) | Some allow => allow (authn.ID identity) w end in
        if negb allowed
        then (httpx.set_header "Retry-After" "1" (httpx.Problem StatusTooManyRequests "rate_limited"), w)
        else next (httpx.with_identity identity r) w)
  end.

Definition loginResponse (session : Token) : json :=
  JObj [("token", JStr (string_of_bytes (t_Value session))); ("expires_at", JStr (RFC3339 (t_ExpiresAt session)))].
Definition unrecorded : World → Response * World := reply (httpx.Problem StatusServiceUnavailable "audit_unavailable").
(** What both logins do with the outcome. *)
Definition finish_login (r : Request) (operation : string) (login : M World Token) : World → Response * World :=
  run_or login
    (fun _ w => (unauthorized, snd (record r operation "" "" audit.ResultDeny w)))
    (fun session =>
       run_or (record r operation (authn.ID (t_Identity session)) (authn.Tenant (t_Identity session)) audit.ResultAllow)
         (fun _ => unrecorded) (fun _ => reply (httpx.JSON StatusOK (loginResponse session)))).
Definition loginRequest_of (l : list (string * json)) : option string := field_value ["token"] "token" to_str "" l.
Definition handleBootstrapLogin : Handler := fun r =>
  match httpx.DecodeJSON ["token"] loginRequest_of (Body r) with
  | Err _ => reply (httpx.Problem StatusBadRequest "malformed_body")
  | Ok token => finish_login r "auth.bootstrap.login" (Exchange (bytes_of_string token) NoBinding DefaultTTL)
  end.
Definition instanceLoginRequest_of (l : list (string * json)) : option string :=
  field_value ["assertion"] "assertion" to_str "" l.
Definition handleInstanceLogin : Handler := fun r =>
  match httpx.DecodeJSON ["assertion"] instanceLoginRequest_of (Body r) with
  | Err _ => reply (httpx.Problem StatusBadRequest "malformed_body")
  | Ok assertion => finish_login r "auth.instance.login" (LoginInstance assertion)
  end.
Definition handleSelf : Handler := fun r =>
  match Identity r with
  | None => reply unauthorized
  | Some identity =>
      reply (httpx.JSON StatusOK (JObj [("identity", JStr (authn.ID identity)); ("kind", JStr (authn.Kind identity));
                                        ("tenant", JStr (authn.Tenant identity))]))
  end.
Definition handleLogout : Handler := fun r =>
  match bearerToken r with
  | None => reply unauthorized
  | Some presented =>
      run_or (Revoke presented)
        (fun e => if errors_Is e ErrUnauthenticated then reply httpx.no_content
                  else reply (httpx.Problem StatusInternalServerError "internal_error"))
        (fun _ => reply httpx.no_content)
  end.
End http.

(** The token revoker the lease manager is given. *)
#[export] Instance token_revoker : Revoker := Manager_RevokeIdentity.

(** What an implementation of [Assertions] must leave alone. *)
Class AssertionsLaws (A : Assertions) := {
  verify_effect : ∀ assertion w, database (snd (assertions_Verify assertion w)) = database w }.

Section theory.
Context `{Primitives}.
Lemma parse_time_Ok s t : parse_time s = Ok t ↔ ParseTime s = Some t.
Proof. unfold parse_time. destruct (ParseTime s); split; congruence. Qed.
Lemma identityOn_Ok id w i w' : identityOn id w = (Ok i, w') → w' = tick w ∧
  ∃ row, auth_identities (database w) !! id = Some row ∧ authn.ID i = id ∧ authn.Kind i = ai_kind row ∧
    authn.Tenant i = ai_tenant row ∧ authn.Disabled i = is_some (ai_disabled_at row) ∧
    ParseTime (ai_created_at row) = Some (authn.CreatedAt i).
Proof.
  unfold identityOn. intros E. apply bind_ok_inv in E as (o&w1&Eq&E). apply query_Ok in Eq as [-> ->].
  destruct (auth_identities (database w) !! id) as [row|]; [|done].
  apply bind_ok_inv in E as (created&w1&Ep&E). unfold lift_result in Ep. injection Ep as Ep <-. injection E as <- <-.
  split; [done|]. exists row. split_and!; try done. by apply parse_time_Ok.
Qed.
Lemma identityOn_db id : same_db (identityOn id).
Proof. unfold identityOn. apply same_db_bind; [auto with world|intros [r|]]; auto with world. Qed.

(** What [issue] does to the tables. *)
Lemma issue_inv id binding ttl single w o w' : issue id binding ttl single w = (o, w') →
  match o with
  | Err _ => database w' = database w
  | Ok t => ∃ row issued, auth_identities (database w) !! id = Some row ∧ ai_disabled_at row = None ∧
      authn.ID (t_Identity t) = id ∧ authn.Tenant (t_Identity t) = ai_tenant row ∧ authn.Kind (t_Identity t) = ai_kind row ∧
      issued = clock w 0%nat ∧ t_ExpiresAt t = issued + ttl ∧ 0 < ttl ∧ looksLikeToken (t_Value t) = true ∧
      ParseTime (ai_created_at row) = Some (authn.CreatedAt (t_Identity t)) ∧ authn.Disabled (t_Identity t) = false ∧
      auth_tokens (database w) !! fingerprint (t_Value t) = None ∧
      database w' = set_auth_tokens (<[fingerprint (t_Value t) := MkToken id binding (FormatTime issued) (FormatTime (issued + ttl)) None single None]>
        (auth_tokens (database w))) (database w)
  end.
Proof.
  unfold issue. destruct (Z.leb_spec ttl 0); [by intros [= <- <-]|]. destruct (_ <? ttl); cbn [orb]; [by intros [= <- <-]|].
  pose proof (identityOn_db id w) as Hdb. unfold bind at 1. destruct (identityOn id w) as [[i|e] w1] eqn:Ei; cbn in Hdb; [|by intros [= <- <-]].
  destruct (authn.Disabled i) eqn:Ed; [by intros [= <- <-]|]. apply identityOn_Ok in Ei as (->&row&Hrow&HI&HK&HT&HD&HC).
  unfold newTokenValue, rand_read, now, bind. set (b := draw tokenBytes _). cbn [ret].
  set (value := bytes_of_string _). set (w2 := set_clock _ _).
  assert (looksLikeToken value = true) as Hlook.
  { subst value. unfold looksLikeToken. rewrite length_bytes_of_string, string_of_bytes_of_string. apply andb_true_iff. split.
    - apply Nat.leb_le. rewrite length_app_string. pose proof (draw_length tokenBytes (entropy w)) as Hl.
      change (entropy (tick w)) with (entropy w) in b. fold b in Hl. unfold tokenBytes in Hl.
      do 33 (destruct b as [|? b]; try (cbn in Hl; lia)). done.
    - apply HasPrefix_spec. by eexists. }
  match goal with |- context [exec ?f w2] => destruct (exec_cases f w2) as [(e&Ee&_)|(a&d&Hd&Ee)] end; rewrite Ee; [by intros [= <- <-]|].
  intros [= <- <-]. cbn [t_Identity t_ExpiresAt t_Value]. unfold insert_token in Hd.
  change (database w2) with (database w) in *. cbn [tk_identity_id] in Hd. rewrite Hrow in Hd.
  destruct (auth_tokens (database w) !! fingerprint value) eqn:Ef; [done|]. injection Hd as <- <-.
  exists row, (clock w 0%nat). rewrite HD in Ed. destruct (ai_disabled_at row); [done|].
  split_and!; try done; congruence.
Qed.

(** A token that was issued authenticates its identity, under its binding, up to
  its expiry, in any process on the database it was left in. *)
Lemma issued_authenticates id binding ttl w t w' v : issue id binding ttl reusable w = (Ok t, w') → database v = database w' → no_faults v →
  representable (t_ExpiresAt t) → clock v 0%nat < t_ExpiresAt t →
  ∃ w2, Authenticate (t_Value t) binding v = (Ok (t_Identity t), w2) ∧ database w2 = database v ∧ authn.ID (t_Identity t) = id.
Proof.
  intros Hrun Hv Hnf Hrep Hnow. apply issue_inv in Hrun as (row&issued&Hrow&Hdis&HI&HT&HK&->&He&_&Hlook&HC&HD&Hfree&Hdb).
  unfold Authenticate. rewrite Hlook. cbn [negb]. rewrite bind_query_nf by done.
  unfold token_of. rewrite Hv, Hdb. cbn [auth_tokens set_auth_tokens auth_identities]. rewrite lookup_insert_eq.
  cbn [mbind option_bind tk_identity_id]. rewrite Hrow. cbn [mbind option_bind tk_expires_at]. rewrite He in Hrep, Hnow.
  erewrite bind_lift by by apply parse_time_Ok, ParseTime_FormatTime.
  erewrite bind_lift by by apply parse_time_Ok. cbn [tk_single_use tk_revoked_at is_some]. rewrite Hdis. cbn [is_some].
  change (reusable =? singleUse) with false. cbv iota. rewrite bind_now.
  change (clock (tick v) 0%nat) with (clock v 0%nat).
  destruct (Z.ltb_spec (clock v 0%nat) (clock w 0%nat + ttl)); [|lia]. cbn [negb tk_binding].
  rewrite String.eqb_refl. cbn [negb]. match goal with |- ∃ w2, (ret ?i ?v) = _ ∧ _ => exists v end.
  split_and!; [|by cbn; rewrite Hv, Hdb|done]. unfold ret. do 2 f_equal.
  destruct (t_Identity t) as [i k tn c dis]; cbn in *. by subst.
Qed.
Theorem Issue_Authenticate (id binding : string) (ttl : Z) (w w' : World) (t : Token)
  (Hrun : Manager_Issue id binding ttl w = (Ok t, w')) (Hnf : no_faults w')
  (Hrep : representable (clock w 0%nat + ttl)) (Hnow : clock w' 0%nat < t_ExpiresAt t) :
  ∃ w2, Authenticate (t_Value t) binding w' = (Ok (t_Identity t), w2) ∧ database w2 = database w' ∧ authn.ID (t_Identity t) = id.
Proof.
  eapply issued_authenticates; [exact Hrun|done..| |done]. unfold Manager_Issue in Hrun.
  by apply issue_inv in Hrun as (row&issued&_&_&_&_&_&->&->&_).
Qed.

Lemma Authenticate_db presented binding : same_db (Authenticate presented binding).
Proof.
  unfold Authenticate. case_match; [apply same_db_fail|]. apply same_db_bind; [apply same_db_query|]. intros [[token identity]|]; [|apply same_db_fail].
  do 2 (apply same_db_bind; [apply same_db_lift|intros ?]). repeat (case_match; [apply same_db_fail|]).
  apply same_db_bind; [apply same_db_now|]. intros t. repeat (case_match; [apply same_db_fail|]). apply same_db_ret.
Qed.

Lemma Authenticate_quiet presented binding : quiet (Authenticate presented binding).
Proof. unfold Authenticate. solve_quiet. Qed.
(** What lets the presented text in, at time [t], as [i]. *)
Definition credential (d : Db) (presented : list Z) (binding : string) (t : Z) (i : authn.Identity) : Prop :=
  ∃ token identity expiry, auth_tokens d !! fingerprint presented = Some token ∧
    auth_identities d !! authn.ID i = Some identity ∧ tk_identity_id token = authn.ID i ∧
    authn.Kind i = ai_kind identity ∧ authn.Tenant i = ai_tenant identity ∧
    tk_single_use token ≠ singleUse ∧ tk_revoked_at token = None ∧ ai_disabled_at identity = None ∧
    tk_binding token = binding ∧ ParseTime (tk_expires_at token) = Some expiry ∧ t < expiry.
Lemma Authenticate_Ok presented binding w i w' : Authenticate presented binding w = (Ok i, w') →
  database w' = database w ∧ credential (database w) presented binding (clock w 0%nat) i.
Proof.
  unfold Authenticate. intros Hrun. destruct (looksLikeToken presented); [|done]. cbn [negb] in Hrun.
  apply bind_ok_inv in Hrun as (o&w1&Eq&E). apply query_Ok in Eq as [-> ->].
  destruct (token_of (fingerprint presented) (database w)) as [[token identity]|] eqn:Et; [|done].
  apply bind_ok_inv in E as (expiry&w1&Ep&E). unfold lift_result in Ep. injection Ep as Hp <-.
  apply bind_ok_inv in E as (created&w1&Ec&E). unfold lift_result in Ec. injection Ec as Hc <-.
  destruct (Z.eqb_spec (tk_single_use token) singleUse); [done|].
  destruct (tk_revoked_at token) eqn:Er; [done|]. destruct (ai_disabled_at identity) eqn:Ed; [done|]. cbn [is_some] in E.
  rewrite bind_now in E. change (clock (tick w) 0%nat) with (clock w 0%nat) in E.
  destruct (Z.ltb_spec (clock w 0%nat) expiry); [|done]. cbn [negb] in E.
  destruct (String.eqb_spec (tk_binding token) binding); [|done]. injection E as <- <-. split; [done|].
  unfold token_of in Et. destruct (auth_tokens (database w) !! fingerprint presented) as [tk|] eqn:Ek; [|done]. cbn in Et.
  destruct (auth_identities (database w) !! tk_identity_id tk) as [ir|] eqn:Ei; [|done]. injection Et as <- <-.
  exists tk, ir, expiry. cbn. split_and!; try done. by apply parse_time_Ok.
Qed.

(** Authentication succeeds only for a token that is in the table under
  the hash of the presented text, reusable, not revoked, not expired, of the
  presented binding, and whose identity is registered and not disabled; it
  returns that identity and changes nothing. *)
Theorem Authenticate_sound (presented : list Z) (binding : string) (w w' : World) (i : authn.Identity)
  (Hrun : Authenticate presented binding w = (Ok i, w')) :
  database w' = database w ∧
  ∃ token identity expiry, auth_tokens (database w) !! fingerprint presented = Some token ∧
    auth_identities (database w) !! authn.ID i = Some identity ∧ tk_identity_id token = authn.ID i ∧
    authn.Kind i = ai_kind identity ∧ authn.Tenant i = ai_tenant identity ∧
    tk_single_use token ≠ singleUse ∧ tk_revoked_at token = None ∧ ai_disabled_at identity = None ∧
    tk_binding token = binding ∧ ParseTime (tk_expires_at token) = Some expiry ∧ clock w 0%nat < expiry.
Proof. by apply Authenticate_Ok. Qed.

(** ** Between two presentations of a credential

  One action is one call of the module's operations, or anything else the
  process does that leaves the module's three tables alone. *)
Inductive action :=
| ARegister (id kind tenant : string) | ADisable (id : string)
| AIssue (id binding : string) (ttl : Z) | ABootstrap (id : string) (ttl : Z)
| AAuthenticate (presented : list Z) (binding : string) | AExchange (presented : list Z) (binding : string) (ttl : Z)
| ALogin (assertion : string) | ARevoke (presented : list Z) | ARevokeIdentity (id : string)
| APurge | APurgeSpent | AElsewhere (f : World → World).
Definition elsewhere (f : World → World) (w : World) : World :=
  let d := database w in
  set_database (set_auth_identities (auth_identities d) (set_auth_tokens (auth_tokens d)
    (set_auth_spent_assertions (auth_spent_assertions d) (database (f w))))) (f w).
Definition silent {A} (m : M World A) : M World (option Token) := let! _ := m in ret None.
Definition issues (m : M World Token) : M World (option Token) := let! t := m in ret (Some t).
Definition act `{Assertions} (a : action) : M World (option Token) :=
  match a with
  | ARegister id kind tenant => silent (RegisterIdentity id kind tenant)
  | ADisable id => silent (DisableIdentity id)
  | AIssue id binding ttl => issues (Manager_Issue id binding ttl)
  | ABootstrap id ttl => issues (IssueBootstrap id ttl)
  | AAuthenticate presented binding => silent (Authenticate presented binding)
  | AExchange presented binding ttl => issues (Exchange presented binding ttl)
  | ALogin assertion => issues (LoginInstance assertion)
  | ARevoke presented => silent (Revoke presented)
  | ARevokeIdentity id => silent (Manager_RevokeIdentity id)
  | APurge => silent PurgeExpired
  | APurgeSpent => silent PurgeSpentAssertions
  | AElsewhere f => fun w => (Ok None, elsewhere f w)
  end.
Fixpoint run_actions `{Assertions} (l : list action) (w : World) : World :=
  match l with [] => w | a :: l => run_actions l (snd (act a w)) end.
(** The hashes of the tokens issued on the way. *)
Fixpoint issued_hashes `{Assertions} (l : list action) (w : World) : list (list Z) :=
  match l with
  | [] => []
  | a :: l => (match fst (act a w) with Ok (Some t) => [fingerprint (t_Value t)] | _ => [] end) ++ issued_hashes l (snd (act a w))
  end.
End theory.

Section single_use.
Context `{Primitives} `{As : Assertions} `{!AssertionsLaws As}.

(** The token of this hash is absent, or a bootstrap token that was exchanged. *)
Definition used (hash : list Z) (d : Db) : Prop :=
  match auth_tokens d !! hash with
  | None => True
  | Some row => tk_single_use row = singleUse ∧ tk_consumed_at row ≠ None
  end.
Lemma used_same hash d d' : auth_tokens d' = auth_tokens d → used hash d → used hash d'.
Proof. unfold used. by intros ->. Qed.
Lemma used_fmap hash d m : used hash d →
  (∀ row, auth_tokens d !! hash = Some row → ∀ row', m !! hash = Some row' →
    tk_single_use row' = tk_single_use row ∧ tk_consumed_at row' = tk_consumed_at row) →
  (auth_tokens d !! hash = None → m !! hash = None) → used hash (set_auth_tokens m d).
Proof.
  unfold used. cbn [auth_tokens set_auth_tokens]. destruct (auth_tokens d !! hash) as [row|]; intros Hu Hs Hn.
  - destruct (m !! hash) as [row'|]; [|done]. by destruct (Hs _ eq_refl _ eq_refl) as [-> ->].
  - by rewrite Hn.
Qed.
Lemma consume_Ok presented w id w' : consume presented w = (Ok id, w') → ∃ token identity expiry t,
  auth_tokens (database w) !! fingerprint presented = Some token ∧ tk_identity_id token = id ∧
  auth_identities (database w) !! id = Some identity ∧ ai_disabled_at identity = None ∧
  tk_single_use token = singleUse ∧ tk_revoked_at token = None ∧ tk_consumed_at token = None ∧
  ParseTime (tk_expires_at token) = Some expiry ∧ clock w 0%nat < expiry ∧
  database w' = set_auth_tokens (<[fingerprint presented := MkToken id (tk_binding token) (tk_issued_at token)
    (tk_expires_at token) None singleUse (Some t)]> (auth_tokens (database w))) (database w).
Proof.
  unfold consume. intros E. apply bind_ok_inv in E as (o&w1&Eq&E). apply query_Ok in Eq as [-> ->].
  unfold token_of in E. destruct (auth_tokens (database w) !! fingerprint presented) as [tk|] eqn:Ek; [|done]. cbn [mbind option_bind] in E.
  destruct (auth_identities (database w) !! tk_identity_id tk) as [ir|] eqn:Ei; [|done]. cbn [mbind option_bind] in E.
  apply bind_ok_inv in E as (expiry&w1&Ep&E). unfold lift_result in Ep. injection Ep as Hp <-.
  destruct (Z.eqb_spec (tk_single_use tk) singleUse) as [Hs|]; [|done]. cbn [negb] in E.
  destruct (tk_revoked_at tk) eqn:Er; [done|]. destruct (tk_consumed_at tk) eqn:Ec; [done|].
  destruct (ai_disabled_at ir) eqn:Ed; [done|]. cbn [is_some orb] in E. rewrite bind_now in E.
  change (clock (tick w) 0%nat) with (clock w 0%nat) in E.
  destruct (Z.ltb_spec (clock w 0%nat) expiry) as [Hlt|]; [|done]. cbn [negb] in E. rewrite bind_now in E.
  apply bind_ok_inv in E as (n&w2&Ex&E). apply exec_Ok in Ex as (d&Hd&->). unfold consume_row in Hd.
  cbn [database set_clock tick set_faults] in Hd. rewrite Ek, Ec in Hd. injection Hd as <- <-. injection E as <- <-.
  apply parse_time_Ok in Hp. eexists tk, ir, expiry, _. rewrite Hs, Er. by split_and!.
Qed.
Lemma consume_used presented w : used (fingerprint presented) (database w) → ∃ e, fst (consume presented w) = Err e.
Proof.
  intros Hu. destruct (consume presented w) as [[id|e] w'] eqn:E; [|by eexists].
  apply consume_Ok in E as (tk&ir&exp&t&Hk&_&_&_&_&_&Hc&_). unfold used in Hu. rewrite Hk in Hu. by destruct Hu as [_ []].
Qed.
Lemma issue_used hash id binding ttl single w r w' : issue id binding ttl single w = (r, w') → used hash (database w) →
  (∀ t, r = Ok t → fingerprint (t_Value t) ≠ hash) → used hash (database w').
Proof.
  intros E%issue_inv Hu Hne. destruct r as [t|e]; [|by rewrite E].
  destruct E as (row&issued&_&_&_&_&_&_&_&_&_&_&_&_&->). specialize (Hne t eq_refl).
  unfold used. cbn [auth_tokens set_auth_tokens]. by rewrite lookup_insert_ne.
Qed.
Lemma Exchange_used hash presented binding ttl w r w' : Exchange presented binding ttl w = (r, w') → used hash (database w) →
  (∀ t, r = Ok t → fingerprint (t_Value t) ≠ hash) → used hash (database w').
Proof.
  unfold Exchange. intros E Hu Hne. destruct (_ || _); [by injection E as <- <-|]. destruct (looksLikeToken _); [|by injection E as <- <-].
  cbn [negb] in E. match type of E with with_tx ?body _ = _ => destruct (with_tx_cases body w) as [(e&v&E'&Hv&_)|(t&v&Hb&E')] end;
    rewrite E' in E; injection E as <- <-; [by rewrite Hv|].
  apply bind_ok_inv in Hb as (id&w1&Ec&Ei). change (database (tick v)) with (database v). eapply issue_used; [exact Ei| |done].
  apply consume_Ok in Ec as (tk&ir&exp&t'&Hk&_&_&_&_&_&Hc&_&_&->). cbn [database tick set_faults]. unfold used in *.
  cbn [auth_tokens set_auth_tokens]. destruct (decide (hash = fingerprint presented)) as [->|]; [by rewrite lookup_insert_eq|].
  by rewrite lookup_insert_ne.
Qed.

(** Operations that issue nothing. *)
Lemma keeps_used_exec {A} hash (f : Db → result A * Db) :
  (∀ d a d', f d = (Ok a, d') → auth_tokens d' = auth_tokens d) → keeps_db (used hash) (exec f).
Proof. intros Hf. apply keeps_db_exec. intros d a d' Hd E. eapply used_same; [by eapply Hf|done]. Qed.
Lemma insert_identity_tokens id kind tenant t d a d' : insert_identity id kind tenant t d = (Ok a, d') → auth_tokens d' = auth_tokens d.
Proof. unfold insert_identity. by case_match; intros [= <- <-]. Qed.
Lemma insert_spent_tokens id row d a d' : insert_spent id row d = (Ok a, d') → auth_tokens d' = auth_tokens d.
Proof. unfold insert_spent. by case_match; intros [= <- <-]. Qed.
Lemma spend_used hash claims : keeps_db (used hash) (spend claims).
Proof.
  unfold spend. apply keeps_bind; [apply keeps_db_same; auto with world|]. intros t. apply keeps_bind.
  { apply keeps_attempt, keeps_used_exec. apply insert_spent_tokens. }
  intros [?|?]; [apply keeps_ret|]. apply keeps_bind; [apply keeps_db_same; auto with world|]. intros [[?|]|?]; apply keeps_fail.
Qed.
Lemma enrol_used hash claims : keeps_db (used hash) (enrol claims).
Proof.
  unfold enrol. apply keeps_bind; [apply keeps_db_same, same_db_attempt, identityOn_db|]. intros [i|e].
  - repeat case_match; auto with keeps; apply keeps_fail || apply keeps_ret.
  - case_match; [|apply keeps_fail]. apply keeps_bind; [apply keeps_db_same; auto with world|]. intros t.
    apply keeps_used_exec, insert_identity_tokens.
Qed.

(** What a login that succeeds has done. *)
Lemma spend_Ok claims w u w' : spend claims w = (Ok u, w') →
  auth_spent_assertions (database w) !! jwt.ID claims = None ∧ ∃ row,
    database w' = set_auth_spent_assertions (<[jwt.ID claims := row]> (auth_spent_assertions (database w))) (database w).
Proof.
  unfold spend. rewrite bind_now. set (w1 := set_clock _ w). unfold bind, attempt. intros E.
  match type of E with context [exec ?f w1] => destruct (exec_cases f w1) as [(e&Ee&_)|(a&d&Hd&Ee)] end; rewrite Ee in E.
  - match type of E with context [query ?f ?v] => destruct (query_cases f v) as [Eq|Eq] end; rewrite Eq in E; [done|].
    by destruct (auth_spent_assertions _ !! _).
  - unfold insert_spent in Hd. change (database w1) with (database w) in Hd.
    destruct (auth_spent_assertions (database w) !! jwt.ID claims); [done|]. injection Hd as <- <-. injection E as <- <-. by eauto.
Qed.
Lemma enrol_Ok claims w u w' : enrol claims w = (Ok u, w') → ∃ row,
  auth_identities (database w') !! jwt.Subject claims = Some row ∧ ai_tenant row = jwt.Tenant claims ∧ ai_kind row = authn.KindInstance ∧
  auth_tokens (database w') = auth_tokens (database w) ∧ auth_spent_assertions (database w') = auth_spent_assertions (database w).
Proof.
  unfold enrol. intros E. apply bind_ok_inv in E as (r&w1&Ea&E). unfold attempt in Ea.
  destruct (identityOn (jwt.Subject claims) w) as [r0 w0] eqn:Ei. injection Ea as <- <-.
  pose proof (identityOn_db (jwt.Subject claims) w) as Hdb. rewrite Ei in Hdb. cbn [snd] in Hdb. destruct r0 as [i|e].
  - apply identityOn_Ok in Ei as (->&row&Hrow&_&HK&HT&_).
    destruct (String.eqb_spec (authn.Tenant i) (jwt.Tenant claims)) as [Ht|]; [|done].
    destruct (String.eqb_spec (authn.Kind i) authn.KindInstance) as [Hk|]; [|done]. injection E as <- <-.
    exists row. rewrite Hdb. split_and!; congruence.
  - destruct (errors_Is e ErrUnknownIdentity); [|done]. rewrite bind_now in E. apply exec_Ok in E as (d&Hd&->).
    unfold insert_identity in Hd. cbn [database set_clock] in Hd. destruct (auth_identities (database w0) !! jwt.Subject claims); [done|].
    injection Hd as _ <-. eexists. cbn [database set_database auth_identities set_auth_identities auth_tokens auth_spent_assertions].
    rewrite lookup_insert_eq, Hdb. by split_and!.
Qed.
Lemma masking_Ok m w t w' : masking_disabled m w = (Ok t, w') → m w = (Ok t, w').
Proof.
  unfold masking_disabled, bind, attempt. destruct (m w) as [[a|e] v]; [by intros [= <- <-]|]. by case_match.
Qed.
Lemma Login_cases assertion w r w' : LoginInstance assertion w = (r, w') →
  match r with
  | Err _ => database w' = database w
  | Ok t => ∃ claims w1 w2 w3 v, assertions_Verify assertion w = (Ok claims, w1) ∧
      validateIdentity (jwt.Subject claims) authn.KindInstance (jwt.Tenant claims) = Ok tt ∧ spend claims (tick w1) = (Ok tt, w2) ∧ enrol claims w2 = (Ok tt, w3) ∧
      issue (jwt.Subject claims) NoBinding InstanceTTL reusable w3 = (Ok t, v) ∧ database w' = database v
  end.
Proof.
  unfold LoginInstance. unfold bind at 1, attempt at 1. pose proof (verify_effect assertion w) as Hv.
  destruct (assertions_Verify assertion w) as [[claims|e] w1]; cbn [snd] in Hv; [|by intros [= <- <-]].
  unfold bind at 1. cbn [joined lift_result]. destruct (validateIdentity _ _ _) as [[]|e] eqn:Ev; [|by intros [= <- <-]].
  match goal with |- with_tx ?body _ = _ → _ => destruct (with_tx_cases body w1) as [(e&v&E&Hd&_)|(t&v&Hb&E)] end; rewrite E; intros [= <- <-].
  { congruence. }
  apply bind_ok_inv in Hb as ([]&w2&Es&Hb). apply bind_ok_inv in Hb as ([]&w3&En&Hb). apply masking_Ok in Hb.
  by eexists claims, w1, w2, w3, v.
Qed.
Lemma Login_used hash assertion w r w' : LoginInstance assertion w = (r, w') → used hash (database w) →
  (∀ t, r = Ok t → fingerprint (t_Value t) ≠ hash) → used hash (database w').
Proof.
  intros E%Login_cases Hu Hne. destruct r as [t|e]; [|by rewrite E].
  destruct E as (claims&w1&w2&w3&v&Ev&_&Es&En&Ei&->). eapply issue_used; [exact Ei| |done].
  pose proof (verify_effect assertion w) as Hv. rewrite Ev in Hv. cbn [snd] in Hv.
  pose proof (enrol_used hash claims w2) as Hk. rewrite En in Hk. apply Hk.
  pose proof (spend_used hash claims (tick w1)) as Hs. rewrite Es in Hs. apply Hs. cbn [database tick set_faults]. by rewrite Hv.
Qed.

Definition issues_nothing (a : action) : Prop :=
  match a with AIssue _ _ _ | ABootstrap _ _ | AExchange _ _ _ | ALogin _ => False | _ => True end.
Lemma silent_used {A} hash (m : M World A) : keeps_db (used hash) m → keeps_db (used hash) (silent m).
Proof. intros Hm. apply keeps_bind; [done|]. intros ?. apply keeps_ret. Qed.
Lemma revoke_used hash presented : keeps_db (used hash) (Revoke presented).
Proof.
  unfold Revoke. case_match; [apply keeps_fail|]. apply keeps_bind; [by apply keeps_db_same|]. intros t.
  apply keeps_db_exec_. intros d Hd. apply used_fmap; [done| |].
  - intros row Hrow row'. destruct (decide (fingerprint presented = hash)) as [->|Hne].
    + rewrite lookup_alter_eq, Hrow. by intros [= <-].
    + rewrite lookup_alter_ne by done. rewrite Hrow. by intros [= <-].
  - intros Hn. destruct (decide (fingerprint presented = hash)) as [->|Hne]; [by rewrite lookup_alter_eq, Hn|by rewrite lookup_alter_ne].
Qed.
Lemma revoke_owned_used hash id : keeps_db (used hash) (Manager_RevokeIdentity id).
Proof.
  unfold Manager_RevokeIdentity. apply keeps_bind; [by apply keeps_db_same|]. intros t. apply keeps_db_exec. intros d a d' Hd [= _ <-].
  apply used_fmap; [done| |]; intros row; rewrite lookup_fmap; [|by rewrite row]. intros -> row' [= <-]. by destruct (owned id row).
Qed.
Lemma purge_used hash : keeps_db (used hash) PurgeExpired.
Proof.
  unfold PurgeExpired. apply keeps_bind; [by apply keeps_db_same|]. intros t. apply keeps_db_exec. intros d a d' Hd [= _ <-].
  apply used_fmap; [done| |].
  - intros row Hrow row' Hf. apply map_lookup_filter_Some in Hf as [Hf _]. by simplify_eq.
  - intros Hn. apply map_lookup_filter_None. by left.
Qed.
Lemma silent_act_used hash a : issues_nothing a → keeps_db (used hash) (act a).
Proof.
  destruct a; intros Ha; try done; cbn [act]; try apply silent_used.
  - unfold RegisterIdentity. apply keeps_bind; [apply keeps_lift|]. intros _. apply keeps_bind; [by apply keeps_db_same|].
    intros t. apply keeps_bind; [apply keeps_attempt, keeps_used_exec, insert_identity_tokens|]. intros [?|?]; [apply keeps_ret|].
    apply keeps_bind; [apply keeps_db_same, same_db_attempt, identityOn_db|]. intros [?|?]; apply keeps_fail.
  - unfold DisableIdentity. apply keeps_bind; [by apply keeps_db_same|]. intros t. apply keeps_bind.
    + apply keeps_used_exec. intros d n d'. unfold disable_row. repeat case_match; by intros [= <- <-].
    + intros n. case_match; [|apply keeps_ret]. apply keeps_bind; [apply keeps_db_same, identityOn_db|]. intros ?. apply keeps_ret.
  - apply keeps_db_same. apply Authenticate_db.
  - apply revoke_used.
  - apply revoke_owned_used.
  - apply purge_used.
  - unfold PurgeSpentAssertions. apply keeps_bind; [by apply keeps_db_same|]. intros t. apply keeps_used_exec. by intros d n d' [= <- <-].
  - intros w Hw. by apply (used_same hash (database w)).
Qed.
Lemma issues_inv m w r w' : issues m w = (r, w') → ∃ r0, m w = (r0, w') ∧ r = result_map Some r0.
Proof. unfold issues, bind. destruct (m w) as [[t|e] v]; intros [= <- <-]; eauto. Qed.
Lemma act_used hash a w r w' : act a w = (r, w') → used hash (database w) →
  (∀ t, r = Ok (Some t) → fingerprint (t_Value t) ≠ hash) → used hash (database w').
Proof.
  intros E Hu Hne. pose proof (fun Hn => silent_act_used hash a Hn w Hu) as Hs. rewrite E in Hs.
  destruct a; try exact (Hs I); clear Hs; cbn [act] in E; apply issues_inv in E as (r0&E&->);
    assert (∀ t, r0 = Ok t → fingerprint (t_Value t) ≠ hash) as Hne' by (intros t ->; by apply Hne).
  all: first [by eapply Login_used|by eapply Exchange_used|by eapply issue_used].
Qed.

Lemma run_used hash l w : used hash (database w) → hash ∉ issued_hashes l w → used hash (database (run_actions l w)).
Proof.
  revert w. induction l as [|a l IH]; intros w Hu Hn; [done|]. cbn [run_actions issued_hashes] in *. apply not_elem_of_app in Hn as [Hn Hl].
  apply IH; [|done]. destruct (act a w) as [r w'] eqn:E. cbn [fst snd] in *. eapply act_used; [exact E|done|].
  intros t ->. apply not_elem_of_cons in Hn as [Hn _]. congruence.
Qed.
Lemma Exchange_spent presented binding ttl w : used (fingerprint presented) (database w) →
  ∃ e, fst (Exchange presented binding ttl w) = Err e ∧ database (snd (Exchange presented binding ttl w)) = database w.
Proof.
  intros Hu. unfold Exchange. destruct (_ || _); [by eexists|]. destruct (looksLikeToken _); [|by eexists]. cbn [negb].
  match goal with |- context [with_tx ?body w] => destruct (with_tx_cases body w) as [(e&v&->&Hv&_)|(t&v&Hb&_)] end; [by eexists|].
  exfalso. apply bind_ok_inv in Hb as (id&w1&Ec&_). destruct (consume_used presented (tick w)) as [e He]; [done|]. by rewrite Ec in He.
Qed.
Lemma Exchange_Ok presented binding ttl w t w' : Exchange presented binding ttl w = (Ok t, w') →
  ∃ token identity expiry, auth_tokens (database w) !! fingerprint presented = Some token ∧ tk_single_use token = singleUse ∧
    tk_consumed_at token = None ∧ tk_revoked_at token = None ∧ authn.ID (t_Identity t) = tk_identity_id token ∧
    auth_identities (database w) !! tk_identity_id token = Some identity ∧ ai_disabled_at identity = None ∧
    ParseTime (tk_expires_at token) = Some expiry ∧ clock w 0%nat < expiry ∧
    fingerprint (t_Value t) ≠ fingerprint presented ∧ used (fingerprint presented) (database w').
Proof.
  unfold Exchange. intros E. destruct (_ || _); [done|]. destruct (looksLikeToken _); [|done]. cbn [negb] in E.
  match type of E with with_tx ?body _ = _ => destruct (with_tx_cases body w) as [(e&v&E'&_)|(t'&v&Hb&E')] end; rewrite E' in E; [done|].
  injection E as -> <-. apply bind_ok_inv in Hb as (id&w1&Ec&Ei).
  apply consume_Ok in Ec as (tk&ir&expiry&t'&Hk&<-&Hir&Hdis&Hs&Hr&Hc&Hp&Hlt&Hdb). pose proof Ei as Hi. apply issue_inv in Hi.
  destruct Hi as (row&issued&_&_&HI&_&_&_&_&_&_&_&_&Hfree&_). rewrite Hdb in Hfree. cbn [auth_tokens set_auth_tokens] in Hfree.
  assert (fingerprint (t_Value t) ≠ fingerprint presented) as Hne by (intros Heq; by rewrite Heq, lookup_insert_eq in Hfree).
  exists tk, ir, expiry. split_and!; try done. change (database (tick v)) with (database v).
  eapply issue_used; [exact Ei| |by intros ? [= <-]]. rewrite Hdb. unfold used. cbn [auth_tokens set_auth_tokens]. by rewrite lookup_insert_eq.
Qed.

(** C32. A bootstrap token is exchanged at most once: a successful exchange was
  of a single-use token that had not been consumed, revoked or outlived and
  whose identity was not disabled, the new token is that identity's, and
  whatever calls follow, as long as none of them draws a token of the same
  hash, exchanging the bootstrap token again fails and changes nothing. *)
Theorem Exchange_once (presented : list Z) (binding binding' : string) (ttl ttl' : Z) (w w' : World) (t : Token) (l : list action)
  (Hrun : Exchange presented binding ttl w = (Ok t, w')) (Hfresh : fingerprint presented ∉ issued_hashes l w') :
  (∃ token identity expiry, auth_tokens (database w) !! fingerprint presented = Some token ∧ tk_single_use token = singleUse ∧
     tk_consumed_at token = None ∧ tk_revoked_at token = None ∧ authn.ID (t_Identity t) = tk_identity_id token ∧
     auth_identities (database w) !! tk_identity_id token = Some identity ∧ ai_disabled_at identity = None ∧
     ParseTime (tk_expires_at token) = Some expiry ∧ clock w 0%nat < expiry) ∧
  let w2 := run_actions l w' in
  (∃ e, fst (Exchange presented binding' ttl' w2) = Err e) ∧ database (snd (Exchange presented binding' ttl' w2)) = database w2.
Proof.
  apply Exchange_Ok in Hrun as (token&identity&expiry&?&?&?&?&?&?&?&?&?&_&Hu). split; [by exists token, identity, expiry|].
  destruct (Exchange_spent presented binding' ttl' (run_actions l w')) as (e&He&Hd); [by apply run_used|]. by eauto.
Qed.

(** ** Spent assertions *)
Definition purges_spent (a : action) : bool := match a with APurgeSpent => true | _ => false end.
Definition spent (id : string) (d : Db) : Prop := is_Some (auth_spent_assertions d !! id).
Lemma spent_same id d d' : auth_spent_assertions d' = auth_spent_assertions d → spent id d → spent id d'.
Proof. unfold spent. by intros ->. Qed.
Lemma keeps_spent_exec {A} id (f : Db → result A * Db) :
  (∀ d a d', f d = (Ok a, d') → auth_spent_assertions d' = auth_spent_assertions d) → keeps_db (spent id) (exec f).
Proof. intros Hf. apply keeps_db_exec. intros d a d' Hd E. eapply spent_same; [by eapply Hf|done]. Qed.
Lemma issue_spent id i binding ttl single : keeps_db (spent id) (issue i binding ttl single).
Proof.
  intros w Hw. destruct (issue i binding ttl single w) as [r w'] eqn:E. apply issue_inv in E. cbn [snd].
  destruct r as [t|e]; [|by rewrite E]. by destruct E as (row&issued&_&_&_&_&_&_&_&_&_&_&_&_&->).
Qed.
Lemma spend_spent id claims : keeps_db (spent id) (spend claims).
Proof.
  intros w Hw. destruct (spend claims w) as [[u|e] w'] eqn:E; cbn [snd].
  - apply spend_Ok in E as (Hn&row&->). unfold spent. cbn [auth_spent_assertions set_auth_spent_assertions].
    destruct (decide (jwt.ID claims = id)) as [->|]; [rewrite lookup_insert_eq; by eexists|by rewrite lookup_insert_ne].
  - unfold spend in E. rewrite bind_now in E. set (w1 := set_clock _ w) in E. unfold bind, attempt in E.
    match type of E with context [exec ?f w1] => destruct (exec_cases f w1) as [(?&Ee&_)|(a&d&Hd&Ee)] end; rewrite Ee in E; [|done].
    match type of E with context [query ?f ?v] => destruct (query_cases f v) as [Eq|Eq] end; rewrite Eq in E;
      [by injection E as _ <-|]. destruct (auth_spent_assertions _ !! _); by injection E as _ <-.
Qed.
Lemma Login_spent id assertion : keeps_db (spent id) (LoginInstance assertion).
Proof.
  intros w Hw. destruct (LoginInstance assertion w) as [r w'] eqn:E. apply Login_cases in E. cbn [snd].
  destruct r as [t|e]; [|by rewrite E]. destruct E as (claims&w1&w2&w3&v&Ev&_&Es&En&Ei&->).
  pose proof (issue_spent id (jwt.Subject claims) NoBinding InstanceTTL reusable w3) as Hi. rewrite Ei in Hi. apply Hi.
  apply enrol_Ok in En as (row&_&_&_&_&Hs). rewrite Hs || (unfold spent; rewrite Hs).
  pose proof (spend_spent id claims (tick w1)) as Hsp. rewrite Es in Hsp. apply Hsp.
  pose proof (verify_effect assertion w) as Hv. rewrite Ev in Hv. cbn [snd] in Hv. cbn [database tick set_faults]. by rewrite Hv.
Qed.

Lemma silent_spent {A} id (m : M World A) : keeps_db (spent id) m → keeps_db (spent id) (silent m).
Proof. intros Hm. apply keeps_bind; [done|]. intros ?. apply keeps_ret. Qed.
Lemma issues_spent id m : keeps_db (spent id) m → keeps_db (spent id) (issues m).
Proof. intros Hm. apply keeps_bind; [done|]. intros ?. apply keeps_ret. Qed.
Lemma Exchange_keeps_spent id presented binding ttl : keeps_db (spent id) (Exchange presented binding ttl).
Proof.
  unfold Exchange. do 2 (case_match; [apply keeps_fail|]). apply keeps_db_with_tx, keeps_bind; [|intros ?; apply issue_spent].
  intros w Hw. destruct (consume presented w) as [[i|e] w'] eqn:E; cbn [snd].
  - by apply consume_Ok in E as (tk&ir&expiry&t&_&_&_&_&_&_&_&_&_&->).
  - revert E. unfold consume. unfold bind at 1.
    destruct (query_cases (token_of (fingerprint presented)) w) as [->| ->]; [by intros [= _ <-]|].
    destruct (token_of _ _) as [[token identity]|]; [|by intros [= _ <-]]. unfold bind at 1, lift_result.
    destruct (parse_time _); [|by intros [= _ <-]]. do 2 (case_match; [by intros [= _ <-]|]). rewrite bind_now.
    case_match; [by intros [= _ <-]|]. rewrite bind_now. unfold bind.
    match goal with |- context [exec ?f ?v] => destruct (exec_cases f v) as [(?&->&_)|(n&d&Hd&->)] end; [by intros [= _ <-]|].
    assert (spent id d) as Hsp.
    { revert Hd. unfold consume_row. repeat case_match; by intros [= _ <-]. }
    case_match; by intros [= _ <-].
Qed.
Lemma act_spent id a : purges_spent a = false → keeps_db (spent id) (act a).
Proof.
  destruct a; intros Ha; try discriminate Ha; cbn [act]; try apply silent_spent; try apply issues_spent.
  - unfold RegisterIdentity. apply keeps_bind; [apply keeps_lift|]. intros _. apply keeps_bind; [by apply keeps_db_same|].
    intros t. apply keeps_bind.
    { apply keeps_attempt, keeps_spent_exec. intros d u d'. unfold insert_identity. case_match; by intros [= _ <-]. }
    intros [?|?]; [apply keeps_ret|].
    apply keeps_bind; [apply keeps_db_same, same_db_attempt, identityOn_db|]. intros [?|?]; apply keeps_fail.
  - unfold DisableIdentity. apply keeps_bind; [by apply keeps_db_same|]. intros t. apply keeps_bind.
    + apply keeps_spent_exec. intros d n d'. unfold disable_row. repeat case_match; by intros [= <- <-].
    + intros n. case_match; [|apply keeps_ret]. apply keeps_bind; [apply keeps_db_same, identityOn_db|]. intros ?. apply keeps_ret.
  - apply issue_spent.
  - apply issue_spent.
  - apply keeps_db_same, Authenticate_db.
  - apply Exchange_keeps_spent.
  - apply Login_spent.
  - unfold Revoke. case_match; [apply keeps_fail|]. apply keeps_bind; [by apply keeps_db_same|]. intros t. by apply keeps_db_exec_.
  - apply keeps_bind; [by apply keeps_db_same|]. intros t. apply keeps_spent_exec. by intros d n d' [= _ <-].
  - apply keeps_bind; [by apply keeps_db_same|]. intros t. apply keeps_spent_exec. by intros d n d' [= _ <-].
  - intros w Hw. by apply (spent_same id (database w)).
Qed.
Lemma run_spent id l w : spent id (database w) → forallb (fun a => negb (purges_spent a)) l = true → spent id (database (run_actions l w)).
Proof.
  revert w. induction l as [|a l IH]; intros w Hs Hl; [done|]. cbn [run_actions forallb] in *. apply andb_true_iff in Hl as [Ha Hl].
  apply IH; [|done]. apply negb_true_iff in Ha. by apply (act_spent id a Ha w).
Qed.

(** C33. An instance login succeeds only for an assertion the verifier accepted
  whose identifier was not yet spent; it records the identifier, and the token
  is for the registered, not disabled instance identity of the claims' subject
  and tenant, for one hour.  An assertion of the same identifier is refused
  from then on and changes nothing, as long as spent assertions are not purged. *)
Theorem LoginInstance_sound (assertion : string) (w w' : World) (t : Token) (l : list action)
  (Hrun : LoginInstance assertion w = (Ok t, w')) (Hkept : forallb (fun a => negb (purges_spent a)) l = true) :
  ∃ claims w1 row tk issued, assertions_Verify assertion w = (Ok claims, w1) ∧
    ¬ spent (jwt.ID claims) (database w) ∧ spent (jwt.ID claims) (database w') ∧
    auth_identities (database w') !! jwt.Subject claims = Some row ∧ ai_kind row = authn.KindInstance ∧
    ai_tenant row = jwt.Tenant claims ∧ ai_disabled_at row = None ∧ authn.ID (t_Identity t) = jwt.Subject claims ∧
    authn.Tenant (t_Identity t) = jwt.Tenant claims ∧
    auth_tokens (database w') !! fingerprint (t_Value t) = Some tk ∧
    tk = MkToken (jwt.Subject claims) NoBinding (FormatTime issued) (FormatTime (issued + InstanceTTL)) None reusable None ∧
    let w2 := run_actions l w' in ∀ again claims2 w3, assertions_Verify again w2 = (Ok claims2, w3) → jwt.ID claims2 = jwt.ID claims →
      (∃ e, fst (LoginInstance again w2) = Err e) ∧ database (snd (LoginInstance again w2)) = database w2.
Proof.
  apply Login_cases in Hrun as (claims&w1&w2&w3&v&Ev&_&Es&En&Ei&Hdb).
  pose proof (verify_effect assertion w) as Hv. rewrite Ev in Hv. cbn [snd] in Hv.
  apply spend_Ok in Es as (Hns&srow&Hs). cbn [database tick set_faults] in Hns, Hs. rewrite Hv in Hns.
  apply enrol_Ok in En as (row&Hrow&HT&HK&_&Hsp). apply issue_inv in Ei as (row'&issued&Hrow'&Hdis&HI&HT'&_&_&_&_&_&_&_&_&Hv').
  assert (row' = row) as -> by congruence. assert (spent (jwt.ID claims) (database w')) as Hspent.
  { unfold spent. rewrite Hdb, Hv'. cbn [auth_spent_assertions set_auth_tokens]. rewrite Hsp, Hs. cbn [auth_spent_assertions set_auth_spent_assertions].
    rewrite lookup_insert_eq. by eexists. }
  eexists claims, w1, row, _, issued. rewrite Hdb, Hv'. cbn [auth_identities auth_tokens set_auth_tokens]. rewrite lookup_insert_eq.
  split_and!; try done; [by unfold spent; rewrite Hns; intros []|by rewrite Hdb, Hv' in Hspent|congruence|].
  intros again claims2 w5. set (w4 := run_actions l w'). intros Ev2 Hid. destruct (LoginInstance again w4) as [r w6] eqn:E. cbn [fst snd]. apply Login_cases in E.
  destruct r as [t2|e]; [|by eauto]. exfalso. destruct E as (c&v1&v2&v3&v4&Ev3&_&Es3&_). rewrite Ev2 in Ev3. simplify_eq.
  apply spend_Ok in Es3 as [Hn _]. cbn [database tick set_faults] in Hn. pose proof (verify_effect again w4) as Hvv. rewrite Ev2 in Hvv.
  cbn [snd] in Hvv. rewrite Hvv, Hid in Hn. destruct (run_spent (jwt.ID claims) l w' Hspent Hkept) as [r Hr]. fold w4 in Hr. congruence.
Qed.
End single_use.

(** ** Examples *)
Section examples.
Import sample.
(** A verifier of one assertion. *)
#[local] Instance sample_assertions : Assertions := fun assertion w =>
  (if String.eqb assertion "signed-by-control"
   then Ok (jwt.MkClaims "control" "instance-7" ["marsec"] 1700000300 0 1700000000 "jti-1" "acme")
   else Err [jwt.ErrSignature], w).
#[local] Instance sample_assertions_laws : AssertionsLaws sample_assertions.
Proof. by split. Qed.
Local Definition w0 : World := fresh_world (fun n => (1700000000 + Z.of_nat n * 10) * Second) (fun n => Z.of_nat n).
Local Definition w1 : World := snd (RegisterIdentity "svc-1" authn.KindService "acme" w0).
Local Definition w2 : World := snd (Manager_Issue "svc-1" "10.0.0.7" DefaultTTL w1).
Local Definition w3 : World := snd (IssueBootstrap "svc-1" BootstrapTTL w2).
Local Definition value (w : World) : list Z := bytes_of_string (tokenPrefix +:+ RawURLEncode (draw tokenBytes (entropy w))).
Local Definition session (value : list Z) (expires : Z) : Token :=
  MkAuthToken value (authn.MkIdentity "svc-1" authn.KindService "acme" (1700000000 * Second) false) (expires * Second).
Lemma issued_ok : fst (Manager_Issue "svc-1" "10.0.0.7" DefaultTTL w1) = Ok (session (value w1) 1700003610).
Proof. by vm_compute. Qed.
Lemma authenticated_ok : fst (Authenticate (value w1) "10.0.0.7" w3) = Ok (t_Identity (session (value w1) 0)).
Proof. by vm_compute. Qed.
Lemma exchanged_ok : fst (Exchange (value w2) "" Hour w3) = Ok (session (value w3) 1700003650).
Proof. by vm_compute. Qed.
Lemma login_ok : fst (LoginInstance "signed-by-control" w3) =
  Ok (MkAuthToken (value w3) (authn.MkIdentity "instance-7" authn.KindInstance "acme" (1700000040 * Second) false) (1700003650 * Second)).
Proof. vm_compute. reflexivity. Qed.

#[local] Opaque Manager_Issue Exchange LoginInstance Authenticate IssueBootstrap.
Lemma Issue_Authenticate_witness :
  ∃ w', Authenticate (value w1) "10.0.0.7" w2 = (Ok (t_Identity (session (value w1) 1700003610)), w') ∧
    database w' = database w2 ∧ authn.ID (t_Identity (session (value w1) 1700003610)) = "svc-1".
Proof.
  refine (Issue_Authenticate "svc-1" "10.0.0.7" DefaultTTL w1 w2 (session (value w1) 1700003610) (pair_fst _ _ issued_ok) _ _ _).
  - intros n. by vm_compute.
  - split; by vm_compute.
  - by vm_compute.
Defined.
Lemma Authenticate_sound_witness :
  let i := authn.MkIdentity "svc-1" authn.KindService "acme" (1700000000 * Second) false in
  let w4 := snd (Authenticate (value w1) "10.0.0.7" w3) in
  database w4 = database w3 ∧
  ∃ token identity expiry, auth_tokens (database w3) !! fingerprint (value w1) = Some token ∧
    auth_identities (database w3) !! authn.ID i = Some identity ∧ tk_identity_id token = authn.ID i ∧
    authn.Kind i = ai_kind identity ∧ authn.Tenant i = ai_tenant identity ∧
    tk_single_use token ≠ singleUse ∧ tk_revoked_at token = None ∧ ai_disabled_at identity = None ∧
    tk_binding token = "10.0.0.7" ∧ ParseTime (tk_expires_at token) = Some expiry ∧ clock w3 0%nat < expiry.
Proof. exact (Authenticate_sound (value w1) "10.0.0.7" w3 _ _ (pair_fst _ _ authenticated_ok)). Defined.

(** After the exchange: a second exchange, a login and a revocation. *)
Local Definition history : list action :=
  [AExchange (value w2) "" Hour; ALogin "signed-by-control"; ARevokeIdentity "svc-1"; APurge].
Local Definition w4 : World := snd (Exchange (value w2) "" Hour w3).
Lemma history_fresh : fingerprint (value w2) ∉ issued_hashes history w4.
Proof. apply (bool_decide_unpack _). by vm_compute. Qed.
Lemma Exchange_once_witness :
  let t := session (value w3) 1700003650 in
  (∃ token identity expiry, auth_tokens (database w3) !! fingerprint (value w2) = Some token ∧ tk_single_use token = singleUse ∧
     tk_consumed_at token = None ∧ tk_revoked_at token = None ∧ authn.ID (t_Identity t) = tk_identity_id token ∧
     auth_identities (database w3) !! tk_identity_id token = Some identity ∧ ai_disabled_at identity = None ∧
     ParseTime (tk_expires_at token) = Some expiry ∧ clock w3 0%nat < expiry) ∧
  let w' := run_actions history w4 in
  (∃ e, fst (Exchange (value w2) "" Hour w') = Err e) ∧ database (snd (Exchange (value w2) "" Hour w')) = database w'.
Proof.
  exact (Exchange_once (value w2) "" "" Hour Hour w3 w4 (session (value w3) 1700003650) history (pair_fst _ _ exchanged_ok) history_fresh).
Defined.

Local Definition logged_in : Token :=
  MkAuthToken (value w3) (authn.MkIdentity "instance-7" authn.KindInstance "acme" (1700000040 * Second) false) (1700003650 * Second).
Lemma LoginInstance_sound_witness :
  let w' := snd (LoginInstance "signed-by-control" w3) in
  ∃ claims v row tk issued, assertions_Verify "signed-by-control" w3 = (Ok claims, v) ∧
    ¬ spent (jwt.ID claims) (database w3) ∧ spent (jwt.ID claims) (database w') ∧
    auth_identities (database w') !! jwt.Subject claims = Some row ∧ ai_kind row = authn.KindInstance ∧
    ai_tenant row = jwt.Tenant claims ∧ ai_disabled_at row = None ∧ authn.ID (t_Identity logged_in) = jwt.Subject claims ∧
    authn.Tenant (t_Identity logged_in) = jwt.Tenant claims ∧
    auth_tokens (database w') !! fingerprint (t_Value logged_in) = Some tk ∧
    tk = MkToken (jwt.Subject claims) NoBinding (FormatTime issued) (FormatTime (issued + InstanceTTL)) None reusable None ∧
    let w2 := run_actions history w' in ∀ again claims2 w3, assertions_Verify again w2 = (Ok claims2, w3) → jwt.ID claims2 = jwt.ID claims →
      (∃ e, fst (LoginInstance again w2) = Err e) ∧ database (snd (LoginInstance again w2)) = database w2.
Proof. exact (LoginInstance_sound "signed-by-control" w3 _ logged_in history (pair_fst _ _ login_ok) eq_refl). Defined.
End examples.
End auth.
