(* ===== verification/Lockout.v ===== *)
(** modules/auth once more: an identity that was disabled stays disabled, and is
  never let in again, whatever the module is asked to do. *)
From Stdlib Require Import ZArith Lia.
From S2P Require Import Prelude GoStrings GoTime World Policy Httpx Envelope Interfaces Jwt Auth.

Module lockout.
Import auth.
Definition disabled (id : string) (d : Db) : Prop := ∃ row, auth_identities d !! id = Some row ∧ ai_disabled_at row ≠ None.
Section theory.
Context `{Primitives} `{As : Assertions} `{!AssertionsLaws As} (id : string).
Notation stays m := (keeps_db (disabled id) m).
Lemma disabled_same d d' : auth_identities d' = auth_identities d → disabled id d → disabled id d'.
Proof. unfold disabled. by intros ->. Qed.
Lemma stays_exec {A} (f : Db → result A * Db) : (∀ d a d', f d = (Ok a, d') → auth_identities d' = auth_identities d) → stays (exec f).
Proof. intros Hf. apply keeps_db_exec. intros d a d' Hd E. eapply disabled_same; [by eapply Hf|done]. Qed.
Lemma stays_insert i kind tenant t : stays (exec (insert_identity i kind tenant t)).
Proof.
  apply keeps_db_exec. intros d a d' (row&Hrow&Hd). unfold insert_identity. destruct (auth_identities d !! i) eqn:Ei; [done|]. intros [= _ <-].
  exists row. split; [|done]. cbn. rewrite lookup_insert_ne by (intros ->; congruence). done.
Qed.
Lemma stays_disable i t : stays (exec (disable_row i t)).
Proof.
  apply keeps_db_exec. intros d a d' (row&Hrow&Hd). unfold disable_row. destruct (auth_identities d !! i) as [r|] eqn:Ei; [|by intros [= _ <-]; exists row].
  destruct (ai_disabled_at r) eqn:Er; intros [= _ <-]; [by exists row|]. exists row. split; [|done]. cbn. rewrite lookup_insert_ne by (intros ->; congruence). done.
Qed.
Lemma stays_now : stays now.
Proof. by apply keeps_db_same. Qed.
Lemma stays_query {A} (f : Db → A) : stays (query f).
Proof. apply keeps_db_same, same_db_query. Qed.
Lemma stays_identityOn i : stays (identityOn i).
Proof. apply keeps_db_same, identityOn_db. Qed.
Lemma stays_issue i binding ttl single : stays (issue i binding ttl single).
Proof.
  intros w Hw. destruct (issue i binding ttl single w) as [r w'] eqn:E. apply issue_inv in E. cbn [snd].
  destruct r as [t|e]; [|by rewrite E]. by destruct E as (row&issued&_&_&_&_&_&_&_&_&_&_&_&_&->).
Qed.
Lemma stays_if {A} (b : bool) (m k : M World A) : stays m → stays k → stays (if b then m else k).
Proof. by destruct b. Qed.
Lemma stays_bind {A B} (m : M World A) (k : A → M World B) : stays m → (∀ x, stays (k x)) → stays (bind m k).
Proof. apply keeps_bind. Qed.
Lemma stays_ret {A} (x : A) : stays (ret x).
Proof. apply keeps_ret. Qed.
Lemma stays_fail {A} e : stays (fail (A:=A) e).
Proof. apply keeps_fail. Qed.
Lemma stays_lift {A} (r : result A) : stays (lift_result r).
Proof. apply keeps_lift. Qed.
Lemma stays_attempt {A} (m : M World A) : stays m → stays (attempt m).
Proof. apply keeps_attempt. Qed.
Lemma stays_verify assertion : stays (assertions_Verify assertion).
Proof. intros w Hw. by rewrite verify_effect. Qed.
Create HintDb lockout discriminated.
Hint Resolve stays_insert stays_disable stays_now stays_query stays_identityOn stays_issue stays_if stays_bind stays_ret stays_fail stays_lift stays_attempt
  stays_verify : lockout.
Ltac walk := repeat (match goal with
  | |- keeps_db _ (bind _ _) => apply stays_bind; [|intros ?]
  | |- keeps_db _ (match ?x with _ => _ end) => destruct x
  | |- keeps_db _ (with_tx _) => apply keeps_db_with_tx
  | |- keeps_db _ (attempt _) => apply stays_attempt
  | |- keeps_db _ (exec _) => first [apply stays_insert|apply stays_disable|apply stays_exec; intros ? ? ? ; cbn; repeat case_match; by intros [= <- <-]]
  | |- keeps_db _ _ => solve [auto 2 with lockout]
  end; cbv beta zeta).
Lemma stays_consume presented : stays (consume presented).
Proof. unfold consume. walk. unfold consume_row. walk. Qed.
Hint Resolve stays_consume : lockout.
Lemma stays_act a : stays (act a).
Proof.
  destruct a; cbn [act]; unfold silent, issues.
  - unfold RegisterIdentity. walk.
  - unfold DisableIdentity. walk.
  - unfold Manager_Issue. walk.
  - unfold IssueBootstrap. walk.
  - apply stays_bind; [apply keeps_db_same, Authenticate_db|intros ?; walk].
  - unfold Exchange. walk.
  - unfold LoginInstance, spend, enrol, masking_disabled, insert_spent. walk.
  - unfold Revoke. walk. apply keeps_db_exec_. intros d. by apply disabled_same.
  - unfold Manager_RevokeIdentity. walk.
  - unfold PurgeExpired. walk.
  - unfold PurgeSpentAssertions. walk.
  - intros w Hw. by apply (disabled_same (database w)).
Qed.
Lemma stays_run l w : disabled id (database w) → disabled id (database (run_actions l w)).
Proof. revert w. induction l as [|a l IH]; intros w Hw; [done|]. cbn [run_actions]. apply IH. by apply (stays_act a w). Qed.
Lemma DisableIdentity_Ok w u w' : DisableIdentity id w = (Ok u, w') → disabled id (database w').
Proof.
  unfold DisableIdentity. rewrite bind_now. set (w0 := set_clock _ w). intros (n&w1&Ee&E)%bind_ok_inv. apply exec_Ok in Ee as (d&Hd&->).
  unfold disable_row in Hd. destruct (auth_identities (database w0) !! id) as [row|] eqn:Erow.
  - destruct (ai_disabled_at row) as [at_|] eqn:Eat; injection Hd as <- <-; cbn [Z.eqb] in E.
    + apply bind_ok_inv in E as (i&w2&Ei&E). injection E as _ <-. apply identityOn_Ok in Ei as [-> _]. exists row. split; [exact Erow|by rewrite Eat].
    + injection E as _ <-. eexists. cbn. rewrite lookup_insert_eq. by split.
  - injection Hd as <- <-. cbn [Z.eqb] in E. apply bind_ok_inv in E as (i&w2&Ei&_). apply identityOn_Ok in Ei as (_&row&Hrow&_).
    change (auth_identities (database w0) !! id = Some row) in Hrow. congruence.
Qed.
(** No token of the identity is left that was not revoked. *)
Definition all_revoked (d : Db) : Prop := ∀ hash row, auth_tokens d !! hash = Some row → tk_identity_id row = id → tk_revoked_at row ≠ None.
Lemma RevokeIdentity_Ok w n w' : Manager_RevokeIdentity id w = (Ok n, w') → all_revoked (database w') ∧ auth_identities (database w') = auth_identities (database w).
Proof.
  unfold Manager_RevokeIdentity. rewrite bind_now. intros (d&[= <- <-]&->)%exec_Ok. split; [|done]. intros hash row. cbn.
  rewrite lookup_fmap. intros (row0&Hrow0&->)%fmap_Some. destruct (owned id row0) eqn:Eo; cbn.
  - by destruct (tk_revoked_at row0).
  - intros <-. unfold owned in Eo. rewrite String.eqb_refl in Eo. by destruct (tk_revoked_at row0).
Qed.
(** Nothing that names the identity comes of the credentials. *)
Definition shut_out (w : World) : Prop :=
  (∀ presented binding i w', Authenticate presented binding w = (Ok i, w') → authn.ID i ≠ id) ∧
  (∀ presented binding ttl t w', Exchange presented binding ttl w = (Ok t, w') → authn.ID (t_Identity t) ≠ id) ∧
  (∀ binding ttl single t w', issue id binding ttl single w ≠ (Ok t, w')) ∧
  (∀ assertion t w', LoginInstance assertion w = (Ok t, w') → authn.ID (t_Identity t) ≠ id).
Lemma disabled_no_issue binding ttl single w t w' : disabled id (database w) → issue id binding ttl single w ≠ (Ok t, w').
Proof. intros (row&Hrow&Hd) E. apply issue_inv in E as (row'&issued&Hrow'&Hn&_). congruence. Qed.
Lemma disabled_shut_out w : disabled id (database w) → shut_out w.
Proof.
  intros Hw. split_and!.
  - intros presented binding i w' E Hi. apply Authenticate_Ok in E as [_ (token&row&expiry&_&Hrow&_&_&_&_&_&Hn&_)].
    destruct Hw as (row'&Hrow'&Hd). rewrite Hi in Hrow. congruence.
  - intros presented binding ttl t w' E Hi. apply Exchange_Ok in E as (token&row&expiry&_&_&_&_&HI&Hrow&Hn&_).
    destruct Hw as (row'&Hrow'&Hd). rewrite <- HI, Hi in Hrow. congruence.
  - intros binding ttl single t w'. by apply disabled_no_issue.
  - intros assertion t w' E Hi. apply Login_cases in E as (claims&w1&w2&w3&v&Ev&_&Es&En&Ei&_).
    pose proof (stays_verify assertion w Hw) as F1. rewrite Ev in F1. cbn [snd] in F1.
    assert (stays (spend claims)) as Hs by (unfold spend, insert_spent; walk). specialize (Hs (tick w1) F1). rewrite Es in Hs.
    assert (stays (enrol claims)) as He by (unfold enrol; walk). specialize (He w2 Hs). rewrite En in He. cbn [snd] in He.
    pose proof Ei as Ei'. apply issue_inv in Ei' as (row&issued&_&_&HI&_). rewrite Hi in HI. rewrite <- HI in Ei. by apply disabled_no_issue in Ei.
Qed.
End theory.
End lockout.
