(* ===== verification/Pages.v ===== *)
(** modules/ui: the browser interface, a fixed set of embedded files behind fixed
  paths, and modules/observe: the page of metrics.  What the embedded files hold
  is a parameter. *)
From Stdlib Require Import ZArith Lia.
From S2P Require Import Prelude GoStrings GoTime Json World Policy Httpx Metrics.

Module ui.
(** [assets.ReadFile] *)
Class Assets := ReadFile : string → option string.
Record asset := MkAsset { file : string; contentType : string }.
Definition pathIndex : string := "/ui/".
Definition pathTheme : string := "/ui/meridian.css".
Definition pathStyles : string := "/ui/app.css".
Definition pathScript : string := "/ui/app.js".
Definition contentSecurityPolicy : string :=
  "default-src 'none'; script-src 'self'; style-src 'self'; connect-src 'self'; img-src 'self' data:; " +:+
  "form-action 'none'; frame-ancestors 'none'; base-uri 'none'; object-src 'none'".
Definition served : gmap string asset :=
  <[pathIndex := MkAsset "assets/index.html" "text/html; charset=utf-8"]>
  (<[pathTheme := MkAsset "assets/meridian.css" "text/css; charset=utf-8"]>
  (<[pathStyles := MkAsset "assets/app.css" "text/css; charset=utf-8"]>
  (<[pathScript := MkAsset "assets/app.js" "text/javascript; charset=utf-8"]> ∅))).
Definition PathsAllowedWhileSealed : list string := [pathIndex; pathTheme; pathStyles; pathScript].
Section serve.
Context `{Assets}.
Definition serve : Handler := fun r w =>
  match served !! URLPath r with
  | None => (httpx.Problem StatusNotFound "not_found", w)
  | Some wanted =>
      match ReadFile (file wanted) with
      | None => (httpx.Problem StatusInternalServerError "internal_error", w)
      | Some body =>
          (httpx.set_header "Content-Type" (contentType wanted)
             (httpx.set_header "Content-Security-Policy" contentSecurityPolicy
             (httpx.set_header "Cross-Origin-Opener-Policy" "same-origin"
             (httpx.set_header "Cross-Origin-Resource-Policy" "same-origin"
             (httpx.set_header "Permissions-Policy" "geolocation=(), camera=(), microphone=(), payment=()"
                (MkResponse StatusOK [] None (Some body)))))), w)
      end
  end.
Definition routes : list (string * Handler) :=
  [("GET " +:+ pathIndex, serve); ("GET " +:+ pathTheme, serve); ("GET " +:+ pathStyles, serve); ("GET " +:+ pathScript, serve)].
(** Only the listed files are served, and every page carries the policy that
  keeps scripts from elsewhere out; nothing changes. *)
Lemma serve_listed r w : snd (serve r w) = w ∧
  (status (fst (serve r w)) = StatusOK → URLPath r ∈ PathsAllowedWhileSealed ∧
     ("Content-Security-Policy", contentSecurityPolicy) ∈ headers (fst (serve r w))).
Proof.
  unfold serve. destruct (served !! URLPath r) as [wanted|] eqn:E; [|done]. destruct (ReadFile _); [|done]. split; [done|]. intros _. split.
  - unfold served in E. unfold PathsAllowedWhileSealed.
    repeat (rewrite lookup_insert_Some in E; destruct E as [[<- _]|[_ E]]; [set_solver|]). done.
  - cbn. set_solver.
Qed.
End serve.
End ui.

Module observe.
Definition pathMetrics : string := "/v1/sys/metrics".
Definition contentType : string := "text/plain; version=0.0.4; charset=utf-8".
Definition PathsAllowedWhileSealed : list string := [pathMetrics].
Definition handleMetrics (registry : metrics.Registry World) : Handler := fun _ w =>
  let '(text, w) := metrics.Expose registry w in
  (httpx.set_header "Content-Type" contentType (MkResponse StatusOK [] None (Some text)), w).
Definition routes (registry : metrics.Registry World) : list (string * Handler) := [("GET " +:+ pathMetrics, handleMetrics registry)].
End observe.
