(* ===== verification/Telemetry.v ===== *)
(** internal/app/telemetry.go: what the server counts and measures.  The two
  counters point to maps in the memory of the process; the gauges read the seal,
  the audit log and the leases when they are asked. *)
From Stdlib Require Import ZArith Lia SpecFloat.
From S2P Require Import Prelude GoStrings GoTime Json World Policy Httpx Envelope AuditTrail SealManager Interfaces GoNumbers GoUrl Metrics Lease.

Module telemetry.
Import metrics.
Definition requests : Cell World := MkCell request_counts set_request_counts.
Definition audited : Cell World := MkCell audit_counts set_audit_counts.

Section counting.
Context `{Primitives}.
Definition read_initialized (w : World) : spec_float * World :=
  match seal.GetStatus w with
  | (Ok status, w) => (if String.eqb (seal.State status) seal.StateUninitialized then float64 0 else float64 1, w)
  | (Err _, w) => (float64 0, w)
  end.
Definition read_sealed (w : World) : spec_float * World := (if seal.IsUnsealed w then float64 0 else float64 1, w).
Definition read_records (w : World) : spec_float * World := (float64 (al_sequence (audit_log w)), w).
Definition read_leases (w : World) : spec_float * World :=
  match lease.CountActive w with (Ok held, w) => (float64 held, w) | (Err _, w) => (float64 (-1), w) end.
Definition instruments : list (collector World) :=
  [Counter "marsec_http_requests_total" "HTTP requests served, by method and status." ["method"; "status"] requests;
   Counter "marsec_audit_records_total" "Audit records offered to the sink, by outcome." ["outcome"] audited;
   GaugeFunc "marsec_initialized" "Whether the store has been initialized." read_initialized;
   GaugeFunc "marsec_sealed" "Whether the store is sealed and therefore serving nothing." read_sealed;
   GaugeFunc "marsec_audit_records" "Records written to the audit log since it was created." read_records;
   GaugeFunc "marsec_leases_active" "Leases currently held across every tenant." read_leases].
Definition newTelemetry : result (Registry World) := register_all instruments New.

(** What is counted is what was answered: the status that was sent first. *)
Definition middleware : httpx.Middleware := fun next r w =>
  let '(resp, w) := next r w in (resp, Inc requests [Method r; StatusText (status resp)] w).
(** The registry that is built: the metrics in the order of their names. *)
Definition sorted_instruments : list (collector World) := order_by name instruments.
Lemma newTelemetry_Ok : ∃ r, newTelemetry = Ok r ∧ collectors r = sorted_instruments ∧ well_formed r.
Proof.
  eexists. split; [reflexivity|]. split; [reflexivity|]. intros n m Hm. cbn [metrics] in Hm.
  repeat (rewrite lookup_insert_Some in Hm; destruct Hm as [[_ <-]|[_ Hm]]; [split; [reflexivity|repeat constructor|reflexivity]|]). done.
Qed.
(** The page of metrics, read back line by line, gives every sample of every
  instrument with the labels and the value it has, the instruments in the order
  of their names, and nothing else: no method of a request and no other label can
  add a line or change one. *)
Theorem metrics_page (w : World) : ∃ r, newTelemetry = Ok r ∧
  List.map name (collectors r) = ["marsec_audit_records"; "marsec_audit_records_total"; "marsec_http_requests_total"; "marsec_initialized";
    "marsec_leases_active"; "marsec_sealed"] ∧
  let page := fst (Expose r w) in scrape (String.length page) page = Some (readings (fst (gather (collectors r) w))).
Proof.
  destruct newTelemetry_Ok as (r&Hr&Hc&Hw). exists r. split; [done|]. split; [by rewrite Hc|]. by apply Expose_scrape.
Qed.

Section sink.
Context (inner : audit.Event → M World unit).
Definition counting_Append (event : audit.Event) : M World unit := fun w =>
  match inner event w with
  | (Err e, w) => (Err e, Inc audited ["refused"] w)
  | (Ok _, w) => (Ok tt, Inc audited ["written"] w)
  end.
End sink.
End counting.
End telemetry.
