(* ===== verification/App.v ===== *)
(** internal/app: the modules put together (app.go).  What each module is given
  for its interfaces, the chain of middleware in front of the routes, and the
  start and end of the process.

  net/http's choice of a pattern for a request is [mux.find] of GoMux.v. *)
From Stdlib Require Import ZArith Lia SpecFloat.
From S2P Require Import Prelude GoStrings GoTime Base64 Json World Policy Httpx Envelope AuditTrail Migrate Migrations SealManager PolicyStore Cipher Walk SecretStore Interfaces GoUrl Metrics GoMux Ratelimit Config Lease Param Rotate SecretHttp Jwt Auth Pages Telemetry.

Module app.
#[export] Existing Instance auth.token_revoker.

Section assemble.
Context `{Primitives}.

(** sealingSink over the audit log, and countingSink over that. *)
Definition sealing_Append (event : audit.Event) : M World unit := fun w =>
  match audit.Append event w with
  | (Ok _, w) => (Ok tt, w)
  | (Err e, w) => (Err e, if seal.IsUnsealed w then snd (seal.Seal w) else w)
  end.
#[export] Instance counting_sink : Sink := telemetry.counting_Append sealing_Append.
(** The policy manager is secret's, param's and lease's Authorizer; rotation asks
  it through rotationAuthorizer, for another capability. *)
#[export] Instance policy_authorizer : Authorizer := {
  Authorize := manager.Authorize; Permitted := manager.Permitted }.
Definition rotation_Permitted (identity : authn.Identity) (tenant path : string) : M World bool :=
  let! decision := manager.Authorize identity tenant path authz.Write in ret (authz.Allowed decision).
Definition rotation_authorizer : Authorizer := {|
  Authorize := manager.Authorize; Permitted := rotation_Permitted |}.
(** leaseIssuer *)
Definition leaseIssuer_Issue (tenant identityID path : string) (version ttl : Z) : M World (string * Z) :=
  let! held := lease.Manager_Issue tenant identityID path version ttl in ret (lease.ID held, lease.ExpiresAt held).
#[export] Instance lease_issuer : Leases := leaseIssuer_Issue.
(** secretReader *)
Definition secretReader_Reveal (tenant path : string) : M World (list Z * Z) :=
  let! value := secret.Service_Get tenant path 0 in ret (secret.Data value, secret.v_Version value).
#[export] Instance secret_reader : Secrets := secretReader_Reveal.
(** keyRotator *)
Definition keyRotator_KEKVersion : M World Z := let! status := seal.GetStatus in ret (seal.KEKVersion status).
Definition keyRotator_Rotate : M World (Z * Z) := let! rotation := seal.Rotate in ret (seal.From rotation, seal.To rotation).
#[export] Instance key_rotator : Keys := { KEKVersion := keyRotator_KEKVersion; RotateKEK := keyRotator_Rotate }.
(** secretRewrapper and paramRewrapper *)
Definition rotation_subjects : list rotate.Subject :=
  [rotate.MkSubject "secret" secret.Service_Rewrap; rotate.MkSubject "param" param.Rewrap].
End assemble.

(** ** What start-up computes from the configuration *)
Record App := MkApp {
  cfg : config.Config; verifier : option jwt.Verifier;
  logins : ratelimit.Limiter; requests : ratelimit.Limiter; registry : metrics.Registry World }.

Definition rateLimits (c : config.Config) : result (ratelimit.Limiter * ratelimit.Limiter) :=
  let? logins := ratelimit.New (ratelimit.MkOptions (config.LoginRatePerMinute c) (config.LoginBurst c) 0) in
  let? requests := ratelimit.New (ratelimit.MkOptions (config.RequestRatePerMinute c) (config.RequestBurst c) 0) in
  Ok (logins, requests).
(** [jwks] is the key set file, when it can be read. *)
Definition instanceVerifier (jwks : result string) (c : config.Config) : result (option jwt.Verifier) :=
  if negb (config.InstanceLoginConfigured c) then Ok None
  else
    let? raw := jwks in
    let? keys := jwt.ParseJWKS raw in
    let? v := jwt.NewVerifier (jwt.PublicKey keys) (config.ControlPlaneIssuer c) (config.ControlPlaneAudience c) (config.ControlPlaneSkew c) in
    Ok (Some v).

Section start.
Context `{Primitives} `{Driver}.
Definition assemble (jwks : result string) (c : config.Config) : M World App :=
  sqlite.Migrate "seal" migrations.seal ;!
  sqlite.Migrate "auth" migrations.auth ;!
  sqlite.Migrate "policy" migrations.policy ;!
  sqlite.Migrate "secret" migrations.secret ;!
  sqlite.Migrate "param" migrations.param ;!
  let! verifier := lift_result (instanceVerifier jwks c) in
  let! limits := lift_result (rateLimits c) in
  sqlite.Migrate "lease" migrations.lease ;!
  let! registry := lift_result telemetry.newTelemetry in
  ret (MkApp c verifier (fst limits) (snd limits) registry).
(** The memory a new process has: sealed, with empty buckets and counters. *)
Definition booted (log : AuditLog) (w : World) : World :=
  set_seal_memory sealed_memory (set_audit_log log (set_rotation_busy false (set_login_buckets ∅ (set_request_buckets ∅
    (set_request_counts ∅ (set_audit_counts ∅ w)))))).
(** [sql.DB.Close] *)
Definition db_Close : M World unit := fun w =>
  let '(b, w') := next_fault w in (if b then Err [ErrDriver] else Ok tt, w').
(** [New]: the database is open; [trail] is the audit file, when there is one.
  An error closes what is open again, and what that says is joined to it. *)
Definition New (trail : option (list string)) (jwks : result string) (c : config.Config) : M World App := fun w =>
  match audit.Open trail with
  | Err e => let '(r, w) := db_Close w in (Err (errors_Join e (errors_of r)), w)
  | Ok log =>
      match assemble jwks c (booted log w) with
      | (Ok a, w) => (Ok a, w)
      | (Err e, w) => let '(r, w) := both audit.Close db_Close w in (Err (errors_Join e (errors_of r)), w)
      end
  end.
Definition Close : M World unit := seal.Seal ;! both audit.Close db_Close.
End start.

(** ** The handler *)

Definition requireUnsealed (allowed : list string) : httpx.Middleware := fun next r w =>
  if bool_decide (URLPath r ∈ allowed) || seal.IsUnsealed w then next r w
  else (httpx.Problem StatusServiceUnavailable "sealed", w).
Definition health_path : string := "/v1/sys/health".
Definition handleHealth : Handler := fun _ => reply (httpx.JSON StatusOK (JObj [("status", JStr "ok")])).
Definition not_found : Handler := fun _ => reply (httpx.Problem StatusNotFound "not_found").
Section handler.
Context `{Primitives} `{Ed25519} `{MapOrder} `{ui.Assets} (a : App).
Definition allow_login : string → World → bool * World := ratelimit.Allow (logins a) login_buckets set_login_buckets.
Definition allow_request : string → World → bool * World := ratelimit.Allow (requests a) request_buckets set_request_buckets.
Definition guard : httpx.Middleware := auth.Require_ (Some allow_request).
Definition perSource : httpx.Middleware := auth.perSource (Some allow_login).
Definition sink : option (audit.Event → M World unit) := Some Append.

Definition auth_routes : list (string * Handler) :=
  [("POST /v1/auth/bootstrap/login", perSource (auth.handleBootstrapLogin sink))] ++
  match verifier a with
  | None => []
  | Some v => [("POST /v1/auth/instance/login", perSource (auth.handleInstanceLogin (H0 := jwt.Verify v) sink))]
  end ++
  [("GET /v1/auth/self", guard auth.handleSelf); ("POST /v1/auth/logout", guard auth.handleLogout)].
Definition lease_routes : list (string * Handler) :=
  [("GET /v1/sys/leases", guard lease.handleList); ("PUT /v1/sys/leases/renew", guard lease.handleRenew);
   ("PUT /v1/sys/leases/revoke", guard lease.handleRevoke);
   ("PUT /v1/sys/leases/revoke-prefix", guard lease.handleRevokePrefix)].
Definition param_routes : list (string * Handler) :=
  [("GET /v1/param/data/{tenant}/{path...}", guard param.handleRead); ("PUT /v1/param/data/{tenant}/{path...}", guard param.handleWrite);
   ("DELETE /v1/param/data/{tenant}/{path...}", guard param.handleDelete); ("GET /v1/param/list/{tenant}", guard param.handleList)].
Definition rotate_routes : list (string * Handler) :=
  [("POST /v1/sys/rotate", guard (rotate.handleRotate (H0 := rotation_authorizer) rotation_subjects sink))].
Definition secret_routes : list (string * Handler) :=
  let maxVersions := secret.defaultMaxVersions in
  [("GET /v1/secret/data/{tenant}/{path...}", guard (secret_http.handleRead (config.LeaseTTL (cfg a))));
   ("PUT /v1/secret/data/{tenant}/{path...}", guard (secret_http.handleWrite maxVersions));
   ("DELETE /v1/secret/data/{tenant}/{path...}", guard secret_http.handleDelete);
   ("GET /v1/secret/metadata/{tenant}/{path...}", guard secret_http.handleMetadata)].
Definition seal_routes : list (string * Handler) :=
  [("GET /v1/sys/seal-status", seal.handleStatus); ("POST /v1/sys/init", seal.handleInit sink);
   ("POST /v1/sys/unseal", seal.handleUnseal sink)].
Definition ui_routes : list (string * Handler) := if config.UIEnabled (cfg a) then ui.routes else [].
(** The routes in the order the modules register them. *)
Definition routes : list (string * Handler) :=
  [("/", not_found); ("GET " +:+ health_path, handleHealth)] ++ observe.routes (registry a) ++ seal_routes ++ auth_routes ++
  [("POST /v1/sys/policies/check", guard manager.handleCheck)] ++ lease_routes ++ rotate_routes ++ param_routes ++
  secret_routes ++ ui_routes.
(** What [http.Redirect] answers: the page is for GET alone. *)
Definition redirect (slash : bool) (r : Request) : Response :=
  let target := mux.redirect_target slash (URLPath r) (EscapedPath r) +:+ (if String.eqb (RawQuery r) "" then "" else "?" +:+ RawQuery r) in
  MkResponse StatusTemporaryRedirect
    (("Location", mux.hexEscapeNonASCII target) ::
     if bool_decide (Method r ∈ ["GET"; "HEAD"]) then [("Content-Type", "text/html; charset=utf-8")] else [])
    None
    (if String.eqb (Method r) "GET"
     then Some ("<a href=" +:+ String dquote (mux.htmlEscape target +:+ String dquote (">" +:+ StatusText StatusTemporaryRedirect +:+ "</a>.")) +:+
                String metrics.newline (String metrics.newline ""))
     else None).
(** Registering a pattern twice panics, so the handler of a pattern is the first
  one listed. *)
Definition serve_mux (l : list (string * Handler)) : Handler := fun r =>
  match mux.find (map fst l) (Method r) (EscapedPath r) with
  | mux.Found pattern values =>
      match List.find (fun route => String.eqb (fst route) pattern) l with
      | Some route => snd route (httpx.with_path_values (mux.value_of values) r)
      | None => not_found r
      end
  | mux.Redirected slash => reply (redirect slash r)
  | mux.Unknown => not_found r
  end.
Definition allowedWhileSealed : list string :=
  [health_path] ++ observe.PathsAllowedWhileSealed ++ seal.PathsAllowedWhileSealed ++
  (if config.UIEnabled (cfg a) then ui.PathsAllowedWhileSealed else []).
(** [Handler]: Recover and AccessLog leave requests and responses alone, which Writers proves. *)
Definition Handler_ : Handler :=
  httpx.Chain (serve_mux routes)
    [httpx.RequestID_; httpx.SecurityHeaders; telemetry.middleware; requireUnsealed allowedWhileSealed].
End handler.

(** ** The background *)

(** One round of [sweep], after a wait between half and one and a half of the
  interval; [random] is what Int64N gives below the interval. *)
Definition sweep_wait (c : config.Config) (random : Z) : Z := Z.quot (config.SweepInterval c) 2 + random.
Definition sweep_round (c : config.Config) (w : World) : World := snd (lease.Sweep (config.SweepBatch c) w).
End app.
