(* ===== verification/Answers.v ===== *)
(** internal/app: what the routes answer, whatever they are asked.  Every handler of
  the server answers one of its statuses, under headers of its own; only the choice of
  a route answers with a redirect, to a path of the server. *)
From Stdlib Require Import ZArith Lia.
From S2P Require Import Prelude GoStrings GoTime Base64 Json World Policy Httpx Envelope AuditTrail SealManager Interfaces GoNumbers GoUrl PolicyStore Cipher Walk SecretStore Lease Param Rotate SecretHttp Auth Metrics Telemetry Jwt GoMux Ratelimit Config Pages App.

Module answers.
Definition statuses : list Z := [StatusOK; StatusNoContent; StatusBadRequest; StatusUnauthorized; StatusForbidden; StatusNotFound; StatusConflict;
  StatusPreconditionFailed; StatusUnprocessableEntity; StatusTooManyRequests; StatusInternalServerError; StatusServiceUnavailable].
Definition own_headers : list string := ["Content-Type"; "WWW-Authenticate"; "Retry-After"; "Content-Security-Policy"; "Cross-Origin-Opener-Policy";
  "Cross-Origin-Resource-Policy"; "Permissions-Policy"].
Record ordinary (resp : Response) : Prop := {
  od_status : status resp ∈ statuses;
  od_headers : Forall (fun kv => kv.1 ∈ own_headers) (headers resp);
  od_body : status resp = StatusNoContent → body resp = None ∧ page resp = None }.
Definition ordinarily (f : World → Response * World) : Prop := ∀ s, ordinary (fst (f s)).
Definition answers (h : Handler) : Prop := ∀ r, ordinarily (h r).
Lemma ordinarily_reply resp : ordinary resp → ordinarily (reply resp).
Proof. by intros Hp s. Qed.
Lemma ordinarily_run_or {A} (m : World → result A * World) on_error k : (∀ e, ordinarily (on_error e)) → (∀ a, ordinarily (k a)) → ordinarily (run_or m on_error k).
Proof. intros He Hk s. unfold run_or. destruct (m s) as [[a|e] s1]; [apply Hk|apply He]. Qed.
Lemma ordinary_JSON st b : bool_decide (st ∈ statuses) = true → (st =? StatusNoContent) = false → ordinary (httpx.JSON st b).
Proof.
  intros Hs Hb. split; [by apply bool_decide_eq_true in Hs| |].
  - constructor; [|constructor]. apply (bool_decide_unpack _). by vm_compute.
  - intros E. change (st = StatusNoContent) in E. by rewrite E in Hb.
Qed.
Lemma ordinary_Problem st code : bool_decide (st ∈ statuses) = true → (st =? StatusNoContent) = false → ordinary (httpx.Problem st code).
Proof. apply ordinary_JSON. Qed.
Lemma ordinary_no_content : ordinary httpx.no_content.
Proof. split; [|constructor|done]. apply (bool_decide_unpack _). by vm_compute. Qed.
Lemma ordinary_page text : ordinary (MkResponse StatusOK [] None (Some text)).
Proof. split; [|constructor|done]. apply (bool_decide_unpack _). by vm_compute. Qed.
Lemma ordinary_set k v resp : bool_decide (k ∈ own_headers) = true → ordinary resp → ordinary (httpx.set_header k v resp).
Proof. intros Hk [Hs Hb Hh]. split; [done| |done]. constructor; [by apply bool_decide_eq_true in Hk|done]. Qed.
Lemma ordinary_unauthorized : ordinary auth.unauthorized.
Proof. apply ordinary_set; [by vm_compute|]. by apply ordinary_Problem. Qed.
Ltac answering := repeat first
  [ progress intros | progress cbv beta
  | apply ordinarily_reply | apply ordinarily_run_or | apply ordinary_no_content | apply ordinary_unauthorized | apply ordinary_page
  | match goal with
    | |- ordinary (httpx.Problem _ _) => by apply ordinary_Problem
    | |- ordinary (httpx.JSON _ _) => by apply ordinary_JSON
    | |- ordinary (MkResponse _ _ (Some _) None) => by apply ordinary_JSON
    | |- ordinary (httpx.set_header _ _ _) => apply ordinary_set; [by vm_compute|]
    | |- ordinarily (match ?x with _ => _ end) => destruct x
    | |- ordinary (fst (match ?x with _ => _ end)) => destruct x
    | |- ordinary (fst ((match ?x with _ => _ end) _)) => destruct x
    | |- ordinary (fst (reply _ _)) => apply ordinarily_reply
    | |- ordinary (fst (?resp, _)) => change (ordinary resp)
    | |- ordinary (fst (run_or _ _ _ _)) => apply ordinarily_run_or
    | |- ordinarily (fun _ => _) => intros ?
    end ].
Ltac each := repeat first [apply Forall_nil_2|apply Forall_cons_2]; cbn [snd].
Section routes.
Context `{Primitives} `{Ed25519} `{MapOrder} `{ui.Assets} (a : app.App).
Lemma guard_answers h : answers h → answers (app.guard a h).
Proof. intros Hh r. unfold app.guard, auth.Require_. answering. apply Hh. Qed.
Lemma perSource_answers h : answers h → answers (app.perSource a h).
Proof. intros Hh r s. unfold app.perSource, auth.perSource, httpx.RateLimit. answering. apply Hh. Qed.
Abbreviation all_answer := (Forall (fun route : string * Handler => answers (snd route))) (only parsing).
Lemma auth_routes_answer : all_answer (app.auth_routes a).
Proof.
  unfold app.auth_routes. apply Forall_app; split; [|apply Forall_app; split].
  - each. apply perSource_answers. intros r. unfold auth.handleBootstrapLogin, auth.finish_login, auth.unrecorded. answering.
  - destruct (app.verifier a); each. apply perSource_answers. intros r. unfold auth.handleInstanceLogin, auth.finish_login, auth.unrecorded. answering.
  - each; apply guard_answers; intros r; [unfold auth.handleSelf|unfold auth.handleLogout, auth.unrecorded]; answering.
Qed.
Lemma lease_routes_answer : all_answer (app.lease_routes a).
Proof.
  unfold app.lease_routes. each; apply guard_answers; intros r; [unfold lease.handleList|unfold lease.handleRenew|unfold lease.handleRevoke|unfold lease.handleRevokePrefix];
    unfold lease.caller, lease.refuse, lease.internal; answering.
Qed.
Lemma param_routes_answer : all_answer (app.param_routes a).
Proof.
  unfold app.param_routes. each; apply guard_answers; intros r; [unfold param.handleRead|unfold param.handleWrite|unfold param.handleDelete|unfold param.handleList];
    unfold param.permitted, param.recorded, param.fail_with; answering.
Qed.
Lemma secret_routes_answer : all_answer (app.secret_routes a).
Proof.
  unfold app.secret_routes. each; apply guard_answers; intros r; [unfold secret_http.handleRead|unfold secret_http.handleWrite|unfold secret_http.handleDelete|unfold secret_http.handleMetadata];
    unfold secret_http.permitted, secret_http.recorded, secret_http.fail_with; answering.
Qed.
Lemma classify_ordinary e : ordinary (httpx.Problem (fst (seal.classify e)) (snd (seal.classify e))).
Proof. unfold seal.classify. repeat case_match; by apply ordinary_Problem. Qed.
Lemma seal_routes_answer : all_answer (app.seal_routes).
Proof.
  unfold app.seal_routes. each; intros r; [unfold seal.handleStatus|unfold seal.handleInit|unfold seal.handleUnseal]; unfold seal.problem_for; answering; by apply classify_ordinary.
Qed.
Lemma rotate_routes_answer : all_answer (app.rotate_routes a).
Proof. unfold app.rotate_routes. each. apply guard_answers. intros r. unfold rotate.handleRotate, rotate.refuse, rotate.internal. answering. Qed.
Lemma ui_routes_answer : all_answer (app.ui_routes a).
Proof.
  unfold app.ui_routes. destruct (config.UIEnabled _); each; intros r s; unfold ui.serve; answering.
Qed.
Lemma routes_answer : all_answer (app.routes a).
Proof.
  unfold app.routes. rewrite !Forall_app. split_and!.
  - each; intros r; [unfold app.not_found|unfold app.handleHealth]; answering.
  - unfold observe.routes. each; intros r s; unfold observe.handleMetrics; answering.
  - apply seal_routes_answer.
  - apply auth_routes_answer.
  - each. apply guard_answers. intros r s. unfold manager.handleCheck. answering.
  - apply lease_routes_answer.
  - apply rotate_routes_answer.
  - apply param_routes_answer.
  - apply secret_routes_answer.
  - apply ui_routes_answer.
Qed.
(** What the choice of a route adds. *)
Lemma mux_ordinary r s : ordinary (fst (app.serve_mux (app.routes a) r s)) ∨ ∃ slash, fst (app.serve_mux (app.routes a) r s) = app.redirect slash r.
Proof.
  unfold app.serve_mux. destruct (mux.find _ _ _) as [pattern values|slash|]; [left|right; by exists slash|left; unfold app.not_found; answering].
  destruct (List.find _ _) as [route|] eqn:E; [|unfold app.not_found; answering]. apply List.find_some in E as [Hin%list_elem_of_In _].
  apply (proj1 (Forall_forall _ _) routes_answer _ Hin).
Qed.
Lemma found_answers r s pattern values : mux.find (map fst (app.routes a)) (Method r) (EscapedPath r) = mux.Found pattern values →
  ordinary (fst (app.serve_mux (app.routes a) r s)).
Proof.
  intros Hf. destruct (mux_ordinary r s) as [|[slash E]]; [done|]. revert E. unfold app.serve_mux. rewrite Hf.
  destruct (List.find _ _) as [route|] eqn:Er; [|by intros E%(f_equal status)]. apply List.find_some in Er as [Hin%list_elem_of_In _]. intros _.
  apply (proj1 (Forall_forall _ _) routes_answer _ Hin).
Qed.
End routes.
End answers.
