(* ===== verification/Hardening.v ===== *)
(** platform/hardening, and what cmd/marsec/main.go makes of it: before the server
  starts, the memory of the process is locked, core dumps are disabled and other
  processes are kept from reading it.  The three system calls are a parameter;
  log lines are left out. *)
From S2P Require Import Prelude.

(** The kernel's answers. *)
Class Kernel (S : Type) := { mlockall : M S unit; set_core_limit_to_zero : M S unit; prctl_not_dumpable : M S unit }.

Module hardening.
Record Report := MkReport { MemoryLocked : bool; CoreDumpsDisabled : bool; ProcessNotDumpable : bool }.
Section apply.
Context {S : Type} `{Kernel S}.
Definition lockMemory : M S unit := mlockall.
Definition disableCoreDumps : M S unit := set_core_limit_to_zero.
Definition hideProcessMemory : M S unit := prctl_not_dumpable.
(** The three are tried whatever comes of the others; the report comes with the
  joined errors, if there are any. *)
Definition Apply : M S (Report * result unit) :=
  let! locked := attempt lockMemory in
  let! limited := attempt disableCoreDumps in
  let! hidden := attempt hideProcessMemory in
  let report := MkReport (is_ok locked) (is_ok limited) (is_ok hidden) in
  ret (report, if is_ok locked && is_ok limited && is_ok hidden then Ok tt
               else Err (errors_Join (errors_of locked) (errors_Join (errors_of limited) (errors_of hidden)))).
Definition protect (allowUnprotected : bool) : M S unit :=
  let! applied := Apply in
  match snd applied with
  | Ok _ => ret tt
  | Err e => if allowUnprotected then ret tt else fail e
  end.
(** The report is true to the error, and without the opt-in [protect] succeeds only
  with all three protections. *)
Definition full : Report := MkReport true true true.
Lemma Apply_report s report r s' : Apply s = (Ok (report, r), s') → is_ok r = true ↔ report = full.
Proof.
  unfold Apply, bind, attempt. destruct (lockMemory s) as [locked s1], (disableCoreDumps s1) as [limited s2], (hideProcessMemory s2) as [hidden s3].
  intros [= <- <- _]. by destruct locked, limited, hidden.
Qed.
Lemma Apply_total s : ∃ report r s', Apply s = (Ok (report, r), s').
Proof.
  unfold Apply, bind, attempt. destruct (lockMemory s) as [locked s1], (disableCoreDumps s1) as [limited s2], (hideProcessMemory s2) as [hidden s3]. by repeat eexists.
Qed.
Lemma protect_Ok allow s s' : protect allow s = (Ok tt, s') → allow = true ∨ ∃ r, Apply s = (Ok (full, r), s').
Proof.
  unfold protect, bind. destruct (Apply_total s) as (report&r&s1&E). rewrite E. cbn [snd]. pose proof (Apply_report s report r s1 E) as [Hr _].
  destruct r as [[]|e].
  - intros [= <-]. right. exists (Ok tt). by rewrite (Hr eq_refl).
  - destruct allow; [by left|done].
Qed.
End apply.
End hardening.
