(* ===== verification/Operator.v ===== *)
(** cmd/marsec: operator.go, policy.go, audit.go, snapshot.go, agentcmd.go and
  main.go: the commands that work on the database file of the host they run on,
  the agent's command, and the choice of a command.

  A command opens the database of a data directory, runs the modelled operations
  of a manager on it with its own clock and random source, and closes it. *)
From Stdlib Require Import ZArith Lia Ascii.
From S2P Require Import Prelude GoStrings GoTime GoPath Files Json World Policy Envelope AuditTrail Migrate Migrations PolicyStore Interfaces GoNumbers GoUrl Config Client AgentConfig Agent Auth App Snapshot GoFlag Command.

Module operator.
Import os flag cli.
Definition DatabaseFile : string := "marsec.db".
(** [bufio.ScanLines]: lines end with a line feed, and a carriage return before it
  is dropped; a line that does not fit the scanner's buffer is left as it is, for
  [audit.Verify] to refuse. *)
Definition drop_return (line : string) : string :=
  if audit.maxLineSize <=? len line then line else TrimSuffix line (String "013" "").
Fixpoint drop_last_empty (l : list string) : list string :=
  match l with [] => [] | [x] => if String.eqb x "" then [] else [x] | x :: l => x :: drop_last_empty l end.
Definition scan_lines (text : string) : list string := drop_return <$> drop_last_empty (Split text "010").

Section operator.
Context {E : Type} `{Environment} `{SQLite Db} `{Primitives} `{Driver}.
Definition resolveDataDir : string :=
  let fromEnv := Getenv "MARSEC_DATA_DIR" in if negb (String.eqb fromEnv "") then fromEnv else config.DataDir config.Default.
Definition directory_of (dataDir : string) : string := if String.eqb dataDir "" then resolveDataDir else dataDir.
Definition database_path (dataDir : string) : string := filepath.Join2 (directory_of dataDir) DatabaseFile.
(** An open connection, closed in the end. *)
Definition on_database {A} (source : string) (d : Db) (run : M World A) : M (Host E) A :=
  deferred Close (fun h =>
    let '(r, w) := run (set_database d (process h)) in
    (r, set_files (sqlite_save source (database w) (files h)) (set_process w h))).
Definition with_connection {A} (dataDir : string) (run : M World A) : M (Host E) A :=
  let path := database_path dataDir in
  let! d := snapshot.Open path in
  on_database (snapshot.dsn path) d run.
Definition withDatabase {A} (dataDir : string) (run : M World A) : M (Host E) A :=
  with_connection dataDir (sqlite.Migrate "auth" migrations.auth ;! run).
Definition withPolicies {A} (dataDir : string) (run : M World A) : M (Host E) A :=
  with_connection dataDir (sqlite.Migrate "policy" migrations.policy ;! run).
Definition data_dir : string * value := ("data-dir", VString "").
Definition data_dir_of (flags : FlagSet) : string := string_of flags "data-dir".

(** ** Identities and bootstrap tokens *)
Definition runIdentityAdd (args : list string) : M (Host E) unit :=
  let! taken := lift_result (positional args) in
  let! parsed := lift_result (Parse [("kind", VString authn.KindBootstrap); ("tenant", VString ""); data_dir] (snd taken)) in
  let flags := fst parsed in
  let! identity := withDatabase (data_dir_of flags) (auth.RegisterIdentity (fst taken) (string_of flags "kind") (string_of flags "tenant")) in
  Fprintln ("registered " +:+ authn.ID identity +:+ " (kind " +:+ authn.Kind identity +:+ ", tenant " +:+ authn.Tenant identity +:+ ")").
Definition disable_and_revoke (id : string) : M World Z := auth.DisableIdentity id ;! auth.Manager_RevokeIdentity id.
Definition runIdentityDisable (args : list string) : M (Host E) unit :=
  let! taken := lift_result (positional args) in
  let! parsed := lift_result (Parse [data_dir] (snd taken)) in
  let! revoked := withDatabase (data_dir_of (fst parsed)) (disable_and_revoke (fst taken)) in
  Fprintln ("disabled " +:+ fst taken +:+ " and revoked " +:+ Itoa revoked +:+ " token(s)").
Definition runIdentity (args : list string) : M (Host E) unit :=
  match args with
  | [] => fail [usage_error]
  | name :: args =>
      if String.eqb name "add" then runIdentityAdd args
      else if String.eqb name "disable" then runIdentityDisable args
      else fail [unknown_command]
  end.
Definition runBootstrap (args : list string) : M (Host E) unit :=
  let! taken := lift_result (positional args) in
  let! parsed := lift_result (Parse [("ttl", VDuration auth.BootstrapTTL); data_dir] (snd taken)) in
  let flags := fst parsed in
  let! token := withDatabase (data_dir_of flags) (auth.IssueBootstrap (fst taken) (int_of flags "ttl")) in
  Fprintln (string_of_bytes (auth.t_Value token)).

(** ** Policies *)
Definition runPolicyPut (args : list string) : M (Host E) unit :=
  let! taken := lift_result (positional args) in
  let! parsed := lift_result (Parse [("tenant", VString ""); ("rules", VString ""); data_dir] (snd taken)) in
  let flags := fst parsed in
  let tenant := string_of flags "tenant" in
  if String.eqb (string_of flags "rules") "" then fail [usage_error]
  else
    let! raw := ReadFile (string_of flags "rules") in
    let! rules := lift_result (manager.Unmarshal raw) in
    let! definition := lift_result (policy.New (fst taken) rules) in
    withPolicies (data_dir_of flags) (manager.Put tenant definition) ;!
    Fprintln ("stored policy " +:+ fst taken +:+ " for tenant " +:+ tenant +:+ " with " +:+ Itoa (Z.of_nat (length rules)) +:+ " rule(s)").
Fixpoint print_lines (l : list string) : M (Host E) unit :=
  match l with [] => ret tt | name :: l => Fprintln name ;! print_lines l end.
Definition runPolicyList (args : list string) : M (Host E) unit :=
  let! parsed := lift_result (Parse [("tenant", VString ""); data_dir] args) in
  let flags := fst parsed in
  let! names := withPolicies (data_dir_of flags) (manager.List_ (string_of flags "tenant")) in
  print_lines names.
Definition runPolicyDelete (args : list string) : M (Host E) unit :=
  let! taken := lift_result (positional args) in
  let! parsed := lift_result (Parse [("tenant", VString ""); data_dir] (snd taken)) in
  let flags := fst parsed in
  withPolicies (data_dir_of flags) (manager.Delete (string_of flags "tenant") (fst taken)) ;!
  Fprintln ("deleted policy " +:+ fst taken +:+ " and any bindings to it").
Definition runPolicyBinding (args : list string) (bind : bool) : M (Host E) unit :=
  let! taken := lift_result (positional args) in
  let! parsed := lift_result (Parse [("tenant", VString ""); ("policy", VString ""); data_dir] (snd taken)) in
  let flags := fst parsed in
  let tenant := string_of flags "tenant" in
  let name := string_of flags "policy" in
  if String.eqb name "" then fail [usage_error]
  else
    withPolicies (data_dir_of flags) (if bind then manager.Bind tenant (fst taken) name else manager.Unbind tenant (fst taken) name) ;!
    Fprintln (if bind then "bound " +:+ name +:+ " to " +:+ fst taken else "unbound " +:+ name +:+ " from " +:+ fst taken).
Definition runPolicy (args : list string) : M (Host E) unit :=
  match args with
  | [] => fail [usage_error]
  | name :: args =>
      if String.eqb name "put" then runPolicyPut args
      else if String.eqb name "list" then runPolicyList args
      else if String.eqb name "delete" then runPolicyDelete args
      else if String.eqb name "bind" then runPolicyBinding args true
      else if String.eqb name "unbind" then runPolicyBinding args false
      else fail [unknown_command]
  end.

(** ** The audit log and snapshots *)
Definition runAuditVerify (args : list string) : M (Host E) unit :=
  let! parsed := lift_result (Parse [("file", VString ""); data_dir] args) in
  let flags := fst parsed in
  let file := string_of flags "file" in
  let path := if String.eqb file "" then filepath.Join2 (directory_of (data_dir_of flags)) "audit.log" else file in
  let! text := ReadFile path in
  let! report := lift_result (audit.Verify (scan_lines text)) in
  Fprintln (path +:+ " verifies: " +:+ Itoa (audit.Records report) +:+ " record(s), tip " +:+ audit.LastHash report).
Definition runAudit (args : list string) : M (Host E) unit :=
  match args with
  | [] => fail [usage_error]
  | name :: args => if String.eqb name "verify" then runAuditVerify args else fail [unknown_command]
  end.
Definition runSnapshotSave (args : list string) : M (Host E) unit :=
  let! taken := lift_result (positional args) in
  let! parsed := lift_result (Parse [data_dir] (snd taken)) in
  let path := database_path (data_dir_of (fst parsed)) in
  let! d := snapshot.Open path in
  let! report := deferred Close (snapshot.Snapshot d (fst taken)) in
  Fprintln ("saved " +:+ snapshot.Path report +:+ ": " +:+ Itoa (snapshot.Bytes report) +:+ " bytes, " +:+ Itoa (snapshot.Migrations report) +:+ " migration(s)").
Definition runSnapshotVerify (args : list string) : M (Host E) unit :=
  let! taken := lift_result (positional args) in
  let! parsed := lift_result (Parse [] (snd taken)) in
  let! report := snapshot.Verify (fst taken) in
  Fprintln (snapshot.Path report +:+ " verifies: " +:+ Itoa (snapshot.Bytes report) +:+ " bytes, " +:+ Itoa (snapshot.Migrations report) +:+ " migration(s)").
Definition runSnapshotRestore (args : list string) : M (Host E) unit :=
  let! taken := lift_result (positional args) in
  let! parsed := lift_result (Parse [data_dir] (snd taken)) in
  let! report := snapshot.Restore (fst taken) (database_path (data_dir_of (fst parsed))) in
  Fprintln ("restored " +:+ snapshot.Path report +:+ ": " +:+ Itoa (snapshot.Migrations report) +:+ " migration(s)") ;!
  Fprintln "the store is sealed; unseal it with a quorum of shares".
Definition runSnapshot (args : list string) : M (Host E) unit :=
  match args with
  | [] => fail [usage_error]
  | name :: args =>
      if String.eqb name "save" then runSnapshotSave args
      else if String.eqb name "verify" then runSnapshotVerify args
      else if String.eqb name "restore" then runSnapshotRestore args
      else fail [unknown_command]
  end.
Definition runOperator (args : list string) : M (Host E) unit :=
  match args with
  | [] => fail [usage_error]
  | name :: args =>
      if String.eqb name "identity" then runIdentity args
      else if String.eqb name "bootstrap" then runBootstrap args
      else if String.eqb name "policy" then runPolicy args
      else if String.eqb name "audit" then runAudit args
      else if String.eqb name "snapshot" then runSnapshot args
      else fail [unknown_command]
  end.
End operator.
End operator.
