(* ===== verification/Main.v ===== *)
(** cmd/marsec/agentcmd.go and main.go: the agent's command, the start of the
  server, and the choice of a command.

  The agent runs on the files, the clock and the network of its host; [rounds] is
  how often it comes round before it is told to stop. *)
From Stdlib Require Import ZArith Lia Ascii.
From S2P Require Import Prelude GoStrings GoTime GoPath Files Json World Envelope AuditTrail Migrate SealManager GoUrl Config Client Snapshot AgentConfig Agent GoFlag Command Jwt App Hardening Operator.

Module marsec.
Import os flag cli operator.
Section agent.
Context {E : Type} `{Transport E} `{IPLiterals} `{TextTemplate} `{Runner E} `{TempNames} `{LeaseOrder} `{Certificates}.
(** What a new agent is made of, and what it leaves to its host. *)
Definition begin_agent (c : client.Client) (h : Host E) : agent.State E :=
  agent.MkState (client.MkLinked c (outside h)) false ∅ (d_files (disk h)) [] (clock (process h)) (d_faults (disk h)) (d_short (disk h)).
Definition end_agent (s : agent.State E) (h : Host E) : Host E :=
  MkHost (MkDisk (agent.on_disk s) (agent.faults s) (agent.written_short s)) (set_clock (agent.clock s) (process h))
    (client.network (agent.link s)) (stdin h) (stdout h).
Definition runAgent (rounds : nat) (args : list string) : M (Host E) unit :=
  let! parsed := lift_result (Parse [("config", VString "/etc/marstack-secrets/agent.json"); ("log-level", VString "info"); ("once", VBool false)] args) in
  let flags := fst parsed in
  let configFile := string_of flags "config" in
  let! size := Stat configFile in
  let! raw := (if agent_config.maxConfigBytes <? size then fail [agent_config.ErrConfigLarge] else attempt (ReadFile configFile)) in
  let! config := lift_result (agent_config.Load raw) in
  let! pem := (if String.eqb (agent_config.CACertFile config) "" then ret (Ok true)
               else let! raw := attempt (ReadFile (agent_config.CACertFile config)) in ret (result_map AppendCertsFromPEM raw)) in
  let! made := lift_result (agent.New pem config) in
  let '(running, c) := made in
  if bool_of flags "once" then
    (fun h => let '(r, s) := agent.Cycle running (begin_agent c h) in (r, end_agent s h)) ;!
    Fprintln "rendered"
  else modify (fun h => end_agent (agent.Run running rounds (begin_agent c h)) h).
End agent.

Section serve.
Context `{Primitives} `{Driver} `{Kernel World}.
(** [serve] until the application runs: the configuration as it was read, the audit
  file and the key set as they are found.  How it goes on and ends is in Serving.v. *)
Definition boot (loaded : result config.Config) (trail : option (list string)) (jwks : result string) : M World app.App :=
  let! cfg := lift_result loaded in
  hardening.protect (config.AllowUnprotectedMemory cfg) ;!
  app.New trail jwks cfg.
End serve.

(** ** What becomes of the root key *)
Section served.
Context `{Primitives} `{Driver} `{Kernel World}.
Lemma Migrate_same_mem module migrations : same_mem (sqlite.Migrate module migrations).
Proof.
  unfold sqlite.Migrate. destruct (String.eqb module ""); [auto with world|]. apply same_mem_bind; [auto with world|]. intros _.
  apply same_mem_bind; [auto with world|]. intros _. induction migrations as [|m migrations IH]; cbn [sqlite.apply_all]; [auto with world|].
  apply same_mem_bind; [|auto]. unfold sqlite.apply_. apply same_mem_bind; [auto with world|]. intros found.
  repeat (case_match; try solve [auto 8 with world]).
Qed.
Lemma assemble_same_mem jwks c : same_mem (app.assemble jwks c).
Proof.
  unfold app.assemble. repeat (apply same_mem_bind; [first [apply Migrate_same_mem|auto with world]|intros ?]). auto with world.
Qed.
Lemma New_sealed trail jwks c w a w' : app.New trail jwks c w = (Ok a, w') → seal_memory w' = sealed_memory.
Proof.
  unfold app.New. destruct (audit.Open trail) as [log|]; [|by destruct (app.db_Close w)]. pose proof (assemble_same_mem jwks c (app.booted log w)) as Hm.
  destruct (app.assemble jwks c (app.booted log w)) as [[a'|e] w1]; [|by destruct (both _ _ w1)]. by intros [= _ <-].
Qed.
(** A server that starts has its configuration and its protections, and is sealed,
  over an audit log that is open. *)
Lemma boot_Ok loaded trail jwks w a w' : boot loaded trail jwks w = (Ok a, w') → ∃ c w1, loaded = Ok c ∧
  (config.AllowUnprotectedMemory c = true ∨ ∃ none, hardening.Apply w = (Ok (hardening.full, none), w1)) ∧
  app.New trail jwks c w1 = (Ok a, w') ∧ seal_memory w' = sealed_memory.
Proof.
  unfold boot, bind, lift_result. destruct loaded as [c|e]; [|done].
  destruct (hardening.protect (config.AllowUnprotectedMemory c) w) as [[[]|e] w1] eqn:Ep; [|done]. intros En.
  exists c, w1. split_and!; [done|by apply hardening.protect_Ok in Ep|done|by eapply New_sealed].
Qed.
End served.

Section run.
Context {E : Type} `{Transport E} `{IPLiterals} `{TextTemplate} `{Runner E} `{TempNames} `{LeaseOrder} `{Certificates} `{Environment} `{SQLite Db} `{Primitives} `{Driver}.
Context (version : string) (serving : M (Host E) unit) (rounds : nat).
Definition run (args : list string) : M (Host E) unit :=
  match args with
  | [] => fail [usage_error]
  | name :: args =>
      if String.eqb name "server" then serving
      else if String.eqb name "operator" then runOperator args
      else if String.eqb name "login" then runLogin args
      else if String.eqb name "secret" then runSecret args
      else if String.eqb name "param" then runParam args
      else if String.eqb name "status" then runStatus args
      else if String.eqb name "agent" then runAgent rounds args
      else if String.eqb name "version" then Fprintln version
      else if bool_decide (name ∈ ["help"; "-h"; "--help"]) then ret tt
      else fail [unknown_command]
  end.
End run.
End marsec.
