(* ===== verification/KeyRotation.v ===== *)
(** A whole rotation, as internal/app wires it: the key version goes up by one
  and every stored value follows it without changing. *)
From Stdlib Require Import ZArith Lia.
From S2P Require Import Prelude GoStrings GoTime World Policy Httpx Envelope AuditTrail SealManager PolicyStore Cipher Walk SecretStore SecretRewrap Interfaces Param Rotate App.

Module key_rotation.
Import app.
#[local] Existing Instances secret.secret_rows secret.secret_rows_laws param.param_rows param.param_rows_laws.
Section theory.
Context `{PrimitiveLaws}.

(** Opening depends on the root key alone. *)
Lemma open_root tenant env aad w w' : root (seal_memory w') = root (seal_memory w) →
  fst (cipher_Open tenant env aad w') = fst (cipher_Open tenant env aad w).
Proof.
  intros E. unfold cipher_Open, seal_cipher, seal.Cipher_Open. destruct (_ <? 1); [done|].
  unfold bind, seal.mem, lift_result, seal.deriveKEKLocked. rewrite E.
  by destruct (match root (seal_memory w) with Some _ => _ | None => _ end).
Qed.
(** A value that opens in [w] opens in [w'] to the same plaintext. *)
Definition still_opens (tenant : string) (aad : crypto.AAD) (old new : crypto.Envelope) (w w' : World) : Prop :=
  ∀ p, fst (cipher_Open tenant old aad w) = Ok p → fst (cipher_Open tenant new aad w') = Ok p.

(** Every row of a table is still there, under the new key version if it is
  live, with the same ciphertext, and opens to what it held. *)
Definition followed {K Row} `{Walkable K Row} (tenant_of : K → string) (place : K → crypto.AAD) (version : Z) (w w' : World) : Prop :=
  (∀ k, is_Some (rows (database w') !! k) ↔ is_Some (rows (database w) !! k)) ∧
  ∀ k row, rows (database w) !! k = Some row → ∃ row', rows (database w') !! k = Some row' ∧
    live row' = live row ∧ crypto.Ciphertext (envelope_of row') = crypto.Ciphertext (envelope_of row) ∧
    (live row = true → crypto.KEKVersion (envelope_of row') = version) ∧
    still_opens (tenant_of k) (place k) (envelope_of row) (envelope_of row') w w'.

Lemma same_values_followed {K Row} `{WalkableLaws K Row} tenant_of place version w0 w w' w1 :
  same_values tenant_of place w w' →
  (∀ k row, rows (database w') !! k = Some row → live row = true → crypto.KEKVersion (envelope_of row) = version) →
  rows (database w) = rows (database w0) → rows (database w1) = rows (database w') →
  root (seal_memory w0) = root (seal_memory w) → root (seal_memory w1) = root (seal_memory w) →
  followed tenant_of place version w0 w1.
Proof.
  intros [Hm Hv] Hcur E0 E1 Hr0 Hr1. unfold followed. rewrite <- E0, E1. split.
  - intros k. specialize (Hv k). destruct (rows (database w) !! k), (rows (database w') !! k); cbn in Hv; try done; split; eauto.
  - intros k row Hk. specialize (Hv k). rewrite Hk in Hv. destruct (rows (database w') !! k) as [row'|] eqn:Ek; [|done]. cbn in Hv.
    exists row'. split; [done|]. pose proof (same_value_live _ _ _ _ _ _ Hv) as Hl. destruct Hv as (env&->&Hc&Ho).
    split; [done|]. rewrite envelope_rewrapped in * by done. split; [done|]. split.
    + intros Hlive. specialize (Hcur _ _ Ek). rewrite envelope_rewrapped in Hcur by done. apply Hcur. by rewrite Hl.
    + intros p Hp. rewrite (open_root _ _ _ _ _ Hr1). apply Ho; [done|]. by rewrite <- (open_root _ _ _ _ _ Hr0).
Qed.

Lemma KEK_rotated w f t w' : RotateKEK w = (Ok (f, t), w') → ∃ row,
  seal_config (database w) = Some row ∧ is_Some (root (seal_memory w)) ∧ f = sc_kek_version row ∧ t = wrap64 (f + 1) ∧
  database w' = set_seal_config (Some (MkSealConfig (shamir_shares row) (shamir_threshold row) (key_check row) (sc_created_at row) t)) (database w) ∧
  seal_memory w' = seal.set_kekVersion t (seal_memory w).
Proof.
  intros E. unfold RotateKEK, key_rotator, keyRotator_Rotate in E. apply bind_ok_inv in E as (rot&w1&E&Er). injection Er as <- <- <-.
  destruct (seal.Rotate_inv _ _ _ E) as (row&k&Hrow&Hroot&Hf&Ht&Hdb&Hm). exists row. split_and!; try done; congruence.
Qed.
Lemma subjects_run w subs w' : rotate.rewrap_subjects rotation_subjects [] w = (subs, Ok tt, w') → ∃ p1 w1 p2,
  secret.Service_Rewrap w = (p1, Ok tt, w1) ∧ param.Rewrap w1 = (p2, Ok tt, w') ∧
  subs = [rotate.MkNamed "secret" p1; rotate.MkNamed "param" p2].
Proof.
  unfold rotation_subjects. cbn [rotate.rewrap_subjects rotate.Rewrap rotate.Name].
  destruct (secret.Service_Rewrap w) as [[p1 [[]|e]] w1]; [|done].
  destruct (param.Rewrap w1) as [[p2 [[]|e]] w2] eqn:E; [|done]. intros [= <- <-]. by exists p1, w1, p2.
Qed.

(** C9. A rotation that reports success has raised the key version by one in
  the row and in memory, under the same root key; every secret version that is
  not destroyed and every parameter is wrapped by the new version; no value was
  lost or added, and whatever opened before opens to the same plaintext. *)
Theorem Rotate_complete (w w' : World) (o : rotate.outcome)
  (Hrun : rotate.rotate_ rotation_subjects w = (o, Ok tt, w'))
  (Hsecrets : ∀ t p v, is_Some (secret_versions (database w) !! (t, p, v)) → t ≠ "")
  (Hparams : ∀ t p, is_Some (param_values (database w) !! (t, p)) → t ≠ "") :
  (∃ row, seal_config (database w) = Some row ∧ rotate.from o = sc_kek_version row ∧ rotate.to o = wrap64 (sc_kek_version row + 1) ∧
     option_map sc_kek_version (seal_config (database w')) = Some (rotate.to o)) ∧
  root (seal_memory w') = root (seal_memory w) ∧ kekVersion (seal_memory w') = rotate.to o ∧
  followed (Row := SecretVersionRow) rewrapping.tenant_of rewrapping.place_of (rotate.to o) w w' ∧
  followed (Row := ParamRow) param.tenant_of param.place_of (rotate.to o) w w'.
Proof.
  destruct (rotate.rotate_Ok _ _ _ _ Hrun) as (_&w1&w2&Ek&Es&->).
  destruct (KEK_rotated _ _ _ _ Ek) as (row&Hrow&_&Hf&Ht&Hdb&Hm). destruct (subjects_run _ _ _ Es) as (p1&wm&p2&E1&E2&_).
  set (v := rotate.to o) in *.
  destruct (rewrapping.Service_Rewrap_Ok _ _ _ E1) as [Hsame1 Hcur1]; [rewrite Hdb; exact Hsecrets|].
  assert (param_values (database wm) = param_values (database w1) ∧ seal_config (database wm) = seal_config (database w1)) as [Hp1 Hc1].
  { change wm with (snd (p1, Ok tt, wm)). rewrite <- E1.
    apply (secret.keeps_Rewrap (fun d => param_values d = param_values (database w1) ∧ seal_config d = seal_config (database w1)));
      [by intros d k r env Hd _ _|intros; apply rewrap_effect|done]. }
  destruct (param.Rewrap_Ok _ _ _ E2) as [Hsame2 Hcur2]; [rewrite Hp1, Hdb; exact Hparams|].
  assert (secret_versions (database w2) = secret_versions (database wm) ∧ seal_config (database w2) = seal_config (database wm)) as [Hv2 Hc2].
  { change w2 with (snd (p2, Ok tt, w2)). rewrite <- E2.
    by apply (param.Rewrap_keeps (fun d => secret_versions d = secret_versions (database wm) ∧ seal_config d = seal_config (database wm))). }
  assert (seal_memory wm = seal.set_kekVersion v (seal_memory w)) as Hmm by (destruct Hsame1 as [-> _]; by rewrite Hm).
  assert (seal_memory w2 = seal.set_kekVersion v (seal_memory w)) as Hm2 by (destruct Hsame2 as [-> _]; done).
  change (database (set_rotation_busy false w2)) with (database w2) in *. change (seal_memory (set_rotation_busy false w2)) with (seal_memory w2).
  split; [|split; [by rewrite Hm2|split; [by rewrite Hm2|split]]].
  - exists row. split_and!; [done|done|by rewrite Ht, Hf|]. by rewrite Hc2, Hc1, Hdb.
  - apply (same_values_followed _ _ _ w w1 wm (set_rotation_busy false w2)); [exact Hsame1| | | | |].
    + intros k r Hk Hl. change (sv_kek_version r = v). cbn in Hl. rewrite (Hcur1 k r Hk) by (by destruct (sv_destroyed_at r)). by rewrite Hmm.
    + cbn. by rewrite Hdb.
    + cbn. by rewrite Hv2.
    + by rewrite Hm.
    + change (seal_memory (set_rotation_busy false w2)) with (seal_memory w2). by rewrite Hm, Hm2.
  - apply (same_values_followed _ _ _ w wm w2 (set_rotation_busy false w2)); [exact Hsame2| | | | |].
    + intros k r Hk _. change (pv_kek_version r = v). rewrite (Hcur2 k r Hk). by rewrite Hm2.
    + cbn. by rewrite Hp1, Hdb.
    + done.
    + by rewrite Hmm.
    + change (seal_memory (set_rotation_busy false w2)) with (seal_memory w2). by rewrite Hm2, Hmm.
Qed.
End theory.

(** ** Example: a store with a secret, a destroyed version and a parameter *)
Section examples.
Import sample.
Local Definition root_key : list Z := crypto.sample_key 9.
Local Definition start : World := set_seal_memory (MkSealMemory (Some root_key) 1 [])
  (set_database (set_seal_config (Some (MkSealConfig 1 1 [] "" 1)) empty_db)
    (fresh_world (fun n => (1700000000 + Z.of_nat n) * Second) (fun n => Z.of_nat (7 * n + 3)))).
Local Definition filled : World :=
  snd (param.Put "acme" "timeout" "int" "30" "ops" (snd (secret.Service_Destroy "acme" "db/main" [1]
    (snd (secret.Service_Put 10 "acme" "db/main" [3] secret.Any (snd (secret.Service_Put 10 "acme" "db/main" [1; 2] secret.Any start))))))).
Local Definition rotated : World := snd (rotate.rotate_ rotation_subjects filled).
Local Definition rotation : rotate.outcome :=
  rotate.MkOutcome 1 2 [rotate.MkNamed "secret" (MkProgress 1 1); rotate.MkNamed "param" (MkProgress 1 1)].
#[local] Opaque rotate.rotate_.
Lemma rotation_ok : fst (rotate.rotate_ rotation_subjects filled) = (rotation, Ok tt).
Proof. by vm_compute. Qed.
Lemma Rotate_complete_witness :
  (∃ row, seal_config (database filled) = Some row ∧ 1 = sc_kek_version row ∧ 2 = wrap64 (sc_kek_version row + 1) ∧
     option_map sc_kek_version (seal_config (database rotated)) = Some 2) ∧
  root (seal_memory rotated) = root (seal_memory filled) ∧ kekVersion (seal_memory rotated) = 2 ∧
  followed (Row := SecretVersionRow) rewrapping.tenant_of rewrapping.place_of 2 filled rotated ∧
  followed (Row := ParamRow) param.tenant_of param.place_of 2 filled rotated.
Proof.
  refine (Rotate_complete filled rotated rotation (pair_fst _ _ rotation_ok) _ _).
  - intros t p v Hs ->.
    assert (map_Forall (λ k _, k.1.1 ≠ "") (secret_versions (database filled))) as Hall.
    { apply (bool_decide_unpack _). by vm_compute. }
    destruct Hs as [row Hrow]. by apply (Hall _ _ Hrow).
  - intros t p Hs ->.
    assert (map_Forall (λ k _, k.1 ≠ "") (param_values (database filled))) as Hall.
    { apply (bool_decide_unpack _). by vm_compute. }
    destruct Hs as [row Hrow]. by apply (Hall _ _ Hrow).
Defined.
End examples.
End key_rotation.
