(* ===== verification/Concurrent.v ===== *)
(** The operations of the server as threads: where each takes and gives back the
  connection of the database pool, the RWMutex of the seal and the Mutex of
  rotations (modules/seal/manager.go and cipher.go, modules/secret/store.go,
  service.go and rewrap.go, modules/param/store.go, modules/rotate/rotate.go).

  Between two operations on locks a thread makes steps that are calls of the
  definitions of the other files, and alone every thread is the operation it is
  of ([solo]), a whole rotation included. *)
From Stdlib Require Import ZArith Lia.
From S2P Require Import Prelude GoStrings GoTime World Policy Httpx Shamir Envelope AuditTrail SealManager PolicyStore Cipher Walk SecretStore SecretRewrap VersionedMap Interfaces Param Rotate App Threads.

Module concurrent.
Import threads.
#[local] Existing Instances secret.secret_rows secret.secret_rows_laws param.param_rows param.param_rows_laws.

(** ** Programs with errors *)
Abbreviation thread_of A := (prog World (result A)) (only parsing).
Definition or_fail {A B} (k : A → thread_of B) (r : result A) : thread_of B := match r with Ok a => k a | Err e => Done (Err e) end.
Notation "'let*' x ':=' p 'in' k" := (and_then p (or_fail (fun x => k)))
  (at level 10, x pattern, p at level 100, k at level 200) : go_scope.
Lemma solo_or_fail {A B} (p : thread_of A) (k : A → thread_of B) w : solo (and_then p (or_fail k)) w = bind (solo p) (fun a => solo (k a)) w.
Proof. rewrite solo_and_then. unfold bind. by destruct (solo p w) as [[a|e] w1]. Qed.
(** A mutex held around a program: [Lock] and the deferred [Unlock]. *)
Definition holding {A} (l : lock) (p : prog World A) : prog World A := Take l (fun _ => and_then p (fun x => Give l (Done x))).
Lemma solo_holding {A} l (p : prog World A) w : solo (holding l p) w = solo p w.
Proof. cbn. rewrite solo_and_then. by destruct (solo p w). Qed.
(** A statement outside of a transaction has the connection for as long as it
  runs; the wait for it ends with the context of the request. *)
Definition stmt {A} (m : M World A) : thread_of A := Take (Exclusive Connection) (fun got =>
  if got : bool then Act m (fun r => Give (Exclusive Connection) (Done r)) else Done (Err [context_canceled])).
Lemma solo_stmt {A} (m : M World A) w : solo (stmt m) w = m w.
Proof. cbn. by destruct (m w). Qed.
(** A transaction has it from [BeginTx] to [Commit] or [Rollback]. *)
Definition begin_tx : M World Db := fun w =>
  let '(failed, w) := next_fault w in if failed then (Err [ErrDriver], w) else (Ok (database w), w).
Definition commit_tx {A} (before : Db) (a : A) : M World A := fun w =>
  let '(failed, w) := next_fault w in if failed then (Err [ErrDriver], set_database before w) else (Ok a, w).
Definition rollback_tx {A} (before : Db) (e : list string) : M World A := fun w => (Err e, set_database before w).
Definition tx {A} (body : thread_of A) : thread_of A := Take (Exclusive Connection) (fun got =>
  if got : bool
  then and_then (Act begin_tx (or_fail (fun before =>
         and_then body (fun r => act (match r with Ok a => commit_tx before a | Err e => rollback_tx before e end)))))
       (fun r => Give (Exclusive Connection) (Done r))
  else Done (Err [context_canceled])).
Lemma solo_tx {A} (body : thread_of A) w : solo (tx body) w = with_tx (solo body) w.
Proof.
  unfold tx. cbn [solo]. rewrite solo_and_then. unfold with_tx. cbn [solo]. unfold begin_tx, next_fault. destruct (faults w 0%nat); [done|].
  cbn [or_fail solo]. rewrite solo_and_then. set (w1 := set_faults _ w). destruct (solo body w1) as [[a|e] w2]; rewrite solo_act; [|done].
  unfold commit_tx, next_fault. by destruct (faults w2 0%nat).
Qed.

(** ** modules/seal/manager.go *)
Section seal.
Context `{Primitives}.
Definition prepare (shares threshold : Z) : M World (list Z * list (list Z) * SealConfigRow) :=
  let! root := crypto.NewKey in
  let! split := shamir.Split root shares threshold in
  let! keyCheck := lift_result (crypto.KeyCheckValue root) in
  let! t := now in
  ret (root, split, MkSealConfig shares threshold keyCheck (FormatTime t) seal.initialKEKVersion).
Definition Initialize (shares threshold : Z) : thread_of (list (list Z)) := holding (Exclusive SealMutex) (
  let* stored := stmt seal.readConfig in
  if seal.initialized stored then Done (Err [seal.ErrAlreadyInitialized])
  else
    let* made := act (prepare shares threshold) in
    let '(root, split, row) := made in
    let* _ := stmt (seal.insert_config row) in
    act (seal.update_mem (seal.set_root (Some root)) ;! seal.update_mem (seal.set_kekVersion seal.initialKEKVersion) ;! ret split)).
Definition Unseal (share : list Z) : thread_of seal.Status := holding (Exclusive SealMutex) (
  if (length share <? 2)%nat then Done (Err [seal.ErrInvalidShare])
  else
    let* stored := stmt seal.readConfig in
    if negb (seal.initialized stored) then Done (Err [seal.ErrNotInitialized]) else act (seal.collect share stored)).
Definition Seal : thread_of unit := holding (Exclusive SealMutex) (act seal.Seal).
Definition Rotate : thread_of seal.Rotation := holding (Exclusive SealMutex) (
  let* stored := stmt seal.readConfig in
  if negb (seal.initialized stored) then Done (Err [seal.ErrNotInitialized])
  else
    let* m := act seal.mem in
    match root m with
    | None => Done (Err [seal.ErrSealed])
    | Some _ =>
        let next := wrap64 (seal.c_kekVersion stored + 1) in
        let* affected := stmt (seal.bump_version next (seal.c_kekVersion stored)) in
        if negb (affected =? 1) then Done (Err [seal.ErrRotationRaced])
        else act (seal.update_mem (seal.set_kekVersion next) ;! ret (seal.MkRotation (seal.c_kekVersion stored) next))
    end).
Definition GetStatus : thread_of seal.Status := holding (Shared SealMutex) (
  let* stored := stmt seal.readConfig in
  act (let! m := seal.mem in ret (seal.statusLocked stored m))).
Definition IsUnsealed : prog World bool := holding (Shared SealMutex) (act (fun w => (seal.IsUnsealed w, w))).

(** cipher.go: the key is derived under the lock, and used after. *)
Definition reading {A} (f : SealMemory → result A) : M World A := let! m := seal.mem in lift_result (f m).
Definition Cipher_Seal (tenant : string) (plaintext : list Z) (aad : crypto.AAD) : thread_of crypto.Envelope :=
  let* sealing := holding (Shared SealMutex) (act (reading (fun m => seal.sealingKEK m tenant))) in
  act (crypto.Seal (fst sealing) (snd sealing) plaintext aad).
Definition Cipher_Open (tenant : string) (envelope : crypto.Envelope) (aad : crypto.AAD) : thread_of (list Z) :=
  if crypto.KEKVersion envelope <? 1 then Done (Err [crypto.ErrDecrypt])
  else
    let* kek := holding (Shared SealMutex) (act (reading (fun m => seal.deriveKEKLocked m tenant (crypto.KEKVersion envelope)))) in
    Done (crypto.Open kek envelope aad).
Definition Cipher_Rewrap (tenant : string) (envelope : crypto.Envelope) (aad : crypto.AAD) : thread_of (crypto.Envelope * bool) :=
  if crypto.KEKVersion envelope <? seal.initialKEKVersion then Done (Err [crypto.ErrDecrypt])
  else holding (Shared SealMutex) (act (seal.rewrap tenant envelope aad)).

(** ** modules/secret *)
Definition checked {A} (r : result unit) (p : thread_of A) : thread_of A := match r with Ok _ => p | Err e => Done (Err e) end.
(** The envelope is made inside of the transaction: its place has the version. *)
Definition Secret_Put (maxVersions : Z) (tenant path : string) (plaintext : list Z) (expect : secret.Expectation) : thread_of Z :=
  checked (secret.validateLocation tenant path) (tx (
    let* begun := act (secret.put_begin tenant path expect) in
    let '(known, now, next) := begun in
    let* envelope := Cipher_Seal tenant plaintext (secret.locate tenant path next) in
    act (secret.put_write maxVersions tenant path known now next envelope))).
Definition resolve_version (tenant path : string) (version : Z) : thread_of Z :=
  if version =? secret.currentVersion
  then let* resolved := stmt (secret.readCurrentVersion tenant path) in
       if negb (snd resolved) then Done (Err [secret.ErrNotFound]) else Done (Ok (fst resolved))
  else Done (Ok version).
Definition Store_Get (tenant path : string) (version : Z) : thread_of secret.SecretRecord :=
  checked (secret.validateLocation tenant path) (
    if version <? 0 then Done (Err [secret.ErrInvalidVersion])
    else
      let* version := resolve_version tenant path version in
      let* row := stmt (query (secret.read_version tenant path version)) in
      Done (match row with None => Err [secret.ErrNotFound] | Some row => secret.record_of_row tenant path version row end)).
Definition Secret_Get (tenant path : string) (version : Z) : thread_of secret.Value :=
  let* record := Store_Get tenant path version in
  let* plaintext := Cipher_Open tenant (secret.r_Envelope record) (secret.locate tenant path (secret.r_Version record)) in
  Done (Ok (secret.MkValue (secret.r_Tenant record) (secret.r_Path record) (secret.r_Version record) plaintext (secret.r_CreatedAt record))).
(** A change of versions is one transaction without the seal. *)
Definition mark (action : secret.versionAction) (tenant path : string) (versions : list Z) : thread_of unit :=
  checked (secret.validateLocation tenant path) (
    if existsb (fun version => version <? 1) versions then Done (Err [secret.ErrInvalidVersion])
    else tx (act (secret.mark_body action tenant path versions))).
End seal.

(** ** rewrap.go of modules/secret and modules/param: the walk *)
Section walk.
Context {K Row : Type} `{Walkable K Row} (rewrap : K → crypto.Envelope → thread_of (crypto.Envelope * bool)).
Definition rewrap_record (record : K * Row) (p : RewrapProgress) : prog World (RewrapProgress * result unit) :=
  let envelope := envelope_of record.2 in
  and_then (act check_ctx) (fun r => match r with
  | Err e => Done (p, Err e)
  | Ok _ =>
      let p := MkProgress (Examined p + 1) (Rewrapped p) in
      and_then (rewrap record.1 envelope) (fun r => match r with
      | Err e => Done (p, Err e)
      | Ok (envelope', changed) =>
          if negb changed then Done (p, Ok tt)
          else and_then (stmt (replaceWrapping record.1 (crypto.KEKVersion envelope) envelope')) (fun r => match r with
               | Err e => Done (p, Err e)
               | Ok written => Done ((if written : bool then MkProgress (Examined p) (Rewrapped p + 1) else p), Ok tt)
               end)
      end)
  end).
Fixpoint rewrap_batch (batch : list (K * Row)) (p : RewrapProgress) : prog World (RewrapProgress * result unit) :=
  match batch with
  | [] => Done (p, Ok tt)
  | record :: batch => and_then (rewrap_record record p) (fun r => match r.2 with
                       | Err e => Done (r.1, Err e)
                       | Ok _ => rewrap_batch batch r.1
                       end)
  end.
(** Others may put rows ahead of the cursor: how many rounds there will be is not
  known at the start, and [None] is a walk that needs more than [fuel]. *)
Fixpoint rewrap_loop (fuel : nat) (at_ : K) (p : RewrapProgress) : prog World (option (RewrapProgress * result unit)) :=
  match fuel with
  | O => Done None
  | S fuel =>
      and_then (stmt (rewrapBatch at_)) (fun r => match r with
      | Err e => Done (Some (p, Err e))
      | Ok batch =>
          match last batch with
          | None => Done (Some (p, Ok tt))
          | Some record =>
              and_then (rewrap_batch batch p) (fun r => match r.2 with
              | Err e => Done (Some (r.1, Err e))
              | Ok _ => rewrap_loop fuel record.1 r.1
              end)
          end
      end)
  end.
Context (rewrap_m : K → crypto.Envelope → M World (crypto.Envelope * bool)) (Hrewrap : ∀ k e w, solo (rewrap k e) w = rewrap_m k e w).
Lemma solo_rewrap_record record p w : solo (rewrap_record record p) w = Walk.rewrap_record rewrap_m record p w.
Proof.
  unfold rewrap_record, Walk.rewrap_record. rewrite solo_and_then, solo_act. destruct (check_ctx w) as [[u|e] w1]; [|done].
  rewrite solo_and_then, Hrewrap. destruct (rewrap_m _ _ w1) as [[[env changed]|e] w2]; [|done]. destruct changed; [|done]. cbn [negb].
  rewrite solo_and_then, solo_stmt. by destruct (replaceWrapping _ _ _ w2) as [[]].
Qed.
Lemma solo_rewrap_batch batch p w : solo (rewrap_batch batch p) w = Walk.rewrap_batch rewrap_m batch p w.
Proof.
  revert p w. induction batch as [|record batch IH]; intros p w; [done|]. cbn [rewrap_batch Walk.rewrap_batch]. rewrite solo_and_then, solo_rewrap_record.
  destruct (Walk.rewrap_record _ _ _ w) as [[p1 [u|e]] w1]; [apply IH|done].
Qed.
Lemma solo_rewrap_loop fuel at_ p w : solo (rewrap_loop fuel at_ p) w = match Walk.rewrap_loop rewrap_m fuel at_ p w with
  | Some (p, r, w) => (Some (p, r), w)
  | None => (None, snd (solo (rewrap_loop fuel at_ p) w))
  end.
Proof.
  revert at_ p w. induction fuel as [|fuel IH]; intros at_ p w; [done|]. cbn [rewrap_loop Walk.rewrap_loop]. rewrite solo_and_then, solo_stmt.
  destruct (rewrapBatch at_ w) as [[batch|e] w1]; [|done]. destruct (last batch) as [record|]; [|done]. rewrite solo_and_then, solo_rewrap_batch.
  destruct (Walk.rewrap_batch _ _ _ w1) as [[p1 [u|e]] w2]; [|done]. cbn [fst snd]. rewrite IH. by destruct (Walk.rewrap_loop _ _ _ _ w2) as [[[]]|].
Qed.
End walk.

Section operations.
Context `{Primitives}.
Definition Secret_Rewrap (fuel : nat) : prog World (option (RewrapProgress * result unit)) :=
  rewrap_loop (fun k envelope => Cipher_Rewrap k.1.1 envelope (secret.locate k.1.1 k.1.2 k.2)) fuel ("", "", 0) (MkProgress 0 0).
Definition Param_Rewrap (fuel : nat) : prog World (option (RewrapProgress * result unit)) :=
  rewrap_loop (fun k envelope => Cipher_Rewrap k.1 envelope (param.locate k.1 k.2)) fuel ("", "") (MkProgress 0 0).
(** The envelope of a parameter is made before the statement that stores it. *)
Definition Param_Put (tenant path kind raw actor : string) : thread_of unit :=
  checked (param.validate tenant path kind raw) (
    let* envelope := Cipher_Seal tenant (bytes_of_string raw) (param.locate tenant path) in
    let* t := act now in
    stmt (exec_ (param.upsert tenant path kind actor (FormatTime t) envelope))).

(** ** modules/rotate *)
Definition claim : prog World bool := holding (Exclusive RunningMutex) (act rotate.claim).
Definition release : prog World unit := holding (Exclusive RunningMutex) (act (fun w => (tt, rotate.release w))).
(** [rotate] with the subjects of internal/app; [None] when a walk needs more rounds. *)
Definition rotation_walks (fuel : nat) : prog World (option (list rotate.named * result unit)) :=
  and_then (Secret_Rewrap fuel) (fun r => match r with
  | None => Done None
  | Some (p, Err e) => Done (Some ([rotate.MkNamed "secret" p], Err e))
  | Some (p, Ok _) => and_then (Param_Rewrap fuel) (fun r => match r with
      | None => Done None
      | Some (p', r) => Done (Some ([rotate.MkNamed "secret" p; rotate.MkNamed "param" p'], r))
      end)
  end).
Definition rotate_ (fuel : nat) : prog World (option (rotate.outcome * result unit)) :=
  and_then claim (fun claimed =>
  if negb claimed then Done (Some (rotate.no_outcome, Err [rotate.ErrInProgress]))
  else and_then Rotate (fun r => match r with
       | Err e => and_then release (fun _ => Done (Some (rotate.no_outcome, Err e)))
       | Ok rotation => and_then (rotation_walks fuel) (fun r => match r with
           | None => Done None
           | Some (subjects, r) => and_then release (fun _ => Done (Some (rotate.MkOutcome (seal.From rotation) (seal.To rotation) subjects, r)))
           end)
       end)).

(** ** Alone, each is the operation it is of *)
Ltac alone := repeat first [rewrite solo_or_fail|rewrite solo_holding|rewrite solo_stmt|rewrite solo_act|rewrite solo_tx].
Lemma bind_ext {A B} (m : M World A) (k k' : A → M World B) w : (∀ a w, k a w = k' a w) → bind m k w = bind m k' w.
Proof. intros Hk. unfold bind. destruct (m w) as [[]]; [apply Hk|done]. Qed.
Lemma Initialize_solo n t w : solo (Initialize n t) w = seal.Initialize n t w.
Proof.
  unfold Initialize, seal.Initialize. rewrite solo_holding, solo_or_fail. unfold bind. rewrite solo_stmt. destruct (seal.readConfig w) as [[stored|e] w1]; [|done].
  destruct (seal.initialized stored); [done|]. rewrite solo_or_fail. unfold bind. rewrite solo_act. unfold prepare, bind, lift_result, now.
  destruct (crypto.NewKey w1) as [[key|e] w2]; [|done]. destruct (shamir.Split key n t w2) as [[split|e] w3]; [|done]. destruct (crypto.KeyCheckValue key) as [kc|e]; [|done].
  cbn [ret]. rewrite solo_or_fail. unfold bind. rewrite solo_stmt. destruct (seal.insert_config _ _) as [[]]; [|done]. done.
Qed.
Lemma Unseal_solo share w : solo (Unseal share) w = seal.Unseal share w.
Proof.
  unfold Unseal, seal.Unseal. rewrite solo_holding. destruct (_ <? _)%nat; [done|]. rewrite solo_or_fail. unfold bind. rewrite solo_stmt.
  destruct (seal.readConfig w) as [[stored|e] w1]; [|done]. destruct (negb _); [done|]. apply solo_act.
Qed.
Lemma Seal_solo w : solo Seal w = seal.Seal w.
Proof. unfold Seal. by rewrite solo_holding, solo_act. Qed.
Lemma Rotate_solo w : solo Rotate w = seal.Rotate w.
Proof.
  unfold Rotate, seal.Rotate. rewrite solo_holding, solo_or_fail. unfold bind. rewrite solo_stmt. destruct (seal.readConfig w) as [[stored|e] w1]; [|done].
  destruct (negb _); [done|]. rewrite solo_or_fail. unfold bind. rewrite solo_act. unfold seal.mem. destruct (root (seal_memory w1)); [|done]. cbv zeta.
  rewrite solo_or_fail. unfold bind. rewrite solo_stmt. destruct (seal.bump_version _ _ w1) as [[n|e] w2]; [|done]. by destruct (negb _).
Qed.
Lemma GetStatus_solo w : solo GetStatus w = seal.GetStatus w.
Proof. unfold GetStatus, seal.GetStatus. rewrite solo_holding, solo_or_fail. unfold bind. rewrite solo_stmt. by destruct (seal.readConfig w) as [[stored|e] w1]. Qed.
Lemma Cipher_Seal_solo tenant p aad w : solo (Cipher_Seal tenant p aad) w = seal.Cipher_Seal tenant p aad w.
Proof.
  unfold Cipher_Seal, seal.Cipher_Seal, reading. rewrite solo_or_fail. unfold bind. rewrite solo_holding, solo_act. unfold bind, seal.mem, lift_result.
  destruct (seal.sealingKEK _ _); [|done]. apply solo_act.
Qed.
Lemma Cipher_Open_solo tenant env aad w : solo (Cipher_Open tenant env aad) w = seal.Cipher_Open tenant env aad w.
Proof.
  unfold Cipher_Open, seal.Cipher_Open, reading. destruct (_ <? 1); [done|]. rewrite solo_or_fail. unfold bind. rewrite solo_holding, solo_act. unfold bind, seal.mem, lift_result.
  by destruct (seal.deriveKEKLocked _ _ _).
Qed.
Lemma Cipher_Rewrap_solo tenant env aad w : solo (Cipher_Rewrap tenant env aad) w = seal.Cipher_Rewrap tenant env aad w.
Proof. unfold Cipher_Rewrap, seal.Cipher_Rewrap. destruct (_ <? _); [done|]. by rewrite solo_holding, solo_act. Qed.
Lemma with_tx_ext {A} (m m' : M World A) w : (∀ w, m w = m' w) → with_tx m w = with_tx m' w.
Proof. intros E. unfold with_tx. destruct (next_fault w) as [[] w1]; [done|]. by rewrite E. Qed.
Lemma solo_checked {A} r (p : thread_of A) (m : M World A) w : (∀ w, solo p w = m w) → solo (checked r p) w = bind (lift_result r) (fun _ => m) w.
Proof. intros E. unfold bind, lift_result. by destruct r. Qed.
Lemma Secret_Put_solo keep t path p expect w : solo (Secret_Put keep t path p expect) w = secret.Service_Put keep t path p expect w.
Proof.
  unfold Secret_Put, secret.Service_Put, secret.Put. unfold bind at 1, lift_result at 1. destruct (secret.validateLocation t path) as [[]|] eqn:Ev; [|done].
  cbn [checked]. rewrite solo_tx. unfold bind at 1, lift_result at 1. rewrite ?Ev. apply with_tx_ext. clear w. intros w. rewrite solo_or_fail. unfold bind. rewrite solo_act.
  destruct (secret.put_begin t path expect w) as [[[[known nw] next]|e] w1]; [|done]. rewrite solo_or_fail. unfold bind. rewrite Cipher_Seal_solo.
  unfold cipher_Seal, seal_cipher. destruct (seal.Cipher_Seal _ _ _ w1) as [[env|e] w2]; [|done]. apply solo_act.
Qed.
Lemma Store_Get_solo t path v w : solo (Store_Get t path v) w = secret.Get t path v w.
Proof.
  unfold Store_Get, secret.Get. apply solo_checked. clear w. intros w. destruct (v <? 0); [done|]. rewrite solo_or_fail. unfold resolve_version, bind.
  destruct (v =? _).
  - rewrite solo_or_fail. unfold bind. rewrite solo_stmt. destruct (secret.readCurrentVersion t path w) as [[r|e] w1]; [|done]. destruct (negb _); [done|].
    cbn [solo ret]. rewrite solo_or_fail. unfold bind. rewrite solo_stmt. by destruct (query _ w1) as [[[row|]|e] w2].
  - cbn [solo ret]. rewrite solo_or_fail. unfold bind. rewrite solo_stmt. by destruct (query _ w) as [[[row|]|e] w2].
Qed.
Lemma Secret_Get_solo t path v w : solo (Secret_Get t path v) w = secret.Service_Get t path v w.
Proof.
  unfold Secret_Get, secret.Service_Get. rewrite solo_or_fail. unfold bind. rewrite Store_Get_solo. destruct (secret.Get t path v w) as [[record|e] w1]; [|done].
  rewrite solo_or_fail. unfold bind. rewrite Cipher_Open_solo. unfold cipher_Open, seal_cipher. by destruct (seal.Cipher_Open _ _ _ w1) as [[]].
Qed.
Lemma mark_solo action t path versions w : solo (mark action t path versions) w = secret.mark action t path versions w.
Proof.
  unfold mark, secret.mark. apply solo_checked. clear w. intros w. destruct (existsb _ _); [done|]. rewrite solo_tx. apply with_tx_ext. intros u. apply solo_act.
Qed.
Lemma Param_Put_solo t path kind raw actor w : solo (Param_Put t path kind raw actor) w = param.Put t path kind raw actor w.
Proof.
  unfold Param_Put, param.Put. apply solo_checked. clear w. intros w. rewrite solo_or_fail. unfold bind. rewrite Cipher_Seal_solo. unfold cipher_Seal, seal_cipher.
  destruct (seal.Cipher_Seal _ _ _ w) as [[env|e] w1]; [|done]. rewrite solo_or_fail. unfold bind. rewrite solo_act. unfold now. apply solo_stmt.
Qed.
End operations.

(** ** Which take their locks in order *)
Section order.
Context `{Primitives} (free : resource → bool) (Hconn : free Connection = false) (Hrunning : free RunningMutex = false).
Abbreviation orderly := (orderly free) (only parsing).
Lemma orderly_or_fail {A B} e f h (p : thread_of A) (k : A → thread_of B) : orderly e h p → (∀ a, orderly f e (k a)) → (∀ x, orderly f e (Done (Err x) : thread_of B)) →
  orderly f h (and_then p (or_fail k)).
Proof. intros Hp Hk He. apply (orderly_and_then _ e); [done|]. intros [a|x]; [apply Hk|apply He]. Qed.
Lemma orderly_act {A} h (m : World → A * World) : orderly h h (act m).
Proof. by intros b. Qed.
Lemma orderly_stmt {A} h (m : M World A) : Forall (below free (Exclusive Connection)) h → orderly h h (stmt m).
Proof. intros Hh. cbn. split_and!; [done|done| |done]. intros r. by rewrite decide_True. Qed.
Lemma orderly_holding {A} h l (p : prog World A) : of_lock l ≠ Connection → allowed free l → (ranked free l = true → Forall (below free l) h) →
  orderly (l :: h) (l :: h) p → orderly h h (holding l p).
Proof.
  intros Hl Ha Hh Hp. cbn. split_and!; [done|done| |by intros ->]. apply (orderly_and_then _ (l :: h)); [done|]. intros x. cbn. by rewrite decide_True.
Qed.
Lemma orderly_checked {A} h r (p : thread_of A) : orderly h h p → orderly h h (checked r p).
Proof. by destruct r. Qed.
Lemma orderly_tx {A} h (body : thread_of A) : Forall (below free (Exclusive Connection)) h → orderly (Exclusive Connection :: h) (Exclusive Connection :: h) body →
  orderly h h (tx body).
Proof.
  intros Hh Hb. unfold tx. cbn [threads.orderly]. split_and!; [done|done| |done]. apply (orderly_and_then _ (Exclusive Connection :: h)); [|intros r; cbn; by rewrite decide_True].
  intros [before|e]; [|done]. cbn [or_fail]. apply (orderly_and_then _ (Exclusive Connection :: h)); [done|]. by intros [a|e] r.
Qed.
Ltac below_all := intros; repeat first [apply Forall_nil; exact I|apply Forall_cons; split; [intros _; cbn; lia|]].
Ltac in_turn := repeat first
  [ progress intros
  | apply orderly_checked | apply orderly_act | solve [apply orderly_stmt; below_all]
  | apply orderly_tx; [below_all|]
  | apply orderly_holding; [done|solve [done|eassumption]|below_all|]
  | eapply orderly_or_fail; [| |done]
  | match goal with |- threads.orderly _ _ _ (match ?x with _ => _ end) => destruct x end
  | done ].
Lemma GetStatus_orderly : orderly [] [] GetStatus.
Proof. unfold GetStatus. in_turn. Qed.
Lemma IsUnsealed_orderly : orderly [] [] IsUnsealed.
Proof. unfold IsUnsealed. in_turn. Qed.
Lemma Cipher_Seal_orderly tenant p aad : orderly [] [] (Cipher_Seal tenant p aad).
Proof. unfold Cipher_Seal. in_turn. Qed.
Lemma Cipher_Open_orderly tenant env aad : orderly [] [] (Cipher_Open tenant env aad).
Proof. unfold Cipher_Open. in_turn. Qed.
Lemma Cipher_Rewrap_orderly tenant env aad : orderly [] [] (Cipher_Rewrap tenant env aad).
Proof. unfold Cipher_Rewrap. in_turn. Qed.
Lemma Secret_Get_orderly t path v : orderly [] [] (Secret_Get t path v).
Proof.
  unfold Secret_Get, Store_Get, resolve_version. eapply orderly_or_fail; [| |done]; [in_turn|]. intros record. eapply orderly_or_fail; [apply Cipher_Open_orderly| |]; done.
Qed.
Lemma mark_orderly action t path versions : orderly [] [] (mark action t path versions).
Proof. unfold mark. in_turn. Qed.
Lemma Param_Put_orderly t path kind raw actor : orderly [] [] (Param_Put t path kind raw actor).
Proof. unfold Param_Put. apply orderly_checked. eapply orderly_or_fail; [apply Cipher_Seal_orderly| |done]. in_turn. Qed.
Lemma rewrap_loop_orderly {K Row} `{Walkable K Row} (rewrap : K → crypto.Envelope → thread_of (crypto.Envelope * bool)) fuel at_ p :
  (∀ k e, orderly [] [] (rewrap k e)) → orderly [] [] (rewrap_loop rewrap fuel at_ p).
Proof.
  intros Hr. assert (∀ record p, orderly [] [] (rewrap_record rewrap record p)) as Hrecord.
  { intros record q. apply (orderly_and_then _ []); [apply orderly_act|]. intros [u|e]; [|done]. apply (orderly_and_then _ []); [apply Hr|].
    intros [[env changed]|e]; [|done]. destruct (negb changed); [done|]. apply (orderly_and_then _ []); [apply orderly_stmt; below_all|]. by intros [b|e]. }
  assert (∀ batch p, orderly [] [] (rewrap_batch rewrap batch p)) as Hbatch.
  { intros batch. induction batch as [|record batch IH]; intros q; [done|]. apply (orderly_and_then _ []); [apply Hrecord|]. intros [q' [u|e]]; [apply IH|done]. }
  revert at_ p. induction fuel as [|fuel IH]; intros at_ p; [done|]. apply (orderly_and_then _ []); [apply orderly_stmt; below_all|].
  intros [batch|e]; [|done]. destruct (last batch); [|done]. apply (orderly_and_then _ []); [apply Hbatch|]. intros [q [u|e]]; [apply IH|done].
Qed.
Lemma Secret_Rewrap_orderly fuel : orderly [] [] (Secret_Rewrap fuel).
Proof. apply rewrap_loop_orderly. intros. apply Cipher_Rewrap_orderly. Qed.
Lemma Param_Rewrap_orderly fuel : orderly [] [] (Param_Rewrap fuel).
Proof. apply rewrap_loop_orderly. intros. apply Cipher_Rewrap_orderly. Qed.
Lemma claim_orderly : orderly [] [] claim.
Proof. unfold claim. in_turn. Qed.
Lemma release_orderly : orderly [] [] release.
Proof. unfold release. in_turn. Qed.
Section exclusive.
Context (Hseal : free SealMutex = false).
Lemma Initialize_orderly n t : orderly [] [] (Initialize n t).
Proof. unfold Initialize. in_turn. Qed.
Lemma Unseal_orderly share : orderly [] [] (Unseal share).
Proof. unfold Unseal. in_turn. Qed.
Lemma Seal_orderly : orderly [] [] Seal.
Proof. unfold Seal. in_turn. Qed.
Lemma Rotate_orderly : orderly [] [] Rotate.
Proof. unfold Rotate. in_turn. Qed.
Lemma rotate__orderly fuel : orderly [] [] (rotate_ fuel).
Proof.
  unfold rotate_. apply (orderly_and_then _ []); [apply claim_orderly|]. intros claimed. destruct (negb claimed); [done|].
  apply (orderly_and_then _ []); [apply Rotate_orderly|]. intros [r|e]; [|by apply (orderly_and_then _ []); [apply release_orderly|]].
  apply (orderly_and_then _ []).
  - unfold rotation_walks. apply (orderly_and_then _ []); [apply Secret_Rewrap_orderly|]. intros [[p [u|e]]|]; [|done..].
    apply (orderly_and_then _ []); [apply Param_Rewrap_orderly|]. by intros [[p' r']|].
  - intros [[subjects r']|]; [|done]. by apply (orderly_and_then _ []); [apply release_orderly|].
Qed.
End exclusive.
(** A put asks for the seal with the connection in its hands: it is in order only
  where nobody takes the seal for itself. *)
Lemma Secret_Put_orderly keep t path p expect : free SealMutex = true → orderly [] [] (Secret_Put keep t path p expect).
Proof.
  intros Hs. unfold Secret_Put. apply orderly_checked, orderly_tx; [below_all|]. eapply orderly_or_fail; [apply orderly_act| |done]. intros [[known now] next].
  eapply orderly_or_fail; [| |done]; [|intros; apply orderly_act]. unfold Cipher_Seal. eapply orderly_or_fail; [| |done]; [|intros; apply orderly_act].
  apply orderly_holding; [done|done| |apply orderly_act]. cbn. by rewrite Hs.
Qed.
End order.

(** ** A rotation alone *)
Section walk_alone.
Context {K Row : Type} `{WalkableLaws K Row} (rewrap : K → crypto.Envelope → thread_of (crypto.Envelope * bool))
  (rewrap_m : K → crypto.Envelope → M World (crypto.Envelope * bool)) (Hrewrap : ∀ k e w, solo (rewrap k e) w = rewrap_m k e w) (Hrw : ∀ k e, only_entropy (rewrap_m k e)).
Lemma loop_with_more fuel fuel' at_ p w r : (fuel <= fuel')%nat → Walk.rewrap_loop rewrap_m fuel at_ p w = Some r → Walk.rewrap_loop rewrap_m fuel' at_ p w = Some r.
Proof.
  revert fuel' at_ p w. induction fuel as [|fuel IH]; intros [|fuel'] at_ p w Hle; [done|done|lia|]. cbn [Walk.rewrap_loop].
  destruct (rewrapBatch at_ w) as [[batch|e] w1]; [|done]. destruct (last batch); [|done]. destruct (Walk.rewrap_batch _ _ _ w1) as [[p1 [u|e]] w2]; [|done]. apply IH. lia.
Qed.
Lemma solo_walk fuel at_ w : (rewrap_fuel w <= fuel)%nat →
  solo (rewrap_loop rewrap fuel at_ (MkProgress 0 0)) w = let '(p, r, w) := walk rewrap_m at_ w in (Some (p, r), w).
Proof.
  intros Hf. destruct (walk_ends rewrap_m Hrw at_ w) as (outcome&E&->). rewrite (solo_rewrap_loop _ _ Hrewrap), (loop_with_more _ _ _ _ _ _ Hf E). by destruct outcome as [[]].
Qed.
End walk_alone.
Section rotation_alone.
#[local] Existing Instances app.key_rotator.
Context `{PrimitiveLaws}.
(** More rounds than the tables have rows. *)
Definition enough (fuel : nat) (w : World) : Prop := (size (secret_versions (database w)) < fuel)%nat ∧ (size (param_values (database w)) < fuel)%nat.
Lemma Secret_Rewrap_solo fuel w : (size (secret_versions (database w)) < fuel)%nat →
  solo (Secret_Rewrap fuel) w = let '(p, r, w) := secret.Service_Rewrap w in (Some (p, r), w).
Proof. intros Hf. apply solo_walk; [intros; apply Cipher_Rewrap_solo|intros; apply (rewrap_effect (C := seal_cipher))|exact Hf]. Qed.
Lemma Param_Rewrap_solo fuel w : (size (param_values (database w)) < fuel)%nat →
  solo (Param_Rewrap fuel) w = let '(p, r, w) := param.Rewrap w in (Some (p, r), w).
Proof. intros Hf. apply solo_walk; [intros; apply Cipher_Rewrap_solo|intros; apply (rewrap_effect (C := seal_cipher))|exact Hf]. Qed.
Lemma rotate__solo fuel w : enough fuel w → solo (rotate_ fuel) w = let '(o, r, w) := rotate.rotate_ app.rotation_subjects w in (Some (o, r), w).
Proof.
  intros [Hs Hp]. unfold rotate_, rotate.rotate_. rewrite solo_and_then. unfold claim. rewrite solo_holding, solo_act. destruct (rotate.claim w) as [claimed w1] eqn:Ec.
  assert (database w1 = database w) as Ed by (unfold rotate.claim in Ec; destruct (rotation_busy w); by injection Ec as _ <-). destruct claimed; [|done]. cbn [negb].
  rewrite solo_and_then, Rotate_solo. unfold RotateKEK, app.key_rotator, app.keyRotator_Rotate, bind. destruct (seal.Rotate w1) as [r w2] eqn:Er. pose proof (seal.Rotate_inv _ _ _ Er) as Hr.
  destruct r as [rotation|e]; [|rewrite solo_and_then; unfold release; by rewrite solo_holding, solo_act]. destruct Hr as (row&k&_&_&_&_&Hdb&_). cbn [ret].
  rewrite solo_and_then. unfold rotation_walks. rewrite solo_and_then, Secret_Rewrap_solo by by rewrite Hdb, Ed.
  unfold app.rotation_subjects. cbn [rotate.rewrap_subjects rotate.Rewrap rotate.Name].
  assert (param_values (database (snd (secret.Service_Rewrap w2))) = param_values (database w)) as Hpv.
  { apply (secret.keeps_Rewrap (fun d => param_values d = param_values (database w))); [by intros d k' r env Hd _ _|intros; apply (rewrap_effect (C := seal_cipher))|]. by rewrite Hdb, Ed. }
  destruct (secret.Service_Rewrap w2) as [[p1 [u|e]] w3]; cbn [snd] in Hpv; [|cbn [solo]; rewrite solo_and_then; unfold release; by rewrite solo_holding, solo_act].
  rewrite solo_and_then, Param_Rewrap_solo by by rewrite Hpv. destruct (param.Rewrap w3) as [[p2 [[]|e]] w4]; cbn [solo]; rewrite solo_and_then; unfold release; by rewrite solo_holding, solo_act.
Qed.
End rotation_alone.
End concurrent.
