(* ===== verification/Deadlock.v ===== *)
(** Which requests can stop the server: every operation takes its locks in order,
  but for writing a secret, which asks for the seal while it has the only
  connection of the database (modules/secret/store.go, service.go); the operations
  that take the seal for themselves ask for the connection while they have the seal
  (modules/seal/manager.go). *)
From Stdlib Require Import ZArith Lia.
From S2P Require Import Prelude GoStrings GoTime World Policy Httpx Shamir Envelope AuditTrail SealManager PolicyStore Cipher Walk SecretStore SecretRewrap VersionedMap Interfaces Param Rotate App Threads Concurrent.

Module deadlock.
Import threads concurrent.

(** ** Requests
  What a goroutine does, one operation after the other.  [TCall] is a statement or a
  transaction of another module: it has the connection, and asks for nothing else. *)
Inductive task :=
| TInitialize (shares threshold : Z) | TUnseal (share : list Z) | TSeal | TRotate | TRotation (fuel : nat) | TStatus | TGate
| TPut (tenant path : string) (plaintext : list Z) (expect : secret.Expectation)
| TGet (tenant path : string) (version : Z)
| TMark (action : secret.versionAction) (tenant path : string) (versions : list Z)
| TOpen (tenant : string) (envelope : crypto.Envelope) (aad : crypto.AAD)
| TParamPut (tenant path kind raw actor : string)
| TCall {A : Type} (m : M World A).
Definition is_put (c : task) : bool := match c with TPut _ _ _ _ => true | _ => false end.
Definition takes_seal (c : task) : bool := match c with TInitialize _ _ | TUnseal _ | TSeal | TRotate | TRotation _ => true | _ => false end.

Section requests.
Context `{Primitives} (keep : Z).
Definition forget {A} (p : prog World A) : prog World unit := and_then p (fun _ => Done tt).
Definition perform (c : task) : prog World unit :=
  match c with
  | TInitialize n t => forget (Initialize n t)
  | TUnseal share => forget (Unseal share)
  | TSeal => forget Seal
  | TRotate => forget Rotate
  | TRotation fuel => forget (rotate_ fuel)
  | TStatus => forget GetStatus
  | TGate => forget IsUnsealed
  | TPut t path p expect => forget (Secret_Put keep t path p expect)
  | TGet t path v => forget (Secret_Get t path v)
  | TMark action t path vs => forget (mark action t path vs)
  | TOpen t envelope aad => forget (Cipher_Open t envelope aad)
  | TParamPut t path kind raw actor => forget (Param_Put t path kind raw actor)
  | TCall m => forget (stmt m)
  end.
Fixpoint request (l : list task) : prog World unit :=
  match l with [] => Done tt | c :: l => and_then (perform c) (fun _ => request l) end.
Definition serving (l : list (list task)) (w : World) : pool World unit := MkPool (map starting (map request l)) w.

(** ** In order *)
Lemma forget_orderly {A} free (p : prog World A) : orderly free [] [] p → orderly free [] [] (forget p).
Proof. intros Hp. by apply (orderly_and_then _ []). Qed.
Lemma perform_orderly free c : free Connection = false → free RunningMutex = false →
  (takes_seal c = true → free SealMutex = false) → (is_put c = true → free SealMutex = true) → orderly free [] [] (perform c).
Proof.
  intros Hc Hr Hs Hp. destruct c; cbn [perform]; apply forget_orderly.
  - by apply Initialize_orderly, Hs.
  - by apply Unseal_orderly, Hs.
  - by apply Seal_orderly, Hs.
  - by apply Rotate_orderly, Hs.
  - by apply rotate__orderly, Hs.
  - by apply GetStatus_orderly.
  - by apply IsUnsealed_orderly.
  - by apply Secret_Put_orderly, Hp.
  - by apply Secret_Get_orderly.
  - by apply mark_orderly.
  - by apply Cipher_Open_orderly.
  - by apply Param_Put_orderly.
  - apply orderly_stmt; [done|]. apply Forall_nil_2.
Qed.
Lemma request_orderly free l : (∀ c, c ∈ l → orderly free [] [] (perform c)) → orderly free [] [] (request l).
Proof.
  induction l as [|c l IH]; intros Hl; [done|]. cbn [request]. apply (orderly_and_then _ []); [apply Hl; by left|]. intros _. apply IH. intros d Hd. apply Hl. by right.
Qed.
(** Nobody writes a secret, or nobody takes the seal for itself. *)
Definition peaceful (l : list (list task)) : Prop := (∀ c r, r ∈ l → c ∈ r → is_put c = false) ∨ (∀ c r, r ∈ l → c ∈ r → takes_seal c = false).
Lemma peaceful_orderly l : peaceful l → ∃ free, Forall (orderly free [] []) (map request l).
Proof.
  assert (∀ free, (∀ r c, r ∈ l → c ∈ r → orderly free [] [] (perform c)) → Forall (orderly free [] []) (map request l)) as Hall.
  { intros free Hf. apply Forall_fmap, Forall_forall. intros r Hr. apply request_orderly. intros c. by apply Hf. }
  intros [Hn|Hn]; [exists (fun _ => false)|exists (fun r => bool_decide (r = SealMutex))]; apply Hall; intros r c Hr Hc; apply perform_orderly; try done; cbn.
  - by rewrite (Hn c r).
  - by rewrite (Hn c r).
Qed.
(** C6. No deadlock where no secret is written, and none where nobody initialises,
  unseals, seals or rotates: however such requests interleave, and whoever gives up
  waiting for the connection, they cannot go on for ever, and the only state in which
  none of them can go on is the one in which all of them have ended. *)
Theorem peaceful_requests_end (l : list (list task)) (w : World) (p : pool World unit)
  (Hl : peaceful l) (Hreach : rtc step (serving l w) p) :
  Acc (fun p' p => step p p') p ∧ (stuck p → Forall (fun t => is_done t = true) (members p)) ∧
  ∃ p', rtc step p p' ∧ Forall (fun t => is_done t = true) (members p').
Proof.
  destruct (peaceful_orderly l Hl) as [free Hf]. split; [apply step_wf|]. split; [|by eapply orderly_ends].
  intros Hs. eapply orderly_progress; [|done]. by eapply reachable_in_order.
Qed.

(** ** The deadlock *)
(** Thread [i] has the connection and waits for the seal, thread [j] has the seal and
  waits for the connection. *)
Record deadlocked (i j : nat) (p : pool World unit) : Prop := {
  dl_put : ∃ t k, members p !! i = Some t ∧ Exclusive Connection ∈ held t ∧ code t = Take (Shared SealMutex) k;
  dl_seal : ∃ u k, members p !! j = Some u ∧ Exclusive SealMutex ∈ held u ∧ announced u = false ∧ code u = Take (Exclusive Connection) k }.
Definition moves (p p' : pool World unit) : Prop := ∃ n, move n p = Some p'.
Lemma somebody_claims (l : list (thread World unit)) i t r : l !! i = Some t → Exclusive r ∈ held t → existsb (claims r) l = true.
Proof.
  intros Hi Hr. apply existsb_exists. exists t. split; [by eapply list_elem_of_In, list_elem_of_lookup_2|by apply claims_held].
Qed.
Lemma deadlocked_waits i j p n t : deadlocked i j p → members p !! n = Some t → announced t = false →
  (∃ k, code t = Take (Shared SealMutex) k ∨ code t = Take (Exclusive SealMutex) k ∨ code t = Take (Exclusive Connection) k) → move n p = None.
Proof.
  intros [(ti&ki&Hi&Hci&_) (tj&kj&Hj&Hcj&_)] Hn Ha [k Hc]. unfold move. rewrite Hn. cbn. unfold advance.
  pose proof (somebody_claims _ i ti Connection Hi Hci) as Hx. pose proof (somebody_claims _ j tj SealMutex Hj Hcj) as Hy.
  by destruct Hc as [->|[->| ->]]; rewrite ?Ha, ?Hx, ?Hy.
Qed.
Lemma deadlocked_stays i j p p' : deadlocked i j p → moves p p' → deadlocked i j p'.
Proof.
  intros Hd [n E]. pose proof E as (t&t'&s&Hn&_&->)%move_inv. pose proof Hd as [(ti&ki&Hi&Hci&Hki) (tj&kj&Hj&Hcj&Ha&Hkj)].
  assert (n ≠ j) as Hnj.
  { intros ->. rewrite (deadlocked_waits i j p j tj) in E; [done|done|done|done|]. exists kj. auto. }
  assert (n ≠ i) as Hni.
  { intros ->. unfold move in E. rewrite Hi in E. cbn in E. unfold advance in E. rewrite Hki in E. by rewrite (somebody_claims _ j tj SealMutex) in E. }
  split; cbn; [exists ti, ki|exists tj, kj]; by rewrite list_lookup_insert_ne.
Qed.

(** *** How it comes about
  What somebody does who takes the seal for himself and then asks the database. *)
Definition asks_with_seal (c : task) : bool := match c with TInitialize _ _ | TRotate => true | TUnseal share => (2 <=? length share)%nat | _ => false end.
(** What begins with the seal or with the connection; a gated request begins with
  the seal (sys/http.go, [RequireUnsealed]). *)
Definition begins_with_either (c : task) : bool :=
  match c with TInitialize _ _ | TUnseal _ | TSeal | TRotate | TStatus | TGate | TCall _ => true | _ => false end.
Definition at_either (t : thread World unit) : Prop :=
  announced t = false ∧ ∃ k, code t = Take (Shared SealMutex) k ∨ code t = Take (Exclusive SealMutex) k ∨ code t = Take (Exclusive Connection) k.
Lemma starting_at_either c l : begins_with_either c = true → at_either (starting (request (c :: l))).
Proof. destruct c; try done; intros _; (split; [done|]); eexists; cbn; eauto. Qed.
Lemma deadlocked_for_ever i j p p' : deadlocked i j p → rtc moves p p' → deadlocked i j p'.
Proof. intros Hd Hr. induction Hr; [done|]. by eauto using deadlocked_stays. Qed.
Lemma at_either_for_ever i j n t p p' : deadlocked i j p → members p !! n = Some t → at_either t → rtc moves p p' → members p' !! n = Some t.
Proof.
  intros Hd Hn Ht Hr. induction Hr as [|p p1 p2 [m E] _ IH]; [done|]. apply IH; [by eapply deadlocked_stays; [|exists m]|].
  assert (m ≠ n) as Hmn. { intros ->. destruct Ht as [Ha [k Hk]]. rewrite (deadlocked_waits i j p n t Hd Hn Ha) in E; [done|]. by exists k. }
  apply move_inv in E as (?&?&?&_&_&->). cbn. by rewrite list_lookup_insert_ne.
Qed.
Lemma quiet_claims r (ps : list (prog World unit)) : existsb (claims r) (map starting ps) = false.
Proof. by induction ps. Qed.
Lemma quiet_reads r (ps : list (prog World unit)) : existsb (reads r) (map starting ps) = false.
Proof. by induction ps. Qed.
Lemma asks_with_seal_waits c l : asks_with_seal c = true → ∃ k k', request (c :: l) = Take (Exclusive SealMutex) k ∧ k true = Take (Exclusive Connection) k'.
Proof.
  destruct c; try done; cbn [asks_with_seal]; intros Hc; cbn [request perform forget]; [|unfold Unseal|].
  2: { rewrite (proj2 (Nat.ltb_ge _ _)) by by apply Nat.leb_le. cbn. by eexists _, _. }
  all: cbn; by eexists _, _.
Qed.
#[local] Opaque begin_tx secret.put_begin.
Lemma deadlock_comes (t path : string) plaintext expect c rest rest' (others : list (list task)) w before w1 begun w2 :
  secret.validateLocation t path = Ok tt → begin_tx w = (Ok before, w1) → secret.put_begin t path expect w1 = (Ok begun, w2) → asks_with_seal c = true →
  ∃ p, play [0; 0; 0; 0; 1; 1]%nat (serving ((TPut t path plaintext expect :: rest) :: (c :: rest') :: others) w) = Some p ∧ deadlocked 0 1 p ∧
    ∀ n, members p !! S (S n) = starting <$> (map request others !! n).
Proof.
  intros Hv Hb Hp Hc. unfold serving. destruct (asks_with_seal_waits c rest' Hc) as (k&k'&Hk&Hk').
  cbn [map]. change (request (TPut t path plaintext expect :: rest)) with (and_then (forget (Secret_Put keep t path plaintext expect)) (fun _ => request rest)).
  unfold Secret_Put. rewrite Hv, Hk. cbn [checked].
  destruct begun as [[known now] next].
  set (T := map starting (map request others)).
  assert (∀ r, existsb (claims r) T = false) as HT by (intros r; exact (quiet_claims r _)).
  assert (∀ r, existsb (reads r) T = false) as HTr by (intros r; exact (quiet_reads r _)).
  eexists. split; [|split].
  { eapply play_step; [by eapply move_to_door; [..|cbn -[T play]; rewrite HT]|]. cbn -[T play].
    eapply play_step; [by eapply move_through_door; [..|cbn -[T play]; rewrite HTr]|]. cbn -[T play].
    eapply play_step; [by eapply move_act|]. cbn -[T play].
    eapply play_step; [by eapply move_act|]. cbn -[T play].
    eapply play_step; [eapply move_to_door; [by cbn..|by cbn -[T]; rewrite HT]|]. cbn -[T play].
    eapply play_step; [eapply move_through_door; [by cbn..|by cbn -[T]; rewrite HTr]|]. cbn -[T play]. reflexivity. }
  - split; cbn; [eexists _, _|eexists _, _]; (split; [done|]); split_and!; try done; by left.
  - intros n. cbn. unfold T. apply list_lookup_fmap.
Qed.

(** C5. A write of a secret and an initialisation, an unsealing or a rotation can stop
  each other, and with them everybody else: the write has the only connection and
  waits for the seal, the other has the seal and waits for the connection. From then
  on, whatever turns are taken, neither of the two ends, and neither does a gated
  request or any other that begins with the seal or the connection, for as long as
  nobody gives up waiting for the connection. *)
Theorem put_and_unseal_deadlock (t path : string) (plaintext : list Z) (expect : secret.Expectation) (c : task) (rest rest' : list task) (others : list (list task))
  (w w1 w2 : World) (before : Db) (begun : bool * string * Z) (Hv : secret.validateLocation t path = Ok tt) (Hb : begin_tx w = (Ok before, w1))
  (Hp : secret.put_begin t path expect w1 = (Ok begun, w2)) (Hc : asks_with_seal c = true) :
  ∃ p, play [0; 0; 0; 0; 1; 1]%nat (serving ((TPut t path plaintext expect :: rest) :: (c :: rest') :: others) w) = Some p ∧
  ∀ p', rtc moves p p' →
    (∀ n, (n < 2)%nat → ∃ u, members p' !! n = Some u ∧ is_done u = false) ∧
    (∀ n d r, others !! n = Some (d :: r) → begins_with_either d = true → ∃ u, members p' !! S (S n) = Some u ∧ is_done u = false).
Proof.
  destruct (deadlock_comes t path plaintext expect c rest rest' others w before w1 begun w2 Hv Hb Hp Hc) as (p&Hplay&Hd&Hothers).
  exists p. split; [done|]. intros p' Hr. pose proof (deadlocked_for_ever _ _ _ _ Hd Hr) as [(u&k&Hu&_&Hcu) (v&k'&Hv'&_&_&Hcv)]. split.
  - intros [|[|n]] Hn; [exists u|exists v|lia]; unfold is_done; by rewrite ?Hcu, ?Hcv.
  - intros n d r Hn Hd'. exists (starting (request (d :: r))). pose proof (starting_at_either d r Hd') as Ha. split.
    + eapply at_either_for_ever; [exact Hd| |exact Ha|exact Hr]. rewrite Hothers, list_lookup_fmap. by rewrite Hn.
    + unfold is_done. by destruct Ha as [_ (?&[->|[->| ->]])].
Qed.
End requests.

(** ** A run *)
#[local] Existing Instance sample.primitives.
Local Definition shop : World := set_seal_memory (MkSealMemory (Some (crypto.sample_key 9)) 1 [])
  (fresh_world (fun n => (1700000000 + Z.of_nat n) * Second) (fun n => Z.of_nat (7 * n + 3))).
Local Definition shop_open : World := snd (begin_tx shop).
Local Definition shop_begun : result (bool * string * Z) := fst (secret.put_begin "acme" "db/password" secret.Any shop_open).
Lemma shop_begins : begin_tx shop = (Ok (database shop), shop_open).
Proof. reflexivity. Qed.
Lemma shop_begun_Ok : shop_begun = Ok (false, FormatTime (1700000000 * Second), 1).
Proof. by vm_compute. Qed.
Lemma shop_location : secret.validateLocation "acme" "db/password" = Ok tt.
Proof. by vm_compute. Qed.
Lemma peaceful_requests_end_witness : peaceful [[TGate; TUnseal [1; 2; 3]]; [TGate; TSeal]; [TGate; TGet "acme" "db/password" 0]] ∧
  Acc (fun p' p => step p p') (serving 10 [[TGate; TUnseal [1; 2; 3]]; [TGate; TSeal]; [TGate; TGet "acme" "db/password" 0]] shop).
Proof.
  assert (peaceful [[TGate; TUnseal [1; 2; 3]]; [TGate; TSeal]; [TGate; TGet "acme" "db/password" 0]]) as Hp.
  { left. intros c r Hr Hc. rewrite !elem_of_cons, elem_of_nil in Hr. destruct Hr as [->|[->|[->|[]]]]; rewrite !elem_of_cons, elem_of_nil in Hc; naive_solver. }
  split; [exact Hp|]. exact (proj1 (peaceful_requests_end 10 _ shop _ Hp (rtc_refl _ _))).
Defined.
Lemma put_and_unseal_deadlock_witness : ∃ p,
  play [0; 0; 0; 0; 1; 1]%nat (serving 10 [[TPut "acme" "db/password" [1] secret.Any]; [TUnseal [1; 2; 3]]; [TGate]] shop) = Some p ∧
  ∀ p', rtc moves p p' → ∃ u, members p' !! 2%nat = Some u ∧ is_done u = false.
Proof.
  destruct (put_and_unseal_deadlock 10 "acme" "db/password" [1] secret.Any (TUnseal [1; 2; 3]) [] [] [[TGate]] shop shop_open
    (snd (secret.put_begin "acme" "db/password" secret.Any shop_open)) (database shop) (false, FormatTime (1700000000 * Second), 1)
    shop_location shop_begins (pair_fst (secret.put_begin "acme" "db/password" secret.Any shop_open) _ shop_begun_Ok) eq_refl) as (p&Hp&Hall).
  exists p. split; [exact Hp|]. intros p' Hr. destruct (Hall p' Hr) as [_ Hn]. exact (Hn 0%nat TGate [] eq_refl eq_refl).
Defined.
End deadlock.
