(* ===== verification/Linear.v ===== *)
(** The secret store under concurrent requests is linearizable: however the calls
  interleave, with each other and with what the rest of the server does, each of
  them takes effect at one moment between its beginning and its end, and the
  effects, in that order, are a run of the specification of VersionedMap.v. *)
From Stdlib Require Import ZArith Lia.
From S2P Require Import Prelude GoStrings GoTime World Policy Httpx Shamir Envelope AuditTrail SealManager PolicyStore Cipher Walk SecretStore SecretRewrap VersionedMap Interfaces Param Rotate App Threads KeyRotation Concurrent.

Module linear.
Import threads concurrent versioned.
#[local] Existing Instances secret.secret_rows secret.secret_rows_laws param.param_rows param.param_rows_laws.

(** ** The ghost
  What the committed tables stand for, and the calls that have taken effect, in
  order, each with its thread and its answer. *)
Definition entry : Type := nat * call * result answer.
Record Ghost := MkGhost { committed : Db; meaning : spec; log : list entry }.
Definition outcomes (l : list entry) : list (call * result answer) := map (fun e => (e.1.2, e.2)) l.
Definition by_i (i : nat) (e : entry) : bool := bool_decide (e.1.1 = i).
Definition mine (i : nat) (x : Ghost) : list entry := filter (fun e => by_i i e = true) (log x).
(** Nothing comes back: neither a version that is gone, nor one that is hidden. *)
Definition descends (s s' : spec) : Prop := ∀ k,
  (is_Some (slots s !! k) → is_Some (slots s' !! k)) ∧ (∀ value, slots s' !! k = Some (Live value) → slots s !! k = Some (Live value) ∨ slots s !! k = None).
#[export] Instance descends_preorder : PreOrder descends.
Proof.
  split; [intros s k; auto|]. intros s1 s2 s3 H12 H23 k. destruct (H12 k) as [A1 B1]. destruct (H23 k) as [A2 B2]. split; [auto|].
  intros value [Hs|Hs]%B2; [by apply B1|]. right. apply eq_None_not_Some. intros Hs1%A1. by destruct Hs1 as [? ?]; simplify_eq.
Qed.

(** A row stays where it is; its envelope is made anew under a higher key version, or
  not at all, and a value that is gone stays gone. *)
Definition aged (row row' : SecretVersionRow) : Prop := sv_destroyed_at row' = None → sv_destroyed_at row = None ∧
  (secret.envelope_of_row row' = secret.envelope_of_row row ∨ sv_kek_version row < sv_kek_version row').
Definition ages (d d' : Db) : Prop := ∀ k row, secret_versions d !! k = Some row → ∃ row', secret_versions d' !! k = Some row' ∧ aged row row'.
#[export] Instance aged_preorder : PreOrder aged.
Proof.
  split; [intros row; split; auto|]. intros r1 r2 r3 H12 H23 H3. destruct (H23 H3) as [H2 E2]. destruct (H12 H2) as [H1 E1]. split; [done|].
  assert (∀ r r', secret.envelope_of_row r = secret.envelope_of_row r' → sv_kek_version r = sv_kek_version r') as Hk by (intros [] []; cbn; by intros [=]).
  destruct E1 as [E1|E1], E2 as [E2|E2]; [left; congruence|right..]; [by rewrite <- (Hk _ _ E1)|by rewrite (Hk _ _ E2)|lia].
Qed.
#[export] Instance ages_preorder : PreOrder ages.
Proof.
  split; [intros d k row Hk; by exists row|]. intros d1 d2 d3 H12 H23 k r1 Hk. destruct (H12 k r1 Hk) as (r2&Hk2&A2). destruct (H23 k r2 Hk2) as (r3&Hk3&A3).
  exists r3. split; [done|by etrans].
Qed.
Lemma ages_versions d d' : secret_versions d' = secret_versions d → ages d d'.
Proof. intros E k row Hk. exists row. by rewrite E. Qed.
Lemma ages_insert d k row row' : secret_versions d !! k = Some row → aged row row' → ages d (set_secret_versions (<[k := row']> (secret_versions d)) d).
Proof.
  intros Hk Ha j r Hj. cbn. destruct (decide (k = j)) as [<-|Hne]; [rewrite lookup_insert_eq; exists row'; by simplify_eq|].
  rewrite lookup_insert_ne by done. by exists r.
Qed.

(** The version new envelopes are made under, as the database has it; steps that keep
  it, and the envelopes of the rows there are, and make new rows under it. *)
Definition kek_of (d : Db) : Z := match seal_config d with Some row => sc_kek_version row | None => 0 end.
Record steady (d d' : Db) : Prop := {
  st_kek : kek_of d' = kek_of d;
  st_rows k row : secret_versions d !! k = Some row → ∃ row', secret_versions d' !! k = Some row' ∧
    (sv_destroyed_at row' = None → sv_destroyed_at row = None ∧ secret.envelope_of_row row' = secret.envelope_of_row row);
  st_new k row' : secret_versions d !! k = None → secret_versions d' !! k = Some row' → sv_destroyed_at row' = None → sv_kek_version row' = kek_of d }.
Lemma same_envelope_kek row row' : secret.envelope_of_row row' = secret.envelope_of_row row → sv_kek_version row' = sv_kek_version row.
Proof. destruct row, row'. cbn. by intros [=]. Qed.
#[export] Instance steady_preorder : PreOrder steady.
Proof.
  split.
  - intros d. split; [done|intros k row Hk; by exists row|congruence].
  - intros d1 d2 d3 [K12 R12 N12] [K23 R23 N23]. split; [congruence|..].
    + intros k r1 Hk. destruct (R12 k r1 Hk) as (r2&Hk2&A2). destruct (R23 k r2 Hk2) as (r3&Hk3&A3). exists r3. split; [done|].
      intros H3. destruct (A3 H3) as [H2 E3]. destruct (A2 H2) as [H1 E2]. split; [done|congruence].
    + intros k r3 Hk1 Hk3 H3. destruct (secret_versions d2 !! k) as [r2|] eqn:Hk2; [|rewrite <- K12; by eapply N23].
      destruct (R23 k r2 Hk2) as (r3'&Hk3'&A3). simplify_eq. destruct (A3 H3) as [H2 E3]. rewrite (same_envelope_kek _ _ E3). by eapply N12.
Qed.
Lemma steady_ages d d' : steady d d' → ages d d'.
Proof. intros [_ R _] k row Hk. destruct (R k row Hk) as (row'&Hk'&A). exists row'. split; [done|]. intros Hn. destruct (A Hn) as [? ?]. auto. Qed.
Lemma steady_tables d d' : secret_versions d' = secret_versions d → kek_of d' = kek_of d → steady d d'.
Proof. intros E Ek. split; [done|intros k row Hk; exists row; by rewrite E|rewrite E; congruence]. Qed.

Lemma replays_app keep s l s1 l1 s2 : replays keep s l s1 → replays keep s1 l1 s2 → replays keep s (l ++ l1) s2.
Proof. induction 1; cbn; [done|..]; intros; econstructor; eauto. Qed.

(** What a thread does: a call of the secret store, a rotation, or a program that
  leaves the secrets alone. *)
Inductive job := Call (c : call) | Rotation | Other (p : prog World (result answer)).
(** An operation whose result does not matter here. *)
Definition besides {A} (p : thread_of A) : job := Other (and_then p (or_fail (fun _ => Done (Ok ADone)))).
Definition owns (jobs : list job) (i : nat) (c : call) : Prop := jobs !! i = Some (Call c) ∨ jobs !! i = Some Rotation ∧ c = CRewrap.

Section cipher.
Context `{PrimitiveLaws} (K : list Z).
(** The cipher of a server that is unsealed with the root key [K]: what it opens,
  an envelope holds, whatever is in memory at the moment. *)
Definition with_root (w : World) : World := set_seal_memory (seal.set_root (Some K) (seal_memory w)) w.
Definition under_root : Cipher := {|
  cipher_Seal := fun tenant plaintext aad w => let '(r, w') := seal.Cipher_Seal tenant plaintext aad (with_root w) in (r, set_seal_memory (seal_memory w) w');
  cipher_Open := fun tenant envelope aad w => (fst (seal.Cipher_Open tenant envelope aad (with_root w)), w);
  cipher_Rewrap := fun tenant envelope aad w => let '(r, w') := seal.Cipher_Rewrap tenant envelope aad (with_root w) in (r, set_seal_memory (seal_memory w) w') |}.
#[local] Instance under_root_laws : CipherLaws under_root.
Proof.
  refine {| cipher_version := kekVersion |}.
  - intros t p aad w. destruct (seal_effect (C := seal_cipher) t p aad (with_root w)) as [e E]. exists e. cbn [cipher_Seal seal_cipher under_root] in *.
    destruct (seal.Cipher_Seal t p aad (with_root w)) as [r w1]. cbn [snd] in *. subst. by destruct w.
  - intros t env aad w. destruct (rewrap_effect (C := seal_cipher) t env aad (with_root w)) as [e E]. exists e. cbn [cipher_Rewrap seal_cipher under_root] in *.
    destruct (seal.Cipher_Rewrap t env aad (with_root w)) as [r w1]. cbn [snd] in *. subst. by destruct w.
  - done.
  - intros t env aad w1 w2 E. cbn. apply (open_memory (C := seal_cipher)). cbn. by rewrite E.
  - intros t p aad w env w'. cbn [cipher_Seal under_root]. destruct (seal.Cipher_Seal t p aad (with_root w)) as [r w1] eqn:E. intros [= -> <-]. by apply seal_opens_here in E.
  - intros t p aad w env w'. cbn [cipher_Seal under_root]. destruct (seal.Cipher_Seal t p aad (with_root w)) as [r w1] eqn:E. intros [= -> <-]. by apply seal_place_here in E.
  - intros t env aad w env' changed w'. cbn [cipher_Rewrap under_root]. destruct (seal.Cipher_Rewrap t env aad (with_root w)) as [r w1] eqn:E. intros [= -> <-].
    exact (rewrap_opens (C := seal_cipher) t env aad _ _ _ _ E).
Defined.
Lemma seals_under_root tenant plaintext aad w env w' : root (seal_memory w) = Some K → seal.Cipher_Seal tenant plaintext aad w = (Ok env, w') →
  ∀ w1, fst (cipher_Open (Cipher := under_root) tenant env aad w1) = Ok plaintext.
Proof. intros Hr E w1. apply seal_opens_here in E. rewrite <- E. apply key_rotation.open_root. by rewrite Hr. Qed.
Lemma opens_under_root tenant env aad w w1 : root (seal_memory w) = Some K →
  fst (cipher_Open (Cipher := under_root) tenant env aad w1) = fst (seal.Cipher_Open tenant env aad w).
Proof. intros Hr. apply key_rotation.open_root. by rewrite Hr. Qed.

(** ** The discipline *)
Context (keep : Z) (Hkeep : 1 ≤ keep ≤ i64_max) (undeletes : bool) (s0 : spec) (jobs : list job).
Abbreviation owner := (owns jobs) (only parsing).
Definition stands_for (s : spec) (w : World) : Prop := implements (C := under_root) keep s w.
Lemma stands_db s w w' : database w' = database w → stands_for s w → stands_for s w'.
Proof.
  intros E [Hok Hl Hs]. split; [by rewrite E|by rewrite E|]. intros k. rewrite E. specialize (Hs k).
  destruct (slots s !! k) as [x|], (secret_versions (database w) !! k) as [row|]; cbn in *; [|done..].
  assert (∀ value, opens (C := under_root) w k row value → opens (C := under_root) w' k row value) as Ho.
  { unfold opens. intros value <-. by apply key_rotation.open_root. }
  destruct x; cbn in *; [..|done]; destruct Hs as (?&?&?); auto.
Qed.
Definition keeps_order (s s' : spec) : Prop := undeletes = false → descends s s'.
#[local] Instance keeps_order_preorder : PreOrder keeps_order.
Proof. split; [by intros s _|]. intros s1 s2 s3 H12 H23 Hu. etrans; [by apply H12|by apply H23]. Qed.
Record sound (s : World) (x : Ghost) : Prop := {
  so_root : root (seal_memory s) = None ∨ root (seal_memory s) = Some K;
  so_meaning : stands_for (meaning x) (set_database (committed x) s);
  so_log : replays keep s0 (outcomes (log x)) (meaning x);
  so_once : NoDup (map (fun e => e.1.1) (log x));
  so_calls : Forall (fun e => owner e.1.1 e.1.2) (log x) }.
(** Nobody but thread [i] rewraps. *)
Definition sole (i : nat) : Prop := ∀ j, j ≠ i → ¬ owner j CRewrap.
Definition grows (x x' : Ghost) : Prop := log x `prefix_of` log x'.
(** A thread adds its own call, once. *)
Definition once (i : nat) (x : Ghost) (es : list entry) : Prop := es = [] ∨ ∃ c o, es = [(i, c, o)] ∧ owner i c ∧ mine i x = [].
Definition only_by (i : nat) (x x' : Ghost) : Prop := ∃ es, log x' = log x ++ es ∧ once i x es.
#[local] Instance discipline : Discipline World Ghost := {
  inv r s x := match r with
               | Connection => database s = committed x
               | SealMutex => root (seal_memory s) = None ∨ kekVersion (seal_memory s) = kek_of (committed x)
               | RunningMutex => True
               end;
  rely i h s x s1 x1 :=
    (Exclusive Connection ∈ h → database s1 = database s ∧ x1 = x) ∧
    (Exclusive SealMutex ∈ h ∨ Shared SealMutex ∈ h → seal_memory s1 = seal_memory s ∧ kek_of (committed x1) = kek_of (committed x)) ∧
    (sound s x → sound s1 x1 ∧ keeps_order (meaning x) (meaning x1)) ∧ mine i x1 = mine i x ∧
    ages (committed x) (committed x1) ∧ (sole i → steady (committed x) (committed x1));
  guar i h s x s1 x1 :=
    (Exclusive Connection ∉ h → database s1 = database s ∧ x1 = x) ∧
    (Exclusive SealMutex ∉ h → seal_memory s1 = seal_memory s ∧ kek_of (committed x1) = kek_of (committed x)) ∧
    (sound s x → sound s1 x1 ∧ keeps_order (meaning x) (meaning x1)) ∧ only_by i x x1 ∧
    ages (committed x) (committed x1) ∧ (¬ owner i CRewrap → steady (committed x) (committed x1));
  evolves := grows;
  always := sound }.
Lemma mine_only_by i j x x1 : i ≠ j → only_by i x x1 → mine j x1 = mine j x.
Proof.
  intros Hij (es&E&Hes). unfold mine. rewrite E, filter_app. assert (filter (fun e : entry => by_i j e = true) es = []) as ->; [|by rewrite app_nil_r].
  destruct Hes as [->|(c&o&->&_)]; [done|]. rewrite filter_cons_False; [done|]. intros Hb%bool_decide_eq_true. cbn in Hb. congruence.
Qed.
#[local] Instance discipline_laws : DisciplineLaws World Ghost.
Proof.
  split; cbn.
  - intros i h s x. by split_and!.
  - intros i h s x s1 x1 s2 x2 (A1&B1&C1&D1&E1&F1) (A2&B2&C2&D2&E2&F2). split_and!; [| | |congruence|by etrans|].
    + intros Hh. destruct (A2 Hh) as [-> ->]. by apply A1.
    + intros Hh. destruct (B2 Hh) as [-> ->]. by apply B1.
    + intros Hs. destruct (C1 Hs) as [Hs1 O1]. destruct (C2 Hs1) as [Hs2 O2]. split; [done|by etrans].
    + intros Hsole. etrans; [by apply F1|by apply F2].
  - intros i j h h' s x s1 x1 Hij Hc (A&B&C&D&E&F). split_and!; [..|done|by eapply mine_only_by|done|].
    + intros Hh. apply A. intros Hi. by destruct (Hc Connection) as [Hx _], (Hx Hi).
    + intros Hh. apply B. intros Hi. destruct (Hc SealMutex) as [Hx _]. destruct (Hx Hi), Hh; done.
    + intros Hsole. by apply F, Hsole.
  - intros i h s x s1 x1 [] (A&B&_&_) Hh; [by destruct (A Hh) as [-> ->]|by destruct (B Hh) as [-> ->]|done].
  - intros i h s x s1 x1 (_&_&_&(es&E&_)&_). by exists es.
  - intros i h s x s1 x1 (_&_&Hs&_&_) Hx. by apply Hs.
Qed.

(** ** What a call promises *)
Definition effectless (c : call) : bool := match c with CGet _ _ _ | CRewrap => true | _ => false end.
(** A call that succeeded has taken effect once, with the answer it gave; one that
  failed has not, unless it had no effect to have. *)
Definition promised (i : nat) (c : call) (h : list lock) (r : result answer) (s : World) (x : Ghost) : Prop :=
  sound s x ∧ match r with Ok a => mine i x = [(i, c, Ok a)] | Err _ => mine i x = [] ∨ effectless c = true ∧ ∃ o, mine i x = [(i, c, o)] end.
(** Reading the latest version and bringing versions back do not go together. *)
Definition allowed (c : call) : Prop :=
  match c with CUndelete _ _ _ => undeletes = true | CGet _ _ v => v = secret.currentVersion → undeletes = false | _ => True end.

Lemma mine_none i x : mine i x = [] → i ∉ map (fun e => e.1.1) (log x).
Proof.
  intros Hn Hi. apply list_elem_of_fmap in Hi as (e&->&He). assert (e ∈ mine e.1.1 x) as Hm; [|rewrite Hn in Hm; by apply elem_of_nil in Hm].
  apply list_elem_of_filter. split; [|done]. by apply bool_decide_eq_true.
Qed.
Lemma sound_root s s1 x : root (seal_memory s1) = root (seal_memory s) → sound s x → sound s1 x.
Proof. intros E [Hr Hm Hl Ho Hc]. split; [by rewrite E|by eapply stands_db; [|exact Hm]|done..]. Qed.
Lemma only_by_refl i x : only_by i x x.
Proof. exists []. rewrite app_nil_r. split; [done|by left]. Qed.
Lemma guar_silent i h s x s1 : database s1 = database s → seal_memory s1 = seal_memory s → guar i h s x s1 x.
Proof. intros Ed Em. split_and!; [done|done| |apply only_by_refl|done|done]. intros Hs. split; [|done]. eapply sound_root; [|done]. by rewrite Em. Qed.
Lemma guar_inside i h s x s1 : Exclusive Connection ∈ h → seal_memory s1 = seal_memory s → guar i h s x s1 x.
Proof. intros Hh Em. split_and!; [done|done| |apply only_by_refl|done|done]. intros Hs. split; [|done]. eapply sound_root; [|done]. by rewrite Em. Qed.
(** The tables change to what stands for the same, or for what the call makes of it. *)
Lemma guar_commit i h s x s1 es sp : Exclusive Connection ∈ h → seal_memory s1 = seal_memory s → once i x es →
  (sound s x → replays keep (meaning x) (outcomes es) sp ∧ stands_for sp s1 ∧ keeps_order (meaning x) sp) →
  (Exclusive SealMutex ∉ h → kek_of (database s1) = kek_of (committed x)) → ages (committed x) (database s1) → (¬ owner i CRewrap → steady (committed x) (database s1)) →
  guar i h s x s1 (MkGhost (database s1) sp (log x ++ es)).
Proof.
  intros Hh Em Hes Hsp Hk Ha Hst'. split_and!; [done|by intros Hx; split; [|apply Hk]| | |done|done].
  - intros Hs. destruct (Hsp Hs) as (Hr&Hst&Ho). split; [|done]. destruct Hs as [Hroot Hm Hl Hn Hc]. split; cbn; [by rewrite Em|by eapply stands_db; [|exact Hst]|..].
    + unfold outcomes in *. rewrite map_app. by eapply replays_app.
    + rewrite map_app. apply NoDup_app. split_and!; [done| |destruct Hes as [->|(c&o&->&_)]; [constructor|apply NoDup_singleton]].
      intros j Hj Hj'. destruct Hes as [->|(c&o&->&_&Hnone)]; [by apply elem_of_nil in Hj'|]. cbn in Hj'. apply list_elem_of_singleton in Hj' as ->. by eapply mine_none.
    + apply Forall_app. split; [done|]. destruct Hes as [->|(c&o&->&Hown&_)]; [apply Forall_nil_2|apply Forall_cons_2; [exact Hown|apply Forall_nil_2]].
  - by exists es.
Qed.
Definition effect (i : nat) (c : call) (o : result answer) (d : Db) (sp : spec) (x : Ghost) : Ghost := MkGhost d sp (log x ++ [(i, c, o)]).
Lemma mine_effect i c o d sp x : mine i (effect i c o d sp x) = mine i x ++ [(i, c, o)].
Proof. unfold mine, effect. cbn. rewrite filter_app. f_equal. rewrite filter_cons_True; [done|]. by apply bool_decide_eq_true. Qed.
Lemma rely_mine i h s x s1 x1 : rely i h s x s1 x1 → mine i x1 = mine i x.
Proof. by intros (_&_&_&?&_). Qed.
Lemma rely_sound i h s x s1 x1 : rely i h s x s1 x1 → sound s x → sound s1 x1.
Proof. intros (_&_&Hs&_&_) H'. by apply Hs. Qed.
Lemma rely_order i h s x s1 x1 : rely i h s x s1 x1 → sound s x → keeps_order (meaning x) (meaning x1).
Proof. intros (_&_&Hs&_&_) H'. by apply Hs. Qed.
Lemma rely_inside i h s x s1 x1 : rely i h s x s1 x1 → Exclusive Connection ∈ h → database s1 = database s ∧ x1 = x.
Proof. intros (Hi&_) Hh. by apply Hi. Qed.
Lemma promised_rely i c h r s x s1 x1 : rely i h s x s1 x1 → promised i c h r s x → promised i c h r s1 x1.
Proof. intros Hr [Hs Hm]. split; [by eapply rely_sound|]. by rewrite (rely_mine _ _ _ _ _ _ Hr). Qed.
Lemma safe_done i c h r s x : promised i c h r s x → safe i (promised i c) h (Done r) s x.
Proof. intros Hp s1 x1 Hr. by eapply promised_rely. Qed.

(** *** The specification keeps the order *)
Lemma spec_put_descends t p value expect s v s' w : stands_for s w → spec_put keep t p value expect s = (Ok v, s') → descends s s'.
Proof.
  intros [Hok Hl Hs] E. unfold spec_put in E. destruct (negb _); [done|]. injection E as _ <-. intros k. cbn [slots]. rewrite map_lookup_imap.
  assert (slots s !! (t, p, latest_of t p s + 1) = None) as Hfree.
  { specialize (Hs (t, p, latest_of t p s + 1)). destruct (slots s !! _); [|done].
    destruct (secret_versions (database w) !! (t, p, latest_of t p s + 1)) as [row|] eqn:Erow; [|done]. exfalso.
    destruct (secret.so_owner _ _ Hok t p (latest_of t p s + 1)) as [meta Hmeta]; [by eexists|].
    destruct (secret.so_versions _ _ Hok _ _ _ Hmeta) as (_&_&Hd). destruct (proj1 (Hd (latest_of t p s + 1))) as [_ Hle]; [by eexists|].
    unfold latest_of in Hle. rewrite Hl, Hmeta in Hle. cbn in Hle. lia. }
  destruct (decide ((t, p, latest_of t p s + 1) = k)) as [<-|Hne].
  - rewrite Hfree, lookup_insert_eq. split; [by intros []|by right].
  - rewrite lookup_insert_ne by done. destruct (slots s !! k) as [y|]; cbn; [|by split; [intros []|right]]. split; [by eexists|].
    intros value'. destruct (_ && _); [done|]. intros [= ->]. by left.
Qed.
Lemma change_all_descends change t p vs m m' l : (∀ y y', change y = Ok y' → ∀ value, y' = Live value → y = Live value) →
  change_all change t p vs m = Ok m' → descends (MkSpec l m) (MkSpec l m').
Proof.
  intros Hc. revert m. induction vs as [|v vs IH]; intros m; cbn [change_all]; [by intros [= <-]|].
  destruct (m !! (t, p, v)) as [y|] eqn:Ey; [|done]. destruct (change y) as [y'|] eqn:Ec; [|done]. cbn [result_bind]. intros E. etrans; [|by apply IH].
  intros k. cbn. destruct (decide ((t, p, v) = k)) as [<-|Hne]; [|rewrite lookup_insert_ne by done; auto].
  rewrite lookup_insert_eq, Ey. split; [by eexists|]. intros value [= ->]. left. f_equal. by eapply Hc.
Qed.
Lemma spec_mark_descends change t p vs s s' : (∀ y y', change y = Ok y' → ∀ value, y' = Live value → y = Live value) →
  spec_mark change t p vs s = (Ok tt, s') → descends s s'.
Proof.
  intros Hc E. unfold spec_mark in E. destruct (change_all _ _ _ _ _) as [m|] eqn:Em; [|done]. injection E as <-. destruct s as [l sl]. by eapply change_all_descends.
Qed.
Lemma specified_order c s a s' w : allowed c → stands_for s w → specified keep c s = (Ok a, s') → keeps_order s s'.
Proof.
  intros Ha Hst E Hu. destruct c as [t p value expect|t p v|t p vs|t p vs|t p vs|]; cbn [specified allowed] in *; unfold answering in E.
  - destruct (spec_put keep t p value expect s) as [[v|e] s1] eqn:Ep; [|done]. injection E as _ <-. by eapply spec_put_descends.
  - unfold spec_get in E. destruct (slots s !! _) as [[]|]; try done. by injection E as _ <-.
  - destruct (spec_mark _ _ _ _ _) as [[[]|e] s1] eqn:Ep; [|done]. injection E as _ <-. eapply spec_mark_descends; [|done].
    intros [] y' [= <-]; naive_solver.
  - congruence.
  - destruct (spec_mark _ _ _ _ _) as [[[]|e] s1] eqn:Ep; [|done]. injection E as _ <-. eapply spec_mark_descends; [|done].
    intros [] y' [= <-]; naive_solver.
  - by injection E as _ <-.
Qed.

(** ** Rules for the programs of Concurrent.v *)
Lemma rely_less i l h s x s1 x1 : rely i (l :: h) s x s1 x1 → rely i h s x s1 x1.
Proof.
  intros (A&B&Hrest). split; [intros Hh; apply A; by right|]. split; [|exact Hrest]. intros Hh. apply B. destruct Hh; [left|right]; by right.
Qed.
Lemma rely_ages i h s x s1 x1 : rely i h s x s1 x1 → ages (committed x) (committed x1).
Proof. by intros (_&_&_&_&?&_). Qed.
Lemma rely_steady i h s x s1 x1 : rely i h s x s1 x1 → sole i → steady (committed x) (committed x1).
Proof. intros (_&_&_&_&_&Hs). exact Hs. Qed.
(** What has the seal finds the version in memory to be that of the database. *)
Definition in_step (s : World) (x : Ghost) : Prop := root (seal_memory s) = None ∨ kekVersion (seal_memory s) = kek_of (committed x).
Lemma in_step_rely i h s x s1 x1 : rely i h s x s1 x1 → Exclusive SealMutex ∈ h ∨ Shared SealMutex ∈ h → in_step s x → in_step s1 x1.
Proof. intros (_&B&_) Hh Hin. destruct (B Hh) as [Em Ek]. unfold in_step. by rewrite Em, Ek. Qed.
Lemma safe_or_fail {A B} i Q h (p : thread_of A) (k : A → thread_of B) s x :
  safe i (fun h r s x => match r with Ok a => safe i Q h (k a) s x | Err e => safe i Q h (Done (Err e)) s x end) h p s x → safe i Q h (and_then p (or_fail k)) s x.
Proof. intros Hp. apply safe_and_then. eapply safe_mono; [|exact Hp]. by intros h' [a|e] s' x' Hr. Qed.
Lemma safe_stmt {A} i Q h (m : M World A) s x :
  (∀ s1 x1, rely i h s x s1 x1 → Q h (Err [context_canceled]) s1 x1) →
  (∀ s1 x1, rely i h s x s1 x1 → database s1 = committed x1 → ∃ x2, guar i (Exclusive Connection :: h) s1 x1 (snd (m s1)) x2 ∧
     database (snd (m s1)) = committed x2 ∧ ∀ s3 x3, rely i h (snd (m s1)) x2 s3 x3 → Q h (fst (m s1)) s3 x3) →
  safe i Q h (stmt m) s x.
Proof.
  intros Hf Hm s1 x1 Hr. split; [|by intros _ s2 x2 Hr2; apply Hf; eapply rely_trans].
  intros Hinv s2 x2 Hr2. cbn in Hinv. destruct (rely_inside _ _ _ _ _ _ Hr2 ltac:(by left)) as [Ed ->].
  destruct (Hm s2 x1) as (x3&Hg&Hd&HQ); [eapply rely_trans; [done|by eapply rely_less]|congruence|]. destruct (m s2) as [r s3]. cbn [fst snd] in *.
  exists x3. split; [done|]. intros s4 x4 Hr4. destruct (rely_inside _ _ _ _ _ _ Hr4 ltac:(by left)) as [Ed4 ->]. split; [intros ? [= <-]; cbn; congruence|].
  cbn [remove_lock]. rewrite decide_True by done. intros s5 x5 Hr5. apply HQ. eapply rely_trans; [by eapply rely_less|done].
Qed.
Lemma safe_act {A} i Q h (m : World → A * World) s x :
  (∀ s1 x1, rely i h s x s1 x1 → ∃ x2, guar i h s1 x1 (snd (m s1)) x2 ∧ ∀ s3 x3, rely i h (snd (m s1)) x2 s3 x3 → Q h (fst (m s1)) s3 x3) →
  safe i Q h (act m) s x.
Proof.
  intros Hm s1 x1 Hr. destruct (Hm s1 x1 Hr) as (x2&Hg&HQ). destruct (m s1) as [r s2]. exists x2. split; [done|]. intros s3 x3 Hr3. by apply HQ.
Qed.
Lemma safe_reading {A} i Q h (m : World → A * World) s x :
  (∀ s1 x1, rely i h s x s1 x1 → in_step s1 x1 → ∃ x2, guar i (Shared SealMutex :: h) s1 x1 (snd (m s1)) x2 ∧ ∀ s3 x3, rely i h (snd (m s1)) x2 s3 x3 → Q h (fst (m s1)) s3 x3) →
  safe i Q h (holding (Shared SealMutex) (act m)) s x.
Proof.
  intros Hm s1 x1 Hr. split; [|done]. intros Hin. cbn [and_then]. intros s2 x2 Hr2. destruct (Hm s2 x2) as (x3&Hg&HQ).
  { eapply rely_trans; [done|by eapply rely_less]. }
  { eapply in_step_rely; [exact Hr2|right; by left|exact Hin]. }
  destruct (m s2) as [r s3]. exists x3. split; [done|]. intros s4 x4 Hr4. split; [done|]. cbn [remove_lock]. rewrite decide_True by done.
  intros s5 x5 Hr5. apply HQ. eapply rely_trans; [by eapply rely_less|done].
Qed.
Lemma safe_checked {A} i Q h r (p : thread_of A) s x : (∀ e, safe i Q h (Done (Err e)) s x) → (r = Ok tt → safe i Q h p s x) → safe i Q h (checked r p) s x.
Proof. intros He Hp. destruct r as [[]|e]; [by apply Hp|apply He]. Qed.

(** A transaction: its body runs on the connection, and at the commit the call takes
  effect. *)
Definition unmet (i : nat) (s : World) (x : Ghost) : Prop := sound s x ∧ mine i x = [].
Lemma unmet_rely i h s x s1 x1 : rely i h s x s1 x1 → unmet i s x → unmet i s1 x1.
Proof. intros Hr [Hs Hm]. split; [by eapply rely_sound|]. by rewrite (rely_mine _ _ _ _ _ _ Hr). Qed.
Lemma unmet_fails i c h e s x : unmet i s x → promised i c h (Err e) s x.
Proof. intros [Hs Hm]. split; [done|by left]. Qed.
Lemma safe_tx {A} i c (ans : A → answer) (body : thread_of A) s x : allowed c → owner i c → unmet i s x →
  (∀ s x, unmet i s x → database s = committed x → safe i (fun h r s1 x1 => h = [Exclusive Connection] ∧ x1 = x ∧ unmet i s1 x1 ∧ ∀ a, r = Ok a →
     steady (committed x) (database s1) ∧ ∃ sp, specified keep c (meaning x) = (Ok (ans a), sp) ∧ stands_for sp s1) [Exclusive Connection] body s x) →
  safe i (promised i c) [] (let* a := tx body in Done (Ok (ans a))) s x.
Proof.
  intros Hall Hown Hu Hbody. apply safe_or_fail. assert (∀ h e s x, unmet i s x → safe i (promised i c) h (Done (Err e)) s x) as Hfail.
  { intros h e s1 x1 H1. by apply safe_done, unmet_fails. }
  intros s1 x1 Hr. pose proof (unmet_rely _ _ _ _ _ _ Hr Hu) as Hu1. split; [|intros _ s2 x2 Hr2; apply Hfail; by eapply unmet_rely].
  intros Hinv. cbn in Hinv. clear s x Hr Hu. apply safe_and_then. intros s2 x2 Hr2. destruct (rely_inside _ _ _ _ _ _ Hr2 ltac:(by left)) as [Ed2 ->].
  pose proof (unmet_rely _ _ _ _ _ _ Hr2 Hu1) as Hu2. unfold begin_tx, next_fault.
  assert (∀ r s3 x3, database s3 = committed x3 → (∀ s4 x4, rely i [] s3 x3 s4 x4 → match r with Ok a => safe i (promised i c) [] (Done (Ok (ans a))) s4 x4 | Err e => safe i (promised i c) [] (Done (Err e)) s4 x4 end) →
    safe i (fun h r s x => match r with Ok a => safe i (promised i c) h (Done (Ok (ans a))) s x | Err e => safe i (promised i c) h (Done (Err e)) s x end)
      [Exclusive Connection] (Give (Exclusive Connection) (Done r)) s3 x3) as Hgive.
  { intros r s3 x3 Hd Hk s4 x4 Hr4. destruct (rely_inside _ _ _ _ _ _ Hr4 ltac:(by left)) as [Ed4 ->]. split; [intros ? [= <-]; cbn; congruence|].
    intros s5 x5 Hr5. apply Hk. eapply rely_trans; [by eapply rely_less|done]. }
  assert (∀ s s', database s' = database s → seal_memory s' = seal_memory s → unmet i s x1 → unmet i s' x1) as Hsame.
  { intros s s' Ed Em [Hs Hm]. split; [|done]. eapply sound_root; [|done]. by rewrite Em. }
  destruct (faults s2 0%nat).
  - exists x1. split; [by apply guar_inside; [left|]|]. cbn [or_fail]. intros s3 x3 Hr3. apply Hgive.
    + destruct (rely_inside _ _ _ _ _ _ Hr3 ltac:(by left)) as [-> ->]. cbn. congruence.
    + intros s4 x4 Hr4. apply Hfail. eapply unmet_rely; [eapply rely_trans; [by eapply rely_less|done]|]. by apply (Hsame s2).
  - exists x1. split; [by apply guar_inside; [left|]|]. cbn [or_fail]. apply safe_and_then. set (s3 := set_faults _ s2).
    assert (database s2 = committed x1) as Ed by congruence. pose proof (Hsame s2 s3 eq_refl eq_refl Hu2) as Hu3.
    eapply safe_mono; [|by apply (Hbody s3 x1 Hu3)]. cbn beta.
    intros h r s4 x4 (->&->&Hu4&Hr4). intros s5 x5 Hr5. destruct (rely_inside _ _ _ _ _ _ Hr5 ltac:(by left)) as [Ed5 ->].
    pose proof (unmet_rely _ _ _ _ _ _ Hr5 Hu4) as Hu5. destruct r as [a|e].
    + unfold commit_tx, next_fault. destruct (faults s5 0%nat).
      * exists x1. split; [by apply guar_inside; [left|]|]. intros s6 x6 Hr6. apply Hgive.
        -- destruct (rely_inside _ _ _ _ _ _ Hr6 ltac:(by left)) as [-> ->]. done.
        -- intros s7 x7 Hr7. apply Hfail. eapply unmet_rely; [eapply rely_trans; [by eapply rely_less|done]|].
           destruct Hu5 as [Hs5 Hm5]. split; [|done]. by apply (sound_root s5).
      * destruct (Hr4 a eq_refl) as (Hsteady&sp&Hsp&Hst). set (s6 := set_faults _ s5). exists (effect i c (Ok (ans a)) (database s6) sp x1).
        assert (guar i [Exclusive Connection] s5 x1 s6 (effect i c (Ok (ans a)) (database s6) sp x1)) as Hg.
        { apply guar_commit; [by left|done|right; eexists _, _; split_and!; [done|done|apply Hu5]| |..];
            try (change (database s6) with (database s5); rewrite Ed5); [|intros _; apply Hsteady|by apply steady_ages|done].
          intros [_ Hm _]. split_and!; [by econstructor; [|constructor]|by apply (stands_db sp s4)|by eapply specified_order]. }
        split; [done|]. intros s7 x7 Hr7. destruct (rely_inside _ _ _ _ _ _ Hr7 ltac:(by left)) as [Ed7 ->]. apply Hgive; [done|].
        intros s8 x8 Hr8. apply safe_done. eapply promised_rely; [eapply rely_trans; [by eapply rely_less|done]|].
        destruct Hu5 as [Hs5 Hm5]. destruct Hg as (_&_&Hg&_). split; [by apply Hg|]. by rewrite mine_effect, Hm5.
    + exists x1. split; [by apply guar_inside; [left|]|]. intros s6 x6 Hr6. apply Hgive.
      * destruct (rely_inside _ _ _ _ _ _ Hr6 ltac:(by left)) as [-> ->]. done.
      * intros s7 x7 Hr7. apply Hfail. eapply unmet_rely; [eapply rely_trans; [by eapply rely_less|done]|].
        destruct Hu5 as [Hs5 Hm5]. split; [|done]. by apply (sound_root s5).
Qed.

(** ** The calls *)
Lemma rely_silent i h s x s1 : database s1 = database s → seal_memory s1 = seal_memory s → rely i h s x s1 x.
Proof. intros Ed Em. split_and!; [done|done| |done|done|done]. intros Hs. split; [|done]. eapply sound_root; [|done]. by rewrite Em. Qed.
Lemma safe_Cipher_Seal i Q h t p aad s x : sound s x →
  (∀ r s1 x1, rely i h s x s1 x1 → (∀ env, r = Ok env → crypto.aad_ok aad ∧ (Exclusive Connection ∈ h → crypto.KEKVersion env = kek_of (committed x)) ∧
     ∀ w, fst (cipher_Open (Cipher := under_root) t env aad w) = Ok p) → Q h r s1 x1) →
  safe i Q h (Cipher_Seal t p aad) s x.
Proof.
  intros Hs HQ. unfold Cipher_Seal. apply safe_or_fail, safe_reading. intros s1 x1 Hr1 Hin. exists x1.
  split; [by apply guar_silent|]. intros s3 x3 Hr3. unfold reading, bind, seal.mem, lift_result in *. cbn [fst snd] in *.
  destruct (seal.sealingKEK (seal_memory s1) t) as [[kek v]|e] eqn:Ek.
  2: { intros s4 x4 Hr4. apply HQ; [|done]. eapply rely_trans; [done|]. by eapply rely_trans. }
  apply safe_act. intros s4 x4 Hr4. cbn [fst snd]. exists x4.
  destruct (crypto.Seal kek v p aad s4) as [r s5] eqn:Eseal. assert (database s5 = database s4 ∧ seal_memory s5 = seal_memory s4) as [Ed Em].
  { destruct (only_entropy_Seal kek v p aad s4) as [e He4]. rewrite Eseal in He4. cbn in He4. by subst. }
  cbn [fst snd]. split; [by apply guar_silent|]. intros s6 x6 Hr6. apply HQ.
  { eapply rely_trans; [done|]. eapply rely_trans; [done|]. eapply rely_trans; [done|]. eapply rely_trans; [|done]. by apply rely_silent. }
  intros env ->. destruct (Seal_inv _ _ _ _ _ _ _ Eseal) as [Hv Ha]. split; [done|].
  unfold seal.sealingKEK in Ek. destruct (seal.deriveKEKLocked _ _ _) as [kek'|] eqn:Ed1; [|done]. cbn in Ek. injection Ek as -> <-.
  destruct (derive_inv _ _ _ _ Ed1) as [_ Hlen]. destruct (crypto.Open_sealed kek (kekVersion (seal_memory s1)) p aad s4 Hlen Hv Ha) as (env1&w1&E1&_&_&Hver&Ho).
  rewrite Eseal in E1. injection E1 as <- <-. assert (root (seal_memory s1) = Some K) as Hroot.
  { pose proof (so_root _ _ (rely_sound _ _ _ _ _ _ Hr1 Hs)) as [Hn|Hn]; [|done]. unfold seal.deriveKEKLocked in Ed1. by rewrite Hn in Ed1. }
  split; [|intros w; cbn [cipher_Open under_root fst]].
  { intros Hh. destruct (rely_inside _ _ _ _ _ _ Hr1 Hh) as [_ ->]. destruct Hin as [Hin|Hin]; [congruence|]. by rewrite Hver. }
  unfold seal.Cipher_Open. rewrite Hver. destruct (Z.ltb_spec (kekVersion (seal_memory s1)) 1); [lia|].
  unfold bind, seal.mem, lift_result. cbn [fst snd].
  replace (seal.deriveKEKLocked (seal_memory (with_root w)) t (kekVersion (seal_memory s1))) with (Ok kek : result (list Z)); [by rewrite Ho|].
  rewrite <- Ed1. unfold seal.deriveKEKLocked. by rewrite Hroot.
Qed.
Lemma safe_Cipher_Open i Q h t env aad s x : sound s x →
  (∀ r s1 x1, rely i h s x s1 x1 → (∀ p, r = Ok p → ∀ w, fst (cipher_Open (Cipher := under_root) t env aad w) = Ok p) → Q h r s1 x1) →
  safe i Q h (Cipher_Open t env aad) s x.
Proof.
  intros Hs HQ. unfold Cipher_Open. destruct (Z.ltb_spec (crypto.KEKVersion env) 1) as [Hv|Hv]; [intros s1 x1 Hr; by apply HQ|].
  apply safe_or_fail, safe_reading. intros s1 x1 Hr1 _. exists x1. split; [by apply guar_silent|]. intros s3 x3 Hr3.
  unfold reading, bind, seal.mem, lift_result in *. cbn [fst snd] in *. destruct (seal.deriveKEKLocked (seal_memory s1) t _) as [kek|e] eqn:Ek.
  2: { intros s4 x4 Hr4. apply HQ; [|done]. eapply rely_trans; [done|]. by eapply rely_trans. }
  intros s4 x4 Hr4. apply HQ; [eapply rely_trans; [done|]; by eapply rely_trans|]. intros p Ho w. cbn [cipher_Open under_root fst]. unfold seal.Cipher_Open.
  destruct (Z.ltb_spec (crypto.KEKVersion env) 1); [lia|]. unfold bind, seal.mem, lift_result. cbn [fst snd]. assert (root (seal_memory s1) = Some K) as Hroot.
  { pose proof (so_root _ _ (rely_sound _ _ _ _ _ _ Hr1 Hs)) as [Hn|Hn]; [|done]. unfold seal.deriveKEKLocked in Ek. by rewrite Hn in Ek. }
  replace (seal.deriveKEKLocked (seal_memory (with_root w)) t (crypto.KEKVersion env)) with (Ok kek : result (list Z)); [by rewrite Ho|].
  rewrite <- Ek. unfold seal.deriveKEKLocked. by rewrite Hroot.
Qed.
Lemma put_write_kek t p known now next env n : keeps_db (fun d => kek_of d = n) (secret.put_write keep t p known now next env).
Proof.
  unfold secret.put_write, secret.pruneOldVersions. apply keeps_db_bind.
  { destruct known; [by apply keeps_db_exec_|]. apply keeps_db_exec. intros d a d' <-. unfold secret.insert_metadata. destruct (_ !! _); [done|]. by intros [= <- <-]. }
  intros _. apply keeps_db_bind.
  { apply keeps_db_exec. intros d a d' <-. unfold secret.insert_version. repeat case_match; try done. by intros [= <- <-]. }
  intros _. apply keeps_db_bind; [|intros _; apply keeps_db_same; auto with world]. destruct (_ <? 1); [apply keeps_db_same; auto with world|by apply keeps_db_exec_].
Qed.
Lemma steady_put t p env now d d' : secret.put_effect keep t p env now d d' → kek_of d' = kek_of d → crypto.KEKVersion env = kek_of d → steady d d'.
Proof.
  intros [_ Hv Hfree] Hk He. split; [done|..].
  - intros k row Hrow. rewrite Hv, lookup_insert_ne by (intros <-; congruence). rewrite Hrow. eexists. split; [done|].
    unfold secret.pruned. destruct (_ && _); [done|auto].
  - intros k row' Hnone. rewrite Hv. destruct (decide ((t, p, secret.next_of t p d) = k)) as [<-|Hne]; [|by rewrite lookup_insert_ne, Hnone].
    rewrite lookup_insert_eq. intros [= <-]. unfold secret.pruned. destruct (_ && _); [done|]. intros _. by destruct env.
Qed.
Lemma Put_safe i t p value expect s x : owner i (CPut t p value expect) → unmet i s x →
  safe i (promised i (CPut t p value expect)) [] (let* v := Secret_Put keep t p value expect in Done (Ok (AVersion v))) s x.
Proof.
  intros Hown Hu. unfold Secret_Put. destruct (secret.validateLocation t p) as [[]|e] eqn:Ev; cbn [checked].
  2: { intros s1 x1 Hr. apply unmet_fails. by eapply unmet_rely. }
  apply safe_tx; [done|done|done|]. clear s x Hu. intros s x Hu Hd. apply safe_or_fail, safe_act. intros s1 x1 Hr1.
  destruct (rely_inside _ _ _ _ _ _ Hr1 ltac:(by left)) as [Ed1 ->]. pose proof (unmet_rely _ _ _ _ _ _ Hr1 Hu) as Hu1.
  exists x. destruct (secret.put_begin t p expect s1) as [r s2] eqn:Eb. cbn [fst snd].
  assert (seal_memory s2 = seal_memory s1) as Em2 by (pose proof (secret.same_mem_put_begin t p expect s1) as Hm; by rewrite Eb in Hm).
  assert (unmet i s2 x) as Hu2 by (destruct Hu1; split; [eapply sound_root; [|done]; by rewrite Em2|done]).
  split; [apply guar_inside; [by left|done]|]. intros s3 x3 Hr3. destruct (rely_inside _ _ _ _ _ _ Hr3 ltac:(by left)) as [Ed3 ->].
  pose proof (unmet_rely _ _ _ _ _ _ Hr3 Hu2) as Hu3. destruct r as [[[known now] next]|e].
  2: { intros s4 x4 Hr4. destruct (rely_inside _ _ _ _ _ _ Hr4 ltac:(by left)) as [_ ->]. split_and!; try done; try by eapply unmet_rely. }
  apply secret.put_begin_Ok in Eb as (Hsat&Hknown&_&Hnext&Ed2&_). subst known next. rewrite Ed1, Hd in *.
  apply safe_or_fail, safe_Cipher_Seal; [apply Hu3|]. intros r s4 x4 Hr4 Henv. destruct (rely_inside _ _ _ _ _ _ Hr4 ltac:(by left)) as [Ed4 ->].
  pose proof (unmet_rely _ _ _ _ _ _ Hr4 Hu3) as Hu4. destruct r as [env|e].
  2: { intros s5 x5 Hr5. destruct (rely_inside _ _ _ _ _ _ Hr5 ltac:(by left)) as [_ ->]. split_and!; try done; try by eapply unmet_rely. }
  destruct (Henv env eq_refl) as (Haad&Hver&Hopen). specialize (Hver ltac:(by left)). apply safe_act. intros s5 x5 Hr5. destruct (rely_inside _ _ _ _ _ _ Hr5 ltac:(by left)) as [Ed5 ->].
  pose proof (unmet_rely _ _ _ _ _ _ Hr5 Hu4) as Hu5. exists x.
  assert (database s5 = committed x) as Ed by congruence. rewrite <- Ed in Hsat, Hopen |- *.
  destruct (secret.put_write _ _ _ _ _ _ _ s5) as [r s6] eqn:Ew. cbn [fst snd].
  assert (seal_memory s6 = seal_memory s5) as Em6.
  { pose proof (secret.same_mem_put_write keep t p (secret.current_version_of t p (database s5)).2 now (secret.next_of t p (database s5)) env s5) as Hm. by rewrite Ew in Hm. }
  split; [apply guar_inside; [by left|done]|]. intros s7 x7 Hr7. destruct (rely_inside _ _ _ _ _ _ Hr7 ltac:(by left)) as [Ed7 ->].
  assert (unmet i s6 x) as Hu6 by (destruct Hu5; split; [eapply sound_root; [|done]; by rewrite Em6|done]).
  pose proof (put_write_kek t p (secret.current_version_of t p (database s5)).2 now (secret.next_of t p (database s5)) env _ s5 eq_refl) as Hkek. rewrite Ew in Hkek.
  split_and!; [done|done|by eapply unmet_rely|]. intros v ->. apply secret.put_write_Ok in Ew as [-> Heff]; [|done].
  rewrite Ed7. split; [eapply steady_put; [exact Heff|exact Hkek|by rewrite Ed]|].
  destruct (put_effect_refines (C := under_root) keep Hkeep t p value expect env now (meaning x) s5 (set_database (database s6) s5)) as (sp&Hsp&Hst);
    [|exact Heff|rewrite Ed; apply Haad|done|done|done|by apply Hopen|].
  { eapply stands_db; [|apply Hu5]. by rewrite <- Ed. }
  exists sp. cbn [specified]. unfold answering. rewrite Hsp. split; [done|]. by eapply stands_db; [|exact Hst].
Qed.
Definition settles (row row' : SecretVersionRow) : Prop := sv_destroyed_at row' = None → sv_destroyed_at row = None ∧ secret.envelope_of_row row' = secret.envelope_of_row row.
Lemma keeps_steady_set_row d0 t p v f : (∀ row, settles row (f row)) → keeps_db (steady d0) (exec_ (secret.set_row t p v f)).
Proof.
  intros Hf. apply keeps_db_exec_. intros d Hd. etrans; [exact Hd|]. unfold secret.set_row. split; [done|..]; intros k row; cbn; destruct (decide ((t, p, v) = k)) as [<-|Hne].
  - intros Hk. rewrite lookup_alter_eq, Hk. eexists. split; [done|apply Hf].
  - intros Hk. rewrite lookup_alter_ne by done. by exists row.
  - intros Hk. by rewrite lookup_alter_eq, Hk.
  - intros Hk. rewrite lookup_alter_ne by done. congruence.
Qed.
Definition settling (action : secret.versionAction) : Prop := ∀ d0 t p v now, keeps_db (steady d0) (action t p v now).
Ltac action_settles :=
  intros d0 t p v now; apply keeps_db_bind; [apply keeps_db_same; unfold secret.readVersionState; auto with world|intros st];
  repeat match goal with |- keeps_db _ (if ?b then _ else _) => destruct b end; try solve [apply keeps_db_same; auto with world]; apply keeps_steady_set_row.
Lemma delete_settling : settling secret.delete_action.
Proof. action_settles. intros [] Hd. cbn in *. auto. Qed.
Lemma undelete_settling : settling secret.undelete_action.
Proof. action_settles. intros [] Hd. cbn in *. auto. Qed.
Lemma destroy_settling : settling secret.destroy_action.
Proof. action_settles. by intros row Hd. Qed.
Lemma mark_body_steady action t p vs d0 : settling action → keeps_db (steady d0) (secret.mark_body action t p vs).
Proof.
  intros Ha. unfold secret.mark_body, secret.readCurrentVersion, secret.timestamp. apply keeps_db_bind.
  { apply keeps_db_same. destruct vs; [|auto with world]. apply same_db_bind; [auto with world|intros r]. destruct (negb _); auto with world. }
  intros vs'. apply keeps_db_bind; [apply keeps_db_same; auto with world|intros now].
  induction vs' as [|v vs' IH]; cbn [secret.for_versions]; [apply keeps_db_same; auto with world|]. apply keeps_db_bind; [apply Ha|by intros _].
Qed.
(** The three changes of versions. *)
Lemma mark_safe i c action change t p vs s x : (∀ sp, specified keep c sp = answering (fun _ => ADone) (spec_mark change t p vs sp)) → allowed c → owner i c → settling action →
  steps (C := under_root) keep action change → (∀ t p v n, same_mem (action t p v n)) → unmet i s x →
  safe i (promised i c) [] (let* _ := mark action t p vs in Done (Ok ADone)) s x.
Proof.
  intros Hc Hall Hown Hag Hst Hmem Hu. unfold mark. assert (∀ e, safe i (promised i c) [] (Done (Err e)) s x) as Hfail by (intros e; by apply safe_done, unmet_fails).
  destruct (secret.validateLocation t p) as [[]|e]; cbn [checked]; [|apply Hfail]. destruct (existsb _ _); [apply Hfail|].
  apply (safe_tx i c (fun _ => ADone)); [done|done|done|]. clear s x Hu Hfail. intros s x Hu Hd. apply safe_act. intros s1 x1 Hr1. destruct (rely_inside _ _ _ _ _ _ Hr1 ltac:(by left)) as [Ed1 ->].
  pose proof (unmet_rely _ _ _ _ _ _ Hr1 Hu) as Hu1. exists x. destruct (secret.mark_body action t p vs s1) as [r s2] eqn:Eb. cbn [fst snd].
  assert (seal_memory s2 = seal_memory s1) as Em2 by (pose proof (same_mem_mark_body action t p vs Hmem s1) as Hm; by rewrite Eb in Hm).
  assert (unmet i s2 x) as Hu2 by (destruct Hu1; split; [eapply sound_root; [|done]; by rewrite Em2|done]).
  split; [apply guar_inside; [by left|done]|]. intros s3 x3 Hr3. destruct (rely_inside _ _ _ _ _ _ Hr3 ltac:(by left)) as [Ed3 ->].
  split_and!; [done|done|by eapply unmet_rely|]. intros [] ->. rewrite Ed3. split.
  { pose proof (mark_body_steady action t p vs (committed x) Hag s1) as Hk. rewrite Eb in Hk. apply Hk. rewrite Ed1, Hd. done. }
  destruct (mark_body_refines (C := under_root) keep action change t p vs (meaning x) s1 s2 Hst) as (sp&Hsp&Hsp'); [|done|].
  { eapply stands_db; [|apply Hu1]. cbn. congruence. }
  exists sp. rewrite Hc. unfold answering. rewrite Hsp. split; [done|]. by eapply stands_db; [|exact Hsp'].
Qed.
Lemma opens_anywhere t env aad w w' p : fst (cipher_Open (Cipher := under_root) t env aad w) = Ok p → fst (cipher_Open (Cipher := under_root) t env aad w') = Ok p.
Proof. intros <-. by apply key_rotation.open_root. Qed.
(** A row that can be read is the value that is live in its place. *)
Lemma read_slot sp w t p n row record : stands_for sp w → secret.read_version t p n (database w) = Some row → secret.record_of_row t p n row = Ok record →
  secret.r_Version record = n ∧ ∃ value, slots sp !! (t, p, n) = Some (Live value) ∧
    ∀ w', fst (cipher_Open (Cipher := under_root) t (secret.r_Envelope record) (secret.locate t p n) w') = Ok value.
Proof.
  intros [_ _ Hs] Hrow E. unfold secret.read_version in Hrow. specialize (Hs (t, p, n)). rewrite Hrow in Hs.
  destruct (slots sp !! (t, p, n)) as [y|]; [|done]. cbn in Hs. unfold secret.record_of_row in E.
  destruct (secret.parse_time _); [|done]. destruct (secret.parse_null _); [|done]. destruct (secret.parse_null (sv_destroyed_at row)); [|done]. cbn [result_bind] in E.
  destruct (secret.is_some (sv_destroyed_at row)) eqn:Hdes; [done|]. destruct (secret.is_some (sv_deleted_at row)) eqn:Hdel; [done|]. injection E as <-. split; [done|].
  destruct y as [value|value|]; cbn in Hs; [|by destruct Hs as (_&?&_); congruence|congruence]. exists value. split; [done|].
  intros w'. destruct Hs as (_&_&Ho). by eapply opens_anywhere.
Qed.
Lemma safe_query {A} i Q h (f : Db → A) s x : (∀ e s1 x1, rely i h s x s1 x1 → Q h (Err e) s1 x1) →
  (∀ s1 x1, rely i h s x s1 x1 → database s1 = committed x1 → ∃ x2, guar i (Exclusive Connection :: h) s1 x1 (tick s1) x2 ∧ committed x2 = committed x1 ∧
     ∀ s3 x3, rely i h (tick s1) x2 s3 x3 → Q h (Ok (f (committed x1))) s3 x3) →
  safe i Q h (stmt (query f)) s x.
Proof.
  intros He Hk. apply safe_stmt; [intros; by apply He|]. intros s1 x1 Hr1 Hd. destruct (query_cases f s1) as [-> | ->]; cbn [fst snd].
  - exists x1. split; [by apply guar_silent|]. split; [done|]. intros s3 x3 Hr3. apply He. eapply rely_trans; [done|]. eapply rely_trans; [|done]. by apply rely_silent.
  - rewrite Hd. destruct (Hk s1 x1 Hr1 Hd) as (x2&Hg&Hc&HQ). exists x2. split_and!; [done|by rewrite Hc|done].
Qed.
(** What has been read is what the entry of the log says, if it could be read. *)
Definition read_back (i : nat) (t p : string) (asked : Z) (h : list lock) (r : result secret.SecretRecord) (s : World) (x : Ghost) : Prop :=
  match r with
  | Err _ => ∀ c, c = CGet t p asked → promised i c h (Err []) s x
  | Ok record => sound s x ∧ ∃ o, mine i x = [(i, CGet t p asked, o)] ∧ ∃ value, o = Ok (AValue (secret.r_Version record) value) ∧
      ∀ w, fst (cipher_Open (Cipher := under_root) t (secret.r_Envelope record) (secret.locate t p (secret.r_Version record)) w) = Ok value
  end.
Definition read_now (t p : string) (asked : Z) (sp : spec) : result answer := fst (specified 0 (CGet t p asked) sp).
Lemma replays_read t p asked sp : replays keep sp [(CGet t p asked, read_now t p asked sp)] sp.
Proof.
  unfold read_now. cbn [specified]. unfold answering, spec_get. cbn [fst snd result_map]. destruct (slots sp !! _) as [[]|] eqn:E; cbn; try (by constructor; constructor).
  econstructor; [|constructor]. cbn [specified]. unfold answering, spec_get. by rewrite E.
Qed.
Definition logged (i : nat) (t p : string) (asked : Z) (x : Ghost) : Ghost := effect i (CGet t p asked) (read_now t p asked (meaning x)) (committed x) (meaning x) x.
Lemma guar_logged i h t p asked s x : owner i (CGet t p asked) → mine i x = [] → Exclusive Connection ∈ h → database s = committed x → guar i h s x (tick s) (logged i t p asked x).
Proof.
  intros Hown Hnone Hh Hd. unfold logged, effect. rewrite <- Hd. change (database s) with (database (tick s)).
  apply guar_commit; [done|done|right; by eexists _, _| |by rewrite <- Hd..].
  intros [_ Hm _]. split_and!; [apply replays_read|by eapply stands_db; [|exact Hm]|done].
Qed.
(** The version that is asked for by its number is read where it is returned. *)
Lemma Get_version_safe i t p asked s x : owner i (CGet t p asked) → asked ≠ secret.currentVersion → unmet i s x →
  safe i (read_back i t p asked) [] (let* row := stmt (query (secret.read_version t p asked)) in
     Done (match row with None => Err [secret.ErrNotFound] | Some row => secret.record_of_row t p asked row end)) s x.
Proof.
  intros Hown Hasked Hu. apply safe_or_fail, safe_query.
  { intros e s1 x1 Hr1 s2 x2 Hr2 c _. apply unmet_fails. eapply unmet_rely; [|done]. by eapply rely_trans. }
  intros s1 x1 Hr1 Hd. pose proof (unmet_rely _ _ _ _ _ _ Hr1 Hu) as Hu1. exists (logged i t p asked x1). pose proof (guar_logged i [Exclusive Connection] t p asked s1 x1 Hown (proj2 Hu1) ltac:(by left) Hd) as Hg.
  split_and!; [done|done|]. intros s3 x3 Hr3 s4 x4 Hr4. pose proof (rely_trans _ _ _ _ _ _ _ _ Hr3 Hr4) as Hr. clear Hr3 Hr4.
  assert (sound s4 x4) as Hs4 by (eapply rely_sound; [exact Hr|]; by apply Hg, Hu1).
  assert (mine i x4 = [(i, CGet t p asked, read_now t p asked (meaning x1))]) as Hm4.
  { rewrite (rely_mine _ _ _ _ _ _ Hr). unfold logged. rewrite mine_effect. by destruct Hu1 as [_ ->]. }
  destruct (secret.read_version t p asked (committed x1)) as [row|] eqn:Erow; [|intros c ->; split; [done|right; by eauto]].
  destruct (secret.record_of_row t p asked row) as [record|e] eqn:Erec; [|intros c ->; split; [done|right; by eauto]].
  split; [done|]. eexists. split; [done|]. destruct (read_slot (meaning x1) (set_database (committed x1) s1) t p asked row record) as (Hv&value&Hslot&Ho); [by apply Hu1|done|done|].
  exists value. rewrite Hv. split; [|done]. unfold read_now. cbn [specified]. unfold answering, spec_get. destruct (Z.eqb_spec asked secret.currentVersion); [done|]. by rewrite Hslot.
Qed.
Lemma latest_slot sp w t p n : stands_for sp w → secret.current_version_of t p (database w) = (n, true) → latest_of t p sp = n ∧ is_Some (slots sp !! (t, p, n)).
Proof.
  intros [Hok Hl Hs] E. unfold secret.current_version_of in E. destruct (secret_metadata (database w) !! (t, p)) as [meta|] eqn:Em; [|done]. injection E as <-.
  unfold latest_of. rewrite Hl, Em. split; [done|]. destruct (secret.so_versions _ _ Hok _ _ _ Em) as (_&?&Hd).
  destruct (proj2 (Hd (current_version meta))) as [row Hrow]; [lia|]. specialize (Hs (t, p, current_version meta)). rewrite Hrow in Hs.
  destruct (slots sp !! _); [by eexists|done].
Qed.
(** The latest version is read in two statements: as nothing comes back, what the
  second one finds readable was so at the first. *)
Lemma Get_current_safe i t p s x : owner i (CGet t p secret.currentVersion) → undeletes = false → unmet i s x →
  safe i (read_back i t p secret.currentVersion) [] (let* v := resolve_version t p secret.currentVersion in let* row := stmt (query (secret.read_version t p v)) in
     Done (match row with None => Err [secret.ErrNotFound] | Some row => secret.record_of_row t p v row end)) s x.
Proof.
  intros Hown Hun Hu. assert (∀ e s x, unmet i s x → safe i (read_back i t p secret.currentVersion) [] (Done (Err e)) s x) as Hfail.
  { intros e s1 x1 Hu1 s2 x2 Hr2 c _. apply unmet_fails. by eapply unmet_rely. }
  apply safe_or_fail. unfold resolve_version. rewrite Z.eqb_refl. apply safe_or_fail, safe_query.
  { intros e s1 x1 Hr1 s2 x2 Hr2. apply Hfail. eapply unmet_rely; [|done]. by eapply rely_trans. }
  intros s1 x1 Hr1 Hd. pose proof (unmet_rely _ _ _ _ _ _ Hr1 Hu) as Hu1. exists (logged i t p secret.currentVersion x1).
  pose proof (guar_logged i [Exclusive Connection] t p secret.currentVersion s1 x1 Hown (proj2 Hu1) ltac:(by left) Hd) as Hg. split_and!; [done|done|]. clear s x Hr1 Hu.
  assert (sound (tick s1) (logged i t p secret.currentVersion x1)) as Hs2 by by apply Hg, Hu1.
  assert (mine i (logged i t p secret.currentVersion x1) = [(i, CGet t p secret.currentVersion, read_now t p secret.currentVersion (meaning x1))]) as Hm2.
  { unfold logged. rewrite mine_effect. by destruct Hu1 as [_ ->]. }
  assert (∀ h e s x, rely i [] (tick s1) (logged i t p secret.currentVersion x1) s x → safe i (read_back i t p secret.currentVersion) h (Done (Err e)) s x) as Hfail2.
  { intros h e s x Hr s4 x4 Hr4 c ->. eapply promised_rely; [exact Hr4|]. split; [by eapply rely_sound|]. right. split; [done|]. rewrite (rely_mine _ _ _ _ _ _ Hr). by eauto. }
  clear Hfail. intros s3 x3 Hr3. destruct (secret.current_version_of t p (committed x1)) as [n found] eqn:En. cbn [fst snd]. destruct found; cbn [negb].
  2: { intros s4 x4 Hr4. apply Hfail2. by eapply rely_trans. }
  intros s4 x4 Hr4. pose proof (rely_trans _ _ _ _ _ _ _ _ Hr3 Hr4) as Hr. clear s3 x3 Hr3 Hr4. apply safe_or_fail, safe_query.
  { intros e s5 x5 Hr5. apply Hfail2. by eapply rely_trans. }
  intros s5 x5 Hr5 Hd5. pose proof (rely_trans _ _ _ _ _ _ _ _ Hr Hr5) as Hr1. clear s4 x4 Hr Hr5. exists x5. split_and!; [by apply guar_silent|done|].
  pose proof (rely_sound _ _ _ _ _ _ Hr1 Hs2) as Hs5. pose proof (rely_order _ _ _ _ _ _ Hr1 Hs2 Hun) as Hord. cbn [logged effect meaning] in Hord.
  intros s6 x6 Hr6. assert (rely i [] (tick s1) (logged i t p secret.currentVersion x1) s6 x6) as Hr by (eapply rely_trans; [exact Hr1|]; eapply rely_trans; [|exact Hr6]; by apply rely_silent).
  destruct (secret.read_version t p n (committed x5)) as [row|] eqn:Erow; [|by apply Hfail2].
  destruct (secret.record_of_row t p n row) as [record|e] eqn:Erec; [|by apply Hfail2].
  intros s7 x7 Hr7. split; [eapply rely_sound; [exact Hr7|]; by eapply rely_sound|]. eexists. rewrite (rely_mine _ _ _ _ _ _ Hr7), (rely_mine _ _ _ _ _ _ Hr). split; [done|].
  destruct (read_slot (meaning x5) (set_database (committed x5) s5) t p n row record) as (Hv&value&Hslot&Ho); [by apply Hs5|done|done|].
  destruct (latest_slot (meaning x1) (set_database (committed x1) s1) t p n) as [Hlat Hsome]; [by apply Hu1|done|].
  exists value. rewrite Hv. split; [|done]. unfold read_now. cbn [specified]. unfold answering, spec_get. rewrite Z.eqb_refl, Hlat.
  destruct (Hord (t, p, n)) as [_ Hback]. destruct (Hback value Hslot) as [-> |Hnone]; [done|]. rewrite Hnone in Hsome. by destruct Hsome.
Qed.
Lemma Get_safe i t p asked s x : allowed (CGet t p asked) → owner i (CGet t p asked) → unmet i s x →
  safe i (promised i (CGet t p asked)) [] (let* value := Secret_Get t p asked in Done (Ok (AValue (secret.v_Version value) (secret.Data value)))) s x.
Proof.
  intros Hall Hown Hu. apply safe_or_fail. unfold Secret_Get. apply safe_or_fail. eapply (safe_mono i (read_back i t p asked)).
  - intros h [record|e] s1 x1; cbn [read_back].
    + intros (Hs1&o&Hm&value&->&Ho). apply safe_or_fail, safe_Cipher_Open; [done|]. intros r s2 x2 Hr2 Hp.
      assert (promised i (CGet t p asked) h (Ok (AValue (secret.r_Version record) value)) s2 x2) as Hpr.
      { eapply promised_rely; [exact Hr2|]. by split. }
      destruct r as [plaintext|e].
      * intros s3 x3 Hr3. cbn [secret.v_Version secret.Data]. assert (plaintext = value) as ->.
        { pose proof (Hp _ eq_refl s2) as H1. rewrite Ho in H1. by injection H1. }
        apply safe_done. by eapply promised_rely.
      * intros s3 x3 Hr3. eapply safe_done, promised_rely; [exact Hr3|]. destruct Hpr as [Hs2 Hm2]. split; [done|right; by eauto].
    + intros Hp s2 x2 Hr2. apply safe_done. eapply promised_rely; [exact Hr2|]. by apply Hp.
  - unfold Store_Get. assert (∀ e, safe i (read_back i t p asked) [] (Done (Err e)) s x) as Hfail.
    { intros e s1 x1 Hr1 c _. apply unmet_fails. by eapply unmet_rely. }
    destruct (secret.validateLocation t p) as [[]|e]; cbn [checked]; [|apply Hfail]. destruct (asked <? 0); [apply Hfail|].
    destruct (Z.eq_dec asked secret.currentVersion) as [->|Hne]; [by apply Get_current_safe; [..|apply Hall|]|].
    unfold resolve_version. destruct (Z.eqb_spec asked secret.currentVersion); [done|]. apply safe_or_fail. intros s1 x1 Hr1. apply Get_version_safe; [done|done|]. by eapply unmet_rely.
Qed.

(** *** The walk of a rotation *)
Definition made_anew (t : string) (aad : crypto.AAD) (env env' : crypto.Envelope) (changed : bool) : Prop :=
  crypto.Ciphertext env' = crypto.Ciphertext env ∧ (changed = true → crypto.KEKVersion env < crypto.KEKVersion env') ∧ (changed = false → env' = env) ∧
  ∀ p w w', fst (cipher_Open (Cipher := under_root) t env aad w) = Ok p → fst (cipher_Open (Cipher := under_root) t env' aad w') = Ok p.
Lemma rewrap_newer t env aad w env' w' : seal.Cipher_Rewrap t env aad w = (Ok (env', true), w') → crypto.KEKVersion env < kekVersion (seal_memory w).
Proof.
  unfold seal.Cipher_Rewrap. destruct (_ <? _); [done|]. unfold seal.rewrap, bind, seal.mem. destruct (root (seal_memory w)); [|done].
  destruct (Z.ltb_spec (kekVersion (seal_memory w)) (crypto.KEKVersion env)); [done|]. destruct (Z.eqb_spec (crypto.KEKVersion env) (kekVersion (seal_memory w))); [done|]. lia.
Qed.
Lemma safe_Cipher_Rewrap i Q h t env aad s x : sound s x →
  (∀ r s1 x1, rely i h s x s1 x1 → (∀ env' changed, r = Ok (env', changed) → made_anew t aad env env' changed ∧ (sole i → crypto.KEKVersion env' = kek_of (committed x))) → Q h r s1 x1) →
  safe i Q h (Cipher_Rewrap t env aad) s x.
Proof.
  intros Hs HQ. destruct (crypto.KEKVersion env <? seal.initialKEKVersion) eqn:Hv; unfold Cipher_Rewrap; rewrite Hv; [intros s1 x1 Hr1; by apply HQ|].
  apply safe_reading. intros s1 x1 Hr1 Hin. exists x1.
  assert (seal.rewrap t env aad s1 = seal.Cipher_Rewrap t env aad s1) as E by (unfold seal.Cipher_Rewrap; by rewrite Hv).
  rewrite E. destruct (rewrap_effect (C := seal_cipher) t env aad s1) as [e He]. cbn [cipher_Rewrap seal_cipher] in He. destruct (seal.Cipher_Rewrap t env aad s1) as [r s2] eqn:Er. cbn [fst snd] in *. subst s2.
  split; [by apply guar_silent|]. intros s3 x3 Hr3. apply HQ; [eapply rely_trans; [exact Hr1|]; eapply rely_trans; [|exact Hr3]; by apply rely_silent|].
  intros env' changed ->. destruct (rewrap_opens (C := seal_cipher) t env aad _ _ _ _ Er) as (Hk&Hc&Hsame&Ho). assert (root (seal_memory s1) = Some K) as Hroot.
  { pose proof (so_root _ _ (rely_sound _ _ _ _ _ _ Hr1 Hs)) as [Hn|Hn]; [|done]. exfalso. unfold seal.rewrap, bind, seal.mem in E. by rewrite Hn in E. }
  split; [split_and!; [done| |done|]|].
  - intros ->. rewrite Hk. by eapply rewrap_newer.
  - intros p w w' Hp. rewrite (opens_under_root t env' aad s1 w' Hroot). apply Ho. rewrite <- Hp. symmetry. by apply opens_under_root.
  - intros Hsole. destruct Hin as [Hin|Hin]; [congruence|]. rewrite Hk. change (cipher_version (seal_memory s1)) with (kekVersion (seal_memory s1)). rewrite Hin.
    apply (st_kek _ _ (rely_steady _ _ _ _ _ _ Hr1 Hsole)).
Qed.
(** A row is under the current version. *)
Definition current (k : string * string * Z) (d : Db) : Prop := ∀ row, secret_versions d !! k = Some row → sv_destroyed_at row = None → sv_kek_version row = kek_of d.
(** What a live row is under now: the current version, or what it was under. *)
Definition follows (d d' : Db) : Prop := kek_of d' = kek_of d ∧ ∀ k row', secret_versions d' !! k = Some row' → sv_destroyed_at row' = None →
  sv_kek_version row' = kek_of d ∨ ∃ row, secret_versions d !! k = Some row ∧ sv_destroyed_at row = None ∧ sv_kek_version row' = sv_kek_version row.
#[local] Instance follows_preorder : PreOrder follows.
Proof.
  split; [intros d; split; [done|intros k row Hk Hn; right; by exists row]|]. intros d1 d2 d3 [K12 F12] [K23 F23]. split; [congruence|].
  intros k r3 Hk Hn. destruct (F23 k r3 Hk Hn) as [E|(r2&Hk2&Hn2&E)]; [left; congruence|]. destruct (F12 k r2 Hk2 Hn2) as [E'|(r1&Hk1&Hn1&E')]; [left; congruence|].
  right. exists r1. split_and!; [done|done|congruence].
Qed.
Lemma steady_follows d d' : steady d d' → follows d d'.
Proof.
  intros [Hk Hr Hn]. split; [done|]. intros k row' Hrow' Hlive. destruct (secret_versions d !! k) as [row|] eqn:Hrow; [|left; by eapply Hn].
  right. destruct (Hr k row Hrow) as (row1&Hrow1&A). simplify_eq. destruct (A Hlive) as [? E]. exists row. split_and!; [done|done|by apply same_envelope_kek].
Qed.
Lemma follows_current d d' k : follows d d' → current k d → current k d'.
Proof. intros [Hk Hf] Hc row' Hrow' Hn. rewrite Hk. destruct (Hf k row' Hrow' Hn) as [->|(row&Hrow&Hlive&->)]; [done|by apply Hc]. Qed.
Lemma replace_follows k old env' n d d' : replace_row (Row := SecretVersionRow) k old env' d = (Ok n, d') → crypto.KEKVersion env' = kek_of d →
  follows d d' ∧ ∀ row', secret_versions d' !! k = Some row' → sv_destroyed_at row' = None → sv_kek_version row' = kek_of d ∨ secret_versions d !! k = Some row' ∧ sv_kek_version row' ≠ old.
Proof.
  intros E Hv. unfold replace_row in E. change (rows d) with (secret_versions d) in E. destruct (secret_versions d !! k) as [row|] eqn:Hrow; cbn in E.
  2: { injection E as _ <-. split; [done|]. intros row' Hrow'. congruence. }
  destruct ((_ =? _) && _) eqn:Hcond; injection E as _ <-.
  - split; [|intros row'; cbn; rewrite lookup_insert_eq; intros [= <-] _; by left]. split; [done|]. intros j row'. cbn. destruct (decide (k = j)) as [<-|Hne].
    + rewrite lookup_insert_eq. intros [= <-] _. by left.
    + rewrite lookup_insert_ne by done. intros Hj Hn. right. by exists row'.
  - split; [done|]. intros row' Hrow' Hn. simplify_eq. right. split; [done|]. intros Heq. rewrite Heq, Z.eqb_refl, Hn in Hcond. done.
Qed.
(** The row that was read, as it is by now. *)
Definition known (k : string * string * Z) (row : SecretVersionRow) (x : Ghost) : Prop := sv_destroyed_at row = None ∧ secret_versions (committed x) !! k = Some row.
Definition since (i : nat) (x0 x : Ghost) : Prop := ages (committed x0) (committed x) ∧ (sole i → follows (committed x0) (committed x)).
Lemma since_rely i x0 h s x s1 x1 : rely i h s x s1 x1 → since i x0 x → since i x0 x1.
Proof.
  intros Hr [Ha Hf]. split; [etrans; [exact Ha|by eapply rely_ages]|]. intros Hsole. etrans; [by apply Hf|]. by eapply steady_follows, rely_steady.
Qed.
Lemma since_refl i x : since i x x.
Proof. by split. Qed.
(** The statement that stores the envelope made anew finds the row it was made of,
  or nothing to change. *)
Lemma replace_keeps i h s x x0 k row env' n d : owner i CRewrap → Exclusive Connection ∈ h → database s = committed x → known k row x0 → since i x0 x →
  made_anew k.1.1 (secret.locate k.1.1 k.1.2 k.2) (secret.envelope_of_row row) env' true →
  replace_row (Row := SecretVersionRow) k (sv_kek_version row) env' (database s) = (Ok n, d) →
  guar i h s x (set_database d (tick s)) (MkGhost d (meaning x) (log x ++ [])).
Proof.
  intros Hown Hh Hd [Hlive0 Hrow0] [Hages _] (Hc&Hlt&_&Ho) E. specialize (Hlt eq_refl). destruct (Hages k row Hrow0) as (row'&Hrow&Haged).
  unfold replace_row in E. change (rows (database s)) with (secret_versions (database s)) in E.
  rewrite Hd, Hrow in E. cbn [envelope_of secret.secret_rows live] in E. destruct ((_ =? _) && _) eqn:Hcond.
  2: { injection E as <- <-. rewrite <- Hd. apply (guar_commit i h s x (set_database (database s) (tick s)) []); [done|done|by left| |by cbn; rewrite Hd..].
       intros [_ Hm _]. split_and!; [constructor|eapply stands_db; [|exact Hm]; cbn; congruence|done]. }
  apply andb_true_iff in Hcond as [Hk%Z.eqb_eq Hlive]. cbn in Hk. apply negb_true_iff in Hlive.
  assert (sv_destroyed_at row' = None) as Hn by by destruct (sv_destroyed_at row'). destruct (Haged Hn) as [_ [He|?]]; [|lia].
  injection E as <- <-. cbn [set_rows rewrapped secret.secret_rows].
  change (rows (committed x)) with (secret_versions (committed x)). set (d := set_secret_versions _ _).
  apply (guar_commit i h s x (set_database d (tick s)) []); [done|done|by left| |done| |done].
  - intros [_ Hm _]. split_and!; [constructor| |done]. pose proof (im_slots _ _ _ Hm k) as Hs. cbn [database set_database] in Hs. rewrite Hrow in Hs.
    destruct (slots (meaning x) !! k) as [y|] eqn:Ey; [|done]. cbn in Hs. assert (meaning x = MkSpec (latest (meaning x)) (<[k := y]> (slots (meaning x)))) as ->.
    { rewrite insert_id by done. by destruct (meaning x). }
    apply (implements_row (C := under_root) keep Hkeep (meaning x) (set_database (committed x) s) _ k y row' (secret.rewrapped_row env' row'));
      [done|exact Hrow|done|intros Hx; cbn in Hx; by rewrite Hn in Hx| |done|done].
    assert (∀ value, opens (C := under_root) (set_database (committed x) s) k row' value → opens (C := under_root) (set_database (committed x) s) k (secret.rewrapped_row env' row') value) as Hop.
    { unfold opens. intros value Hv. rewrite He in Hv. apply (Ho _ _ (set_database (committed x) s)) in Hv. rewrite <- Hv. do 3 f_equal.
      rewrite <- He in Hc. destruct env'. cbn in *. unfold secret.envelope_of_row. cbn. by rewrite Hc. }
    destruct y; cbn in *; [destruct Hs as (?&?&?); split_and!; auto..|done].
  - change (ages (committed x) d). eapply ages_insert; [exact Hrow|]. intros _. split; [done|]. right. cbn. cbn in Hlt. lia.
Qed.
Definition anew (k : string * string * Z) (envelope : crypto.Envelope) : thread_of (crypto.Envelope * bool) :=
  Cipher_Rewrap k.1.1 envelope (secret.locate k.1.1 k.1.2 k.2).
(** Still without effect, the rows have moved on since [x0], and those of [done_ r] are
  under the current version. *)
Definition along {B} (i : nat) (x0 : Ghost) (done_ : B → string * string * Z → Prop) (h : list lock) (r : B) (s : World) (x : Ghost) : Prop :=
  h = [] ∧ unmet i s x ∧ since i x0 x ∧ (sole i → ∀ k, done_ r k → current k (committed x)).
Lemma along_rely {B} i x0 done_ h (r : B) s x s1 x1 : rely i h s x s1 x1 → along i x0 done_ h r s x → along i x0 done_ h r s1 x1.
Proof.
  intros Hr (Hh&Hu&Ha&Hd). split_and!; [done|by eapply unmet_rely|by eapply since_rely|]. intros Hsole k Hk. eapply follows_current; [|by apply (Hd Hsole)].
  by eapply steady_follows, rely_steady.
Qed.
Lemma along_done {B} i x0 done_ (r : B) s x : along i x0 done_ [] r s x → safe i (along i x0 done_) [] (Done r) s x.
Proof. intros Ha s1 x1 Hr. by eapply along_rely. Qed.
Definition unless_error {A} (done_ : string * string * Z → Prop) (r : result A) (k : string * string * Z) : Prop := match r with Ok _ => done_ k | Err _ => False end.
Lemma replaceWrapping_safe i x0 done_ k row env' s x : owner i CRewrap → along i x0 (fun _ => done_) [] tt s x → known k row x0 →
  made_anew k.1.1 (secret.locate k.1.1 k.1.2 k.2) (secret.envelope_of_row row) env' true → (sole i → crypto.KEKVersion env' = kek_of (committed x0)) →
  safe i (along i x0 (unless_error (fun j => done_ j ∨ j = k))) [] (stmt (replaceWrapping (Row := SecretVersionRow) k (sv_kek_version row) env')) s x.
Proof.
  intros Hown Ha Hk Hmade Hver. apply safe_stmt.
  { intros s1 x1 Hr1. destruct (along_rely _ _ _ _ _ _ _ _ _ Hr1 Ha) as (?&?&?&_). by split_and!. }
  intros s1 x1 Hr1 Hd. destruct (along_rely _ _ _ _ _ _ _ _ _ Hr1 Ha) as (_&[Hs1 Hm1]&Hsince&Hcur). clear s x Hr1 Ha.
  unfold replaceWrapping, bind. destruct (exec_cases (replace_row (Row := SecretVersionRow) k (sv_kek_version row) env') s1) as [(e&->&_)|(n&d&Hrep&->)]; cbn [fst snd ret].
  - exists x1. split_and!; [by apply guar_silent|done|]. intros s3 x3 Hr3. eapply along_rely; [exact Hr3|]. split_and!; [done| |done|done].
    split; [by apply (sound_root s1)|done].
  - pose proof (replace_keeps i [Exclusive Connection] s1 x1 x0 k row env' n d Hown ltac:(by left) Hd Hk Hsince Hmade Hrep) as Hg.
    eexists. split_and!; [exact Hg|done|]. intros s3 x3 Hr3. eapply along_rely; [exact Hr3|]. rewrite Hd in Hrep. destruct Hsince as [Hages Hfollows].
    assert (sole i → follows (committed x1) d ∧ current k d) as Hfc.
    { intros Hsole. specialize (Hfollows Hsole). assert (crypto.KEKVersion env' = kek_of (committed x1)) as Hv by (rewrite (Hver Hsole); symmetry; apply Hfollows).
      destruct (replace_follows _ _ _ _ _ _ Hrep Hv) as [Hf Hrow]. split; [done|]. intros row' Hrow' Hn. rewrite (proj1 Hf).
      destruct (Hrow row' Hrow' Hn) as [|[Hrow1 Hne]]; [done|]. destruct Hk as [_ Hk]. destruct Hfollows as [Hk1 Hf1].
      destruct (Hf1 k row' Hrow1 Hn) as [->|(row0&Hrow0&_&E)]; [done|]. simplify_eq. }
    split_and!; [done| | |].
    + split; [by apply Hg|]. unfold mine in *. cbn. by rewrite app_nil_r.
    + split; [etrans; [exact Hages|]; apply Hg|]. intros Hsole. etrans; [by apply Hfollows|by apply Hfc].
    + intros Hsole j [Hj| ->]; [|by apply Hfc]. eapply follows_current; [by apply Hfc|by apply Hcur].
Qed.
Definition done_by {A} (done_ : string * string * Z → Prop) (r : A * result unit) : string * string * Z → Prop := unless_error done_ r.2.
Lemma record_safe i x0 done_ record p s x : owner i CRewrap → along i x0 (fun _ => done_) [] tt s x → known record.1 record.2 x0 →
  safe i (along i x0 (done_by (fun k => done_ k ∨ k = record.1))) [] (rewrap_record anew record p) s x.
Proof.
  intros Hown Ha Hk. unfold rewrap_record. apply safe_and_then, safe_act. intros s1 x1 Hr1. exists x1. assert (∀ r w, check_ctx s1 = (r, w) → database w = database s1 ∧ seal_memory w = seal_memory s1) as Hc.
  { intros r w. unfold check_ctx, next_fault. by intros [= _ <-]. }
  destruct (check_ctx s1) as [r s2]. destruct (Hc r s2 eq_refl) as [Ed Em]. cbn [fst snd]. split; [by apply guar_silent|]. intros s3 x3 Hr3.
  assert (rely i [] s x s3 x3) as Hr by (eapply rely_trans; [exact Hr1|]; eapply rely_trans; [|exact Hr3]; by apply rely_silent).
  pose proof (along_rely _ _ _ _ _ _ _ _ _ Hr Ha) as (_&Hu3&Ha3&Hd3). clear s x Ha s1 x1 Hr1 s2 Hc Ed Em Hr3 Hr.
  destruct r as [u|e]; [|by apply along_done]. apply safe_and_then. unfold anew. apply safe_Cipher_Rewrap; [apply Hu3|].
  intros r s4 x4 Hr4 Hmade. assert (along i x0 (fun _ => done_) [] tt s3 x3) as Ha by done. pose proof (along_rely _ _ _ _ _ _ _ _ _ Hr4 Ha) as Ha4.
  destruct r as [[env' changed]|e]; [|destruct Ha4 as (_&?&?&_); by apply along_done]. destruct (Hmade _ _ eq_refl) as [Hm Hver].
  assert (sole i → crypto.KEKVersion env' = kek_of (committed x0)) as Hver0 by (intros Hsole; rewrite (Hver Hsole); apply (proj2 Ha3 Hsole)).
  destruct changed; cbn [negb].
  - apply safe_and_then. eapply safe_mono; [|by apply replaceWrapping_safe]. intros h [written|e] s5 x5 (->&Hu5&Ha5&Hd5); by apply along_done.
  - apply along_done. destruct Ha4 as (_&Hu4&Hs4&Hd4). split_and!; [done..|]. intros Hsole k [Hk'| ->]; [by apply Hd4|].
    destruct Hm as (_&_&Hsame&_). specialize (Hsame eq_refl). specialize (Hver0 Hsole). destruct Hk as [_ Hrow]. destruct (proj2 Hs4 Hsole) as [Hkek Hf].
    intros row' Hrow' Hn. rewrite Hkek. destruct (Hf _ row' Hrow' Hn) as [->|(row0&Hrow0&_&->)]; [done|]. simplify_eq. rewrite <- Hver0. done.
Qed.
Lemma batch_safe i x0 done_ batch p s x : owner i CRewrap → along i x0 (fun _ => done_) [] tt s x → Forall (fun record => known record.1 record.2 x0) batch →
  safe i (along i x0 (done_by (fun k => done_ k ∨ k ∈ batch.*1))) [] (rewrap_batch anew batch p) s x.
Proof.
  intros Hown Ha Hk. revert done_ p s x Ha. induction Hk as [|record batch Hrec _ IH]; intros done_ p s x Ha.
  { apply along_done. destruct Ha as (?&?&?&Hd). split_and!; [done..|]. intros Hsole k [Hk|Hk]; [by apply Hd|by apply elem_of_nil in Hk]. }
  cbn [rewrap_batch]. apply safe_and_then. eapply safe_mono; [|by apply record_safe]. intros h [p' [u|e]] s1 x1 Ha1.
  - pose proof Ha1 as (->&_). cbn [fst snd]. eapply safe_mono; [|by apply (IH (fun k => done_ k ∨ k = record.1))].
    intros h [q [v|e]] s2 x2 (->&Hu2&Hs2&Hd2); (split_and!; [done..|]); [|by intros]. intros Hsole k Hk. apply (Hd2 Hsole). cbn in *. rewrite elem_of_cons in Hk. tauto.
  - destruct Ha1 as (->&?&?&_). by apply along_done.
Qed.
Definition all_current (d : Db) : Prop := ∀ k, current k d.
(** All rows are under the current version, and that is [v]. *)
Definition current_at (i : nat) (v : Z) (x : Ghost) : Prop := sole i → all_current (committed x) ∧ kek_of (committed x) = v.
Lemma kek_rely i h s x s1 x1 v : rely i h s x s1 x1 → (sole i → kek_of (committed x) = v) → sole i → kek_of (committed x1) = v.
Proof. intros Hr Hv Hsole. rewrite (st_kek _ _ (rely_steady _ _ _ _ _ _ Hr Hsole)). by apply Hv. Qed.
Lemma current_at_steady i v x x1 : (sole i → steady (committed x) (committed x1)) → current_at i v x → current_at i v x1.
Proof.
  intros Hst Hc Hsole. destruct (Hc Hsole) as [Hall Hv]. specialize (Hst Hsole). split; [|by rewrite (st_kek _ _ Hst)].
  intros k. eapply follows_current; [by apply steady_follows|done].
Qed.
Definition walked (i : nat) (v : Z) (h : list lock) (r : option (RewrapProgress * result unit)) (s : World) (x : Ghost) : Prop :=
  h = [] ∧ match r with Some (_, Ok _) => promised i CRewrap h (Ok ADone) s x ∧ current_at i v x | _ => unmet i s x end.
Lemma walked_rely i v h r s x s1 x1 : rely i h s x s1 x1 → walked i v h r s x → walked i v h r s1 x1.
Proof.
  intros Hr [Hh Hw]. split; [done|]. destruct r as [[p [u|e]]|]; [|exact (unmet_rely _ _ _ _ _ _ Hr Hw)..].
  destruct Hw as [Hp Hc]. split; [exact (promised_rely _ _ _ _ _ _ _ _ Hr Hp)|]. eapply current_at_steady; [by eapply rely_steady|done].
Qed.
Lemma walked_done i v h r s x : walked i v h r s x → safe i (walked i v) h (Done r) s x.
Proof. intros Hw s1 x1 Hr. by eapply walked_rely. Qed.
(** All rows up to the cursor are under the current version. *)
Definition behind (at_ k : string * string * Z) : Prop := before at_ k = false.
Lemma loop_safe i v fuel at_ p s x : owner i CRewrap → along i x (fun _ => behind at_) [] tt s x → (sole i → kek_of (committed x) = v) → safe i (walked i v) [] (rewrap_loop (Row := SecretVersionRow) anew fuel at_ p) s x.
Proof.
  intros Hown. revert at_ p s x. induction fuel as [|fuel IH]; intros at_ p s x (_&Hu&_&Hd) Hv; [by apply walked_done; split|]. cbn [rewrap_loop]. apply safe_and_then. unfold rewrapBatch. apply safe_query.
  { intros e s1 x1 Hr1. apply walked_done. split; [done|]. by eapply unmet_rely. }
  intros s1 x1 Hr1 Hdb. pose proof (unmet_rely _ _ _ _ _ _ Hr1 Hu) as Hu1. assert (sole i → ∀ k, behind at_ k → current k (committed x1)) as Hd1.
  { intros Hsole k Hk. eapply follows_current; [by eapply steady_follows, rely_steady|by apply Hd]. }
  pose proof (kek_rely _ _ _ _ _ _ _ Hr1 Hv) as Hv1. clear s x Hr1 Hu Hd Hv. destruct (last (batch_from at_ (committed x1))) as [record|] eqn:Hlast.
  - exists x1. split_and!; [by apply guar_silent|done|]. intros s3 x3 Hr3. assert (rely i [] s1 x1 s3 x3) as Hr by (eapply rely_trans; [|exact Hr3]; by apply rely_silent).
    apply safe_and_then. eapply safe_mono; [|apply (batch_safe i x1 (behind at_) _ p s3 x3 Hown)].
    + intros h [p' [u|e]] s4 x4 (->&Hu4&Hs4&Hd4); cbn [fst snd]; [|by apply walked_done; split]. apply IH; [split_and!; [done..|apply since_refl|]|intros Hsole; rewrite (proj1 (proj2 Hs4 Hsole)); by apply Hv1].
      intros Hsole k Hk. destruct (before at_ k) eqn:Hb; [|apply (Hd4 Hsole); by left]. intros row' Hrow' Hn. destruct (proj2 Hs4 Hsole) as [Hkek Hf].
      destruct (Hf k row' Hrow' Hn) as [->|(row&Hrow&Hlive&_)]; [done|]. refine (Hd4 Hsole k _ row' Hrow' Hn). right.
      assert ((k, row) ∈ batch_from at_ (committed x1)) as Hin; [|by apply (list_elem_of_fmap_2 fst) in Hin].
      apply (batch_covers at_ _ k row record Hlast); [|exact Hk]. split_and!; [done| |done]. cbn. by rewrite Hlive.
    + eapply along_rely; [exact Hr|]. split_and!; [done..|apply since_refl|done].
    + apply Forall_forall. intros [k row] Hin%elem_of_batch. destruct Hin as (Hrow&Hlive&_). split; [|done].
      cbn in *. by destruct (sv_destroyed_at row).
  - exists (effect i CRewrap (Ok ADone) (committed x1) (meaning x1) x1). assert (guar i [Exclusive Connection] s1 x1 (tick s1) (effect i CRewrap (Ok ADone) (committed x1) (meaning x1) x1)) as Hg.
    { unfold effect. rewrite <- Hdb. change (database s1) with (database (tick s1)). apply guar_commit; [by left|done|right; eexists _, _; split_and!; [done|done|apply Hu1]| |by rewrite <- Hdb..].
      intros [_ Hm _]. split_and!; [by repeat econstructor|by eapply stands_db; [|exact Hm]|done]. }
    split_and!; [done|done|]. intros s3 x3 Hr3. apply walked_done. eapply walked_rely; [exact Hr3|]. split; [done|]. destruct Hu1 as [Hs1 Hm1]. split.
    + split; [by apply Hg|]. by rewrite mine_effect, Hm1.
    + intros Hsole. split; [|by apply Hv1]. intros k. destruct (before at_ k) eqn:Hb; [|by apply Hd1]. intros row Hrow Hn. exfalso. apply (batch_empty _ _ Hlast k row).
      split_and!; [done| |done]. cbn. by rewrite Hn.
Qed.

(** ** What goes on elsewhere
  Programs that leave the secrets and the key version alone, and change nothing of the
  keys in memory, unless they seal the server. *)
Record leaves {A} (h : list lock) (m : World → A * World) : Prop := {
  le_tables s : secret_metadata (database (snd (m s))) = secret_metadata (database s) ∧ secret_versions (database (snd (m s))) = secret_versions (database s);
  le_kek s : kek_of (database (snd (m s))) = kek_of (database s);
  le_database s : Exclusive Connection ∉ h → database (snd (m s)) = database s;
  le_memory s : seal_memory (snd (m s)) = seal_memory s ∨ Exclusive SealMutex ∈ h ∧ root (seal_memory (snd (m s))) = None }.
Fixpoint elsewhere {A} (e h : list lock) (p : prog World A) : Prop :=
  match p with
  | Done _ => h = e
  | Act m k => leaves h m ∧ ∀ b, elsewhere e h (k b)
  | Take l k => elsewhere e (l :: h) (k true) ∧ (l = Exclusive Connection → elsewhere e h (k false))
  | Give l k => l ∈ h ∧ elsewhere e (remove_lock l h) k
  end.
Lemma elsewhere_and_then {A B} e f h (p : prog World A) (k : A → prog World B) : elsewhere e h p → (∀ a, elsewhere f e (k a)) → elsewhere f h (and_then p k).
Proof.
  intros Hp Hk. revert h Hp. induction p as [a|C m c IH|l c IH|l c IH]; intros h; cbn.
  - intros ->. apply Hk.
  - intros [Hm Hc]. split; [done|]. intros b. by apply IH.
  - intros [Ht Hf]. split; [by apply IH|]. intros El. by apply IH, Hf.
  - intros [Hl Hc]. split; [done|by apply IH].
Qed.
Definition aside {B} (i : nat) (es : list entry) (x0 : Ghost) (e h : list lock) (r : B) (s : World) (x : Ghost) : Prop :=
  h = e ∧ sound s x ∧ mine i x = es ∧ (sole i → steady (committed x0) (committed x)).
Lemma aside_rely {B} i es x0 e h (r : B) s x s1 x1 : rely i h s x s1 x1 → aside i es x0 e h r s x → aside i es x0 e h r s1 x1.
Proof.
  intros Hr (Hh&Hs&Hm&Hst). split_and!; [done|by eapply rely_sound|by rewrite (rely_mine _ _ _ _ _ _ Hr)|].
  intros Hsole. etrans; [by apply Hst|by eapply rely_steady].
Qed.
Lemma leaves_guar {A} i h (m : World → A * World) s x : leaves h m → (Exclusive Connection ∈ h → database s = committed x) →
  ∃ x2, guar i h s x (snd (m s)) x2 ∧ (Exclusive Connection ∈ h → database (snd (m s)) = committed x2) ∧ log x2 = log x ∧ steady (committed x) (committed x2) ∧
    (in_step s x → in_step (snd (m s)) x2).
Proof.
  intros [Ht Hk Hd Hm] Hin. destruct (Ht s) as [Tm Tv]. specialize (Hk s). specialize (Hm s). set (s2 := snd (m s)) in *.
  assert (root (seal_memory s2) = root (seal_memory s) ∨ root (seal_memory s2) = None) as Hr by (destruct Hm as [->|[_ ?]]; auto).
  assert (∀ d, secret_metadata d = secret_metadata (committed x) → secret_versions d = secret_versions (committed x) → sound s x →
    sound s2 (MkGhost d (meaning x) (log x))) as Hsound.
  { intros d Em Ev [Hroot Hst Hl Ho Hc]. split; cbn; [destruct Hr as [E|E]; rewrite E; auto| |done..].
    apply (implements_tables keep (meaning x) (set_database (committed x) s) (set_database d s)) in Hst; [by eapply stands_db; [|exact Hst]|done..]. }
  assert (∀ x2, kek_of (committed x2) = kek_of (committed x) → in_step s x → in_step s2 x2) as Hstep.
  { unfold in_step. intros x2 E. rewrite E. destruct Hm as [->|[_ ->]]; [done|by left]. }
  destruct (decide (Exclusive Connection ∈ h)) as [Hh|Hh].
  - specialize (Hin Hh). assert (steady (committed x) (database s2)) as Hst by (apply steady_tables; congruence).
    exists (MkGhost (database s2) (meaning x) (log x)). split_and!; [|done|done|done|apply Hstep; cbn; congruence]. split_and!; [done| | | |by apply steady_ages|done].
    + intros Hx. destruct Hm as [Hm|[? _]]; [|done]. split; [done|]. cbn. congruence.
    + intros Hs. split; [|done]. apply Hsound; [by rewrite Tm, Hin|by rewrite Tv, Hin|done].
    + exists []. rewrite app_nil_r. split; [done|by left].
  - exists x. split_and!; [|done|done|done|by apply Hstep]. split_and!; [by intros _; split; [apply Hd|]| | |apply only_by_refl|done|done].
    + intros Hx. by destruct Hm as [Hm|[? _]].
    + intros Hs. split; [|done]. destruct x. by apply (Hsound _ eq_refl eq_refl).
Qed.
Lemma elsewhere_safe {A} i es x0 e h (p : prog World A) s x : elsewhere e h p → sound s x → mine i x = es → (sole i → steady (committed x0) (committed x)) →
  (Exclusive Connection ∈ h → database s = committed x) → (Exclusive SealMutex ∈ h → in_step s x) → safe i (aside i es x0 e) h p s x.
Proof.
  revert h s x. induction p as [a|C m k IH|l k IH|l k IH]; intros h s x Hp Hs Hm Hst Hd Hin s1 x1 Hr1;
    assert (sound s1 x1) as Hs1 by (by eapply rely_sound); assert (mine i x1 = es) as Hm1 by (by rewrite (rely_mine _ _ _ _ _ _ Hr1));
    assert (Exclusive Connection ∈ h → database s1 = committed x1) as Hd1 by (intros Hh; destruct (rely_inside _ _ _ _ _ _ Hr1 Hh) as [-> ->]; by apply Hd);
    assert (Exclusive SealMutex ∈ h → in_step s1 x1) as Hin1 by (intros Hh; eapply in_step_rely; [exact Hr1|by left|by apply Hin]);
    assert (sole i → steady (committed x0) (committed x1)) as Hst1 by (intros Hsole; etrans; [by apply Hst|by eapply rely_steady]); cbn in Hp.
  - by split_and!.
  - destruct Hp as [Hl Hk]. destruct (leaves_guar i h m s1 x1 Hl Hd1) as (x2&Hg&Hd2&Hlog&Hst2&Hin2). destruct (m s1) as [b s2]. cbn [snd] in *.
    exists x2. split; [done|]. apply IH; [apply Hk|by apply Hg|by unfold mine in *; rewrite Hlog| |done|auto]. intros Hsole. etrans; [by apply Hst1|done].
  - destruct Hp as [Ht Hf]. split.
    + intros Hinv. apply IH; [done..| |]; intros [<-|Hh]%elem_of_cons; [exact Hinv|by apply Hd1|exact Hinv|by apply Hin1].
    + intros ->. apply IH; auto.
  - destruct Hp as [Hl Hp]. split.
    + intros r ->. destruct r; cbn; [by apply Hd1|by apply Hin1|done].
    + apply IH; [done..| |]; intros Hh; [apply Hd1|apply Hin1]; by eapply in_remove_lock.
Qed.
Lemma leaves_inside {A} h (m : World → A * World) : Exclusive Connection ∈ h → (∀ s, seal_memory (snd (m s)) = seal_memory s) →
  (∀ s, secret_metadata (database (snd (m s))) = secret_metadata (database s) ∧ secret_versions (database (snd (m s))) = secret_versions (database s)) →
  (∀ s, kek_of (database (snd (m s))) = kek_of (database s)) → leaves h m.
Proof. intros Hh Hm Ht Hk. split; [done|done|intros s Hn; by destruct Hn|]. intros s. by left. Qed.
Lemma leaves_quiet {A} h (m : World → A * World) : (∀ s, database (snd (m s)) = database s) → (∀ s, seal_memory (snd (m s)) = seal_memory s) → leaves h m.
Proof. intros Hd Hm. split; [intros s; by rewrite Hd|intros s; by rewrite Hd|done|intros s; by left]. Qed.
Lemma elsewhere_act {A} h (m : World → A * World) : leaves h m → elsewhere h h (act m).
Proof. intros Hm. split; [done|]. by intros b. Qed.
Lemma elsewhere_stmt {A} h (m : M World A) : leaves (Exclusive Connection :: h) m → elsewhere h h (stmt m).
Proof.
  intros Hm. cbn [elsewhere stmt]. split; [|done]. split; [done|]. intros r. split; [by left|]. cbn. by rewrite decide_True.
Qed.
Lemma elsewhere_holding {A} h l (p : prog World A) : of_lock l ≠ Connection → elsewhere (l :: h) (l :: h) p → elsewhere h h (holding l p).
Proof.
  intros Hl Hp. cbn [elsewhere holding]. split; [|by intros ->]. apply (elsewhere_and_then (l :: h)); [done|]. intros a. cbn. split; [by left|]. by rewrite decide_True.
Qed.
Lemma elsewhere_or_fail {A B} e h (p : thread_of A) (k : A → thread_of B) : elsewhere e h p → (∀ a, elsewhere e e (k a)) → elsewhere e h (and_then p (or_fail k)).
Proof. intros Hp Hk. apply (elsewhere_and_then e); [done|]. intros [a|x]; [apply Hk|done]. Qed.
Lemma leaves_query {A} h (f : Db → A) : leaves h (query f).
Proof. apply leaves_quiet; intros s; by destruct (query_cases f s) as [->| ->]. Qed.
Lemma leaves_exec {A} h (f : Db → result A * Db) : Exclusive Connection ∈ h →
  (∀ d, secret_metadata (snd (f d)) = secret_metadata d ∧ secret_versions (snd (f d)) = secret_versions d) → (∀ d, kek_of (snd (f d)) = kek_of d) → leaves h (exec f).
Proof.
  intros Hh Hf Hk. apply leaves_inside; [done|..]; intros s; destruct (exec_cases f s) as [(e&->&_)|(a&d&E&->)]; try done; cbn.
  - specialize (Hf (database s)). by rewrite E in Hf.
  - specialize (Hk (database s)). by rewrite E in Hk.
Qed.
Lemma Seal_elsewhere : elsewhere [] [] Seal.
Proof. apply elsewhere_holding, elsewhere_act; [done|]. split; [done|done|done|]. intros s. right. split; [by left|done]. Qed.
Lemma IsUnsealed_elsewhere : elsewhere [] [] IsUnsealed.
Proof. by apply elsewhere_holding, elsewhere_act, leaves_quiet. Qed.
Lemma GetStatus_elsewhere : elsewhere [] [] GetStatus.
Proof.
  apply elsewhere_holding; [done|]. apply elsewhere_or_fail; [apply elsewhere_stmt, leaves_query|]. intros stored. by apply elsewhere_act, leaves_quiet.
Qed.
(** A rotation of the key version has the seal from the first statement to the last. *)
Lemma safe_sealing {A} i Q (p : prog World A) s x :
  (∀ s1 x1, rely i [] s x s1 x1 → in_step s1 x1 → safe i (fun h r s x => h = [Exclusive SealMutex] ∧ in_step s x ∧ ∀ s1 x1, rely i [] s x s1 x1 → Q [] r s1 x1)
     [Exclusive SealMutex] p s1 x1) → safe i Q [] (holding (Exclusive SealMutex) p) s x.
Proof.
  intros Hp s1 x1 Hr1. split; [|done]. intros Hin. apply safe_and_then. eapply safe_mono; [|by apply Hp].
  intros h r s2 x2 (->&Hin2&HQ) s3 x3 Hr3. split; [intros r' [= <-]; eapply in_step_rely; [exact Hr3|left; by left|done]|].
  intros s4 x4 Hr4. apply HQ. eapply rely_trans; [by eapply rely_less|exact Hr4].
Qed.
(** Before anything of the rotation has happened: the version is still [v]. *)
Definition unmet_at (i : nat) (v : Z) (s : World) (x : Ghost) : Prop := unmet i s x ∧ (sole i → kek_of (committed x) = v).
Lemma unmet_at_rely i v h s x s1 x1 : rely i h s x s1 x1 → unmet_at i v s x → unmet_at i v s1 x1.
Proof. intros Hr [Hu Hv]. split; [by eapply unmet_rely|by eapply kek_rely]. Qed.
Definition moved_on (i : nat) (v : Z) (h : list lock) (r : result seal.Rotation) (s : World) (x : Ghost) : Prop :=
  h = [] ∧ unmet i s x ∧ ∀ rotation, r = Ok rotation → sole i → kek_of (committed x) = wrap64 (v + 1).
Lemma moved_on_rely i v h r s x s1 x1 : rely i h s x s1 x1 → moved_on i v h r s x → moved_on i v h r s1 x1.
Proof. intros Hr (Hh&Hu&Hv). split_and!; [done|by eapply unmet_rely|]. intros rotation Hrot. eapply kek_rely; [exact Hr|]. by eapply Hv. Qed.
(** The end of the part that has the seal. *)
Definition sealing (i : nat) (v : Z) (h : list lock) (r : result seal.Rotation) (s : World) (x : Ghost) : Prop :=
  h = [Exclusive SealMutex] ∧ in_step s x ∧ ∀ s1 x1, rely i [] s x s1 x1 → moved_on i v [] r s1 x1.
Lemma sealing_done i v r s x : moved_on i v [] r s x → in_step s x → safe i (sealing i v) [Exclusive SealMutex] (Done r) s x.
Proof.
  intros Hm Hin s1 x1 Hr. split_and!; [done|eapply in_step_rely; [exact Hr|left; by left|done]|]. intros s2 x2 Hr2.
  eapply moved_on_rely; [|exact Hm]. eapply rely_trans; [by eapply rely_less|exact Hr2].
Qed.
Lemma sealing_fails i v e s x : unmet_at i v s x → in_step s x → safe i (sealing i v) [Exclusive SealMutex] (Done (Err e)) s x.
Proof. intros [Hu _] Hin. apply sealing_done; [|done]. by split_and!. Qed.
Lemma with_seal i v s x s1 x1 : rely i [Exclusive SealMutex] s x s1 x1 → unmet_at i v s x ∧ in_step s x → unmet_at i v s1 x1 ∧ in_step s1 x1.
Proof. intros Hr [Hu Hin]. split; [by eapply unmet_at_rely|eapply in_step_rely; [exact Hr|left; by left|done]]. Qed.
(** The version in memory follows that of the row. *)
Lemma follow_safe i v current s x : unmet i s x → (sole i → kek_of (committed x) = wrap64 (v + 1)) → kek_of (committed x) = wrap64 (current + 1) →
  safe i (sealing i v) [Exclusive SealMutex] (act (seal.update_mem (seal.set_kekVersion (wrap64 (current + 1))) ;! ret (seal.MkRotation current (wrap64 (current + 1))))) s x.
Proof.
  intros Hu Hv Hk. set (next := wrap64 (current + 1)) in *. apply safe_act. intros s8 x8 Hr8. pose proof (unmet_rely _ _ _ _ _ _ Hr8 Hu) as [Hs8 Hm8].
  set (s9 := set_seal_memory (seal.set_kekVersion next (seal_memory s8)) s8). change (snd _) with s9. exists x8.
  assert (kek_of (committed x8) = next) as Hk8 by (destruct Hr8 as (_&Hx&_); destruct (Hx ltac:(left; by left)) as [_ ->]; done).
  assert (unmet i s9 x8) as Hu9 by (split; [by apply (sound_root s8)|done]).
  split; [split_and!; [done|intros Hn; destruct Hn; by left|intros _; split; [apply Hu9|done]|apply only_by_refl|done|done]|].
  intros s10 x10 Hr10. split_and!; [done|eapply in_step_rely; [exact Hr10|left; by left|by right]|]. intros s11 x11 Hr11.
  assert (rely i [] s9 x8 s11 x11) as Hr by (eapply rely_trans; [by eapply rely_less|exact Hr11]).
  split_and!; [done|by eapply unmet_rely|]. intros rotation _. eapply kek_rely; [exact Hr|]. intros Hsole. rewrite Hk8, <- Hk. by apply Hv.
Qed.
(** The row moves on by one from what it was read to be. *)
Lemma bump_safe i v current s x : owner i CRewrap → unmet_at i v s x → in_step s x →
  safe i (sealing i v) [Exclusive SealMutex] (let* affected := stmt (seal.bump_version (wrap64 (current + 1)) current) in
    if negb (affected =? 1) then Done (Err [seal.ErrRotationRaced])
    else act (seal.update_mem (seal.set_kekVersion (wrap64 (current + 1))) ;! ret (seal.MkRotation current (wrap64 (current + 1))))) s x.
Proof.
  intros Hown Hu Hin. apply safe_or_fail, safe_stmt.
  { intros s1 x1 Hr1. destruct (with_seal _ _ _ _ _ _ Hr1 (conj Hu Hin)). by apply sealing_fails. }
  intros s6 x6 Hr6 Hd6. destruct (with_seal _ _ _ _ _ _ Hr6 (conj Hu Hin)) as [Hu6 Hin6]. clear s x Hu Hin Hr6. set (next := wrap64 (current + 1)).
  unfold seal.bump_version. match goal with |- context [exec ?f s6] => destruct (exec_cases f s6) as [(e&E&_)|(n&d&Ef&E)] end; rewrite E; cbn [fst snd].
  { exists x6. split_and!; [by apply guar_silent|done|]. intros s7 x7 Hr7. assert (rely i [Exclusive SealMutex] s6 x6 s7 x7) as Hr by (eapply rely_trans; [|exact Hr7]; by apply rely_silent).
    destruct (with_seal _ _ _ _ _ _ Hr (conj Hu6 Hin6)). by apply sealing_fails. }
  destruct Hu6 as [[Hs6 Hm6] Hv6]. assert (secret_metadata d = secret_metadata (committed x6) ∧ secret_versions d = secret_versions (committed x6) ∧
    (n = 1 → kek_of d = next ∧ kek_of (committed x6) = current) ∧ (n ≠ 1 → kek_of d = kek_of (committed x6))) as (Em&Ev&Hnext&Hsame).
  { rewrite Hd6 in Ef. unfold kek_of. destruct (seal_config (committed x6)) as [row|] eqn:Erow; [destruct (Z.eqb_spec (sc_kek_version row) current)|];
      injection Ef as <- <-; cbn; rewrite ?Erow; by split_and!. }
  assert (guar i [Exclusive Connection; Exclusive SealMutex] s6 x6 (set_database d (tick s6)) (MkGhost d (meaning x6) (log x6 ++ []))) as Hg.
  { apply (guar_commit i _ s6 x6 (set_database d (tick s6)) []); [by left|done|by left| |intros Hn; destruct Hn; by right; left|by apply ages_versions|done].
    intros [_ Hm _]. split_and!; [constructor| |done]. apply (implements_tables keep (meaning x6) (set_database (committed x6) s6) (set_database d s6)) in Hm; [by eapply stands_db; [|exact Hm]|done..]. }
  eexists. split_and!; [exact Hg|done|]. intros s7 x7 Hr7. assert (unmet i s7 x7) as Hu7.
  { eapply unmet_rely; [exact Hr7|]. split; [by apply Hg|]. unfold mine in *. cbn. by rewrite app_nil_r. }
  assert (kek_of (committed x7) = kek_of d) as Hk7 by (destruct Hr7 as (_&Hx&_); by destruct (Hx ltac:(left; by left)) as [_ ->]).
  destruct (Z.eqb_spec n 1) as [->|Hne]; cbn [negb].
  - destruct (Hnext eq_refl) as [Hk <-]. apply follow_safe; [done| |by rewrite Hk7]. intros Hsole. rewrite Hk7, Hk. unfold next. by rewrite (Hv6 Hsole).
  - apply sealing_fails; [split; [done|]|].
    + intros Hsole. rewrite Hk7, (Hsame Hne). by apply Hv6.
    + eapply in_step_rely; [exact Hr7|left; by left|]. unfold in_step in *. cbn. by rewrite (Hsame Hne).
Qed.
Lemma Rotate_safe i v s x : owner i CRewrap → unmet_at i v s x → safe i (moved_on i v) [] Rotate s x.
Proof.
  intros Hown Hu. apply safe_sealing. change (fun h r s x => _) with (sealing i v). intros s1 x1 Hr1 Hin. pose proof (unmet_at_rely _ _ _ _ _ _ _ Hr1 Hu) as Hu1. clear s x Hu Hr1.
  apply safe_or_fail. apply safe_query.
  { intros e s2 x2 Hr2. destruct (with_seal _ _ _ _ _ _ Hr2 (conj Hu1 Hin)). by apply sealing_fails. }
  intros s2 x2 Hr2 Hd2. exists x2. split_and!; [by apply guar_silent|done|]. intros s3 x3 Hr3.
  destruct (with_seal i v s1 x1 s3 x3) as [Hu3 Hin3]; [|done|]. { eapply rely_trans; [exact Hr2|]. eapply rely_trans; [|exact Hr3]. by apply rely_silent. }
  match goal with |- context [negb (seal.initialized ?c)] => generalize c; intros stored end. clear s1 x1 s2 x2 Hin Hu1 Hr2 Hd2 Hr3.
  destruct (negb _); [by apply sealing_fails|]. apply safe_or_fail, safe_act. intros s4 x4 Hr4. exists x4. split; [by apply guar_silent|]. intros s5 x5 Hr5.
  destruct (with_seal i v s3 x3 s5 x5) as [Hu5 Hin5]; [by eapply rely_trans|done|]. unfold seal.mem. cbn [fst]. destruct (root (seal_memory s4)); [|by apply sealing_fails].
  by apply bump_safe.
Qed.
Lemma claim_elsewhere : elsewhere [] [] claim.
Proof. apply elsewhere_holding, elsewhere_act, leaves_quiet; [done|..]; intros s; unfold rotate.claim; by destruct (rotation_busy s). Qed.
Lemma release_elsewhere : elsewhere [] [] release.
Proof. by apply elsewhere_holding, elsewhere_act, leaves_quiet. Qed.
Lemma Cipher_Seal_elsewhere t p aad : elsewhere [] [] (Cipher_Seal t p aad).
Proof.
  apply elsewhere_or_fail.
  - by apply elsewhere_holding, elsewhere_act, leaves_quiet.
  - intros sealing. apply elsewhere_act, leaves_quiet; intros s; by destruct (only_entropy_Seal (fst sealing) (snd sealing) p aad s) as [e ->].
Qed.
Lemma Cipher_Rewrap_elsewhere t env aad : elsewhere [] [] (Cipher_Rewrap t env aad).
Proof.
  destruct (crypto.KEKVersion env <? seal.initialKEKVersion) eqn:Hv; unfold Cipher_Rewrap; rewrite Hv; [done|].
  assert (∀ s, seal.rewrap t env aad s = seal.Cipher_Rewrap t env aad s) as E by (intros s; unfold seal.Cipher_Rewrap; by rewrite Hv).
  apply elsewhere_holding, elsewhere_act, leaves_quiet; [done|..]; intros s; rewrite E; destruct (rewrap_effect (C := seal_cipher) t env aad s) as [e He]; cbn [cipher_Rewrap seal_cipher] in He; by rewrite He.
Qed.
Lemma Param_Put_elsewhere t path kind raw actor : elsewhere [] [] (Param_Put t path kind raw actor).
Proof.
  unfold Param_Put. destruct (param.validate _ _ _ _); [|done]. apply elsewhere_or_fail; [apply Cipher_Seal_elsewhere|]. intros env.
  apply elsewhere_or_fail; [by apply elsewhere_act, leaves_quiet|]. intros now. by apply elsewhere_stmt, leaves_exec; [left|..].
Qed.
Lemma Param_Rewrap_elsewhere fuel : elsewhere [] [] (Param_Rewrap fuel).
Proof.
  unfold Param_Rewrap. generalize ("", "") (MkProgress 0 0). induction fuel as [|fuel IH]; intros at_ p; [done|]. apply (elsewhere_and_then []).
  { apply elsewhere_stmt, leaves_query. }
  intros [batch|e]; [|done]. destruct (last batch) as [record|]; [|done]. apply (elsewhere_and_then []); [|intros [q [u|e]]; [apply IH|done]].
  clear at_ record. revert p. induction batch as [|record batch IHb]; intros p; [done|]. cbn [rewrap_batch]. apply (elsewhere_and_then []); [|intros [q [u|e]]; [apply IHb|done]].
  apply (elsewhere_and_then []); [by apply elsewhere_act, leaves_quiet|]. intros [u|e]; [|done]. apply (elsewhere_and_then []); [apply Cipher_Rewrap_elsewhere|].
  intros [[env changed]|e]; [|done]. destruct (negb changed); [done|]. apply (elsewhere_and_then []); [|by intros [written|e]]. apply elsewhere_stmt.
  apply leaves_inside; [by left|..]; intros s; unfold replaceWrapping, bind;
    destruct (exec_cases (replace_row record.1 (crypto.KEKVersion (envelope_of record.2)) env) s) as [(e&->&_)|(n&d&E&->)]; try done.
  all: cbn; unfold replace_row in E; destruct (rows (database s) !! record.1) as [row|]; [|by injection E as _ <-]; destruct (_ && _); by injection E as _ <-.
Qed.

(** ** The threads *)
Definition answered {B} (r : option (B * result unit)) : result answer :=
  match r with Some (_, Ok _) => Ok ADone | Some (_, Err e) => Err e | None => Err [] end.
Definition program (fuel : nat) (j : job) : thread_of answer :=
  match j with
  | Call (CPut t p value expect) => let* v := Secret_Put keep t p value expect in Done (Ok (AVersion v))
  | Call (CGet t p v) => let* value := Secret_Get t p v in Done (Ok (AValue (secret.v_Version value) (secret.Data value)))
  | Call (CDelete t p vs) => let* _ := mark secret.delete_action t p vs in Done (Ok ADone)
  | Call (CUndelete t p vs) => let* _ := mark secret.undelete_action t p vs in Done (Ok ADone)
  | Call (CDestroy t p vs) => let* _ := mark secret.destroy_action t p vs in Done (Ok ADone)
  | Call CRewrap => and_then (Secret_Rewrap fuel) (fun r => Done (answered r))
  | Rotation => and_then (rotate_ fuel) (fun r => Done (answered r))
  | Other p => p
  end.
Definition fine (j : job) : Prop := match j with Call c => allowed c | Rotation => True | Other p => elsewhere [] [] p end.
(** The server at the start, and its key version then. *)
Context (start : World).
Abbreviation first := (kek_of (database start)) (only parsing).
Definition kept (i : nat) (j : job) (h : list lock) (r : result answer) (s : World) (x : Ghost) : Prop :=
  match j with
  | Call c => promised i c h r s x
  | Rotation => sound s x ∧ ∀ a, r = Ok a → current_at i (wrap64 (first + 1)) x
  | Other _ => sound s x
  end.
Lemma start_behind s x k : sound s x → behind ("", "", 0) k → current k (committed x).
Proof.
  intros Hs Hb row Hrow _. exfalso. destruct (so_meaning _ _ Hs) as [Hok _ _]. cbn in Hok. destruct k as [[t p] v].
  destruct (secret.so_owner _ _ Hok t p v) as [meta Hmeta]; [by eexists|]. destruct (secret.so_versions _ _ Hok _ _ _ Hmeta) as (_&_&Hd).
  assert (1 ≤ v) as Hv by (apply (Hd v); by eexists). revert Hb. unfold behind. cbn. unfold secret.cursor_before, lex. cbn [fst snd].
  repeat match goal with |- context [String.eqb ?a ?b] => destruct (String.eqb_spec a b) end; simplify_eq; intros Hb; [apply Z.ltb_ge in Hb; lia|by destruct p|by destruct t].
Qed.
Lemma Rewrap_safe i v fuel s x : owner i CRewrap → unmet_at i v s x → safe i (walked i v) [] (Secret_Rewrap fuel) s x.
Proof.
  intros Hown [Hu Hv]. apply (loop_safe i v fuel ("", "", 0) (MkProgress 0 0) s x Hown); [|done]. split_and!; [done|done|apply since_refl|].
  intros _ k. eapply start_behind. apply Hu.
Qed.
(** What a rotation thread knows between its parts. *)
Definition rotated {B} (i : nat) (v : Z) (es : list entry) (ok : bool) (h : list lock) (r : B) (s : World) (x : Ghost) : Prop :=
  h = [] ∧ sound s x ∧ mine i x = es ∧ (ok = true → current_at i v x).
Lemma elsewhere_rotated {A} i v es ok (p : prog World A) s x : elsewhere [] [] p → rotated i v es ok [] tt s x → safe i (rotated i v es ok) [] p s x.
Proof.
  intros Hp (_&Hs&Hm&Hc). eapply safe_mono; [|apply (elsewhere_safe i es x [] [] p s x Hp Hs Hm); [done|by intros ?%elem_of_nil..]].
  intros h r s1 x1 (->&Hs1&Hm1&Hst). split_and!; [done..|]. intros Hok. by eapply current_at_steady, Hc.
Qed.
Lemma rotated_rely {B} i v es ok h (r : B) s x s1 x1 : rely i h s x s1 x1 → rotated i v es ok h r s x → rotated i v es ok h r s1 x1.
Proof.
  intros Hr (Hh&Hs&Hm&Hc). split_and!; [done|by eapply rely_sound|by rewrite (rely_mine _ _ _ _ _ _ Hr)|]. intros Hok.
  eapply current_at_steady; [by eapply rely_steady|by apply Hc].
Qed.
Definition reported (i : nat) (h : list lock) (r : result answer) (s : World) (x : Ghost) : Prop := kept i Rotation h r s x.
Lemma reported_done i es ok h (r : option (rotate.outcome * result unit)) s x : (∀ a, answered r = Ok a → ok = true) → rotated i (wrap64 (first + 1)) es ok h r s x →
  safe i (fun h r s x => safe i (reported i) h (Done (answered r)) s x) h (Done r) s x.
Proof.
  intros Hok Hr s1 x1 Hr1 s2 x2 Hr2. destruct (rotated_rely _ _ _ _ _ _ _ _ _ _ Hr2 (rotated_rely _ _ _ _ _ _ _ _ _ _ Hr1 Hr)) as (_&Hs&_&Hc).
  split; [done|]. intros a Ha. apply Hc. by eapply Hok.
Qed.
Lemma release_done i es ok (r : option (rotate.outcome * result unit)) s x : (∀ a, answered r = Ok a → ok = true) → rotated i (wrap64 (first + 1)) es ok [] tt s x →
  safe i (fun h r s x => safe i (reported i) h (Done (answered r)) s x) [] (and_then release (fun _ => Done r)) s x.
Proof.
  intros Hok Hr. apply safe_and_then. eapply safe_mono; [|by apply (elsewhere_rotated i (wrap64 (first + 1)) es ok); [apply release_elsewhere|]].
  intros h [] s1 x1 Hr1. by eapply reported_done.
Qed.
(** The walks: the parameters come after the secrets. *)
Definition all_ok {B C} (r : option (B * result C)) : bool := match r with Some (_, Ok _) => true | _ => false end.
Lemma walks_safe i v fuel s x : owner i CRewrap → unmet_at i v s x → safe i (fun h r s x => ∃ es, rotated i v es (all_ok r) h r s x) [] (rotation_walks fuel) s x.
Proof.
  intros Hown Hu. assert (∀ es ok (r : option (list rotate.named * result unit)) s x, (all_ok r = true → ok = true) → rotated i v es ok [] tt s x →
    safe i (fun h r s x => ∃ es, rotated i v es (all_ok r) h r s x) [] (Done r) s x) as Hdone.
  { intros es ok r s1 x1 Hok Hr s2 x2 Hr2. exists es. destruct (rotated_rely _ _ _ _ _ _ _ _ _ _ Hr2 Hr) as (_&Hs&Hm&Hc). split_and!; [done..|]. intros Hr'. by apply Hc, Hok. }
  unfold rotation_walks. apply safe_and_then. eapply safe_mono; [|by apply Rewrap_safe]. intros h r s1 x1 [-> Hw]. destruct r as [[p [u|e]]|].
  - destruct Hw as [[Hs1 Hm1] Hc]. apply safe_and_then. eapply safe_mono; [|by apply (elsewhere_rotated i v [(i, CRewrap, Ok ADone)] true); [apply Param_Rewrap_elsewhere|]].
    intros h r s2 x2 Hr2. pose proof Hr2 as (->&Hs2&Hm2&Hc2). destruct r as [[p' r]|]; by eapply (Hdone _ true).
  - destruct Hw as [Hs1 Hm1]. by eapply (Hdone _ false).
  - destruct Hw as [Hs1 Hm1]. by eapply (Hdone _ false).
Qed.
Lemma Rotation_safe i fuel s x : owner i CRewrap → unmet_at i first s x → safe i (reported i) [] (and_then (rotate_ fuel) (fun r => Done (answered r))) s x.
Proof.
  intros Hown [[Hs Hm] Hv]. apply safe_and_then. unfold rotate_. apply safe_and_then.
  eapply safe_mono; [|apply (elsewhere_safe i [] x [] [] _ s x claim_elsewhere Hs Hm); [done|by intros ?%elem_of_nil..]]. intros h claimed s1 x1 (->&Hs1&Hm1&Hst).
  assert (unmet_at i first s1 x1) as Hu1 by (split; [done|]; intros Hsole; rewrite (st_kek _ _ (Hst Hsole)); by apply Hv).
  destruct (negb claimed); [by eapply (reported_done i [] false)|]. apply safe_and_then. eapply safe_mono; [|by apply Rotate_safe]. clear s x claimed Hs Hm Hv s1 x1 Hs1 Hm1 Hst Hu1.
  intros h [rotation|e] s x (->&Hu&Hv); [|destruct Hu; by eapply (release_done i [] false)]. apply safe_and_then.
  eapply safe_mono; [|apply (walks_safe i (wrap64 (first + 1)) _ _ _ Hown); split; [exact Hu|by eapply Hv]].
  clear s x Hu Hv. intros h [[subjects r]|] s x (es&Hr); [|by eapply (reported_done i es false)]. pose proof Hr as (->&Hs&Hm&Hc).
  eapply (release_done i es (match r with Ok _ => true | Err _ => false end)); [|by split_and!]. by destruct r.
Qed.
Lemma program_safe fuel i j s x : fine j → (∀ c, j = Call c → owner i c) → (j = Rotation → owner i CRewrap) → unmet_at i first s x →
  safe i (kept i j) [] (program fuel j) s x.
Proof.
  intros Hf Hown Hrot Hat. pose proof (proj1 Hat) as Hu. destruct j as [c| |p]; cbn [kept].
  - specialize (Hown c eq_refl). destruct c as [t p value expect|t p v|t p vs|t p vs|t p vs|]; cbn [program fine] in *.
    + by apply Put_safe.
    + by apply Get_safe.
    + apply (mark_safe i (CDelete t p vs) secret.delete_action delete_slot); try done; [apply delete_settling|by apply delete_steps|unfold secret.delete_action, secret.readVersionState; auto 10 with world].
    + apply (mark_safe i (CUndelete t p vs) secret.undelete_action undelete_slot); try done; [apply undelete_settling|by apply undelete_steps|unfold secret.undelete_action, secret.readVersionState; auto 10 with world].
    + apply (mark_safe i (CDestroy t p vs) secret.destroy_action destroy_slot); try done; [apply destroy_settling|by apply destroy_steps|unfold secret.destroy_action, secret.readVersionState; auto 10 with world].
    + apply safe_and_then. eapply safe_mono; [|by apply Rewrap_safe]. intros h r s1 x1 [-> Hw].
      destruct r as [[p [u|e]]|]; cbn [answered]; apply safe_done; [apply Hw|by apply unmet_fails..].
  - cbn [program]. by apply Rotation_safe; [apply Hrot|].
  - cbn [program fine] in *. destruct Hu as [Hs Hm]. eapply safe_mono; [|by apply (elsewhere_rotated i 0 [] false)].
    by intros h r s1 x1 (_&?&_).
Qed.

(** ** Linearizability *)
Definition ended (p : pool World (result answer)) (i : nat) (r : result answer) : Prop := ∃ t, members p !! i = Some t ∧ threads.answer t = Some r.
Definition serving (fuel : nat) : pool World (result answer) := MkPool (map starting (map (program fuel) jobs)) start.
(** The order [l] accounts for where [p] has got to: it is a run of the
  specification from [s0] to [sp], has every call at most once, every call that
  succeeded with its answer and no effect of one that failed; and what it leads to
  is what the tables stand for, when no transaction is open. *)
Record accounts_for (l : list entry) (sp : spec) (p : pool World (result answer)) : Prop := {
  af_replays : replays keep s0 (outcomes l) sp;
  af_once : NoDup (map (fun e => e.1.1) l);
  af_calls : Forall (fun e => owner e.1.1 e.1.2) l;
  af_succeeded : ∀ i c a, jobs !! i = Some (Call c) → ended p i (Ok a) → (i, c, Ok a) ∈ l;
  af_failed : ∀ i c e o, jobs !! i = Some (Call c) → ended p i (Err e) → (i, c, o) ∈ l → o = Err e;
  af_tables : (∀ i t, members p !! i = Some t → Exclusive Connection ∉ held t) → stands_for sp (state p) }.

(** A read that fails after its moment has had no effect: its entry is the error. *)
Definition settled (p : pool World (result answer)) (e : entry) : entry :=
  match members p !! e.1.1 with
  | Some t => match threads.answer t with Some (Err er) => (e.1, Err er) | _ => e end
  | None => e
  end.
Lemma settled_fst p e : (settled p e).1 = e.1.
Proof. unfold settled. destruct (members p !! _) as [t|]; [|done]. by destruct (threads.answer t) as [[]|]. Qed.
Lemma effectless_same c s r s' : effectless c = true → specified keep c s = (r, s') → s' = s.
Proof. destruct c; try done; intros _; cbn; [unfold answering, spec_get; cbn|]; by intros [= _ <-]. Qed.
Lemma replays_settled p l s s' : replays keep s (outcomes l) s' → Forall (fun e => settled p e = e ∨ effectless e.1.2 = true ∧ ∃ er, settled p e = (e.1, Err er)) l →
  replays keep s (outcomes (map (settled p) l)) s'.
Proof.
  intros Hr Hl. revert s Hr. induction Hl as [|e l He _ IH]; intros s Hr; [done|]. destruct e as [[i c] o]. cbn in Hr |- *.
  destruct He as [->|[He (er&->)]]; cbn in *.
  - inversion Hr; subst; econstructor; eauto.
  - apply replays_err, IH. inversion Hr as [|? s1 ? ? ? ? Hc Hrest|]; subst; [|done]. by rewrite (effectless_same _ _ _ _ He Hc) in Hrest.
Qed.
Lemma in_mine e x : e ∈ log x → e ∈ mine e.1.1 x.
Proof. intros He. apply list_elem_of_filter. split; [|done]. by apply bool_decide_eq_true. Qed.
Definition promises (i : nat) (h : list lock) (r : result answer) (s : World) (x : Ghost) : Prop := match jobs !! i with Some j => kept i j h r s x | None => True end.
Lemma ended_promises p x i j r : pool_safe promises p x → jobs !! i = Some j → ended p i r → ∃ h, kept i j h r (state p) x.
Proof.
  intros Hp Hj (t&Ht&Ha). exists (held t). pose proof (pool_safe_answer _ _ _ _ _ _ Hp Ht Ha) as Hq. unfold promises in Hq. by rewrite Hj in Hq.
Qed.
Lemma succeeded_logged p x i c a : pool_safe promises p x → jobs !! i = Some (Call c) → ended p i (Ok a) → (i, c, Ok a) ∈ log x.
Proof.
  intros Hp Hj He. destruct (ended_promises _ _ _ _ _ Hp Hj He) as (h&_&Hm). assert ((i, c, Ok a) ∈ mine i x) as Hin by (rewrite Hm; by left).
  by apply list_elem_of_filter in Hin as [_ ?].
Qed.
Lemma log_settles p x : pool_safe promises p x →
  Forall (fun e => settled p e = e ∨ effectless e.1.2 = true ∧ ∃ er, settled p e = (e.1, Err er)) (log x).
Proof.
  intros Hp. pose proof (ps_always _ _ _ Hp : sound _ _) as Hs. apply Forall_forall. intros e He. unfold settled. destruct (members p !! e.1.1) as [t|] eqn:Ht; [|by left].
  destruct (threads.answer t) as [[a|er]|] eqn:Ha; [by left| |by left]. right. split; [|by exists er].
  pose proof (proj1 (Forall_forall _ _) (so_calls _ _ Hs) e He) as [Hj|[_ ->]]; [|done].
  destruct (ended_promises p x e.1.1 _ (Err er) Hp Hj) as (h&_&Hm); [by exists t|]. pose proof (in_mine e x He) as Hin.
  destruct Hm as [Hm|[Heff (o&Hm)]]; rewrite Hm in Hin; [by apply elem_of_nil in Hin|]. done.
Qed.
Lemma pool_accounts p x : pool_safe promises p x → accounts_for (map (settled p) (log x)) (meaning x) p.
Proof.
  intros Hp. pose proof (log_settles p x Hp) as Hl. pose proof (ps_always _ _ _ Hp : sound _ _) as Hs. assert (∀ {B} (f : nat * call → B), map (fun e => f e.1) (map (settled p) (log x)) = map (fun e => f e.1) (log x)) as Hfst.
  { intros B f. rewrite map_map. apply map_ext. intros e. by rewrite settled_fst. }
  split.
  - apply replays_settled; [apply Hs|done].
  - rewrite (Hfst _ fst). apply Hs.
  - apply Forall_fmap. eapply Forall_impl; [apply (so_calls _ _ Hs)|]. intros e. cbn. by rewrite settled_fst.
  - intros i c a Hj He. apply list_elem_of_fmap. exists (i, c, Ok a). split; [|by eapply succeeded_logged]. unfold settled. cbn.
    destruct He as (t&->&->). done.
  - intros i c e o Hj He Hin. apply list_elem_of_fmap in Hin as ([[i' c'] o']&E&Hin). unfold settled in E. cbn in E.
    assert (i' = i) as -> by (destruct (members p !! i') as [t|]; [destruct (threads.answer t) as [[]|]|]; by injection E).
    destruct He as (t&Ht&Ha). rewrite Ht, Ha in E. by injection E.
  - intros Hfree. pose proof (ps_inv _ _ _ Hp Connection Hfree) as Hinv. cbn in Hinv. destruct Hs as [_ Hm _ _ _]. by eapply stands_db; [|exact Hm].
Qed.
Lemma besides_elsewhere {A} (p : thread_of A) : elsewhere [] [] p → fine (besides p).
Proof. intros Hp. by apply (elsewhere_or_fail []). Qed.
Lemma others_keep_mine (trace : list (nat * pool World (result answer))) x x1 j :
  rtc (fun y y' => ∃ i, i ∈ trace.*1 ∧ by_thread i y y') x x1 → j ∉ trace.*1 → mine j x1 = mine j x.
Proof.
  intros Hr Hj. induction Hr as [x|x y x1 (i&Hi&Hb) _ IH]; [done|]. rewrite IH. destruct Hb as [->|(h&s&s'&Hg)]; [done|].
  destruct Hg as (_&_&_&Hg&_). eapply mine_only_by; [|exact Hg]. by intros ->.
Qed.
Lemma grows_all x x1 : rtc evolves x x1 → log x `prefix_of` log x1.
Proof. intros Hr. induction Hr as [x|x y x1 Hxy _ IH]; [done|]. etrans; [exact Hxy|exact IH]. Qed.
(** The moment of a call that had succeeded comes before that of one that had not
  begun. *)
Definition in_time (origin : pool World (result answer)) (trace : list (nat * pool World (result answer))) (l : list entry) : Prop :=
  ∀ pre post i j c d a b, trace = pre ++ post → jobs !! i = Some (Call c) → jobs !! j = Some (Call d) →
    ended (reached origin pre) i (Ok a) → j ∉ pre.*1 → ended (reached origin trace) j (Ok b) →
    ∃ l1 l2, l = l1 ++ l2 ∧ (i, c, Ok a) ∈ l1 ∧ (j, d, Ok b) ∈ l2.
(** A server that is sealed, or unsealed with [K] at the version of its database. *)
Definition serves_root (w : World) : Prop := root (seal_memory w) = None ∨ root (seal_memory w) = Some K ∧ kekVersion (seal_memory w) = kek_of (database w).
Lemma serving_safe fuel : Forall fine jobs → serves_root start → stands_for s0 start → pool_safe promises (serving fuel) (MkGhost (database start) s0 []).
Proof.
  intros Hf Hroot Hst. assert (sound start (MkGhost (database start) s0 [])) as Hs.
  { split; cbn; [destruct Hroot as [|[? _]]; auto|by eapply stands_db; [|exact Hst]|constructor|constructor|apply Forall_nil_2]. }
  apply pool_safe_starting; [done| |].
  - intros []; cbn; [done| |done]. destruct Hroot as [|[_ ?]]; auto.
  - intros i q Hq. apply list_lookup_fmap_Some in Hq as (j&->&Hj). unfold promises. rewrite Hj. apply program_safe; [by eapply (Forall_lookup_1 _ _ _ _ Hf)| | |by split].
    + intros c ->. by left.
    + intros ->. by right.
Qed.
(** C2. The secret store is linearizable. Threads put, get, delete, undelete, destroy
  and rewrap secrets, rotate the key, seal the server and run anything that leaves
  the secrets and the keys alone (so nobody initialises or unseals), on a server that is
  sealed or holds its current key, with every interleaving of their statements and locks, database
  failures and given up waits included; reading the latest version and undeleting do
  not go together, because in the code they are not linearizable: the number of the latest
  version is read in a statement of its own (late_unaccounted below). Then at every moment of the run there is one order of the calls
  that accounts for all the answers given so far: it is a run of the sequential
  specification, with each call at most once, the succeeded calls with the answers they
  gave, nothing of the failed ones, ending in what the tables stand for; and a call that
  had succeeded before another began comes before it. *)
Theorem linearizable (fuel : nat) (trace : list (nat * pool World (result answer))) (Hf : Forall fine jobs)
  (Hroot : serves_root start) (Hst : stands_for s0 start) (Hrun : run (serving fuel) trace) :
  ∃ l sp, accounts_for l sp (reached (serving fuel) trace) ∧ in_time (serving fuel) trace l.
Proof.
  pose proof (serving_safe fuel Hf Hroot Hst) as Hp. destruct (run_safe _ _ _ _ Hrun Hp) as (x'&_&Hp'&Hmoments).
  exists (map (settled (reached (serving fuel) trace)) (log x')), (meaning x'). split; [by apply pool_accounts|].
  intros pre post i j c d a b E Hi Hj Hei Hnot Hej. destruct (Hmoments pre post E) as (x1&Hp1&Hgrows%grows_all&Hby). destruct Hgrows as [rest Erest].
  rewrite Erest, map_app. eexists _, _. split; [done|]. pose proof (pool_accounts _ _ Hp') as Hacc.
  assert (∀ k e r, jobs !! k = Some (Call e) → ended (reached (serving fuel) trace) k (Ok r) → settled (reached (serving fuel) trace) (k, e, Ok r) = (k, e, Ok r)) as Hsettled.
  { intros k e r _ (t&Ht&Ha). unfold settled. cbn. by rewrite Ht, Ha. }
  assert (ended (reached (serving fuel) trace) i (Ok a)) as Hei'.
  { destruct Hei as (t&Ht&Ha). exists t. split; [|done]. subst trace. apply run_app in Hrun as [_ Hpost]. rewrite reached_app. eapply run_answered; [done..|by rewrite Ha]. }
  split.
  - apply list_elem_of_fmap. exists (i, c, Ok a). split; [symmetry; by apply Hsettled|by eapply succeeded_logged].
  - apply list_elem_of_fmap. exists (j, d, Ok b). split; [symmetry; by apply Hsettled|]. pose proof (succeeded_logged _ _ _ _ _ Hp' Hj Hej) as Hin.
    rewrite Erest in Hin. apply elem_of_app in Hin as [Hin|Hin]; [|done]. exfalso. apply in_mine in Hin. cbn [fst] in Hin.
    rewrite (others_keep_mine pre _ _ j Hby Hnot) in Hin. by apply elem_of_nil in Hin.
Qed.
(** C4. A rotation that has reported success leaves no secret under an old key, whatever
  was written while it ran. Among threads that put, get, delete, undelete and destroy
  secrets, seal the server and run anything that leaves the secrets alone, let one
  rotate the key, and nobody else. At every moment after it has reported success at
  which no transaction is open, the key version of the database is one more than at
  the start, and every version of a secret that is not destroyed is wrapped under it. *)
Theorem rotation_leaves_nothing_behind (fuel i : nat) (a : answer) (trace : list (nat * pool World (result answer))) (Hf : Forall fine jobs)
  (Hroot : serves_root start) (Hst : stands_for s0 start) (Hi : jobs !! i = Some Rotation)
  (Honly : ∀ j, j ≠ i → jobs !! j ≠ Some Rotation ∧ jobs !! j ≠ Some (Call CRewrap)) (Hrun : run (serving fuel) trace)
  (Hended : ended (reached (serving fuel) trace) i (Ok a))
  (Hfree : ∀ j t, members (reached (serving fuel) trace) !! j = Some t → Exclusive Connection ∉ held t) :
  let d := database (state (reached (serving fuel) trace)) in
  kek_of d = wrap64 (kek_of (database start) + 1) ∧
  ∀ k row, secret_versions d !! k = Some row → sv_destroyed_at row = None → sv_kek_version row = kek_of d.
Proof.
  destruct (run_safe _ _ _ _ Hrun (serving_safe fuel Hf Hroot Hst)) as (x&_&Hp&_). pose proof (ps_inv _ _ _ Hp Connection Hfree) as Hinv. cbn in Hinv.
  destruct (ended_promises _ _ _ _ _ Hp Hi Hended) as (h&_&Hc). destruct (Hc a eq_refl) as [Hall Hv].
  { intros j Hj [Hcall|[Hrot _]]; by destruct (Honly j Hj). }
  cbn zeta. rewrite Hinv. split; [exact Hv|exact Hall].
Qed.
End cipher.

(** ** A day *)
#[local] Existing Instance sample.primitives.
#[local] Existing Instance sample.primitive_laws.
Local Definition key : list Z := crypto.sample_key 9.
Local Definition shop : World :=
  let w := fresh_world (fun n => (1700000000 + Z.of_nat n) * Second) (fun n => Z.of_nat (7 * n + 3)) in
  set_seal_memory (MkSealMemory (Some key) 1 []) (set_database (set_seal_config (Some (MkSealConfig 1 1 [] (FormatTime 0) 1)) (database w)) w).
Local Definition busy : list job :=
  [Call (CPut "acme" "db/password" [1; 2; 3] secret.Any); Call (CPut "acme" "db/password" [4] secret.Any);
   Call (CGet "acme" "db/password" secret.currentVersion); besides GetStatus; Rotation].
(** The first put is done when the rotation begins; the second one has made its
  envelope by then and has the connection, for which the rotation has to wait. *)
Local Definition turns : list nat := repeat 0%nat 20 ++ repeat 4%nat 4 ++ repeat 1%nat 8 ++ repeat 4%nat 3 ++ concat (repeat [1; 2; 4; 3]%nat 80).
Local Definition day : list (nat * pool World (result answer)) := trace_of turns (serving 10 busy shop 20).
Abbreviation evening := (reached (serving 10 busy shop 20) day) (only parsing).
Lemma day_answers : map threads.answer (members evening) =
  [Some (Ok (AVersion 1)); Some (Ok (AVersion 2)); Some (Ok (AValue 2 [4])); Some (Ok ADone); Some (Ok ADone)].
Proof. by vm_compute. Qed.
Lemma shop_stands : stands_for key 10 nothing shop.
Proof. apply implements_nothing; done. Qed.
Lemma busy_fine : Forall (fine false) busy.
Proof. repeat (apply Forall_cons; split); [done|done|done|apply besides_elsewhere, GetStatus_elsewhere|done|apply Forall_nil_2]. Qed.
Lemma ten_kept : 1 ≤ 10 ≤ i64_max.
Proof. unfold i64_max. lia. Qed.
Lemma shop_serves : serves_root key shop.
Proof. by right. Qed.
Lemma day_runs : run (serving 10 busy shop 20) day.
Proof. apply trace_of_run. Qed.
Lemma linearizable_witness : ∃ l sp, accounts_for key 10 nothing busy l sp evening ∧ in_time busy (serving 10 busy shop 20) day l.
Proof.
  exact (linearizable key 10 ten_kept false nothing busy shop 20 day busy_fine shop_serves shop_stands day_runs).
Defined.
Lemma evening_ended : ended evening 4 (Ok ADone).
Proof. eexists. split; [by vm_compute|done]. Qed.
Lemma evening_rests : at_rest (Exclusive Connection) evening = true.
Proof. by vm_compute. Qed.
Lemma shop_next : wrap64 (kek_of (database shop) + 1) = 2.
Proof. by vm_compute. Qed.
Lemma busy_only : ∀ j, j ≠ 4%nat → busy !! j ≠ Some Rotation ∧ busy !! j ≠ Some (Call CRewrap).
Proof. intros [|[|[|[|[|j]]]]] Hj; by split. Qed.
#[local] Opaque reached.
Lemma rotation_leaves_nothing_behind_witness : kek_of (database (state evening)) = 2 ∧ ∀ k row, secret_versions (database (state evening)) !! k = Some row →
  sv_destroyed_at row = None → sv_kek_version row = 2.
Proof.
  pose proof (rotation_leaves_nothing_behind key 10 ten_kept false nothing busy shop 20 4 ADone day busy_fine shop_serves shop_stands eq_refl busy_only day_runs
    evening_ended (at_rest_free _ _ evening_rests)) as Hthm. cbv zeta in Hthm. destruct Hthm as [Hk Hall]. rewrite shop_next in Hk.
  split; [exact Hk|]. intros k row Hrow Hn. rewrite <- Hk. exact (Hall k row Hrow Hn).
Defined.

(** ** Why the latest version is not read beside an undelete *)
(** Version 1 is put and deleted; a reader takes the number of the latest version, 1;
  then version 2 is put, and then 1 is undeleted; the reader answers with version 1,
  which at no moment was the latest one and could be read. *)
Local Definition late : list call :=
  [CPut "acme" "db/password" [1; 2; 3] secret.Any; CDelete "acme" "db/password" [1]; CGet "acme" "db/password" secret.currentVersion;
   CPut "acme" "db/password" [4] secret.Any; CUndelete "acme" "db/password" [1]].
Local Definition late_answers : list answer := [AVersion 1; ADone; AValue 1 [1; 2; 3]; AVersion 2; ADone].
Local Definition late_turns : list nat := repeat 0%nat 40 ++ repeat 1%nat 40 ++ repeat 2%nat 4 ++ repeat 3%nat 40 ++ repeat 4%nat 40 ++ repeat 2%nat 40.
Local Definition late_start : pool World (result answer) := serving 10 (map Call late) shop 20.
Lemma late_run : map threads.answer (members (reached late_start (trace_of late_turns late_start))) = map (fun a => Some (Ok a)) late_answers.
Proof. by vm_compute. Qed.
Lemma replays_next keep s c a history s' : replays keep s ((c, Ok a) :: history) s' →
  fst (specified keep c s) = Ok a ∧ replays keep (snd (specified keep c s)) history s'.
Proof. intros Hr. inversion Hr as [|? ? ? ? ? ? E Hr'|]; subst. by rewrite E. Qed.
(** All the calls but the reader's follow one another, and the reader begins after the
  delete: it comes somewhere after it, and wherever that is the answers do not agree. *)
Lemma late_unaccounted i sp : (2 <= i)%nat → ¬ replays 10 nothing
  (let others := delete 2%nat (combine late (map Ok late_answers)) in
   take i others ++ (CGet "acme" "db/password" secret.currentVersion, Ok (AValue 1 [1; 2; 3])) :: drop i others) sp.
Proof.
  intros Hi Hr. destruct i as [|[|i]]; [lia|lia|]. cbn in Hr. apply replays_next in Hr as [_ [_ Hr]%replays_next].
  destruct i as [|[|i]]; cbn [firstn skipn app] in Hr.
  - apply replays_next in Hr as [E _]. by vm_compute in E.
  - apply replays_next in Hr as [_ [E _]%replays_next]. by vm_compute in E.
  - rewrite firstn_nil, skipn_nil in Hr. apply replays_next in Hr as [_ [_ [E _]%replays_next]%replays_next]. by vm_compute in E.
Qed.
End linear.
