(* ===== verification/Races.v ===== *)
(** What comes in between where nothing keeps it out: statements of one operation
  that are not one transaction (Renew and RevokePrefix of modules/lease/manager.go),
  and an envelope that is made before the statement that stores it (Put of
  modules/param/store.go).  Each theorem gives the run, for every state. *)
From Stdlib Require Import ZArith Lia.
From S2P Require Import Prelude GoStrings GoTime World Policy Httpx Envelope AuditTrail SealManager PolicyStore Cipher Walk SecretStore SecretRewrap Interfaces Lease Param Rotate Auth App Threads KeyRotation Concurrent.

Module races.
Import threads concurrent.
#[local] Existing Instances app.key_rotator.

(** ** modules/lease/manager.go, by statements *)
Section leases.
Context `{Revoker}.
Definition Issue (tenant identityID path : string) (version ttl : Z) : thread_of lease.Lease :=
  checked (lease.validate tenant path ttl) (tx (act (lease.issue_body tenant identityID path version ttl))).
Definition until (held : lease.Lease) (expiry : Z) : lease.Lease :=
  lease.MkLeaseInfo (lease.ID held) (lease.Tenant held) (lease.IdentityID held) (lease.Path held) (lease.Version held) (lease.IssuedAt held) expiry.
Definition extend (held : lease.Lease) (identityID : string) (ttl : Z) : thread_of lease.Lease :=
  if negb (String.eqb (lease.IdentityID held) identityID) then Done (Err [lease.ErrNotHolder])
  else
    let* t := act now in
    if negb (t <? lease.ExpiresAt held) then Done (Err [lease.ErrGone])
    else
      let expiry := t + ttl in
      let* _ := stmt (exec (lease.update_id (lease.ID held) lease.unrevoked (lease.extend_row (FormatTime expiry)))) in
      Done (Ok (until held expiry)).
Definition Renew (id identityID : string) (ttl : Z) : thread_of lease.Lease :=
  if (ttl <=? 0) || (lease.MaximumTTL <? ttl) then Done (Err [lease.ErrInvalidTTL])
  else let* held := stmt (lease.read id) in extend held identityID ttl.
Definition Revoke (id : string) : thread_of unit :=
  let* t := act now in
  let* affected := stmt (exec (lease.update_id id lease.unrevoked (lease.revoke_row (FormatTime t)))) in
  if affected =? 0
  then let* present := stmt (query (fun d => lease_records d !! id)) in
       Done (match present with None => Err [lease.ErrNotFound] | Some _ => Ok tt end)
  else Done (Ok tt).
Fixpoint revoke_tokens (holders : list string) (tokens : Z) : thread_of Z :=
  match holders with
  | [] => Done (Ok tokens)
  | holder :: holders => let* n := stmt (RevokeIdentity holder) in revoke_tokens holders (tokens + n)
  end.
Definition revoke_found (tenant prefix : string) (found : list string * Z) : thread_of lease.Revocation :=
  let* t := act now in
  let* _ := stmt (exec (lease.update_where (lease.under tenant prefix) (lease.revoke_row (FormatTime t)))) in
  let* tokens := revoke_tokens (fst found) 0 in
  Done (Ok (lease.MkRevocation (snd found) (fst found) tokens)).
Definition RevokePrefix (tenant prefix : string) : thread_of lease.Revocation :=
  checked (lease.validateTenant tenant) (
    if String.eqb prefix "" || (lease.maxPathLen <? len prefix) then Done (Err [lease.ErrInvalidPath])
    else let* found := stmt (lease.holdersUnder tenant prefix) in revoke_found tenant prefix found).

(** Alone, each is the operation it is of. *)
Lemma Issue_solo t i p v ttl w : solo (Issue t i p v ttl) w = lease.Manager_Issue t i p v ttl w.
Proof. unfold Issue, lease.Manager_Issue. apply solo_checked. clear w. intros w. rewrite solo_tx. apply with_tx_ext. intros u. apply solo_act. Qed.
Lemma Renew_solo id i ttl w : solo (Renew id i ttl) w = lease.Renew id i ttl w.
Proof.
  unfold Renew, lease.Renew. destruct (_ || _); [done|]. rewrite solo_or_fail. unfold bind at 1 2. rewrite solo_stmt. destruct (lease.read id w) as [[held|e] w1] eqn:E; [|done].
  assert (lease.ID held = id) as Hid.
  { unfold lease.read in E. apply bind_ok_inv in E as (row&w2&_&E). destruct row as [row|]; [|done]. destruct (lease.unrevoked row); [|done].
    injection E as E _. apply lease.scanLease_fields in E. apply E. }
  unfold extend, until. rewrite Hid. destruct (negb _); [done|]. rewrite solo_or_fail. unfold bind at 1 2. rewrite solo_act. unfold now. cbn zeta. destruct (negb _); [done|].
  rewrite solo_or_fail. unfold bind. by rewrite solo_stmt.
Qed.
Lemma Revoke_solo id w : solo (Revoke id) w = lease.Revoke id w.
Proof.
  unfold Revoke, lease.Revoke. rewrite solo_or_fail. unfold bind at 1 2. rewrite solo_act. unfold now. rewrite solo_or_fail. unfold bind at 1 2. rewrite solo_stmt.
  destruct (exec _ _) as [[n|e] w1]; [|done]. destruct (n =? 0); [|done]. rewrite solo_or_fail. unfold bind. rewrite solo_stmt. by destruct (query _ w1) as [[[row|]|e] w2].
Qed.
Lemma revoke_tokens_solo l n w : solo (revoke_tokens l n) w = lease.revoke_tokens l n w.
Proof.
  revert n w. induction l as [|i l IH]; intros n w; [done|]. cbn [revoke_tokens lease.revoke_tokens]. rewrite solo_or_fail. unfold bind. rewrite solo_stmt.
  destruct (RevokeIdentity i w) as [[k|e] w1]; [apply IH|done].
Qed.
Lemma RevokePrefix_solo t p w : solo (RevokePrefix t p) w = lease.RevokePrefix t p w.
Proof.
  unfold RevokePrefix, lease.RevokePrefix. apply solo_checked. clear w. intros w. destruct (_ || _); [done|]. rewrite solo_or_fail. unfold bind at 1 2. rewrite solo_stmt.
  destruct (lease.holdersUnder t p w) as [[found|e] w1]; [|done]. unfold revoke_found. rewrite solo_or_fail. unfold bind at 1 2. rewrite solo_act. unfold now.
  rewrite solo_or_fail. unfold bind at 1 2. rewrite solo_stmt. destruct (exec _ _) as [[n|e] w2]; [|done]. unfold lease.revokeHolders.
  rewrite solo_or_fail. unfold bind. rewrite revoke_tokens_solo. by destruct (lease.revoke_tokens _ _ w2) as [[]].
Qed.
(** And each takes its locks in order: only the connection. *)
Abbreviation orderly := (orderly ranked_all [] []) (only parsing).
Lemma stmt_orderly {A} (m : M World A) : orderly (stmt m).
Proof. by apply orderly_stmt; [|apply Forall_nil_2]. Qed.
Ltac in_turn := repeat first
  [ progress intros | apply stmt_orderly | apply orderly_act | eapply orderly_or_fail; [| |done]
  | match goal with |- threads.orderly _ _ _ (match ?x with _ => _ end) => destruct x end | done ].
Lemma Issue_orderly t i p v ttl : orderly (Issue t i p v ttl).
Proof. by apply orderly_checked, orderly_tx; [|apply Forall_nil_2|apply orderly_act]. Qed.
Lemma extend_orderly held i ttl : orderly (extend held i ttl).
Proof. unfold extend. in_turn. Qed.
Lemma Revoke_orderly id : orderly (Revoke id).
Proof. unfold Revoke. in_turn. Qed.
Lemma revoke_tokens_orderly l n : orderly (revoke_tokens l n).
Proof. revert n. induction l as [|i l IH]; cbn [revoke_tokens]; in_turn. Qed.
Lemma revoke_found_orderly t p found : orderly (revoke_found t p found).
Proof. unfold revoke_found. in_turn. apply revoke_tokens_orderly. Qed.
End leases.

(** ** Two requests at once, and what each is told *)
Inductive report :=
| RLease (r : result lease.Lease)
| RRevocation (r : result lease.Revocation)
| RDone (r : result unit)
| RRotation (r : option (rotate.outcome * result unit)).
Definition reporting {B} (f : B → report) (p : prog World B) : prog World report := and_then p (fun x => Done (f x)).
Definition at_once (p q : prog World report) (w : World) : pool World report := MkPool [starting p; starting q] w.
Definition told (p : pool World report) : list (option report) := map threads.answer (members p).
Lemma solo_reporting {B} (f : B → report) p w x w' : solo p w = (x, w') → solo (reporting f p) w = (f x, w').
Proof. intros E. unfold reporting. by rewrite solo_and_then, E. Qed.
Lemma orderly_reporting {B} (f : B → report) p : threads.orderly ranked_all [] [] p → threads.orderly ranked_all [] [] (reporting f p).
Proof. intros Hp. by eapply orderly_and_then. Qed.
(** [q] as a whole between the first part of [p] and the rest. *)
Lemma one_in_between {B C D} (f : result C → report) (g : D → report) (p : thread_of B) (k : B → thread_of C) (q : prog World D) w x w1 y w2 z w3 :
  threads.orderly ranked_all [] [] p → threads.orderly ranked_all [] [] (k x) → threads.orderly ranked_all [] [] q →
  solo p w = (Ok x, w1) → solo q w1 = (y, w2) → solo (k x) w2 = (z, w3) →
  ∃ p', rtc step (at_once (reporting f (let* x := p in k x)) (reporting g q) w) p' ∧ told p' = [Some (f z); Some (g y)] ∧ state p' = w3.
Proof.
  intros Hp Hk Hq Ep Eq Ek. exists (MkPool [starting (Done (f z)); starting (Done (g y))] w3). split; [|done].
  apply (in_between (fun p => reporting f (and_then p (or_fail k))) p (reporting g q) w (Ok x) w1 (g y) w2 (f z) w3); [done|exact Hp|by apply (orderly_reporting f (k x))|by apply orderly_reporting|exact Ep|by apply solo_reporting|].
  by apply (solo_reporting f (k x)).
Qed.

(** ** A parameter and a rotation *)
Section parameter.
Context `{PrimitiveLaws}.
Lemma Cipher_Seal_here tenant plaintext aad w env w' : seal.Cipher_Seal tenant plaintext aad w = (Ok env, w') →
  database w' = database w ∧ seal_memory w' = seal_memory w ∧ crypto.KEKVersion env = kekVersion (seal_memory w).
Proof.
  intros E. pose proof (seal_effect (C := seal_cipher) tenant plaintext aad w) as [e He]. unfold cipher_Seal, seal_cipher in He. rewrite E in He. cbn [snd] in He. subst w'. split; [done|]. split; [done|].
  unfold seal.Cipher_Seal, seal.mem, lift_result, seal.sealingKEK, bind in E. destruct (seal.deriveKEKLocked _ _ _) as [kek|] eqn:Ek; [|done]. cbn [result_bind fst snd] in E.
  destruct (derive_inv _ _ _ _ Ek) as [Hv Hl]. destruct (Seal_inv _ _ _ _ _ _ _ E) as [_ Ha].
  destruct (crypto.Open_sealed kek (kekVersion (seal_memory w)) plaintext aad w Hl Hv Ha) as (env1&w1&E1&_&_&Hver&_). congruence.
Qed.
Definition stored_version (d : Db) : option Z := option_map sc_kek_version (seal_config d).
Lemma rotation_moves w o w' : rotate.rotate_ app.rotation_subjects w = (o, Ok tt, w') →
  stored_version (database w) = Some (rotate.from o) ∧ stored_version (database w') = Some (rotate.to o) ∧ rotate.to o = wrap64 (rotate.from o + 1).
Proof.
  intros E. apply rotate.rotate_Ok in E as (_&w1&w2&Ek&Es&->). destruct (key_rotation.KEK_rotated _ _ _ _ Ek) as (row&Hrow&_&Hf&Ht&Hdb&_).
  destruct (key_rotation.subjects_run _ _ _ Es) as (p1&wm&p2&E1&E2&_). cbn in Hrow. unfold stored_version. rewrite Hrow. cbn. rewrite Hf.
  split; [done|]. split; [|by rewrite Ht, Hf]. set (P := fun d => seal_config d = seal_config (database w1)).
  assert (P (database wm)) as Hm.
  { change wm with (snd (p1, Ok tt, wm)). rewrite <- E1. apply (secret.keeps_Rewrap P); [by intros d k r env Hd _ _|intros; apply (rewrap_effect (C := seal_cipher))|done]. }
  assert (P (database w2)) as H2 by (change w2 with (snd (p2, Ok tt, w2)); rewrite <- E2; by apply (param.Rewrap_keeps P)).
  cbn. rewrite H2, Hdb. done.
Qed.
(** C23. A parameter that is written while the key is rotated can stay under the old
  key, although both requests succeed. On an unsealed server let the envelope for a valid
  parameter be made, and let a rotation succeed from there, with as much fuel as there
  are rows and one more. Then the two requests at once have a run in which the rotation
  comes between the envelope and the statement that stores it: the put is told that it
  has succeeded, the rotation that it has moved the key from one version to the next,
  and the row of the parameter is under the version from which it was moved. *)
Theorem parameter_left_behind (tenant path kind raw actor : string) (fuel : nat) (w w1 w2 : World) (envelope : crypto.Envelope) (o : rotate.outcome)
  (Hvalid : param.validate tenant path kind raw = Ok tt)
  (Hmemory : stored_version (database w) = Some (kekVersion (seal_memory w)))
  (Hseal : seal.Cipher_Seal tenant (bytes_of_string raw) (param.locate tenant path) w = (Ok envelope, w1))
  (Hrotate : rotate.rotate_ app.rotation_subjects w1 = (o, Ok tt, w2)) (Hfuel : enough fuel w1) (Hworks : faults w2 0%nat = false) :
  ∃ p row, rtc step (at_once (reporting RDone (Param_Put tenant path kind raw actor)) (reporting RRotation (rotate_ fuel)) w) p ∧
    told p = [Some (RDone (Ok tt)); Some (RRotation (Some (o, Ok tt)))] ∧
    rotate.to o = wrap64 (rotate.from o + 1) ∧ stored_version (database (state p)) = Some (rotate.to o) ∧
    param_values (database (state p)) !! (tenant, path) = Some row ∧ pv_kek_version row = rotate.from o.
Proof.
  destruct (Cipher_Seal_here _ _ _ _ _ _ Hseal) as (Hdb&_&Hver). destruct (rotation_moves _ _ _ Hrotate) as (Hfrom&Hto&Hnext).
  set (stored := fun t => exec_ (param.upsert tenant path kind actor (FormatTime t) envelope)).
  destruct (one_in_between RDone RRotation (Cipher_Seal tenant (bytes_of_string raw) (param.locate tenant path))
    (fun envelope => let* t := act now in stmt (exec_ (param.upsert tenant path kind actor (FormatTime t) envelope))) (rotate_ fuel)
    w envelope w1 (Some (o, Ok tt)) w2 (Ok tt) (snd (bind now stored w2))) as (p&Hsteps&Htold&Hstate).
  - apply Cipher_Seal_orderly; done.
  - eapply orderly_or_fail; [apply orderly_act|intros t; apply stmt_orderly|done].
  - by apply rotate__orderly.
  - by rewrite Cipher_Seal_solo.
  - by rewrite rotate__solo, Hrotate.
  - rewrite solo_or_fail. unfold bind at 1. rewrite solo_act. unfold now. rewrite solo_stmt. unfold bind, stored, now, exec_, exec, next_fault. cbn. by rewrite Hworks.
  - exists p. eexists. unfold Param_Put. rewrite Hvalid. cbn [checked]. split; [exact Hsteps|]. split; [exact Htold|]. split; [done|]. rewrite Hstate.
    unfold bind, stored, now, exec_, exec, next_fault. cbn. rewrite Hworks. cbn. split; [exact Hto|]. split; [by rewrite lookup_insert_eq|].
    cbn. rewrite Hver. rewrite Hdb, Hmemory in Hfrom. by injection Hfrom.
Qed.
End parameter.

(** ** Leases *)
Section lease_races.
Context `{Revoker}.
Lemma read_works id w held : no_faults w → fst (lease.read id w) = Ok held → lease.read id w = (Ok held, tick w) ∧ lease.ID held = id ∧
  ∃ row, lease_records (database w) !! id = Some row ∧ lease.unrevoked row = true ∧ lease.scanLease (id, row) = Ok held.
Proof.
  intros Hw. unfold lease.read. rewrite bind_query_nf by done. destruct (lease_records (database w) !! id) as [row|]; [|done].
  destruct (lease.unrevoked row) eqn:Eu; [|done]. unfold lift_result. cbn [fst]. intros E. rewrite E. split; [done|].
  split; [by apply lease.scanLease_fields in E as (?&_)|]. by exists row.
Qed.
Lemma Revoke_works id w row : no_faults w → lease_records (database w) !! id = Some row → lease.unrevoked row = true → ∃ w',
  lease.Revoke id w = (Ok tt, w') ∧ no_faults w' ∧ clock w' = (fun n => clock w (S n)) ∧
  lease_records (database w') !! id = Some (lease.revoke_row (FormatTime (clock w 0%nat)) row).
Proof.
  intros Hw Hrow Hu. unfold lease.Revoke. rewrite bind_now. unfold bind. rewrite exec_nf by auto with world. unfold lease.update_id. cbn [database set_clock].
  rewrite Hrow, Hu. cbn. eexists. split; [done|]. split; [auto with world|]. split; [done|]. cbn. by rewrite lookup_insert_eq.
Qed.
(** Renewing does not see a revocation that comes between its two statements. Let
  the holder of a lease that is neither revoked nor expired renew it for a time to live
  that is in range, on a database that works. Then the renewal and a revocation of the
  same lease at once have a run in which both succeed: the holder is told that it has the
  lease until later, and the lease is revoked. *)
Theorem renewed_though_revoked (id : string) (ttl : Z) (w : World) (held : lease.Lease) (Hworks : no_faults w)
  (Hread : fst (lease.read id w) = Ok held) (Httl : 0 < ttl ≤ lease.MaximumTTL) (Hlive : clock w 1%nat < lease.ExpiresAt held) :
  ∃ p row, rtc step (at_once (reporting RLease (Renew id (lease.IdentityID held) ttl)) (reporting RDone (Revoke id)) w) p ∧
    told p = [Some (RLease (Ok (until held (clock w 1%nat + ttl)))); Some (RDone (Ok tt))] ∧
    lease_records (database (state p)) !! id = Some row ∧ is_Some (lr_revoked_at row).
Proof.
  destruct (read_works _ _ _ Hworks Hread) as (Er&Hid&row&Hrow&Hu&_). destruct (Revoke_works id (tick w) row) as (w2&Ev&Hw2&Hc&Hrow2); [auto with world|done..|].
  destruct (one_in_between RLease RDone (stmt (lease.read id)) (fun held' => extend held' (lease.IdentityID held) ttl) (Revoke id)
    w held (tick w) (Ok tt) w2 (Ok (until held (clock w 1%nat + ttl))) (tick (set_clock (fun n => clock w2 (S n)) w2))) as (p&Hsteps&Htold&Hstate).
  - apply stmt_orderly.
  - apply extend_orderly.
  - apply Revoke_orderly.
  - by rewrite solo_stmt.
  - by rewrite Revoke_solo.
  - unfold extend. rewrite String.eqb_refl. cbn [negb]. rewrite solo_or_fail. unfold bind. rewrite solo_act. unfold now. rewrite Hc. change (clock (tick w)) with (clock w).
    destruct (Z.ltb_spec (clock w 1%nat) (lease.ExpiresAt held)); [|lia]. cbn [negb]. rewrite solo_or_fail. unfold bind. rewrite solo_stmt, exec_nf by auto with world.
    unfold lease.update_id. cbn [database set_clock]. rewrite Hid, Hrow2. cbn. by destruct w2.
  - exists p. eexists. unfold Renew. destruct (Z.leb_spec ttl 0); [lia|]. destruct (Z.ltb_spec lease.MaximumTTL ttl); [lia|]. cbn [orb].
    split; [exact Hsteps|]. split; [exact Htold|]. rewrite Hstate. split; [exact Hrow2|by eexists].
Qed.

(** A revoker that leaves the leases alone and fails only when the database does. *)
Definition revoker_works : Prop := ∀ i w, no_faults w → ∃ n w', RevokeIdentity i w = (Ok n, w') ∧ no_faults w' ∧ lease_records (database w') = lease_records (database w).
Lemma tokens_work l n w : revoker_works → no_faults w → ∃ m w', lease.revoke_tokens l n w = (Ok m, w') ∧ lease_records (database w') = lease_records (database w).
Proof.
  intros Hr. revert n w. induction l as [|i l IH]; intros n w Hw; [by exists n, w|]. cbn [lease.revoke_tokens]. destruct (Hr i w Hw) as (k&w1&E&Hw1&Hl).
  rewrite (bind_ok _ _ _ _ _ E), <- Hl. by apply IH.
Qed.
Lemma revoke_found_works t p found w id row : revoker_works → no_faults w → lease_records (database w) !! id = Some row → lease.under t p row = true →
  ∃ m w' row', solo (revoke_found t p found) w = (Ok (lease.MkRevocation (snd found) (fst found) m), w') ∧
    lease_records (database w') !! id = Some row' ∧ is_Some (lr_revoked_at row').
Proof.
  intros Hr Hw Hrow Hu. unfold revoke_found. rewrite solo_or_fail. unfold bind. rewrite solo_act. unfold now. rewrite solo_or_fail. unfold bind. rewrite solo_stmt.
  rewrite exec_nf by auto with world. cbn [lease.update_where]. rewrite solo_or_fail. unfold bind. rewrite revoke_tokens_solo.
  match goal with |- context [lease.revoke_tokens ?l ?n ?u] => destruct (tokens_work l n u Hr) as (m&w'&E&Hl) end; [auto with world|].
  rewrite E. eexists m, w', _. split; [done|]. rewrite Hl. cbn. rewrite lookup_fmap, Hrow. cbn. rewrite Hu. split; [done|by eexists].
Qed.
(** C24. Revoking a prefix can miss a holder: it asks who holds leases under the prefix,
  then revokes the leases, and then the tokens of those it had found. Let an identity
  that holds no lease under the prefix be given one, on a database and with a revoker
  that work. Then the revocation and the request that gives the lease have a run in which
  both succeed and the lease is revoked, but the identity is not among those that
  the revocation reports, whose tokens it has revoked. *)
Theorem prefix_misses_a_holder (tenant prefix identityID path : string) (version ttl : Z) (w w2 : World) (l : lease.Lease)
  (Hworks : no_faults w) (Hrevoker : revoker_works) (Htenant : lease.validateTenant tenant = Ok tt)
  (Hprefix : prefix ≠ "" ∧ len prefix ≤ lease.maxPathLen) (Hpath : str_le prefix path = true ∧ str_lt path (lease.prefixCeiling prefix) = true)
  (Hnone : ∀ id row, lease_records (database w) !! id = Some row → lease.under tenant prefix row = true → lr_identity_id row ≠ identityID)
  (Hissue : lease.Manager_Issue tenant identityID path version ttl (tick w) = (Ok l, w2)) (Hworks2 : no_faults w2) :
  ∃ p v row, rtc step (at_once (reporting RRevocation (RevokePrefix tenant prefix)) (reporting RLease (Issue tenant identityID path version ttl)) w) p ∧
    told p = [Some (RRevocation (Ok v)); Some (RLease (Ok l))] ∧
    lease_records (database (state p)) !! lease.ID l = Some row ∧ is_Some (lr_revoked_at row) ∧ identityID ∉ lease.Identities v.
Proof.
  destruct (lease.Manager_Issue_row _ _ _ _ _ _ _ _ Hissue) as (row&Hrow&Hheld). set (found := lease.holders tenant prefix (database w)).
  destruct (revoke_found_works tenant prefix found w2 (lease.ID l) row Hrevoker Hworks2 Hrow) as (m&w3&row'&Erest&Hrow'&Hrevoked).
  { unfold lease.held_by in Hheld. unfold lease.under. destruct Hpath as [Hle Hlt]. apply andb_true_iff in Hheld as [Hheld Hu]. apply andb_true_iff in Hheld as [[[Ht _]%andb_true_iff Hp]%andb_true_iff _].
    apply String.eqb_eq in Hp. by rewrite Hp, Ht, Hle, Hlt, Hu. }
  destruct (one_in_between RRevocation RLease (stmt (lease.holdersUnder tenant prefix)) (revoke_found tenant prefix) (Issue tenant identityID path version ttl)
    w found (tick w) (Ok l) w2 (Ok (lease.MkRevocation (snd found) (fst found) m)) w3) as (p&Hsteps&Htold&Hstate).
  - apply stmt_orderly.
  - apply revoke_found_orderly.
  - apply Issue_orderly.
  - rewrite solo_stmt. unfold lease.holdersUnder. by rewrite query_nf.
  - by rewrite Issue_solo.
  - exact Erest.
  - exists p, (lease.MkRevocation (snd found) (fst found) m), row'. unfold RevokePrefix. rewrite Htenant. cbn [checked].
    destruct Hprefix as [Hne Hlen]. apply String.eqb_neq in Hne. rewrite Hne. destruct (Z.ltb_spec lease.maxPathLen (len prefix)); [lia|]. cbn [orb].
    split; [exact Hsteps|]. split; [exact Htold|]. rewrite Hstate. split; [done|]. split; [done|]. cbn. unfold found, lease.holders. cbn [fst].
    rewrite elem_of_order_by, elem_of_remove_dups. intros ([id r]&E&Hin)%list_elem_of_fmap. apply lease.elem_of_rows_where in Hin as [Hr Hu]. cbn in E. by apply (Hnone id r).
Qed.
End lease_races.

(** ** The runs on a small server *)
#[local] Existing Instance sample.primitives.
#[local] Existing Instance sample.primitive_laws.
Local Definition day : World := fresh_world (fun n => (1700000000 + Z.of_nat n) * Second) (fun n => Z.of_nat (7 * n + 3)).
Local Definition unsealed : World :=
  set_seal_memory (MkSealMemory (Some (crypto.sample_key 9)) 1 []) (set_database (set_seal_config (Some (MkSealConfig 1 1 [] "" 1)) empty_db) day).
Abbreviation sealing := (seal.Cipher_Seal "acme" (bytes_of_string "30") (param.locate "acme" "timeout") unsealed) (only parsing).
Local Definition made : crypto.Envelope := match fst sealing with Ok envelope => envelope | Err _ => crypto.MkEnvelope 0 [] [] end.
Local Definition enveloped : World := snd sealing.
Local Definition moved : rotate.outcome := rotate.MkOutcome 1 2 [rotate.MkNamed "secret" (MkProgress 0 0); rotate.MkNamed "param" (MkProgress 0 0)].
Lemma sealing_ok : fst sealing = Ok made.
Proof. by vm_compute. Qed.
Abbreviation rotating := (rotate.rotate_ app.rotation_subjects enveloped) (only parsing).
Local Definition after : World := snd rotating.
Lemma rotating_ok : fst rotating = (moved, Ok tt).
Proof. by vm_compute. Qed.
Lemma rotating_works : faults after 0%nat = false.
Proof. by vm_compute. Qed.
Lemma rotating_enough : enough 1 enveloped.
Proof. split; apply Nat.ltb_lt; by vm_compute. Qed.
#[local] Opaque seal.Cipher_Seal rotate.rotate_ rotate_ Param_Put.
Lemma parameter_left_behind_witness :
  ∃ p row, rtc step (at_once (reporting RDone (Param_Put "acme" "timeout" "int" "30" "ops")) (reporting RRotation (rotate_ 1)) unsealed) p ∧
    told p = [Some (RDone (Ok tt)); Some (RRotation (Some (moved, Ok tt)))] ∧
    2 = wrap64 (1 + 1) ∧ stored_version (database (state p)) = Some 2 ∧
    param_values (database (state p)) !! ("acme", "timeout") = Some row ∧ pv_kek_version row = 1.
Proof.
  exact (parameter_left_behind "acme" "timeout" "int" "30" "ops" 1 unsealed enveloped after made moved eq_refl eq_refl
    (pair_fst _ _ sealing_ok) (pair_fst _ _ rotating_ok) rotating_enough rotating_works).
Defined.

(** The revoker of the server: the tokens of modules/auth. *)
#[local] Existing Instance auth.token_revoker.
Lemma tokens_revoker_works : revoker_works.
Proof.
  intros i w Hw. unfold RevokeIdentity, auth.token_revoker, auth.Manager_RevokeIdentity. rewrite bind_now, exec_nf by auto with world.
  eexists _, _. split; [done|]. split; [auto with world|done].
Qed.
Local Definition no_lease : lease.Lease := lease.MkLeaseInfo "" "" "" "" 0 0 0.
Local Definition given (r : result lease.Lease * World) : lease.Lease := match fst r with Ok l => l | Err _ => no_lease end.
Abbreviation issuing w := (lease.Manager_Issue "acme" "id-1" "secret/acme/db" 1 lease.DefaultTTL w) (only parsing).
Local Definition leased : World := snd (issuing day).
Local Definition mine : lease.Lease := given (issuing day).
Local Definition late : World := snd (issuing (tick day)).
Local Definition missed : lease.Lease := given (issuing (tick day)).
Lemma leased_works : no_faults leased.
Proof. intros n. done. Qed.
Lemma late_works : no_faults late.
Proof. intros n. done. Qed.
Lemma mine_read : fst (lease.read (lease.ID mine) leased) = Ok mine.
Proof. by vm_compute. Qed.
Lemma missed_issued : fst (issuing (tick day)) = Ok missed.
Proof. by vm_compute. Qed.
Lemma mine_live : clock leased 1%nat < lease.ExpiresAt mine.
Proof. apply Z.ltb_lt. by vm_compute. Qed.
Lemma an_hour : 0 < Hour ≤ lease.MaximumTTL.
Proof. split; [done|]. by apply Z.leb_le. Qed.
#[local] Opaque lease.Manager_Issue lease.read Renew Revoke RevokePrefix Issue.
Lemma renewed_though_revoked_witness :
  ∃ p row, rtc step (at_once (reporting RLease (Renew (lease.ID mine) (lease.IdentityID mine) Hour)) (reporting RDone (Revoke (lease.ID mine))) leased) p ∧
    told p = [Some (RLease (Ok (until mine (clock leased 1%nat + Hour)))); Some (RDone (Ok tt))] ∧
    lease_records (database (state p)) !! lease.ID mine = Some row ∧ is_Some (lr_revoked_at row).
Proof. exact (renewed_though_revoked (lease.ID mine) Hour leased mine leased_works mine_read an_hour mine_live). Defined.
Lemma prefix_misses_a_holder_witness :
  ∃ p v row, rtc step (at_once (reporting RRevocation (RevokePrefix "acme" "secret/acme")) (reporting RLease (Issue "acme" "id-1" "secret/acme/db" 1 lease.DefaultTTL)) day) p ∧
    told p = [Some (RRevocation (Ok v)); Some (RLease (Ok missed))] ∧
    lease_records (database (state p)) !! lease.ID missed = Some row ∧ is_Some (lr_revoked_at row) ∧ "id-1" ∉ lease.Identities v.
Proof.
  refine (prefix_misses_a_holder "acme" "secret/acme" "id-1" "secret/acme/db" 1 lease.DefaultTTL day late missed _ tokens_revoker_works eq_refl _ _ _ (pair_fst _ _ missed_issued) late_works).
  - done.
  - split; [done|]. by apply Z.leb_le.
  - split; by vm_compute.
  - done.
Defined.
End races.
