(* ===== verification/Server.v ===== *)
(** internal/app, what the assembled server guarantees: nothing but the start-up
  paths is served while sealed; whoever gets an answer from a recorded route
  presented a valid token and is permitted by a bound policy; the answer is in
  the audit log or the store is sealed again. *)
From Stdlib Require Import ZArith Lia.
From S2P Require Import Prelude GoStrings GoTime Base64 Json World Policy Httpx Envelope AuditTrail SealManager PolicyStore Cipher Walk SecretStore SecretRewrap Interfaces Ratelimit Config Lease Param Rotate SecretHttp Jwt Auth GoUrl Metrics GoMux Pages Telemetry App.

Module server.
Import app.

(** A verifier reads the clock and nothing else. *)
#[export] Instance jwt_assertions_laws `{Ed25519} (v : jwt.Verifier) : auth.AssertionsLaws (jwt.Verify v).
Proof. split. intros assertion. change (same_db (jwt.Verify v assertion)). unfold jwt.Verify. solve_same_db. Qed.

(** ** The gate in front of the routes *)
Definition decorated (id : string) (resp : Response) : Response :=
  httpx.set_header "X-Request-Id" id
    (httpx.set_header "Cache-Control" "no-store" (httpx.set_header "X-Content-Type-Options" "nosniff"
      (httpx.set_header "X-Frame-Options" "DENY" (httpx.set_header "Referrer-Policy" "no-referrer" resp)))).
Definition request_id (w : World) : string := httpx.rand_Text (draw 26 (entropy w)).
Definition after_id (w : World) : World := set_entropy (fun k => entropy w (26 + k)%nat) w.

(** The request counter after an answer. *)
Definition counted (r : Request) (resp : Response) (w : World) : World :=
  metrics.Inc telemetry.requests [Method r; StatusText (status resp)] w.
Lemma counted_same r resp w : database (counted r resp w) = database w ∧ audit_log (counted r resp w) = audit_log w ∧
  seal_memory (counted r resp w) = seal_memory w.
Proof. done. Qed.
Section gate.
Context `{Primitives} `{Ed25519} `{MapOrder} `{ui.Assets} (a : App).
Lemma Handler_run r w :
  Handler_ a r w =
  let '(resp, w') := requireUnsealed (allowedWhileSealed a) (serve_mux (routes a))
                       (httpx.with_request_id (request_id w) r) (after_id w) in
  (decorated (request_id w) resp, counted r resp w').
Proof.
  unfold Handler_. rewrite !httpx.Chain_cons. unfold httpx.RequestID_, rand_read, httpx.SecurityHeaders, telemetry.middleware. cbv zeta.
  fold (request_id w) (after_id w). change (httpx.Chain (serve_mux (routes a)) []) with (serve_mux (routes a)).
  by destruct (requireUnsealed _ _ _ _).
Qed.
Lemma decorated_status id resp : status (decorated id resp) = status resp.
Proof. done. Qed.

(** C10. While the store is sealed, a request for any path but those that the
  modules allow is answered 503 [sealed] without reaching a route: nothing in
  the database, the memory or the audit log changes but the counter of requests. *)
Theorem sealed_gate (r : Request) (w : World)
  (Hsealed : seal.IsUnsealed w = false) (Hpath : URLPath r ∉ allowedWhileSealed a) :
  let answer := Handler_ a r w in
  status (fst answer) = StatusServiceUnavailable ∧ body (fst answer) = body (httpx.Problem StatusServiceUnavailable "sealed") ∧
  snd answer = counted r (fst answer) (after_id w).
Proof.
  cbv zeta. rewrite Handler_run. unfold requireUnsealed. cbn [URLPath httpx.with_request_id].
  rewrite bool_decide_false by done. change (seal.IsUnsealed (after_id w)) with (seal.IsUnsealed w). by rewrite Hsealed.
Qed.
Lemma Handler_unsealed r w : seal.IsUnsealed w = true →
  Handler_ a r w =
  let '(resp, w') := serve_mux (routes a) (httpx.with_request_id (request_id w) r) (after_id w) in
  (decorated (request_id w) resp, counted r resp w').
Proof.
  intros Hu. rewrite Handler_run. unfold requireUnsealed. change (seal.IsUnsealed (after_id w)) with (seal.IsUnsealed w).
  by rewrite Hu, orb_true_r.
Qed.

(** ** The guard *)
Lemma guard_cases handler r w resp w' : guard a handler r w = (resp, w') →
  status resp = StatusUnauthorized ∨ status resp = StatusTooManyRequests ∨
  ∃ presented i w1, auth.bearerToken r = Some presented ∧
    auth.credential (database w) presented auth.NoBinding (clock w 0%nat) i ∧
    database w1 = database w ∧ audit_log w1 = audit_log w ∧ seal_memory w1 = seal_memory w ∧
    handler (httpx.with_identity i r) w1 = (resp, w').
Proof.
  unfold guard, auth.Require_. destruct (auth.bearerToken r) as [presented|]; [|intros [= <- _]; auto].
  unfold run_or. pose proof (auth.Authenticate_quiet presented auth.NoBinding w) as Hq.
  destruct (auth.Authenticate presented auth.NoBinding w) as [[i|e] w1] eqn:E; [|intros [= <- _]; auto].
  destruct (auth.Authenticate_Ok _ _ _ _ _ E) as [Hdb Hc]. destruct Hq as [Hm Hl _ _ _]. cbn [snd] in *.
  unfold allow_request, ratelimit.Allow. destruct (ratelimit.allow_at _ _ _ _) as [[] m]; cbn [negb]; [|intros [= <- _]; auto].
  intros Eh. right; right. exists presented, i. eexists. split_and!; [done|done| | | |exact Eh]; done.
Qed.
End gate.

(** ** What a recorded handler owes *)
Definition success (resp : Response) : Prop := status resp = StatusOK ∨ status resp = StatusNoContent.
(** The answer says neither that the request was carried out nor that it could
  not be recorded. *)
Definition refused (resp : Response) : Prop := ¬ success resp ∧ status resp ≠ StatusServiceUnavailable.
Section accounted.
Context `{Primitives}.
(** [event] is the record that was added between two states. *)
Definition logged (event : audit.Event) (w w' : World) : Prop := ∃ t,
  al_lines (audit_log w') = al_lines (audit_log w) ++
    [audit.encode (audit.newRecord (wrap64 (al_sequence (audit_log w) + 1)) t event (al_previous (audit_log w)))].
Definition accounted (owed : audit.Event → Prop) (w : World) (answer : Response * World) : Prop :=
  (success (fst answer) → ∃ event, owed event ∧ logged event w (snd answer)) ∧
  (status (fst answer) = StatusServiceUnavailable → seal.IsUnsealed (snd answer) = false).

Lemma accounted_refused owed w answer : refused (fst answer) → accounted owed w answer.
Proof. intros [Hs H503]. by split. Qed.
Lemma accounted_before owed w w1 answer : audit_log w1 = audit_log w → accounted owed w1 answer → accounted owed w answer.
Proof. intros E [Hs Hf]. split; [|done]. intros Hok. destruct (Hs Hok) as (event&Ho&t&El). exists event. split; [done|]. exists t. by rewrite <- E. Qed.
Lemma accounted_run {A} owed (m : M World A) fail k w : quiet m → (∀ e v, refused (fst (fail e v))) →
  (∀ x w1, m w = (Ok x, w1) → accounted owed w1 (k x w1)) → accounted owed w (run_or m fail k w).
Proof.
  intros Hq Hf Hk. unfold run_or. specialize (Hq w). destruct (m w) as [[x|e] w1] eqn:E.
  - apply (accounted_before _ _ w1); [apply Hq|by apply Hk].
  - by apply accounted_refused.
Qed.
Lemma Append_cases event w : (∃ w', Append event w = (Ok tt, w') ∧ logged event w w') ∨
  ∃ e w', Append event w = (Err e, w') ∧ seal.IsUnsealed w' = false.
Proof.
  unfold Append, counting_sink, telemetry.counting_Append, sealing_Append.
  destruct (audit.Append event w) as [[[]|e] w1] eqn:E; [left|right].
  - eexists. split; [done|]. destruct (audit.Append_inv _ _ _ _ E) as [(_&_&_&Hl) _]. exists (clock w 0%nat).
    change (al_lines (audit_log w1) = al_lines (audit_log w) ++ [audit.encode (audit.newRecord (wrap64 (al_sequence (audit_log w) + 1)) (clock w 0%nat) event (al_previous (audit_log w)))]).
    by rewrite Hl.
  - eexists e, _. split; [done|]. destruct (seal.IsUnsealed w1) eqn:Eu; [|done]. by rewrite seal.Seal_run.
Qed.
Lemma accounted_recorded owed event w (k : World → Response * World) :
  (∀ v, audit_log (snd (k v)) = audit_log v) → (∀ v, status (fst (k v)) ≠ StatusServiceUnavailable) →
  ((∃ v, success (fst (k v))) → owed event) →
  accounted owed w (run_or (Append event)
    (fun _ => reply (httpx.Problem StatusServiceUnavailable "audit_unavailable")) (fun _ => k) w).
Proof.
  intros Hlog H503 Howed. unfold run_or. destruct (Append_cases event w) as [(w1&->&t&Hl)|(e&w1&->&Hs)].
  - split; [|by intros ?%H503]. intros Hok. exists event. split; [eauto|]. exists t. by rewrite Hlog.
  - split; [by intros [?|?]|done].
Qed.
End accounted.

(** ** The recorded handlers *)
Section handlers.
Context `{PrimitiveLaws}.
Definition owes (operation : string) (i : authn.Identity) (tenant place : string) (event : audit.Event) : Prop :=
  audit.Operation event = operation ∧ audit.Identity event = authn.ID i ∧ audit.Tenant event = tenant ∧
  audit.Path event = place ∧ audit.Result event = audit.ResultAllow.

Lemma refused_problem st code : st ≠ StatusOK → st ≠ StatusNoContent → st ≠ StatusServiceUnavailable →
  refused (httpx.Problem st code).
Proof. intros ???. split; [|done]. by intros [?|?]. Qed.
Lemma Authorize_same identity tenant path capability w d w1 : manager.Authorize identity tenant path capability w = (d, w1) →
  database w1 = database w ∧ audit_log w1 = audit_log w ∧ seal_memory w1 = seal_memory w.
Proof.
  intros E. pose proof (manager.Authorize_quiet identity tenant path capability w) as Hq.
  pose proof (manager.Authorize_db identity tenant path capability w) as Hdb. rewrite E in Hq, Hdb. by destruct Hq.
Qed.
Lemma secret_permitted owed r i capability k w : Identity r = Some i →
  (∀ w1, let tenant := PathValue r "tenant" in let path := PathValue r "path" in
     manager.permits (database w) i tenant (secret_http.PolicyPath tenant path) capability →
     database w1 = database w → audit_log w1 = audit_log w → seal_memory w1 = seal_memory w →
     accounted owed w1 (k i tenant path w1)) →
  accounted owed w (secret_http.permitted r capability k w).
Proof.
  intros Hi Hk. unfold secret_http.permitted. rewrite Hi. cbv zeta. set (tenant := PathValue r "tenant"). set (path := PathValue r "path").
  destruct (_ || _); [by apply accounted_refused, refused_problem|].
  apply accounted_run; [apply manager.Authorize_quiet|intros; by apply refused_problem|]. intros d w1 E.
  destruct (Authorize_same _ _ _ _ _ _ _ E) as (Hdb&Hl&Hm).
  destruct (authz.Allowed d) eqn:Ea; cbn [negb].
  - eapply Hk; try done. by eapply manager.Authorize_rests.
  - apply accounted_recorded; [done|done|]. by intros [v [?|?]].
Qed.
Lemma param_permitted owed r i capability path k w : Identity r = Some i →
  (∀ w1, let tenant := PathValue r "tenant" in
     manager.permits (database w) i tenant (param.PolicyPath tenant path) capability →
     database w1 = database w → audit_log w1 = audit_log w → seal_memory w1 = seal_memory w →
     accounted owed w1 (k i tenant w1)) →
  accounted owed w (param.permitted r capability path k w).
Proof.
  intros Hi Hk. unfold param.permitted. rewrite Hi. cbv zeta. set (tenant := PathValue r "tenant").
  destruct (String.eqb tenant ""); [by apply accounted_refused, refused_problem|].
  apply accounted_run; [apply manager.Authorize_quiet|intros; by apply refused_problem|]. intros d w1 E.
  destruct (Authorize_same _ _ _ _ _ _ _ E) as (Hdb&Hl&Hm).
  destruct (authz.Allowed d) eqn:Ea; cbn [negb].
  - eapply Hk; try done. by eapply manager.Authorize_rests.
  - apply accounted_recorded; [done|done|]. by intros [v [?|?]].
Qed.
Lemma secret_fail_refused e w : refused (fst (secret_http.fail_with e w)).
Proof. unfold secret_http.fail_with. repeat case_match; by apply refused_problem. Qed.
Lemma param_fail_refused e w : refused (fst (param.fail_with e w)).
Proof. unfold param.fail_with. repeat case_match; by apply refused_problem. Qed.
Lemma quiet_reveal t p : quiet (Reveal t p).
Proof. unfold Reveal, secret_reader, secretReader_Reveal. pose proof secret.Service_Get_quiet. solve_quiet. Qed.
Lemma quiet_lease t i p v ttl : quiet (Issue t i p v ttl).
Proof. unfold Issue, lease_issuer, leaseIssuer_Issue. pose proof lease.Manager_Issue_quiet. solve_quiet. Qed.

(** The routes whose requests are recorded: what is asked of the policies, and
  what the record says was touched. *)
Record Route := MkRoute {
  pattern : string; operation : string; capability : string; asked : Request → string; place : Request → string }.
Definition tenant_of (r : Request) : string := PathValue r "tenant".
Definition secret_place (r : Request) : string := secret_http.PolicyPath (tenant_of r) (PathValue r "path").
Definition param_place (r : Request) : string := param.PolicyPath (tenant_of r) (PathValue r "path").
Definition secret_read : Route :=
  MkRoute "GET /v1/secret/data/{tenant}/{path...}" "secret.read" authz.Read secret_place secret_place.
Definition recorded_routes : list Route := [
  secret_read;
  MkRoute "PUT /v1/secret/data/{tenant}/{path...}" "secret.write" authz.Write secret_place secret_place;
  MkRoute "DELETE /v1/secret/data/{tenant}/{path...}" "secret.delete" authz.Delete secret_place secret_place;
  MkRoute "GET /v1/param/data/{tenant}/{path...}" "param.read" authz.Read param_place param_place;
  MkRoute "PUT /v1/param/data/{tenant}/{path...}" "param.write" authz.Write param_place param_place;
  MkRoute "DELETE /v1/param/data/{tenant}/{path...}" "param.delete" authz.Delete param_place param_place;
  MkRoute "GET /v1/param/list/{tenant}" "param.list" authz.List
    (fun r => param.PolicyPath (tenant_of r) (Query r "prefix" +:+ "*"))
    (fun r => param.PolicyPath (tenant_of r) (Query r "prefix"))].
(** What an answer of a route rests on, besides the token. *)
Definition mediated (route : Route) (r : Request) (d : Db) (i : authn.Identity) (event : audit.Event) : Prop :=
  manager.permits d i (tenant_of r) (asked route r) (capability route) ∧
  owes (operation route) i (tenant_of r) (place route r) event.

Ltac finish_recorded :=
  apply accounted_recorded; [done|done|intros _; split; [done|by split_and!]].
Lemma secret_read_accounted ttl r i w : Identity r = Some i →
  accounted (mediated secret_read r (database w) i) w (secret_http.handleRead ttl r w).
Proof.
  intros Hi. unfold secret_http.handleRead. apply (secret_permitted _ _ i); [done|]. intros w1 tenant path Hp _ _ _.
  destruct (secret_http.requestedVersion r) as [version|]; [|by apply accounted_refused, refused_problem].
  apply accounted_run; [apply secret.Service_Get_quiet|intros; apply secret_fail_refused|]. intros value w2 _.
  apply accounted_run; [apply quiet_lease|intros; by apply refused_problem|]. intros held w3 _. finish_recorded.
Qed.
Lemma secret_write_accounted maxVersions r i w : Identity r = Some i →
  accounted (mediated (MkRoute "PUT /v1/secret/data/{tenant}/{path...}" "secret.write" authz.Write secret_place secret_place)
    r (database w) i) w (secret_http.handleWrite maxVersions r w).
Proof.
  intros Hi. unfold secret_http.handleWrite. apply (secret_permitted _ _ i); [done|]. intros w1 tenant path Hp _ _ _.
  destruct (httpx.DecodeJSON _ _ _) as [request|]; [|by apply accounted_refused, refused_problem]. cbv zeta.
  assert (∀ expectation, accounted (mediated (MkRoute "PUT /v1/secret/data/{tenant}/{path...}" "secret.write" authz.Write
    secret_place secret_place) r (database w) i) w1 (run_or (secret.Service_Put maxVersions tenant path (bytes_of_string (fst request)) expectation)
      secret_http.fail_with (fun version => secret_http.recorded r "secret.write" i tenant path version audit.ResultAllow
        secret_http.no_decision (reply (httpx.JSON StatusOK (JObj [("version", JNum (Itoa version))])))) w1)) as Hput.
  { intros expectation. apply accounted_run; [apply secret.Service_Put_quiet|intros; apply secret_fail_refused|].
    intros version w2 _. finish_recorded. }
  destruct (snd request) as [cas|]; [|done]. destruct (cas <? 0); [by apply accounted_refused, refused_problem|done].
Qed.
Lemma secret_delete_accounted r i w : Identity r = Some i →
  accounted (mediated (MkRoute "DELETE /v1/secret/data/{tenant}/{path...}" "secret.delete" authz.Delete secret_place secret_place)
    r (database w) i) w (secret_http.handleDelete r w).
Proof.
  intros Hi. unfold secret_http.handleDelete. apply (secret_permitted _ _ i); [done|]. intros w1 tenant path Hp _ _ _.
  apply accounted_run; [apply secret.Service_Delete_quiet|intros; apply secret_fail_refused|]. intros [] w2 _. finish_recorded.
Qed.
Lemma param_read_accounted r i w : Identity r = Some i →
  accounted (mediated (MkRoute "GET /v1/param/data/{tenant}/{path...}" "param.read" authz.Read param_place param_place)
    r (database w) i) w (param.handleRead r w).
Proof.
  intros Hi. unfold param.handleRead. apply (param_permitted _ _ i); [done|]. intros w1 tenant Hp _ _ _.
  apply accounted_run; [|intros; apply param_fail_refused|intros resolved w2 _; finish_recorded].
  apply param.Service_Resolve_quiet; [apply manager.Authorize_quiet|apply quiet_reveal].
Qed.
Lemma param_write_accounted r i w : Identity r = Some i →
  accounted (mediated (MkRoute "PUT /v1/param/data/{tenant}/{path...}" "param.write" authz.Write param_place param_place)
    r (database w) i) w (param.handleWrite r w).
Proof.
  intros Hi. unfold param.handleWrite. apply (param_permitted _ _ i); [done|]. intros w1 tenant Hp _ _ _.
  destruct (httpx.DecodeJSON _ _ _) as [request|]; [|by apply accounted_refused, refused_problem].
  apply accounted_run; [apply param.Put_quiet|intros; apply param_fail_refused|]. intros [] w2 _. finish_recorded.
Qed.
Lemma param_delete_accounted r i w : Identity r = Some i →
  accounted (mediated (MkRoute "DELETE /v1/param/data/{tenant}/{path...}" "param.delete" authz.Delete param_place param_place)
    r (database w) i) w (param.handleDelete r w).
Proof.
  intros Hi. unfold param.handleDelete. apply (param_permitted _ _ i); [done|]. intros w1 tenant Hp _ _ _.
  apply accounted_run; [apply param.Delete_quiet|intros; apply param_fail_refused|]. intros [] w2 _. finish_recorded.
Qed.
Lemma param_list_accounted r i w : Identity r = Some i →
  accounted (mediated (MkRoute "GET /v1/param/list/{tenant}" "param.list" authz.List
    (fun r => param.PolicyPath (tenant_of r) (Query r "prefix" +:+ "*")) (fun r => param.PolicyPath (tenant_of r) (Query r "prefix")))
    r (database w) i) w (param.handleList r w).
Proof.
  intros Hi. unfold param.handleList. apply (param_permitted _ _ i); [done|]. intros w1 tenant Hp _ _ _.
  apply accounted_run; [apply param.List_quiet|intros; apply param_fail_refused|]. intros found w2 _. finish_recorded.
Qed.
End handlers.

Section mediation.
Context `{PrimitiveLaws} `{Ed25519} `{MapOrder} `{ui.Assets} (a : App).
Lemma route_found route : route ∈ recorded_routes → ∃ handler,
  List.find (fun entry => String.eqb (fst entry) (pattern route)) (routes a) = Some (pattern route, guard a handler) ∧
  (∀ r i w, Identity r = Some i → accounted (mediated route r (database w) i) w (handler r w)) ∧
  ∀ r values id i d j event,
    mediated route (httpx.with_identity i (httpx.with_path_values values (httpx.with_request_id id r))) d j event →
    mediated route (httpx.with_path_values values r) d j event.
Proof.
  unfold recorded_routes, routes, auth_routes. intros Hr.
  destruct (verifier a); repeat (apply elem_of_cons in Hr as [->|Hr]); try (by apply elem_of_nil in Hr); eexists;
    (split; [reflexivity|]); (split; [intros|by intros]); eauto using secret_read_accounted, secret_write_accounted, secret_delete_accounted,
      param_read_accounted, param_write_accounted, param_delete_accounted, param_list_accounted.
Qed.
(** The pattern that serves a request, with the values of its wildcards. *)
Definition served_by (r : Request) (pattern : string) (values : list (string * string)) : Prop :=
  mux.find (map fst (routes a)) (Method r) (EscapedPath r) = mux.Found pattern values.
(** The request as the handler of its pattern receives it. *)
Definition routed (values : list (string * string)) (r : Request) : Request := httpx.with_path_values (mux.value_of values) r.
Lemma serve_found r id pattern values handler : served_by r pattern values →
  List.find (fun entry => String.eqb (fst entry) pattern) (routes a) = Some (pattern, handler) →
  serve_mux (routes a) (httpx.with_request_id id r) = handler (routed values (httpx.with_request_id id r)).
Proof. intros Hs Hf. unfold serve_mux. cbn [Method EscapedPath httpx.with_request_id]. by rewrite Hs, Hf. Qed.

(** C1. On the seven routes that read, write and delete the value of a secret or of a
  parameter, or list parameters ([recorded_routes]; the metadata of a secret are read
  without a record): an answer that is a success went to the bearer of a valid token
  whose identity belongs to the tenant of the path and is permitted by a bound
  policy that no rule denies, and exactly one record of it was added to the
  audit log; an answer that could not be recorded leaves the store sealed. *)
Theorem complete_mediation (r : Request) (w : World) (route : Route) (values : list (string * string))
  (Hroute : route ∈ recorded_routes) (Hserved : served_by r (pattern route) values) :
  let answer := Handler_ a r w in
  (success (fst answer) → ∃ presented i event, auth.bearerToken r = Some presented ∧
     auth.credential (database w) presented auth.NoBinding (clock w 0%nat) i ∧
     mediated route (routed values r) (database w) i event ∧ logged event w (snd answer)) ∧
  (status (fst answer) = StatusServiceUnavailable → seal.IsUnsealed (snd answer) = false).
Proof.
  cbv zeta. rewrite Handler_run. unfold requireUnsealed.
  destruct (route_found route Hroute) as (handler&Hf&Hacc&Hsame). rewrite (serve_found _ _ _ _ _ Hserved Hf).
  change (seal.IsUnsealed (after_id w)) with (seal.IsUnsealed w).
  destruct (bool_decide _ || seal.IsUnsealed w) eqn:Eg; cbn [orb].
  2: { split; [by intros [?|?]|]. intros _. by apply orb_false_iff in Eg as [_ ?]. }
  destruct (guard a handler _ (after_id w)) as [resp w'] eqn:E. cbn [fst snd]. rewrite (decorated_status _ resp).
  unfold success. rewrite (decorated_status _ resp).
  destruct (guard_cases _ _ _ _ _ _ E) as [Hst|[Hst|(presented&i&w1&Hb&Hc&Hdb&Hl&Hm&Eh)]]; [rewrite Hst; by split; [intros [?|?]|]..|].
  destruct (Hacc (httpx.with_identity i (routed values (httpx.with_request_id (request_id w) r))) i w1 eq_refl) as [Hs Hf3].
  rewrite Eh in Hs, Hf3. cbn [fst snd] in Hs, Hf3. split; [|exact Hf3].
  intros Hok. destruct (Hs Hok) as (event&Hmed&t&Hlog). exists presented, i, event. split_and!; [done|exact Hc| |].
  - rewrite Hdb in Hmed. by eapply Hsame.
  - exists t. by rewrite Hl in Hlog.
Qed.

(** ** Reading a secret, from the request to the row *)
Lemma secret_permitted_success r capability k w resp w' : secret_http.permitted r capability k w = (resp, w') → success resp →
  ∃ i w1, Identity r = Some i ∧ database w1 = database w ∧ seal_memory w1 = seal_memory w ∧
    k i (PathValue r "tenant") (PathValue r "path") w1 = (resp, w').
Proof.
  unfold secret_http.permitted. destruct (Identity r) as [i|]; [|by intros [= <- _] [?|?]]. cbv zeta.
  set (tenant := PathValue r "tenant"). set (path := PathValue r "path"). destruct (_ || _); [by intros [= <- _] [?|?]|].
  unfold run_or. destruct (Authorize _ _ _ _ w) as [[d|e] w1] eqn:E; [|by intros [= <- _] [?|?]].
  destruct (Authorize_same _ _ _ _ _ _ _ E) as (Hdb&_&Hm). destruct (authz.Allowed d); cbn [negb].
  - intros Hk _. by exists i, w1.
  - unfold secret_http.recorded, run_or. destruct (Append _ w1) as [[]]; by intros [= <- _] [?|?].
Qed.
Lemma recorded_success r operation i tenant path v res d k w resp w' :
  secret_http.recorded r operation i tenant path v res d k w = (resp, w') → success resp →
  ∃ w1, database w1 = database w ∧ k w1 = (resp, w').
Proof.
  unfold secret_http.recorded, run_or, Append, counting_sink, telemetry.counting_Append, sealing_Append.
  destruct (audit.Append _ w) as [[[]|e] w1] eqn:E; [|by intros [= <- _] [?|?]].
  apply audit.Append_inv in E as [_ Hdb]. intros Hk _. eexists. split; [|exact Hk]. exact Hdb.
Qed.
(** What the answer to a read by [i] says, and what it rests on. *)
Record read_answer (ttl : Z) (i : authn.Identity) (r : Request) (w : World) (resp : Response) (w' : World) : Prop := {
  ra_value : ∃ asked value row lease seconds,
    secret_http.requestedVersion r = Ok asked ∧
    secret.readable (database w) (tenant_of r) (PathValue r "path") asked (secret.v_Version value) row ∧
    fst (cipher_Open (tenant_of r) (secret.envelope_of_row row)
           (secret.locate (tenant_of r) (PathValue r "path") (secret.v_Version value)) w) = Ok (secret.Data value) ∧
    body resp = Some (secret_http.readResponse value lease seconds) ∧
    ∃ held, lease_records (database w') !! lease = Some held ∧
      lease.held_by (tenant_of r) (authn.ID i) (secret_place r) (secret.v_Version value) held = true;
  ra_only_leases : database w' = set_lease_records (lease_records (database w')) (database w) }.
Lemma handleRead_answer ttl i r w resp w' : Identity r = Some i → secret_http.handleRead ttl r w = (resp, w') → success resp → read_answer ttl i r w resp w'.
Proof.
  unfold secret_http.handleRead. intros Hi E Hok. apply secret_permitted_success in E as (j&w1&Hj&Hdb&Hm&E); [|done]. rewrite Hi in Hj. injection Hj as <-.
  destruct (secret_http.requestedVersion r) as [asked|] eqn:Ev; [|injection E as <- _; by destruct Hok].
  unfold run_or in E at 1. pose proof (secret.same_db_Service_Get (tenant_of r) (PathValue r "path") asked w1) as Hdb2.
  destruct (secret.Service_Get _ _ _ w1) as [[value|e] w2] eqn:Eg.
  2: { destruct (secret_fail_refused e w2) as [Hs _]. by rewrite E in Hs. }
  cbn [snd] in Hdb2. destruct (secret.Service_Get_Ok _ _ _ _ _ _ Eg) as (row&Hread&Hopen).
  unfold run_or in E at 1. destruct (Issue _ _ _ _ _ w2) as [[held|e] w3] eqn:El; [|injection E as <- _; by destruct Hok].
  apply recorded_success in E as (w4&Hdb4&E); [|done]. injection E as <- <-.
  unfold Issue, lease_issuer, leaseIssuer_Issue in El. apply bind_ok_inv in El as (l&w5&El&Eh). injection Eh as <- <-.
  cbn [database set_clock snd fst] in *.
  split.
  - exists asked, value, row, (lease.ID l). eexists. split_and!; [done| | |reflexivity|].
    + by rewrite Hdb in Hread.
    + rewrite <- Hopen. by apply open_memory.
    + cbn [database set_clock]. rewrite Hdb4. by eapply lease.Manager_Issue_row.
  - cbn [database set_clock]. rewrite Hdb4, <- Hdb, <- Hdb2. by eapply lease.Manager_Issue_only.
Qed.

(** C8. A read that succeeds answers with the plaintext of a stored version
  that is neither deleted nor destroyed, the one asked for or else the current
  one, opened with the root key in memory; the reader, who is
  the identity of the token that the request presented, holds the lease on it that the answer names, and nothing
  but the leases has changed in the database. *)
Theorem secret_read_answers (r : Request) (w : World) (values : list (string * string))
  (Hserved : served_by r (pattern secret_read) values) (Hok : success (fst (Handler_ a r w))) :
  ∃ presented i, auth.bearerToken r = Some presented ∧ auth.credential (database w) presented auth.NoBinding (clock w 0%nat) i ∧
    read_answer (config.LeaseTTL (cfg a)) i (routed values r) w (fst (Handler_ a r w)) (snd (Handler_ a r w)).
Proof.
  revert Hok. rewrite Handler_run. unfold requireUnsealed.
  destruct (bool_decide _ || seal.IsUnsealed (after_id w)); [|by intros [?|?]].
  rewrite (serve_found _ _ _ _ (guard a (secret_http.handleRead (config.LeaseTTL (cfg a)))) Hserved)
    by (unfold routes, auth_routes; by destruct (verifier a)).
  destruct (guard a _ _ (after_id w)) as [resp w'] eqn:E. cbn [fst snd]. unfold success. rewrite (decorated_status _ resp). intros Hok.
  destruct (guard_cases _ _ _ _ _ _ E) as [Hst|[Hst|(presented&i&w1&Hb&Hc&Hdb&_&Hm&Eh)]]; [rewrite Hst in Hok; by destruct Hok..|].
  exists presented, i. split; [done|]. split; [exact Hc|].
  change (database (after_id w)) with (database w) in Hdb. change (seal_memory (after_id w)) with (seal_memory w) in Hm.
  destruct (handleRead_answer _ i (httpx.with_identity i _) _ _ _ eq_refl Eh Hok) as [(asked&value&row&l&s&Hv&Hread&Hopen&Hbody&Hl) Honly]. rewrite Hdb in Hread, Honly.
  split; [|done]. exists asked, value, row, l, s. split_and!; [done|done| |done|done].
  rewrite <- Hopen. by apply open_memory.
Qed.
End mediation.

(** ** Example: a service reads a secret it is allowed to read *)
Section examples.
#[local] Existing Instance sample.primitives.
#[local] Existing Instance sample.primitive_laws.
#[local] Instance no_signature : Ed25519 := fun _ _ _ => false.
#[local] Instance key_order : MapOrder := fun m => (map_to_list m).*1.
#[local] Instance no_assets : ui.Assets := fun _ => None.
Local Definition limits : ratelimit.Limiter * ratelimit.Limiter :=
  match rateLimits config.Default with Ok l => l | Err _ => (ratelimit.MkLimiter (float64 1) (float64 1) 1 1, ratelimit.MkLimiter (float64 1) (float64 1) 1 1) end.
Local Definition sample_registry : metrics.Registry World :=
  match telemetry.newTelemetry with Ok r => r | Err _ => metrics.New end.
Local Definition sample_app : App := MkApp config.Default None (fst limits) (snd limits) sample_registry.
Local Definition readers : policy.Policy := policy.MkPolicy "readers" [policy.MkRule "secret/acme/*" [authz.Read]].
Local Definition start : World := set_seal_memory (MkSealMemory (Some (crypto.sample_key 9)) 1 [])
  (fresh_world (fun n => (1700000000 + Z.of_nat n) * Second) (fun n => Z.of_nat (7 * n + 3))).
Local Definition stored : World :=
  snd (secret.Service_Put 10 "acme" "db/main" (bytes_of_string "hunter2") secret.Any
    (snd (manager.Bind "acme" "svc-1" "readers" (snd (manager.Put "acme" readers
      (snd (auth.RegisterIdentity "svc-1" authn.KindService "acme" start))))))).
Local Definition token : list Z := bytes_of_string (auth.tokenPrefix +:+ RawURLEncode (draw auth.tokenBytes (entropy stored))).
Local Definition ready : World := snd (auth.Manager_Issue "svc-1" auth.NoBinding Hour stored).
Local Definition request : Request :=
  MkRequest "GET" "/v1/secret/data/acme/db/main" "/v1/secret/data/acme/db/main" (fun _ => "") (fun _ => "") ""
    (fun name => if String.eqb name "Authorization" then "Bearer " +:+ string_of_bytes token else "") "" "10.0.0.7:4000" None "".
Local Definition answer : Response * World := Handler_ sample_app request ready.
Local Definition matched : list (string * string) := [("tenant", "acme"); ("path", "db/main")].
Lemma request_served : served_by sample_app request (pattern secret_read) matched.
Proof. by vm_compute. Qed.
Lemma answer_ok : success (fst answer).
Proof. left. by vm_compute. Qed.
#[local] Opaque Handler_.

Lemma sealed_gate_witness :
  let sealed := snd (seal.Seal ready) in
  let answer := Handler_ sample_app request sealed in
  status (fst answer) = StatusServiceUnavailable ∧ body (fst answer) = body (httpx.Problem StatusServiceUnavailable "sealed") ∧
  snd answer = counted request (fst answer) (after_id sealed).
Proof.
  refine (sealed_gate sample_app request (snd (seal.Seal ready)) _ _); [by vm_compute|].
  apply (bool_decide_unpack _). by vm_compute.
Defined.
Lemma complete_mediation_witness :
  success (fst answer) ∧ ∃ presented i event, auth.bearerToken request = Some presented ∧
    auth.credential (database ready) presented auth.NoBinding (clock ready 0%nat) i ∧
    mediated secret_read (routed matched request) (database ready) i event ∧ logged event ready (snd answer).
Proof.
  split; [exact answer_ok|].
  assert (secret_read ∈ recorded_routes) as Hr by left.
  exact (proj1 (complete_mediation sample_app request ready secret_read matched Hr request_served) answer_ok).
Defined.
Lemma secret_read_answers_witness : ∃ presented i, auth.bearerToken request = Some presented ∧
  auth.credential (database ready) presented auth.NoBinding (clock ready 0%nat) i ∧
  read_answer (config.LeaseTTL (cfg sample_app)) i (routed matched request) ready (fst answer) (snd answer).
Proof. exact (secret_read_answers sample_app request ready matched request_served answer_ok). Defined.
End examples.
End server.
