(* ===== verification/Wire.v ===== *)
(** The client library and the server, together: internal/client on one side of
  the network, internal/app on the other.  What the server makes of a request as
  it is written, what it writes back, and what a client may rely on: the secrets
  it reads and writes are those of the versioned store.

  Requests are followed for targets whose path needs no escape. *)
From Stdlib Require Import ZArith Lia Ascii.
From S2P Require Import Prelude GoStrings GoTime Base64 Json World Policy Httpx Envelope AuditTrail SealManager PolicyStore Cipher Walk SecretStore SecretRewrap VersionedMap Interfaces GoPath GoNumbers GoUrl Metrics GoMux Ratelimit Config Lease Param Rotate SecretHttp Jwt Client Auth Pages Telemetry App Answers Server.

Module wire.
Import app server versioned secret.
(** The first header of a name. *)
Definition header_of (l : list (string * string)) (name : string) : string := mux.value_of l name.
(** [json.Encoder] ends a document with a line feed. *)
Definition text_of (resp : Response) : string :=
  match body resp with
  | Some j => print j +:+ String metrics.newline ""
  | None => default "" (page resp)
  end.
Section serve.
Context `{Primitives} `{Ed25519} `{MapOrder} `{ui.Assets} `{IPLiterals} (a : App) (remote : string).
Definition request_of (wr : WireRequest) : option Request :=
  u ← url.Parse (wr_target wr);
  if url.plain (url.Path u) && url.all_chars (fun c => negb (Ascii.eqb c "%")) (wr_target wr)
  then Some (MkRequest (wr_method wr) (url.Path u) (url.Path u) (fun _ => "") (url.query_value (url.RawQuery u)) (url.RawQuery u) (header_of (wr_headers wr))
               (default "" (wr_body wr)) remote None "")
  else None.
Definition answer_of (resp : Response) : Answer := MkAnswer (status resp) (header_of (headers resp) "Location") (text_of resp).
Definition serve (wr : WireRequest) (w : World) : option (Answer * World) :=
  r ← request_of wr;
  let '(resp, w) := Handler_ a r w in Some (answer_of resp, w).
(** A network that may lose a request or an answer, and makes up neither. *)
Definition authentic (T : Transport World) : Prop := ∀ wr w answer w', serve wr w = Some (answer, w') →
  (∃ e, RoundTrip wr w = (Err e, w)) ∨ (∃ e, RoundTrip wr w = (Err e, w')) ∨ RoundTrip wr w = (Ok answer, w').
(** The network that loses nothing; where a target is not followed, it fails. *)
Definition direct : Transport World := {|
  RoundTrip wr w := match serve wr w with Some (answer, w) => (Ok answer, w) | None => (Err [client.bad_url], w) end;
  ToASCII name := name |}.
Lemma direct_authentic : authentic direct.
Proof. intros wr w answer w' E. right; right. cbn [RoundTrip direct]. by rewrite E. Qed.

(** ** The pattern of a secret *)
Definition secret_target (t p : string) : string := "/v1/secret/data/" +:+ t +:+ "/" +:+ p.
Definition secret_pattern (m : string) : string := m +:+ " /v1/secret/data/{tenant}/{path...}".
Record addressable (t p : string) : Prop := {
  ad_tenant : mux.plain_segment t;
  ad_path : url.plain p = true;
  ad_clean : mux.cleanPath (secret_target t p) = secret_target t p }.
Definition secret_found (m t p : string) : option (mux.candidate * list string) :=
  Some (mux.MkCandidate (secret_pattern m) m
    [mux.Literal "v1"; mux.Literal "secret"; mux.Literal "data"; mux.One "tenant"; mux.Many "path"] [], [t; p]).
Lemma match_secret m t p : m ∈ ["GET"; "PUT"; "DELETE"] → mux.plain_segment t → url.plain p = true →
  mux.match_ (List.map mux.parse (map fst (routes a))) m (secret_target t p) = secret_found m t p.
Proof.
  intros Hm Ht Hp. unfold mux.match_, mux.try_method.
  assert (∃ f, S (String.length (secret_target t p)) = S (S (S (S (S f))))) as [f ->].
  { unfold secret_target. rewrite length_app_string. cbn [String.length Nat.add]. by eexists. }
  change (secret_target t p) with (String "/" ("v1" +:+ String "/" ("secret" +:+ String "/" ("data" +:+ String "/" (t +:+ String "/" p))))).
  assert (∀ l c, mux.plain_segment "v1" → mux.step (mux.literal "data") (mux.step (mux.literal "secret") (mux.step (mux.literal "v1") l)) = [c] →
    (∀ seg, mux.step (mux.literal seg) [c] = []) → (∀ seg, mux.step (mux.literal seg) (mux.step mux.single [c]) = []) →
    mux.step mux.single (mux.step mux.single [c]) = [] → ∀ d, mux.step mux.multi (mux.step mux.single [c]) = [d] →
    mux.matchPath (S (S (S (S (S f))))) l (String "/" ("v1" +:+ String "/" ("secret" +:+ String "/" ("data" +:+ String "/" (t +:+ String "/" p))))) = Some (d, [t; p])) as Hwalk.
  { intros l c Hv1 Hl Hlit Hlit2 Hone d Hd. do 3 (apply mux.match_literal; [by split|]). rewrite Hl.
    apply mux.match_single; [done|by rewrite Hlit|]. by eapply mux.match_multi. }
  assert (mux.plain_segment "v1") as Hv1 by done.
  repeat (apply elem_of_cons in Hm as [->|Hm]); [..|by apply not_elem_of_nil in Hm].
  all: unfold routes, auth_routes, ui_routes; destruct (verifier a), (config.UIEnabled (cfg a));
    match goal with |- context [List.filter ?q ?l] =>
      let l' := eval vm_compute in (List.filter q l) in
      let c := eval vm_compute in (mux.step (mux.literal "data") (mux.step (mux.literal "secret") (mux.step (mux.literal "v1") l'))) in
      match c with [?x] =>
        let d := eval vm_compute in (mux.step mux.multi (mux.step mux.single [x])) in
        match d with [?y] =>
          change (List.filter q l) with l'; rewrite (Hwalk l' x Hv1 eq_refl (fun _ => eq_refl) (fun _ => eq_refl) eq_refl y eq_refl); reflexivity end end end.
Qed.
Lemma find_secret m t p : m ∈ ["GET"; "PUT"; "DELETE"] → addressable t p →
  mux.find (map fst (routes a)) m (secret_target t p) = mux.Found (secret_pattern m) [("tenant", t); ("path", p)].
Proof.
  intros Hm [Ht Hp Hc]. unfold mux.find. assert (String.eqb m "CONNECT" = false) as ->.
  { repeat (apply elem_of_cons in Hm as [->|Hm]; [done|]). by apply not_elem_of_nil in Hm. }
  rewrite Hc, String.eqb_refl, match_secret by done. cbn [negb].
  assert (secret_target t p +:+ "/" = secret_target t (p +:+ "/")) as -> by (unfold secret_target; by rewrite <- !str_app_assoc).
  rewrite (match_secret m t (p +:+ "/")) by (try done; unfold url.plain in *; by rewrite url.all_chars_app, Hp).
  assert (mux.exactMatch (secret_found m t (p +:+ "/")) (secret_target t (p +:+ "/")) = false) as ->.
  { unfold secret_found, mux.exactMatch, secret_target. cbn [last mux.whole]. apply andb_false_iff. right. apply Z.eqb_neq.
    rewrite !Count_app. change (Count "/v1/secret/data/" "/") with 4. change (Count "/" "/") with 1.
    pose proof (Count_nonneg t "/"). pose proof (Count_nonneg p "/"). match goal with |- _ ≠ blen ?l => change (blen l) with 5 end. lia. }
  by rewrite andb_false_r.
Qed.

(** ** The request as it arrives *)
Context (base scheme host : string) (Horigin : url.origin base scheme host).
Lemma plain_no_percent s : url.plain s = true → url.all_chars (fun c => negb (Ascii.eqb c "%")) s = true.
Proof. by apply url.plain_no. Qed.
Lemma base_no_percent : url.all_chars (fun c => negb (Ascii.eqb c "%")) base = true.
Proof.
  destruct Horigin as [Hs (authority&->&_&Hall)]. rewrite !url.all_chars_app.
  rewrite (url.authority_chars (fun c => negb (Ascii.eqb c "%")) authority) by (exact Hall || by apply url.every_char). by destruct Hs as [->| ->].
Qed.
Definition with_query (q : string) : string := if String.eqb q "" then "" else "?" +:+ q.
Lemma target_plain t p : addressable t p → ∃ r, secret_target t p = "/" +:+ r ∧ url.plain r = true.
Proof.
  intros [[Ht _] Hp _]. exists ("v1/secret/data/" +:+ t +:+ "/" +:+ p). split; [done|].
  unfold url.plain. rewrite !url.all_chars_app. fold (url.plain t) (url.plain p). by rewrite (mux.unreserved_plain t Ht), Hp.
Qed.
(** A request for a path without escapes arrives as it was meant. *)
Lemma plain_arrives m r q headers content : url.plain r = true → url.plain q = true →
  request_of (MkWire m (base +:+ ("/" +:+ r) +:+ with_query q) headers content) =
  Some (MkRequest m ("/" +:+ r) ("/" +:+ r) (fun _ => "") (url.query_value q) q (header_of headers) (default "" content) remote None "").
Proof.
  intros Hr Hq. unfold request_of. cbn [wr_target wr_method wr_headers wr_body].
  assert (base +:+ ("/" +:+ r) +:+ with_query q = base +:+ "/" +:+ r +:+ (if String.eqb q "" then "" else "?" +:+ q)) as -> by (by rewrite <- str_app_assoc).
  rewrite (url.Parse_plain base scheme host r q Horigin Hr Hq). cbn [mbind option_bind url.Path url.RawQuery].
  assert (url.plain ("/" +:+ r) = true) as ->.
  { unfold url.plain. rewrite url.all_chars_app. exact Hr. }
  rewrite !url.all_chars_app, base_no_percent. rewrite (plain_no_percent r Hr).
  destruct (String.eqb q ""); [done|]. rewrite url.all_chars_app, (plain_no_percent q Hq). done.
Qed.
Lemma request_arrives m t p q headers content : addressable t p → url.plain q = true →
  request_of (MkWire m (base +:+ secret_target t p +:+ with_query q) headers content) =
  Some (MkRequest m (secret_target t p) (secret_target t p) (fun _ => "") (url.query_value q) q (header_of headers) (default "" content) remote None "").
Proof. intros Ha Hq. destruct (target_plain t p Ha) as (r&->&Hr). by apply plain_arrives. Qed.
End serve.

(** ** What the routes of secrets do to the store *)
Section outcomes.
Context `{PrimitiveLaws} `{Ed25519} `{MapOrder} `{ui.Assets} (a : App).
Definition keep : Z := secret.defaultMaxVersions.
Lemma keep_ok : 1 ≤ keep ≤ i64_max.
Proof. done. Qed.
(** The secrets and the root key are as they were, or the store has sealed itself. *)
Record kept (w w' : World) : Prop := {
  kp_metadata : secret_metadata (database w') = secret_metadata (database w);
  kp_versions : secret_versions (database w') = secret_versions (database w);
  kp_memory : seal_memory w' = seal_memory w }.
Definition sealed (w : World) : Prop := seal.IsUnsealed w = false.
#[local] Instance kept_preorder : PreOrder kept.
Proof. split; [by split|]. intros w1 w2 w3 [] []. split; congruence. Qed.
Lemma implements_kept s w w' : kept w w' → implements keep s w → implements keep s w'.
Proof. intros []. by apply implements_tables. Qed.
Lemma kept_quiet {A} (m : M World A) w : quiet m → same_db m → kept w (snd (m w)).
Proof. intros Hq Hd. specialize (Hq w). specialize (Hd w). destruct Hq. split; congruence. Qed.
Definition stands (s : spec) (w : World) : Prop := sealed w ∨ implements keep s w.
(** A refusal. *)
Definition declined (s : spec) (resp : Response) (w : World) : Prop := 400 ≤ status resp ∧ stands s w.
Lemma declined_problem s st code w : 400 ≤ st → implements keep s w → declined s (httpx.Problem st code) w.
Proof. intros. split; [done|by right]. Qed.

(** The two counters of records are not looked at. *)
Lemma kept_log w w2 m : database w2 = database w → seal_memory w2 = seal_memory w → kept w (set_audit_counts m w2).
Proof. intros Hd Hm. split; cbn; [by rewrite Hd|by rewrite Hd|done]. Qed.
Lemma recorded_kept r op i t p v res d k w resp w' : secret_http.recorded r op i t p v res d k w = (resp, w') →
  (status resp = StatusServiceUnavailable ∧ sealed w') ∨ ∃ w1, kept w w1 ∧ k w1 = (resp, w').
Proof.
  unfold secret_http.recorded, run_or. destruct (Append_cases (audit.MkEvent op (authn.ID i) t (secret_http.PolicyPath t p) v res (authz.Policy d) (authz.Rule d)
    (RequestID r) (httpx.RemoteIP r)) w) as [(w1&E&_)|(e&w1&E&Hs)]; rewrite E.
  - intros Hk. right. exists w1. split; [|done]. revert E. unfold Append, counting_sink, telemetry.counting_Append, sealing_Append.
    destruct (audit.Append _ w) as [[[]|e] w2] eqn:Ea; [|done]. intros [= <-]. match type of Ea with audit.Append ?ev _ = _ => pose proof (audit.Append_memory ev w) as Hm end.
    rewrite Ea in Hm. apply audit.Append_inv in Ea as [_ Hdb]. apply (kept_log w w2); [done|exact Hm].
  - intros [= <- <-]. by left.
Qed.
Lemma guard_kept handler r w resp w' : guard a handler r w = (resp, w') →
  (400 ≤ status resp ∧ kept w w') ∨ ∃ i w1, kept w w1 ∧ handler (httpx.with_identity i r) w1 = (resp, w').
Proof.
  unfold guard, auth.Require_. destruct (auth.bearerToken r) as [presented|]; [|intros [= <- <-]; by left].
  unfold run_or. pose proof (kept_quiet _ w (auth.Authenticate_quiet presented auth.NoBinding) (auth.Authenticate_db presented auth.NoBinding)) as Hk.
  destruct (auth.Authenticate presented auth.NoBinding w) as [[i|e] w1]; [|intros [= <- <-]; by left].
  unfold allow_request, ratelimit.Allow. destruct (ratelimit.allow_at _ _ _ _) as [[] m]; cbn [negb]; [|intros [= <- <-]; left; split; [done|etrans; [exact Hk|by split]]].
  intros Eh. right. exists i. eexists. split; [|exact Eh]. etrans; [exact Hk|]. by split.
Qed.
Lemma permitted_kept s r i capability k w resp w' : Identity r = Some i → implements keep s w →
  secret_http.permitted r capability k w = (resp, w') →
  declined s resp w' ∨ ∃ w1, kept w w1 ∧ k i (PathValue r "tenant") (PathValue r "path") w1 = (resp, w').
Proof.
  intros Hi Hw. unfold secret_http.permitted. rewrite Hi. cbv zeta. set (t := PathValue r "tenant"). set (p := PathValue r "path").
  destruct (_ || _); [intros [= <- <-]; left; by apply declined_problem|]. unfold run_or.
  pose proof (kept_quiet (Authorize i t (secret_http.PolicyPath t p) capability) w (manager.Authorize_quiet _ _ _ _) (manager.Authorize_db _ _ _ _)) as Hk.
  destruct (Authorize _ _ _ _ w) as [[d|e] w1]; [|intros [= <- <-]; left; apply declined_problem; [done|by eapply implements_kept]].
  destruct (authz.Allowed d); cbn [negb]; [intros Ek; right; by exists w1|]. intros E. left.
  apply recorded_kept in E as [[E Hs]|(w2&Hk2&E)].
  - split; [by rewrite E|by left].
  - injection E as <- <-. apply declined_problem; [done|]. do 2 (eapply implements_kept; [done|]). done.
Qed.
Lemma kept_lease t i p v ttl w : kept w (snd (Issue t i p v ttl w)).
Proof.
  unfold Issue, lease_issuer, leaseIssuer_Issue. pose proof (lease.Manager_Issue_quiet t i p v ttl w) as Hq.
  pose proof (lease.Manager_Issue_keeps (fun d => secret_metadata d = secret_metadata (database w) ∧ secret_versions d = secret_versions (database w)) t i p v ttl) as Hd.
  specialize (Hd ltac:(done) w ltac:(done)). unfold bind. destruct (lease.Manager_Issue t i p v ttl w) as [[l|e] w1]; cbn in *; destruct Hq, Hd; by split.
Qed.
Lemma declined_fail s e w : implements keep s w → declined s (fst (secret_http.fail_with e w)) (snd (secret_http.fail_with e w)).
Proof. intros Hw. unfold secret_http.fail_with. repeat case_match; by apply declined_problem. Qed.
Lemma readable_version d t p asked v row : store_ok keep d → secret.readable d t p asked v row → in_i64 v.
Proof.
  intros Hok (Hrow&_). destruct (so_owner _ _ Hok t p v) as [meta Hm]; [by eexists|].
  destruct (so_versions _ _ Hok _ _ _ Hm) as (_&Hb&Hv). assert (1 ≤ v ≤ current_version meta) as Hr by (apply Hv; by eexists).
  unfold in_i64, i64_min. lia.
Qed.
(** What a read that succeeds says of the specification. *)
Definition read_body (s : spec) (t p : string) (asked : Z) (resp : Response) : Prop := ∃ v data created lease ttl,
  spec_get t p asked s = (Ok (v, data), s) ∧ in_i64 v ∧ in_i64 ttl ∧
  body resp = Some (JObj [("value", JStr (string_of_bytes data)); ("version", JNum (Itoa v)); ("created_at", JStr created);
    ("lease_id", JStr lease); ("lease_ttl", JNum (Itoa ttl))]).
Lemma int_Seconds_range d : in_i64 (int_Seconds d).
Proof. unfold int_Seconds. apply wrap64_in. Qed.
Lemma read_outcome s ttl r i w resp w' : Identity r = Some i → implements keep s w → secret_http.handleRead ttl r w = (resp, w') →
  declined s resp w' ∨ status resp = StatusOK ∧ implements keep s w' ∧
    ∃ asked, secret_http.requestedVersion r = Ok asked ∧ read_body s (PathValue r "tenant") (PathValue r "path") asked resp.
Proof.
  intros Hi Hw E. unfold secret_http.handleRead in E. apply (permitted_kept s _ i) in E as [E|(w1&Hk&E)]; [by left| |done|done].
  apply (implements_kept s) in Hk; [|done]. destruct (secret_http.requestedVersion r) as [asked|]; [|injection E as <- <-; left; by apply declined_problem].
  unfold run_or in E at 1. destruct (secret.Service_Get _ _ _ w1) as [o w2] eqn:Eg. destruct (get_refines keep _ _ _ s _ _ _ Hk Eg) as [Hw2 Hspec].
  destruct o as [value|e]; [|left; pose proof (declined_fail s e w2 Hw2) as Hd; by rewrite E in Hd].
  destruct (secret.Service_Get_Ok _ _ _ _ _ _ Eg) as (row&Hread&_). pose proof (readable_version _ _ _ _ _ _ (im_ok _ _ _ Hk) Hread) as Hv.
  unfold run_or in E at 1.
  pose proof (kept_lease (PathValue r "tenant") (authn.ID i) (secret_http.PolicyPath (PathValue r "tenant") (PathValue r "path")) (secret.v_Version value) ttl w2) as Hk3.
  destruct (Issue _ _ _ _ _ w2) as [[held|e] w3]; [|injection E as <- <-; left; apply declined_problem; [done|by eapply implements_kept]].
  apply recorded_kept in E as [[E Hs]|(w4&Hk4&E)]; [left; split; [by rewrite E|by left]|].
  injection E as <- <-. right. split; [done|]. split.
  { apply (implements_kept s w4); [by split|]. apply (implements_kept s w3); [exact Hk4|]. by apply (implements_kept s w2). }
  exists asked. split; [done|]. do 5 eexists. split_and!; [exact Hspec|done|apply int_Seconds_range|reflexivity].
Qed.
Definition expectation_of (cas : option Z) : Expectation := match cas with Some n => AtVersion n | None => Any end.
Lemma write_outcome s r i w resp w' : Identity r = Some i → implements keep s w → secret_http.handleWrite keep r w = (resp, w') →
  declined s resp w' ∨ status resp = StatusOK ∧ ∃ value cas v s',
    httpx.DecodeJSON secret_http.write_fields secret_http.writeRequest_of (Body r) = Ok (value, cas) ∧
    spec_put keep (PathValue r "tenant") (PathValue r "path") (bytes_of_string value) (expectation_of cas) s = (Ok v, s') ∧
    implements keep s' w' ∧ in_i64 v ∧ body resp = Some (JObj [("version", JNum (Itoa v))]).
Proof.
  intros Hi Hw E. unfold secret_http.handleWrite in E. apply (permitted_kept s _ i) in E as [E|(w1&Hk&E)]; [by left| |done|done].
  apply (implements_kept s) in Hk; [|done]. destruct (httpx.DecodeJSON _ _ _) as [[value cas]|]; [|injection E as <- <-; left; by apply declined_problem].
  cbv zeta in E. cbn [fst snd] in E.
  assert (∀ e, run_or (Service_Put keep (PathValue r "tenant") (PathValue r "path") (bytes_of_string value) e) secret_http.fail_with (fun version =>
      secret_http.recorded r "secret.write" i (PathValue r "tenant") (PathValue r "path") version audit.ResultAllow secret_http.no_decision
        (reply (httpx.JSON StatusOK (JObj [("version", JNum (Itoa version))])))) w1 = (resp, w') →
    declined s resp w' ∨ status resp = StatusOK ∧ ∃ v s',
      spec_put keep (PathValue r "tenant") (PathValue r "path") (bytes_of_string value) e s = (Ok v, s') ∧
      implements keep s' w' ∧ in_i64 v ∧ body resp = Some (JObj [("version", JNum (Itoa v))])) as Hput.
  { clear E. intros e E. unfold run_or in E at 1. destruct (Service_Put _ _ _ _ _ w1) as [o w2] eqn:Ep.
    pose proof (put_refines keep keep_ok _ _ _ _ s _ _ _ Hk Ep) as Hspec.
    destruct o as [v|er]; [|left; pose proof (declined_fail s er w2 Hspec) as Hd; by rewrite E in Hd]. destruct Hspec as (s'&Hput&Hs').
    apply recorded_kept in E as [[E Hs]|(w3&Hk3&E)]; [left; split; [by rewrite E|by left]|]. injection E as <- <-. right.
    split; [done|]. exists v, s'. split_and!; [done|by apply (implements_kept s' w2)| |done].
    apply Service_Put_inv in Ep as [_ (->&_)]. apply wrap64_in. }
  destruct cas as [n|].
  - destruct (n <? 0); [injection E as <- <-; left; by apply declined_problem|]. destruct (Hput _ E) as [Hd|(Hst&v&s'&Hx)]; [by left|].
    right. split; [done|]. by exists value, (Some n), v, s'.
  - destruct (Hput _ E) as [Hd|(Hst&v&s'&Hx)]; [by left|]. right. split; [done|]. by exists value, None, v, s'.
Qed.
Lemma delete_outcome s r i w resp w' : Identity r = Some i → implements keep s w → secret_http.handleDelete r w = (resp, w') →
  declined s resp w' ∨ status resp = StatusNoContent ∧ ∃ s',
    spec_mark delete_slot (PathValue r "tenant") (PathValue r "path") [] s = (Ok tt, s') ∧ implements keep s' w' ∧
    body resp = None ∧ page resp = None.
Proof.
  intros Hi Hw E. unfold secret_http.handleDelete in E. apply (permitted_kept s _ i) in E as [E|(w1&Hk&E)]; [by left| |done|done].
  apply (implements_kept s) in Hk; [|done]. unfold run_or in E at 1. destruct (Service_Delete _ _ _ w1) as [o w2] eqn:Ed.
  pose proof (mark_refines keep delete_action delete_slot (PathValue r "tenant") (PathValue r "path") [] s w1 o w2 (delete_steps keep keep_ok) ltac:(unfold delete_action, readVersionState; auto 10 with world) Hk Ed) as Hspec.
  destruct o as [[]|er]; [|left; pose proof (declined_fail s er w2 Hspec) as Hd; by rewrite E in Hd]. destruct Hspec as (s'&Hmark&Hs').
  apply recorded_kept in E as [[E Hs]|(w3&Hk3&E)]; [left; split; [by rewrite E|by left]|]. injection E as <- <-. right.
  split; [done|]. exists s'. split_and!; [done|by apply (implements_kept s' w2)|done|done].
Qed.

(** From the middleware to the handler of the route. *)
Lemma Handler_reaches s r pattern values handler w resp w' : implements keep s w → served_by a r pattern values →
  List.find (fun entry => String.eqb (fst entry) pattern) (routes a) = Some (pattern, guard a handler) → Handler_ a r w = (resp, w') →
  declined s resp w' ∨ ∃ i w1 resp1 w2, implements keep s w1 ∧ kept w2 w' ∧
    handler (httpx.with_identity i (routed values (httpx.with_request_id (request_id w) r))) w1 = (resp1, w2) ∧
    status resp = status resp1 ∧ body resp = body resp1 ∧ page resp = page resp1.
Proof.
  intros Hw Hs Hf. rewrite Handler_run. unfold requireUnsealed.
  destruct (bool_decide _ || seal.IsUnsealed (after_id w)).
  2: { intros [= <- <-]. left. split; [done|]. right. by apply (implements_kept s w). }
  rewrite (serve_found a r _ pattern values (guard a handler)) by done.
  destruct (guard a handler _ (after_id w)) as [resp1 w1] eqn:E. intros [= <- <-].
  apply guard_kept in E as [[Hst Hk]|(i&w2&Hk&E)].
  - left. split; [done|]. right. apply (implements_kept s w1); [by split|]. apply (implements_kept s (after_id w)); [done|]. by apply (implements_kept s w).
  - right. exists i, w2, resp1, w1. split_and!; try done. apply (implements_kept s (after_id w)); [done|]. by apply (implements_kept s w).
Qed.
End outcomes.

(** ** Documents on the way *)
Lemma substring_whole n s : (String.length s <= n)%nat → String.substring 0 n s = s.
Proof. revert n. induction s as [|c s IH]; intros [|n] Hn; cbn in *; [done|done|lia|]. rewrite IH by lia. done. Qed.
Lemma DecodeJSON_print {A} names (conv : list (string * json) → option A) l x :
  (String.length (print (JObj l)) <= httpx.maxRequestBody)%nat → numbers_ok (JObj l) →
  let members := List.map (fun m => (sanitize (fst m), clean (snd m))) l in
  forallb (fun m => match field_of names (fst m) with Some _ => true | None => false end) members = true → conv members = Some x →
  httpx.DecodeJSON names conv (print (JObj l)) = Ok x.
Proof.
  intros Hlen Hn members Hall Hx. unfold httpx.DecodeJSON. rewrite substring_whole by done. pose proof (jsize_length _ Hn) as Hsize.
  destruct (parse_print_all (S (2 * String.length (print (JObj l))))) as [Hv _]. specialize (Hv (JObj l) "" ltac:(lia) Hn I).
  rewrite str_app_nil_r in Hv. rewrite Hv. cbn [mbind option_bind clean]. fold members. rewrite Hall, Hx. done.
Qed.
Lemma Unmarshal_text {A} (of_members : list (string * json) → option A) resp l x : body resp = Some (JObj l) → numbers_ok (JObj l) →
  of_members (List.map (fun m => (sanitize (fst m), clean (snd m))) l) = Some x → client.Unmarshal of_members (text_of resp) = Ok x.
Proof.
  intros Hb Hn Hx. unfold client.Unmarshal, text_of. rewrite Hb, (parse_print_then (JObj l) (String metrics.newline "") Hn I eq_refl). cbn [mbind option_bind clean jwt.members]. by rewrite Hx.
Qed.
Lemma received_Ok {A} (zero : A) into resp x : client.received zero into (answer_of resp) = Ok x → status resp < 400 ∧
  match into with None => x = zero | Some f => text_of resp = "" ∧ x = zero ∨ client.Unmarshal f (text_of resp) = Ok x end.
Proof.
  unfold client.received. cbn [answer_of an_text an_status]. generalize (text_of resp), (status resp). intros text st. destruct (_ <? len text); [done|]. destruct (Z.leb_spec 400 st); [done|]. destruct into as [f|].
  - destruct (String.eqb_spec text "") as [->|]; [intros [= ->]; auto|auto].
  - by intros [= <-].
Qed.
Lemma text_not_empty resp l : body resp = Some (JObj l) → text_of resp ≠ "".
Proof. unfold text_of. by intros ->. Qed.
Lemma QueryEscape_plain s : url.all_chars url.unreserved s = true → client.QueryEscape s = s.
Proof.
  induction s as [|c s IH]; [done|]. cbn [url.all_chars client.QueryEscape]. intros [Hc Hs]%andb_true_iff. by rewrite Hc, IH.
Qed.
Lemma digits_unreserved w x : url.all_chars url.unreserved (pad w x) = true.
Proof.
  induction w as [|w IH]; [done|]. cbn [pad url.all_chars]. rewrite IH, andb_true_r.
  pose proof (Z.mod_pos_bound (x / 10 ^ Z.of_nat w) 10 ltac:(lia)). unfold digit.
  assert (∀ d, 0 ≤ d < 10 → url.unreserved (ascii_of_byte (48 + d)) = true) as Hd; [|by apply Hd].
  intros d Hd. unfold url.unreserved, url.is_digit, within. rewrite byte_of_ascii_of_byte by (unfold byte_ok; lia).
  destruct (Z.leb_spec 48 (48 + d)), (Z.leb_spec (48 + d) 57); lia.
Qed.
Lemma Itoa_unreserved x : 0 ≤ x → url.all_chars url.unreserved (Itoa x) = true.
Proof. intros Hx. unfold Itoa. destruct (Z.ltb_spec x 0); [lia|]. apply digits_unreserved. Qed.

(** ** From end to end *)
Inductive exchange :=
| XRead (t p : string) (version : Z)
| XWrite (t p : string) (value : list Z) (cas : option Z)
| XDelete (t p : string).
Definition subject (x : exchange) : string * string := match x with XRead t p _ | XWrite t p _ _ | XDelete t p => (t, p) end.
(** A value as it travels: text that is not UTF-8 is replaced on the way. *)
Definition sent (value : list Z) : list Z := bytes_of_string (sanitize (string_of_bytes value)).
Definition intended (x : exchange) : call :=
  match x with
  | XRead t p v => CGet t p (if 0 <? v then v else 0)
  | XWrite t p value cas => CPut t p (sent value) (expectation_of cas)
  | XDelete t p => CDelete t p []
  end.
Definition shown (a : answer) : answer := match a with AValue v data => AValue v (sent data) | _ => a end.
Definition write_body (value : list Z) (cas : option Z) : list (string * json) :=
  ("value", JStr (string_of_bytes value)) :: match cas with Some n => [("cas", JNum (Itoa n))] | None => [] end.
(** Versions are the integers of the code, and the body of a write is within the
  limit of the server. *)
Definition sendable (x : exchange) : Prop :=
  match x with
  | XRead _ _ v => in_i64 v
  | XWrite _ _ value cas => (String.length (print (JObj (write_body value cas))) <= httpx.maxRequestBody)%nat ∧ match cas with Some n => in_i64 n | None => True end
  | XDelete _ _ => True
  end.
Section end_to_end.
Context `{PrimitiveLaws} `{Ed25519} `{MapOrder} `{ui.Assets} `{IPLiterals} `{Transport World} (a : App) (remote base scheme host : string).
Context (Horigin : url.origin base scheme host).
Definition perform (x : exchange) : M (client.Linked World) answer :=
  match x with
  | XRead t p v => let! got := client.ReadSecret t p v in ret (AValue (client.Version got) (client.Value got))
  | XWrite t p value cas => let! v := client.WriteSecret t p value cas in ret (AVersion v)
  | XDelete t p => client.DeleteSecret t p ;! ret ADone
  end.
(** The statuses of the handlers are final. *)
Lemma ordinary_final m st : st ∈ answers.statuses → client.redirectBehavior m st = None.
Proof.
  intros Hst. unfold client.redirectBehavior. rewrite !bool_decide_false; [done|..]; revert st Hst; apply Forall_forall, (bool_decide_unpack _); by vm_compute.
Qed.
Lemma served_final r w resp w' m pattern values : served_by a r pattern values → Handler_ a r w = (resp, w') → client.redirectBehavior m (status resp) = None.
Proof.
  intros Hs E. apply ordinary_final. rewrite Handler_run in E. destruct (requireUnsealed _ _ _ _) as [resp1 w1] eqn:E1. injection E as <- _.
  change (status resp1 ∈ answers.statuses). unfold requireUnsealed in E1. destruct (_ || _).
  - pose proof (answers.found_answers a (httpx.with_request_id (request_id w) r) (after_id w) pattern values Hs) as Ho. rewrite E1 in Ho. apply Ho.
  - injection E1 as <- _. apply (bool_decide_unpack _). by vm_compute.
Qed.
(** One request, and its answer when it is final. *)
Lemma Do_final wr w : (∀ a' w', RoundTrip wr w = (Ok a', w') → client.redirectBehavior (wr_method wr) (an_status a') = None) →
  client.Do wr w = RoundTrip wr w ∨ ∃ e, client.Do wr w = (Err e, w).
Proof.
  intros Hf. unfold client.Do, client.maxRedirects. cbn [client.follow]. unfold bind at 1. unfold client.send.
  destruct (url.Parse (wr_target wr)) as [u|]; [|right; by eexists]. destruct (_ && _); [left|right; by eexists].
  destruct (RoundTrip wr w) as [[a'|e] w'] eqn:E; [|done]. by rewrite (Hf a' w' eq_refl).
Qed.
(** What a call may come to when the network is authentic and the answer is final. *)
Lemma call_authentic {A} (spec : client.request) (zero : A) into c w o l r resp w' : authentic a remote _ →
  request_of remote (client.wire c spec) = Some r → Handler_ a r w = (resp, w') →
  client.redirectBehavior (client.method spec) (status resp) = None →
  client.call spec zero into (client.MkLinked c w) = (o, l) → client.linked l = c ∧
  match o with
  | Ok v => client.network l = w' ∧ client.received zero into (answer_of resp) = Ok v
  | Err _ => client.network l = w ∨ client.network l = w'
  end.
Proof.
  intros Hauth Hr Hh Hfinal. unfold client.call. cbn [client.linked]. destruct (_ && _); [intros [= <- <-]; auto|].
  destruct (bool_decide _); [intros [= <- <-]; auto|]. unfold bind, client.over. cbn [client.network client.linked].
  assert (serve a remote (client.wire c spec) w = Some (answer_of resp, w')) as Hserve by (unfold serve; rewrite Hr; cbn [mbind option_bind]; by rewrite Hh).
  assert (client.Do (client.wire c spec) w = RoundTrip (client.wire c spec) w ∨ ∃ e, client.Do (client.wire c spec) w = (Err e, w)) as [->|[e ->]].
  { apply Do_final. intros a' w1 E. destruct (Hauth _ _ _ _ Hserve) as [[e E1]|[[e E1]|E1]]; rewrite E1 in E; simplify_eq. exact Hfinal. }
  2: { intros [= <- <-]. auto. }
  destruct (Hauth _ _ _ _ Hserve) as [[e ->]|[[e ->]| ->]]; [intros [= <- <-]; auto..|].
  unfold lift_result. generalize (client.received zero into (answer_of resp)). intros answer [= <- <-]. destruct answer; auto.
Qed.
(** A call on a secret: what the route of its method does with the store. *)
Definition reached {A} (t p : string) (q : list (string * string)) (content : option json) (zero : A)
  (into : option (list (string * json) → option A)) (handler : Handler) (s : spec) (o : result A) (w' : World) : Prop :=
  ∃ r i w1 resp resp1 w2, implements keep s w1 ∧ Identity r = Some i ∧ PathValue r "tenant" = t ∧ PathValue r "path" = p ∧
    Query r = url.query_value (client.Encode q) ∧ Body r = default "" (print <$> content) ∧ handler r w1 = (resp1, w2) ∧
    status resp = status resp1 ∧ body resp = body resp1 ∧ page resp = page resp1 ∧ kept w2 w' ∧
    match o with Ok v => client.received zero into (answer_of resp) = Ok v | Err _ => True end.
Lemma exchange_reaches {A} m t p q content (zero : A) into handler s c w o l :
  authentic a remote _ → client.base c = base → m ∈ ["GET"; "PUT"; "DELETE"] → addressable t p → url.plain (client.Encode q) = true →
  (q ≠ [] → client.Encode q ≠ "") →
  List.find (fun entry => String.eqb (fst entry) (secret_pattern m)) (routes a) = Some (secret_pattern m, guard a handler) →
  implements keep s w → client.call (client.MkCall m (client.secret_path t p) q content true) zero into (client.MkLinked c w) = (o, l) →
  client.linked l = c ∧ (is_ok o = false ∧ stands s (client.network l) ∨ reached t p q content zero into handler s o (client.network l)).
Proof.
  intros Hauth Hc Hm Ha Hq Hq' Hf Hs E.
  set (spec := client.MkCall m (client.secret_path t p) q content true) in *.
  assert (∃ headers, client.wire c spec = MkWire m (base +:+ secret_target t p +:+ with_query (client.Encode q)) headers (print <$> content)) as [headers Hwire].
  { exists (wr_headers (client.wire c spec)). unfold client.wire, client.target, with_query. cbn [client.method client.path client.query client.content spec]. rewrite Hc.
    destruct q as [|x q]; [reflexivity|]. rewrite bool_decide_false by done. destruct (String.eqb_spec (client.Encode (x :: q)) ""); [by destruct Hq'|reflexivity]. }
  pose proof (request_arrives remote base scheme host Horigin m t p (client.Encode q) headers (print <$> content) Ha Hq) as Hr. rewrite <- Hwire in Hr.
  set (r := MkRequest m _ _ _ _ _ _ _ _ _ _) in Hr. destruct (Handler_ a r w) as [resp w'] eqn:Eh.
  assert (served_by a r (secret_pattern m) [("tenant", t); ("path", p)]) as Hserved by (by apply find_secret).
  destruct (call_authentic spec zero into c w o l r resp w' Hauth Hr Eh (served_final _ _ _ _ _ _ _ Hserved Eh) E) as [Hl Ho]. split; [done|].
  destruct (Handler_reaches a s r _ _ handler w resp w' Hs Hserved Hf Eh) as [[Hst Hd]|(i&w1&resp1&w2&Hw1&Hk&Er&Hst&Hb&Hp)].
  - left. destruct o as [v|e].
    + destruct Ho as [_ Ho]. apply received_Ok in Ho as [? _]. lia.
    + split; [done|]. destruct Ho as [->| ->]; [by right|done].
  - assert (is_ok o = false ∧ client.network l = w ∨ client.network l = w' ∧
      match o with Ok v => client.received zero into (answer_of resp) = Ok v | Err _ => True end) as [[Ho' ->]|[-> Ho']].
    { destruct o; [right; done|]. destruct Ho; auto. }
    + left. split; [done|by right].
    + right. do 6 eexists. split_and!; [exact Hw1| | | | | |exact Er|exact Hst|done|done|done|done]; done.
Qed.
Lemma stands_kept s w w' : kept w w' → stands s w → stands s w'.
Proof.
  intros Hk [Hs|Hi]; [left|right; by apply (implements_kept s w)]. unfold sealed, seal.IsUnsealed in *. by rewrite (kp_memory _ _ Hk).
Qed.
Definition version_query (v : Z) : list (string * string) := if 0 <? v then [("version", Itoa v)] else [].
Lemma version_query_ok v : url.plain (client.Encode (version_query v)) = true ∧ (version_query v ≠ [] → client.Encode (version_query v) ≠ "").
Proof.
  unfold version_query. destruct (Z.ltb_spec 0 v); [|done]. unfold client.Encode. cbn [List.map Join fst snd].
  rewrite (QueryEscape_plain (Itoa v)) by (apply Itoa_unreserved; lia). split; [|done].
  unfold url.plain. rewrite !url.all_chars_app. fold (url.plain (Itoa v)). rewrite (mux.unreserved_plain (Itoa v)) by (apply Itoa_unreserved; lia). done.
Qed.
Lemma version_asked r v : in_i64 v → Query r = url.query_value (client.Encode (version_query v)) →
  secret_http.requestedVersion r = Ok (if 0 <? v then v else 0).
Proof.
  intros Hv Hq. unfold secret_http.requestedVersion. rewrite Hq. unfold version_query. destruct (Z.ltb_spec 0 v) as [Hp|Hp]; [|done].
  unfold client.Encode. cbn [List.map Join fst snd]. rewrite (QueryEscape_plain (Itoa v)) by (apply Itoa_unreserved; lia).
  change (client.QueryEscape "version") with "version". rewrite url.query_value_plain by (done || apply Itoa_unreserved; lia).
  destruct (String.eqb_spec (Itoa v) "") as [E|_].
  { pose proof (Atoi_Itoa v Hv) as Ha. by rewrite E in Ha. }
  rewrite Atoi_Itoa by done. destruct (Z.ltb_spec v 0); [lia|done].
Qed.
Lemma secret_fields_read value v created lease ttl : in_i64 v → in_i64 ttl →
  client.secret_of [("value", JStr value); ("version", JNum (Itoa v)); ("created_at", JStr created); ("lease_id", JStr lease); ("lease_ttl", JNum (Itoa ttl))]
    = Some (value, v, created, lease, ttl).
Proof.
  intros Hv Ht. pose proof (Atoi_Itoa v Hv) as Ev. pose proof (Atoi_Itoa ttl Ht) as Et. generalize dependent (Itoa v). generalize dependent (Itoa ttl).
  intros lt Et lv Ev. unfold client.secret_of, field_value. cbv -[Atoi]. rewrite Ev, Et. done.
Qed.
Lemma read_end s t p v c w o l : authentic a remote _ → client.base c = base → addressable t p → in_i64 v → implements keep s w →
  client.ReadSecret t p v (client.MkLinked c w) = (o, l) → client.linked l = c ∧
  match o with
  | Ok got => ∃ data, spec_get t p (if 0 <? v then v else 0) s = (Ok (client.Version got, data), s) ∧ client.Value got = sent data ∧ implements keep s (client.network l)
  | Err _ => stands s (client.network l)
  end.
Proof.
  intros Hauth Hc Ha Hv Hs. unfold client.ReadSecret. cbv zeta. fold (version_query v). unfold bind at 1.
  destruct (client.call _ _ _ _) as [oc lc] eqn:Ec. destruct (version_query_ok v) as [Hq Hq'].
  apply (exchange_reaches "GET" t p (version_query v) None _ _ (secret_http.handleRead (config.LeaseTTL (cfg a))) s) in Ec as [Hl Hreach];
    [|done|done|by left|done|done|done|by (unfold routes, auth_routes; by destruct (verifier a))|done].
  assert (match oc with
    | Ok (value, version, created, lease, ttl) => ∃ data, spec_get t p (if 0 <? v then v else 0) s = (Ok (version, data), s) ∧
        value = sanitize (string_of_bytes data) ∧ implements keep s (client.network lc)
    | Err _ => stands s (client.network lc) end) as Hcall.
  { destruct Hreach as [[Ho Hst]|(r&i&w1&resp&resp1&w2&Hw1&Hi&Ht&Hp&Hquery&_&Eh&Est&Eb&Epg&Hk&Ho)]; [by destruct oc|].
    apply (read_outcome s _ _ i) in Eh as [[Hst Hd]|(Hst&Hw2&asked&Hasked&Hbody)]; [| |exact Hi|exact Hw1].
    { destruct oc as [x|e]; [|by apply (stands_kept s w2)]. destruct x as [[[[]]]]. apply received_Ok in Ho as [? _]. lia. }
    destruct oc as [x|e]; [|right; by apply (implements_kept s w2)].
    rewrite (version_asked r v Hv Hquery) in Hasked. injection Hasked as <-. rewrite Ht, Hp in Hbody.
    destruct Hbody as (n&data&created&lease&ttl&Hget&Hn&Httl&Hb). rewrite <- Eb in Hb. apply received_Ok in Ho as [_ [[Htext _]|Ho]].
    { by apply text_not_empty in Hb. }
    rewrite (Unmarshal_text client.secret_of resp _ (sanitize (string_of_bytes data), n, sanitize created, sanitize lease, ttl) Hb) in Ho.
    - injection Ho as <-. exists data. split_and!; [done|done|by apply (implements_kept s w2)].
    - cbn [numbers_ok foldr snd]. split_and!; try done; by apply i64_literal.
    - by apply secret_fields_read. }
  destruct oc as [[[[[value version] created] lease] ttl]|e]; [|by intros [= <- <-]]. destruct Hcall as (data&Hget&->&Hn).
  unfold bind, lift_result. destruct (client.optional_time created); intros [= <- <-]; (split; [done|]); [|by right].
  exists data. by split_and!.
Qed.
Lemma write_fields_read value cas : match cas with Some n => in_i64 n | None => True end →
  let members := List.map (fun m => (sanitize (fst m), clean (snd m))) (write_body value cas) in
  forallb (fun m => match field_of secret_http.write_fields (fst m) with Some _ => true | None => false end) members = true ∧
  secret_http.writeRequest_of members = Some (sanitize (string_of_bytes value), cas).
Proof.
  intros Hc. unfold write_body. destruct cas as [n|].
  - pose proof (Atoi_Itoa n Hc) as En. cbn [List.map fst snd clean]. generalize (sanitize (string_of_bytes value)). generalize dependent (Itoa n).
    intros ln En t. split; [by vm_compute|]. unfold secret_http.writeRequest_of, secret_http.pointer_field, field_value. cbv -[Atoi]. by rewrite En.
  - cbn [List.map fst snd clean]. generalize (sanitize (string_of_bytes value)). intros t. by split.
Qed.
Lemma write_end s t p value cas c w o l : authentic a remote _ → client.base c = base → addressable t p →
  (String.length (print (JObj (write_body value cas))) <= httpx.maxRequestBody)%nat → match cas with Some n => in_i64 n | None => True end →
  implements keep s w → client.WriteSecret t p value cas (client.MkLinked c w) = (o, l) → client.linked l = c ∧
  match o with
  | Ok v => ∃ s', spec_put keep t p (sent value) (expectation_of cas) s = (Ok v, s') ∧ implements keep s' (client.network l)
  | Err _ => stands s (client.network l) ∨
      ∃ v s', spec_put keep t p (sent value) (expectation_of cas) s = (Ok v, s') ∧ implements keep s' (client.network l)
  end.
Proof.
  intros Hauth Hc Ha Hlen Hcas Hs E. unfold client.WriteSecret in E. fold (write_body value cas) in E.
  apply (exchange_reaches "PUT" t p [] _ _ _ (secret_http.handleWrite keep) s) in E as [Hl Hreach];
    [|done|done|right; by left|done|done|done|by (unfold routes, auth_routes; by destruct (verifier a))|done].
  split; [done|]. destruct Hreach as [[Ho Hst]|(r&i&w1&resp&resp1&w2&Hw1&Hi&Ht&Hp&_&Hbody&Eh&Est&Eb&Epg&Hk&Ho)]; [destruct o; [done|by left]|].
  apply (write_outcome s _ i) in Eh as [[Hst Hd]|(Hst&value'&cas'&v&s'&Hdec&Hput&Hs'&Hv&Hb)]; [| |exact Hi|exact Hw1].
  { destruct o as [x|e]; [apply received_Ok in Ho as [? _]; lia|]. left. by apply (stands_kept s w2). }
  destruct (write_fields_read value cas Hcas) as [Hfields Hconv].
  rewrite Hbody in Hdec. cbn [fmap option_fmap option_map default] in Hdec.
  rewrite (DecodeJSON_print _ _ (write_body value cas) (sanitize (string_of_bytes value), cas)) in Hdec; [|done| |done|done].
  2: { unfold write_body. destruct cas as [n|]; cbn [numbers_ok foldr snd]; [split; [exact I|split; [by apply i64_literal|exact I]]|by split]. }
  injection Hdec as <- <-. rewrite Ht, Hp in Hput. apply (implements_kept s' w2) in Hk; [|done].
  destruct o as [x|e]; [|right; by exists v, s']. rewrite <- Eb in Hb. apply received_Ok in Ho as [_ [[Htext _]|Ho]].
  { by apply text_not_empty in Hb. }
  rewrite (Unmarshal_text client.written_of resp _ v Hb) in Ho.
  - injection Ho as <-. by exists s'.
  - cbn [numbers_ok foldr snd]. split; [by apply i64_literal|done].
  - pose proof (Atoi_Itoa v Hv) as Ev. generalize dependent (Itoa v). intros lv _ Ev. unfold client.written_of, field_value. cbv -[Atoi]. by rewrite Ev.
Qed.
Lemma delete_end s t p c w o l : authentic a remote _ → client.base c = base → addressable t p →
  implements keep s w → client.DeleteSecret t p (client.MkLinked c w) = (o, l) → client.linked l = c ∧
  match o with
  | Ok _ => ∃ s', spec_mark delete_slot t p [] s = (Ok tt, s') ∧ implements keep s' (client.network l)
  | Err _ => stands s (client.network l) ∨ ∃ s', spec_mark delete_slot t p [] s = (Ok tt, s') ∧ implements keep s' (client.network l)
  end.
Proof.
  intros Hauth Hc Ha Hs E. unfold client.DeleteSecret, client.call_ in E.
  apply (exchange_reaches "DELETE" t p [] _ _ _ secret_http.handleDelete s) in E as [Hl Hreach];
    [|done|done|right; right; by left|done|done|done|by (unfold routes, auth_routes; by destruct (verifier a))|done].
  split; [done|]. destruct Hreach as [[Ho Hst]|(r&i&w1&resp&resp1&w2&Hw1&Hi&Ht&Hp&_&Hbody&Eh&Est&Eb&Epg&Hk&Ho)]; [destruct o; [done|by left]|].
  apply (delete_outcome s _ i) in Eh as [[Hst Hd]|(Hst&s'&Hmark&Hs'&_)]; [| |exact Hi|exact Hw1].
  { destruct o as [x|e]; [apply received_Ok in Ho as [? _]; lia|]. left. by apply (stands_kept s w2). }
  rewrite Ht, Hp in Hmark. apply (implements_kept s' w2) in Hk; [|done]. destruct o; [by exists s'|right; by exists s'].
Qed.

(** C7. The client library over the network sees the versioned store, for a client whose
  address is the bare origin of the server, places that need no escaping and are clean
  already ([addressable]; [read_elsewhere] below shows what becomes of others), and
  bodies within the server's limit ([sendable]).  From a
  server whose store stands for [s], reading, writing or deleting a secret through
  the client answers what the specification answers, with values replaced where
  they are not UTF-8, and the store stands for the state reached; a call that
  fails has had no effect, or its own effect once (the answer was lost), or the
  server has sealed itself. *)
Theorem client_refines (s : spec) (x : exchange) (c : client.Client) (w : World) (o : result answer) (l : client.Linked World)
  (Hauth : authentic a remote _) (Hbase : client.base c = base) (Hplace : addressable (fst (subject x)) (snd (subject x)))
  (Hfits : sendable x) (Hs : implements keep s w) (Hrun : perform x (client.MkLinked c w) = (o, l)) :
  client.linked l = c ∧
  match o with
  | Ok shown_answer => ∃ a' s', specified keep (intended x) s = (Ok a', s') ∧ shown_answer = shown a' ∧ implements keep s' (client.network l)
  | Err _ => stands s (client.network l) ∨ ∃ a' s', specified keep (intended x) s = (Ok a', s') ∧ implements keep s' (client.network l)
  end.
Proof.
  destruct x as [t p v|t p value cas|t p]; cbn [perform subject fst snd sendable] in *; unfold bind in Hrun.
  - destruct (client.ReadSecret t p v _) as [r l1] eqn:E. apply (read_end s) in E as [Hl Hr]; [|done..]. destruct r as [got|e]; injection Hrun as <- <-; (split; [done|]); [|by left].
    destruct Hr as (data&Hget&Hval&Hi). exists (AValue (client.Version got) data), s. cbn [specified intended answering]. rewrite Hget. unfold shown. by rewrite Hval.
  - destruct Hfits as [Hlen Hcas]. destruct (client.WriteSecret t p value cas _) as [r l1] eqn:E. apply (write_end s) in E as [Hl Hr]; [|done..].
    destruct r as [v|e]; injection Hrun as <- <-; (split; [done|]).
    + destruct Hr as (s'&Hput&Hi). exists (AVersion v), s'. cbn [specified intended]. unfold answering. by rewrite Hput.
    + destruct Hr as [Hr|(v&s'&Hput&Hi)]; [by left|]. right. exists (AVersion v), s'. cbn [specified intended]. unfold answering. by rewrite Hput.
  - destruct (client.DeleteSecret t p _) as [r l1] eqn:E. apply (delete_end s) in E as [Hl Hr]; [|done..].
    destruct r as [[]|e]; injection Hrun as <- <-; (split; [done|]).
    + destruct Hr as (s'&Hmark&Hi). exists ADone, s'. cbn [specified intended]. unfold answering. by rewrite Hmark.
    + destruct Hr as [Hr|(s'&Hmark&Hi)]; [by left|]. right. exists ADone, s'. cbn [specified intended]. unfold answering. by rewrite Hmark.
Qed.
Lemma sent_sent value : sent (sent value) = sent value.
Proof. unfold sent. by rewrite string_of_bytes_of_string, sanitize_idemp. Qed.
Lemma sent_text value : Forall byte_ok value → utf8_valid (string_of_bytes value) = true → sent value = value.
Proof. intros Hb Hu. unfold sent. by rewrite sanitize_valid, bytes_of_string_of_bytes. Qed.
Lemma spec_put_get t p value e s v s' asked : spec_put keep t p value e s = (Ok v, s') → asked = 0 ∨ asked = v →
  spec_get t p asked s' = (Ok (v, value), s').
Proof.
  unfold spec_put. destruct (negb _); [done|]. intros [= <- <-] Hasked. set (v := latest_of t p s + 1). unfold spec_get, latest_of. cbn [latest slots].
  rewrite lookup_insert_eq. cbn [default].
  match goal with |- context [if ?b then ?x else asked] => replace (if b then x else asked) with v end.
  2: { destruct (Z.eqb_spec asked currentVersion); [done|]. by destruct Hasked. }
  rewrite map_lookup_imap, lookup_insert_eq. cbn [mbind option_bind fst snd]. rewrite (bool_decide_true ((t, p) = (t, p))) by done.
  destruct (Z.leb_spec v (v - keep)) as [Hle|_]; [|done]. pose proof keep_ok. lia.
Qed.
(** What a client has written, a client that reads the same place next gets
  back, as the current version and by its number: byte for byte when the value is
  UTF-8 text, and otherwise with what is not text replaced. *)
Theorem client_reads_back (s : spec) (t p : string) (value : list Z) (cas : option Z) (asked v : Z) (c : client.Client) (w : World)
  (l l' : client.Linked World) (got : client.Secret)
  (Hauth : authentic a remote _) (Hbase : client.base c = base) (Hplace : addressable t p) (Hfits : sendable (XWrite t p value cas))
  (Hs : implements keep s w) (Hwrite : client.WriteSecret t p value cas (client.MkLinked c w) = (Ok v, l))
  (Hread : client.ReadSecret t p asked l = (Ok got, l')) (Hasked : asked = 0 ∨ asked = v) (Hrange : in_i64 asked) :
  client.Version got = v ∧ client.Value got = sent value ∧
  (Forall byte_ok value → utf8_valid (string_of_bytes value) = true → client.Value got = value).
Proof.
  destruct Hfits as [Hlen Hcas]. apply (write_end s) in Hwrite as [Hl (s'&Hput&Hi)]; [|done..]. destruct l as [c1 w1]. cbn in Hl, Hi. subst c1.
  apply (read_end s') in Hread as [_ (data&Hget&Hval&_)]; [|done..].
  assert (0 < v) as Hv.
  { revert Hput. unfold spec_put. destruct (negb _); [done|]. intros [= <- _].
    assert (0 ≤ latest_of t p s); [|lia]. unfold latest_of. rewrite (im_latest _ _ _ Hs).
    destruct (secret_metadata (database w) !! (t, p)) as [meta|] eqn:Em; cbn; [|done]. destruct (so_versions _ _ (im_ok _ _ _ Hs) _ _ _ Em) as (_&?&_). lia. }
  assert ((if 0 <? asked then asked else 0) = asked) as Eask by (destruct Hasked as [->| ->]; [done|by rewrite (proj2 (Z.ltb_lt 0 v) Hv)]).
  rewrite Eask, (spec_put_get _ _ _ _ _ _ _ _ Hput Hasked) in Hget. injection Hget as -> <-.
  split; [done|]. rewrite Hval, sent_sent. split; [done|]. intros. by apply sent_text.
Qed.
End end_to_end.

(** ** Example: a service writes a secret through the client and reads it *)
Section examples.
#[local] Existing Instance sample.primitives.
#[local] Existing Instance sample.primitive_laws.
#[local] Instance unsigned : Ed25519 := fun _ _ _ => false.
#[local] Instance by_key : MapOrder := fun m => (map_to_list m).*1.
#[local] Instance no_pages : ui.Assets := fun _ => None.
#[local] Instance no_literals : IPLiterals := fun _ => false.
Local Definition bounds : ratelimit.Limiter * ratelimit.Limiter :=
  match rateLimits config.Default with Ok l => l | Err _ => (ratelimit.MkLimiter (float64 1) (float64 1) 1 1, ratelimit.MkLimiter (float64 1) (float64 1) 1 1) end.
Local Definition instruments : metrics.Registry World := match telemetry.newTelemetry with Ok r => r | Err _ => metrics.New end.
Local Definition assembled : App := MkApp config.Default None (fst bounds) (snd bounds) instruments.
Local Definition source : string := "10.0.0.7:4000".
#[local] Instance local_network : Transport World := direct assembled source.
Local Definition empty : World := set_seal_memory (MkSealMemory (Some (crypto.sample_key 9)) 1 [])
  (fresh_world (fun n => (1700000000 + Z.of_nat n) * Second) (fun n => Z.of_nat (7 * n + 3))).
Local Definition writers : policy.Policy := policy.MkPolicy "writers" [policy.MkRule "secret/acme/*" [authz.Read; authz.Write]].
Local Definition enrolled : World :=
  snd (manager.Bind "acme" "svc-1" "writers" (snd (manager.Put "acme" writers (snd (auth.RegisterIdentity "svc-1" authn.KindService "acme" empty))))).
Local Definition bearer : list Z := bytes_of_string (auth.tokenPrefix +:+ RawURLEncode (draw auth.tokenBytes (entropy enrolled))).
Local Definition running : World := snd (auth.Manager_Issue "svc-1" auth.NoBinding Hour enrolled).
Local Definition home : string := "https://secrets.internal:8200".
Local Definition service : client.Client := client.MkClient home client.DefaultTimeout bearer.
Lemma home_origin : url.origin home "https" "secrets.internal:8200".
Proof. split; [by left|]. exists "secrets.internal:8200". split_and!; by vm_compute. Qed.
Lemma running_nothing : implements keep nothing running.
Proof.
  apply (implements_tables keep nothing empty); [by vm_compute..|]. by apply implements_nothing.
Qed.
Lemma place_ok : addressable "acme" "db/main".
Proof. split; [split; [by vm_compute|done]|by vm_compute|by vm_compute]. Qed.
Local Definition hunter2 : list Z := bytes_of_string "hunter2".
Local Definition written : result Z * client.Linked World := client.WriteSecret "acme" "db/main" hunter2 None (client.MkLinked service running).
Local Definition read_back : result client.Secret * client.Linked World := client.ReadSecret "acme" "db/main" 0 (snd written).
Lemma written_ok : fst written = Ok 1.
Proof. by vm_compute. Qed.
Lemma read_back_ok : result_map client.Value (fst read_back) = Ok hunter2.
Proof. by vm_compute. Qed.
(** What [addressable] leaves out: the client does not escape what it puts behind the
  address, so a question mark ends the path, and a path that is not clean comes back as
  a redirect, which the client follows. *)
Lemma read_elsewhere :
  result_map client.Value (fst (client.ReadSecret "acme" "db/main?x" 0 (snd written))) = Ok hunter2 ∧
  result_map client.Value (fst (client.ReadSecret "acme" "db//main" 0 (snd written))) = Ok hunter2 ∧
  result_map client.Value (fst (client.ReadSecret "elsewhere/.." "/acme/db/main" 0 (snd written))) = Ok hunter2.
Proof. by vm_compute. Qed.
Local Definition first_write : exchange := XWrite "acme" "db/main" hunter2 None.
Local Definition first : result answer * client.Linked World := perform first_write (client.MkLinked service running).
Lemma first_ok : fst first = Ok (AVersion 1).
Proof. by vm_compute. Qed.
Local Definition got : client.Secret :=
  match fst read_back with Ok s => s | Err _ => client.MkSecret [] 0 None "" 0 end.
Lemma got_ok : fst read_back = Ok got.
Proof. pose proof read_back_ok as E. unfold got. by destruct (fst read_back). Qed.
Lemma write_fits : sendable first_write.
Proof. split; [|done]. apply (bool_decide_unpack _). by vm_compute. Qed.
#[local] Opaque perform client.WriteSecret client.ReadSecret.
Lemma first_run : perform first_write (client.MkLinked service running) = (Ok (AVersion 1), snd first).
Proof. exact (pair_fst first _ first_ok). Qed.
Lemma written_run : client.WriteSecret "acme" "db/main" hunter2 None (client.MkLinked service running) = (Ok 1, snd written).
Proof. exact (pair_fst written _ written_ok). Qed.
Lemma read_run : client.ReadSecret "acme" "db/main" 0 (snd written) = (Ok got, snd read_back).
Proof. exact (pair_fst read_back _ got_ok). Qed.
Lemma client_refines_witness : client.linked (snd first) = service ∧
  ∃ a' s', specified keep (intended first_write) nothing = (Ok a', s') ∧ AVersion 1 = shown a' ∧ implements keep s' (client.network (snd first)).
Proof.
  pose proof (client_refines assembled source home "https" "secrets.internal:8200" home_origin nothing first_write service running (Ok (AVersion 1)) (snd first)
    (direct_authentic assembled source)) as X.
  exact (X eq_refl place_ok write_fits running_nothing first_run).
Defined.
Lemma client_reads_back_witness : client.Version got = 1 ∧ client.Value got = sent hunter2 ∧
  (Forall byte_ok hunter2 → utf8_valid (string_of_bytes hunter2) = true → client.Value got = hunter2).
Proof.
  pose proof (client_reads_back assembled source home "https" "secrets.internal:8200" home_origin nothing "acme" "db/main" hunter2 None 0 1 service running
    (snd written) (snd read_back) got (direct_authentic assembled source)) as X.
  refine (X eq_refl place_ok write_fits running_nothing written_run read_run _ _); [by left|done].
Defined.
End examples.
End wire.
