(* ===== verification/Writers.v ===== *)
(** How an answer gets onto the wire: platform/httpx/middleware.go and the watcher
  of app/telemetry.go, over the [http.ResponseWriter] each of them is given, with
  handlers that may panic and the lines of the access log.

  The other files take a handler for a function that returns its answer, and the
  middleware for functions of that.  Here a handler writes, step by step, to a
  writer; two of the middlewares put a writer of their own around the one they were
  given.  That both views agree for a handler that returns, and what becomes of
  one that panics, is proved here. *)
From Stdlib Require Import ZArith Lia.
From S2P Require Import Prelude GoStrings GoTime Base64 Json World Policy Httpx Envelope AuditTrail SealManager Interfaces GoNumbers PolicyStore Cipher Walk SecretStore Lease Param Rotate SecretHttp Auth Metrics Telemetry Jwt GoMux Ratelimit Config Pages App Answers Wire.

Module writers.
Import wire.
(** [http.ResponseWriter]: [Header().Set], [WriteHeader], and [Write], which tells how
  many bytes it took. *)
Class Writer (W : Type) := { set : string → string → W → W; WriteHeader : Z → W → W; Write : string → W → Z * W }.

(** ** The writer of a connection (net/http)
  The first status that is not informational is the answer, with the headers of that
  moment; a body that is written before it answers 200, and some statuses have no body. *)
Record Conn := MkConn { head : bool; header : gmap string string; answered : option (Z * gmap string string); text : string }.
Definition informational (st : Z) : bool := (100 <=? st) && (st <=? 199) && negb (st =? 101).
Definition body_allowed (st : Z) : bool := negb ((st <? 200) || (st =? 204) || (st =? 304)).
Definition conn_WriteHeader (st : Z) (c : Conn) : Conn :=
  match answered c with
  | Some _ => c
  | None => if informational st then c else MkConn (head c) (header c) (Some (st, header c)) (text c)
  end.
#[export] Instance conn_writer : Writer Conn := {|
  set k v c := MkConn (head c) (<[k := v]> (header c)) (answered c) (text c);
  WriteHeader := conn_WriteHeader;
  Write b c :=
    let c := conn_WriteHeader StatusOK c in
    if body_allowed (from_option fst StatusOK (answered c)) then (len b, MkConn (head c) (header c) (answered c) (text c +:+ b)) else (0, c) |}.
(** What the client gets when the handler is done; a request with HEAD gets no body. *)
Definition reply (c : Conn) : Z * gmap string string * string :=
  (default (StatusOK, header c) (answered c), if head c then "" else text c).

(** ** statusRecorder and statusWatcher *)
Record Recorder (W : Type) := MkRecorder { inner : W; status : Z; written : Z; sent : bool }.
Arguments MkRecorder {W} inner status written sent.
Arguments inner {W} _.
Arguments status {W} _.
Arguments written {W} _.
Arguments sent {W} _.
#[export] Instance recorder_writer `{Writer W} : Writer (Recorder W) := {|
  set k v rec := MkRecorder (set k v (inner rec)) (status rec) (written rec) (sent rec);
  WriteHeader st rec := if sent rec then rec else MkRecorder (WriteHeader st (inner rec)) st (written rec) true;
  Write b rec := let '(n, w) := Write b (inner rec) in (n, MkRecorder w (status rec) (written rec + n) true) |}.
Record Watcher (W : Type) := MkWatcher { watched : W; w_status : Z; w_sent : bool }.
Arguments MkWatcher {W} watched w_status w_sent.
Arguments watched {W} _.
Arguments w_status {W} _.
Arguments w_sent {W} _.
#[export] Instance watcher_writer `{Writer W} : Writer (Watcher W) := {|
  set k v s := MkWatcher (set k v (watched s)) (w_status s) (w_sent s);
  WriteHeader st s := if w_sent s then s else MkWatcher (WriteHeader st (watched s)) st true;
  Write b s := let '(n, w) := Write b (watched s) in (n, MkWatcher w (w_status s) true) |}.

(** ** Handlers
  What a handler does to its writer; none of them looks at what [Write] answers. *)
Inductive action := ASet (k v : string) | AHeader (st : Z) | AWrite (b : string).
Definition perform `{Writer W} (w : W) (a : action) : W :=
  match a with ASet k v => set k v w | AHeader st => WriteHeader st w | AWrite b => snd (Write b w) end.
Definition performs `{Writer W} (l : list action) (w : W) : W := foldl perform w l.
(** The lines of the log that the middleware writes. *)
Inductive line :=
| Handled (id method path : string) (status bytes : Z)
| Panicked (id method path : string).
Record ran (W : Type) := MkRan { panicked : bool; writer : W; lines : list line; world : World }.
Arguments MkRan {W} panicked writer lines world.
Arguments panicked {W} _.
Arguments writer {W} _.
Arguments lines {W} _.
Arguments world {W} _.
Definition RawHandler : Type := ∀ W, Writer W → Request → W → World → ran W.
Definition Middleware : Type := RawHandler → RawHandler.
Definition Chain (handler : RawHandler) (middlewares : list Middleware) : RawHandler := foldr (fun m h => m h) handler middlewares.
(** A handler that does [l] and then returns, or panics. *)
Definition writes (h : Request → World → list action * bool * World) : RawHandler := fun W _ r w s =>
  let '(l, panics, s) := h r s in MkRan panics (performs l w) [] s.
(** [httpx.JSON], [httpx.Problem] and their like: the headers, the status, the body. *)
Definition of_response (resp : Response) : list action :=
  map (fun kv => ASet kv.1 kv.2) (rev (headers resp)) ++ [AHeader (Httpx.status resp)] ++
  match body resp, page resp with None, None => [] | _, _ => [AWrite (text_of resp)] end.
Definition plain (h : Handler) : RawHandler := writes (fun r s => let '(resp, s) := h r s in (of_response resp, false, s)).

(** ** middleware.go *)
Definition Problem `{Writer W} (st : Z) (code : string) (w : W) : W := performs (of_response (httpx.Problem st code)) w.
Definition Recover : Middleware := fun next W _ r w s =>
  let x := next W _ r w s in
  if panicked x
  then MkRan false (Problem StatusInternalServerError "internal_error" (writer x)) (lines x ++ [Panicked (RequestID r) (Method r) (URLPath r)]) (world x)
  else x.
Definition RequestID_ : Middleware := fun next W _ r w s =>
  match rand_read 26 s with
  | (Ok b, s) => let id := httpx.rand_Text b in next W _ (httpx.with_request_id id r) (set "X-Request-Id" id w) s
  | (Err _, s) => MkRan false (Problem StatusInternalServerError "internal_error" w) [] s
  end.
Definition SecurityHeaders : Middleware := fun next W _ r w s =>
  next W _ r (set "Referrer-Policy" "no-referrer" (set "X-Frame-Options" "DENY"
    (set "X-Content-Type-Options" "nosniff" (set "Cache-Control" "no-store" w)))) s.
Definition AccessLog : Middleware := fun next W _ r w s =>
  let x := next (Recorder W) _ r (MkRecorder w StatusOK 0 false) s in
  MkRan (panicked x) (inner (writer x))
    (if panicked x then lines x else lines x ++ [Handled (RequestID r) (Method r) (URLPath r) (status (writer x)) (written (writer x))]) (world x).
Definition telemetry_middleware : Middleware := fun next W _ r w s =>
  let x := next (Watcher W) _ r (MkWatcher w StatusOK false) s in
  MkRan (panicked x) (watched (writer x)) (lines x)
    (if panicked x then world x else metrics.Inc telemetry.requests [Method r; StatusText (w_status (writer x))] (world x)).
Definition requireUnsealed (allowed : list string) : Middleware := fun next W _ r w s =>
  if bool_decide (URLPath r ∈ allowed) || seal.IsUnsealed s then next W _ r w s
  else MkRan false (Problem StatusServiceUnavailable "sealed" w) [] s.
(** [App.Handler], and one request on a connection. *)
Definition Handler_ (allowed : list string) (mux : RawHandler) : RawHandler :=
  Chain mux [Recover; RequestID_; SecurityHeaders; AccessLog; telemetry_middleware; requireUnsealed allowed].
Definition ServeHTTP (h : RawHandler) (is_head : bool) (r : Request) (s : World) : ran Conn := h Conn _ r (MkConn is_head ∅ None "") s.

(** ** The wrappers tell the truth
  What a writer has answered, how many bytes it took, and the states in which the wrappers
  agree with what they wrap. *)
Class WriterLaws (W : Type) `{Writer W} := {
  said : W → option Z;
  taken : W → Z;
  fine : W → Prop;
  set_fine k v w : fine w → fine (set k v w) ∧ said (set k v w) = said w ∧ taken (set k v w) = taken w;
  header_fine st w : fine w → informational st = false →
    fine (WriteHeader st w) ∧ said (WriteHeader st w) = Some (default st (said w)) ∧ taken (WriteHeader st w) = taken w;
  header_once st w : fine w → is_Some (said w) → WriteHeader st w = w;
  write_fine b w : fine w → fine (snd (Write b w)) ∧ said (snd (Write b w)) = Some (default StatusOK (said w)) ∧
    taken (snd (Write b w)) = taken w + fst (Write b w) }.
#[export] Instance conn_laws : WriterLaws Conn.
Proof.
  refine {| said c := fst <$> answered c; taken c := len (text c); fine c := True |}.
  - done.
  - intros st c _ Hst. cbn. unfold conn_WriteHeader. rewrite Hst. by destruct (answered c) as [[]|] eqn:E; cbn; rewrite ?E.
  - intros st c _ [x Hx]. cbn in *. unfold conn_WriteHeader. by destruct (answered c).
  - intros b c _. cbn. unfold conn_WriteHeader. split; [done|]. destruct (answered c) as [[st h]|] eqn:E; cbn; rewrite ?E; cbn.
    + destruct (body_allowed st); cbn; rewrite ?E; (split; [done|]); [|lia]. unfold len. rewrite length_app_string. lia.
    + split; [done|]. unfold len. rewrite length_app_string. lia.
Defined.
#[export] Instance recorder_laws `{WriterLaws W} : WriterLaws (Recorder W).
Proof.
  refine {| said rec := said (inner rec); taken rec := taken (inner rec);
    fine rec := fine (inner rec) ∧ sent rec = bool_decide (is_Some (said (inner rec))) ∧ status rec = default StatusOK (said (inner rec)) ∧ written rec = taken (inner rec) |}.
  - intros k v [w st n b]. cbn. intros (Hf&Hs&Hst&Hn). destruct (set_fine k v w Hf) as (?&->&->). done.
  - intros st [w st' n b]. cbn. intros (Hf&->&Hst&Hn) Hi. destruct (header_fine st w Hf Hi) as (?&Es&Et). destruct (said w) as [x|] eqn:Ew; cbn.
    + rewrite Ew. done.
    + rewrite Es, Et. cbn in Es. done.
  - intros st [w st' n b]. cbn. intros (Hf&->&_&_) Hs. by rewrite bool_decide_true.
  - intros b [w st n s]. cbn. intros (Hf&Hs&Hst&Hn). destruct (write_fine b w Hf) as (Hf'&Es&Et). destruct (Write b w) as [m w'] eqn:Ew. cbn in *. rewrite Es, Et.
    cbn. split_and!; try done. by rewrite Hn.
Defined.
#[export] Instance watcher_laws `{WriterLaws W} : WriterLaws (Watcher W).
Proof.
  refine {| said s := said (watched s); taken s := taken (watched s);
    fine s := fine (watched s) ∧ w_sent s = bool_decide (is_Some (said (watched s))) ∧ w_status s = default StatusOK (said (watched s)) |}.
  - intros k v [w st b]. cbn. intros (Hf&Hs&Hst). destruct (set_fine k v w Hf) as (?&->&->). done.
  - intros st [w st' b]. cbn. intros (Hf&->&Hst) Hi. destruct (header_fine st w Hf Hi) as (?&Es&Et). destruct (said w) as [x|] eqn:Ew; cbn.
    + rewrite Ew. done.
    + rewrite Es, Et. cbn in Es. done.
  - intros st [w st' b]. cbn. intros (Hf&->&_) Hs. by rewrite bool_decide_true.
  - intros b [w st s]. cbn. intros (Hf&Hs&Hst). destruct (write_fine b w Hf) as (Hf'&Es&Et). destruct (Write b w) as [m w'] eqn:Ew. cbn in *. rewrite Es. done.
Defined.
Definition settles (a : action) : Prop := match a with AHeader st => informational st = false | _ => True end.
Section through.
Context `{WriterLaws W}.
Lemma perform_fine a w : settles a → fine w → fine (perform w a).
Proof. destruct a as [k v|st|b]; cbn; intros Ha Hf; [by apply set_fine|by apply header_fine|by apply write_fine]. Qed.
Lemma performs_fine l w : Forall settles l → fine w → fine (performs l w).
Proof. intros Hl. revert w. induction Hl as [|a l Ha _ IH]; intros w Hf; [done|]. by apply IH, perform_fine. Qed.
Lemma recorder_step a (rec : Recorder W) : fine rec → inner (perform rec a) = perform (inner rec) a.
Proof.
  destruct rec as [w st n b]. cbn. intros (Hf&->&_&_). destruct a as [k v|st'|b']; cbn; [done| |by destruct (Write b' w)].
  case_bool_decide as E; [|done]. cbn. by rewrite header_once.
Qed.
Lemma watcher_step a (s : Watcher W) : fine s → watched (perform s a) = perform (watched s) a.
Proof.
  destruct s as [w st b]. cbn. intros (Hf&->&_). destruct a as [k v|st'|b']; cbn; [done| |by destruct (Write b' w)].
  case_bool_decide as E; [|done]. cbn. by rewrite header_once.
Qed.
End through.
Lemma recorder_through `{WriterLaws W} l (rec : Recorder W) : Forall settles l → fine rec →
  inner (performs l rec) = performs l (inner rec) ∧ status (performs l rec) = default StatusOK (said (performs l (inner rec))) ∧ written (performs l rec) = taken (performs l (inner rec)).
Proof.
  intros Hl Hf. assert (inner (performs l rec) = performs l (inner rec)) as E.
  { revert rec Hf. induction Hl as [|a l Ha _ IH]; intros rec Hf; [done|]. cbn [performs foldl]. fold (performs l (perform rec a)).
    rewrite IH by by apply perform_fine. by rewrite recorder_step. }
  pose proof (performs_fine l rec Hl Hf) as (_&_&Hs&Hw). by rewrite <- E, Hs, Hw.
Qed.
Lemma watcher_through `{WriterLaws W} l (s : Watcher W) : Forall settles l → fine s →
  watched (performs l s) = performs l (watched s) ∧ w_status (performs l s) = default StatusOK (said (performs l (watched s))).
Proof.
  intros Hl Hf. assert (watched (performs l s) = performs l (watched s)) as E.
  { revert s Hf. induction Hl as [|a l Ha _ IH]; intros s Hf; [done|]. cbn [performs foldl]. fold (performs l (perform s a)).
    rewrite IH by by apply perform_fine. by rewrite watcher_step. }
  pose proof (performs_fine l s Hl Hf) as (_&_&Hs). by rewrite <- E, Hs.
Qed.

(** ** The chain around a handler that writes [l] *)
Definition prepared (is_head : bool) (id : string) : Conn :=
  MkConn is_head (<["Referrer-Policy" := "no-referrer"]> (<["X-Frame-Options" := "DENY"]> (<["X-Content-Type-Options" := "nosniff"]>
    (<["Cache-Control" := "no-store"]> (<["X-Request-Id" := id]> ∅))))) None "".
Definition drawn (s : World) : string := httpx.rand_Text (draw 26 (entropy s)).
Definition after_draw (s : World) : World := snd (rand_read 26 s).
(** What the gate lets through; the rest it answers itself. *)
Definition gated (allowed : list string) (h : Request → World → list action * bool * World) : Request → World → list action * bool * World := fun r s =>
  if bool_decide (URLPath r ∈ allowed) || seal.IsUnsealed s then h r s
  else (of_response (httpx.Problem StatusServiceUnavailable "sealed"), false, s).
Lemma gate_writes allowed h W (I : Writer W) r w s : requireUnsealed allowed (writes h) W I r w s = writes (gated allowed h) W I r w s.
Proof. unfold requireUnsealed, writes, gated. by destruct (_ || _). Qed.
Definition counted (r : Request) (st : Z) (s : World) : World := metrics.Inc telemetry.requests [Method r; StatusText st] s.
Lemma chain_runs allowed h is_head r s l panics s' : gated allowed h (httpx.with_request_id (drawn s) r) (after_draw s) = (l, panics, s') → Forall settles l →
  let c := performs l (prepared is_head (drawn s)) in
  ServeHTTP (Handler_ allowed (writes h)) is_head r s =
  if panics
  then MkRan false (Problem StatusInternalServerError "internal_error" c) [Panicked (RequestID r) (Method r) (URLPath r)] s'
  else MkRan false c [Handled (drawn s) (Method r) (URLPath r) (default StatusOK (said c)) (taken c)] (counted r (default StatusOK (said c)) s').
Proof.
  intros Eh Hl. cbn zeta. unfold ServeHTTP, Handler_, Chain. cbn [foldr]. unfold Recover, RequestID_, rand_read, SecurityHeaders, AccessLog, telemetry_middleware. cbv beta iota zeta.
  rewrite !gate_writes. unfold writes. fold (drawn s). change (set_entropy _ s) with (after_draw s). rewrite Eh. cbn [panicked writer lines world].
  set (c := prepared is_head (drawn s)). match goal with |- context [MkRecorder ?c0 StatusOK 0 false] => change c0 with c end.
  set (rec := MkRecorder c StatusOK 0 false). assert (fine rec) as Hrec by done. assert (fine (MkWatcher rec StatusOK false)) as Hw by done.
  destruct (watcher_through l _ Hl Hw) as [Ei Es]. destruct (recorder_through l _ Hl Hrec) as (Er&Ers&Ert). rewrite Ei, Es. cbn [watched]. rewrite Er, Ers, Ert. cbn [inner].
  change (said (performs l rec)) with (said (inner (performs l rec))). rewrite Er. by destruct panics.
Qed.

(** ** A handler that returns *)
Definition headers_of (l : list (string * string)) : gmap string string := list_to_map l.
Definition common : list string := ["X-Request-Id"; "Cache-Control"; "X-Content-Type-Options"; "X-Frame-Options"; "Referrer-Policy"].
(** A final status, a body only where there may be one, and none of the headers that the
  middleware sets. *)
Record proper (resp : Response) : Prop := {
  pr_status : 200 ≤ Httpx.status resp;
  pr_body : body_allowed (Httpx.status resp) = true ∨ body resp = None ∧ page resp = None;
  pr_headers : Forall (fun kv => kv.1 ∉ common) (headers resp) }.
Lemma performs_app `{Writer W} l l' (w : W) : performs (l ++ l') w = performs l' (performs l w).
Proof. apply foldl_app. Qed.
Lemma performs_sets l c : performs (map (fun kv => ASet kv.1 kv.2) (rev l)) c = MkConn (head c) (headers_of l ∪ header c) (answered c) (text c).
Proof.
  unfold headers_of. induction l as [|[k v] l IH]; [cbn; rewrite map_empty_union; by destruct c|]. cbn [rev]. rewrite map_app, performs_app, IH. cbn.
  by rewrite insert_union_l.
Qed.
Lemma not_informational st : 200 ≤ st → informational st = false.
Proof. intros Hst. unfold informational. destruct (Z.leb_spec st 199); [lia|]. by rewrite andb_false_r. Qed.
Lemma of_response_settles resp : 200 ≤ Httpx.status resp → Forall settles (of_response resp).
Proof.
  intros Hs. unfold of_response. apply Forall_app. split; [apply Forall_fmap, Forall_forall; by intros [] _|]. apply Forall_cons. split; [by apply not_informational|].
  destruct (body resp), (page resp); repeat constructor.
Qed.
Lemma performs_response resp is_head h : proper resp →
  performs (of_response resp) (MkConn is_head h None "") = MkConn is_head (headers_of (headers resp) ∪ h) (Some (Httpx.status resp, headers_of (headers resp) ∪ h)) (text_of resp).
Proof.
  intros [Hs Hb _]. unfold of_response. rewrite !performs_app, performs_sets. cbn [performs foldl perform head header answered text].
  cbn [WriteHeader conn_writer]. unfold conn_WriteHeader at 1. cbn [answered head header text]. rewrite not_informational by done.
  assert (∀ b c, body_allowed (Httpx.status resp) = true → fst <$> answered c = Some (Httpx.status resp) → snd (Write b c) = MkConn (head c) (header c) (answered c) (text c +:+ b)) as Hwrite.
  { intros b c Ha Hc. cbn. unfold conn_WriteHeader. destruct (answered c) as [[st hd]|] eqn:E; [|done]. cbn in Hc. injection Hc as ->. rewrite E. cbn. by rewrite Ha. }
  unfold text_of. destruct (body resp) as [j|] eqn:Ej, (page resp) as [p|] eqn:Ep; cbn [performs foldl perform]; [..|done];
    (rewrite Hwrite; [done|by destruct Hb as [|[? ?]]|done]).
Qed.
Lemma headers_common l m : Forall (fun kv => kv.1 ∉ common) l → Forall (fun kv : string * string => kv.1 ∈ common) m → headers_of l ∪ headers_of m = headers_of (m ++ l).
Proof.
  intros Hl Hm. unfold headers_of. rewrite list_to_map_app. apply map_union_comm, map_disjoint_spec. intros k v v' Hv%elem_of_list_to_map_2 Hv'%elem_of_list_to_map_2.
  apply (proj1 (Forall_forall _ _) Hl (k, v) Hv), (proj1 (Forall_forall _ _) Hm (k, v') Hv').
Qed.
Lemma proper_Problem st code : 200 ≤ st → body_allowed st = true → proper (httpx.Problem st code).
Proof. intros Hs Hb. split; [done|by left|]. repeat constructor. unfold common. cbn. set_solver. Qed.
(** What both views make of one request. *)
Definition agrees (x : ran Conn) (is_head : bool) (r : Request) (id : string) (resp : Response) (s : World) : Prop :=
  panicked x = false ∧ world x = s ∧
  reply (writer x) = (Httpx.status resp, headers_of (headers resp), if is_head then "" else text_of resp) ∧
  lines x = [Handled id (Method r) (URLPath r) (Httpx.status resp) (len (text_of resp))].
Lemma chain_agrees allowed (h : Handler) is_head r s : (∀ r s, proper (fst (h r s))) →
  let '(resp, s') := httpx.Chain h [httpx.RequestID_; httpx.SecurityHeaders; telemetry.middleware; app.requireUnsealed allowed] r s in
  agrees (ServeHTTP (Handler_ allowed (plain h)) is_head r s) is_head r (drawn s) resp s'.
Proof.
  intros Hh. rewrite !httpx.Chain_cons. unfold httpx.Chain. cbn [rev foldl]. unfold httpx.RequestID_, rand_read, httpx.SecurityHeaders, telemetry.middleware.
  fold (drawn s). change (set_entropy _ s) with (after_draw s). set (r' := httpx.with_request_id (drawn s) r).
  destruct (app.requireUnsealed allowed h r' (after_draw s)) as [resp s'] eqn:Eg.
  assert (gated allowed (fun r s => let '(resp, s) := h r s in (of_response resp, false, s)) r' (after_draw s) = (of_response resp, false, s') ∧ proper resp) as [Eg' Hp].
  { unfold app.requireUnsealed in Eg. unfold gated. destruct (_ || _).
    - specialize (Hh r' (after_draw s)). rewrite Eg in Hh |- *. done.
    - injection Eg as <- <-. split; [done|]. by apply proper_Problem. }
  unfold plain. rewrite (chain_runs _ _ _ _ _ _ _ _ Eg') by by apply of_response_settles, Hp. cbn zeta. unfold agrees. cbn [panicked world writer lines].
  unfold prepared. rewrite !(performs_response _ _ _ Hp). cbn [said taken conn_laws answered text fmap option_fmap option_map fst default].
  split; [done|]. split; [done|]. split; [|done]. unfold reply. cbn [answered head text default]. apply pair_equal_spec. split; [|done]. apply pair_equal_spec. split; [done|].
  cbn [httpx.set_header headers]. destruct Hp as [_ _ Hd].
  set (set_here := [("X-Request-Id", drawn s); ("Cache-Control", "no-store"); ("X-Content-Type-Options", "nosniff"); ("X-Frame-Options", "DENY"); ("Referrer-Policy", "no-referrer")]).
  transitivity (headers_of (set_here ++ headers resp)); [|done]. rewrite <- (headers_common (headers resp) set_here Hd).
  - done.
  - unfold set_here. repeat constructor; unfold common; cbn; set_solver.
Qed.

(** ** Every route of the server answers properly *)
Definition answers (h : Handler) : Prop := ∀ r s, proper (fst (h r s)).
Lemma proper_ordinary resp : answers.ordinary resp → proper resp.
Proof.
  intros [Hs Hh Hb]. unfold answers.statuses in Hs. rewrite !elem_of_cons in Hs. split.
  - destruct_or! Hs; try (by apply elem_of_nil in Hs); by rewrite Hs.
  - destruct (decide (Httpx.status resp = StatusNoContent)) as [E|Hn]; [right; by apply Hb|left].
    destruct_or! Hs; try (by apply elem_of_nil in Hs); (by rewrite Hs) || by destruct Hn.
  - eapply Forall_impl; [exact Hh|]. intros [k v] Hk. cbn [fst] in *. intros Hc. revert k Hk Hc. apply (Forall_forall (fun k => k ∉ common)), (bool_decide_unpack _). by vm_compute.
Qed.
Lemma proper_redirect slash r : proper (app.redirect slash r).
Proof.
  split; [done|by left|]. unfold app.redirect. cbn [headers]. constructor; [apply (bool_decide_unpack _); by vm_compute|].
  case_bool_decide; repeat constructor. apply (bool_decide_unpack _). by vm_compute.
Qed.
Section routes.
Context `{Primitives} `{Ed25519} `{MapOrder} `{ui.Assets} (a : app.App).
Lemma mux_answers : answers (app.serve_mux (app.routes a)).
Proof. intros r s. destruct (answers.mux_ordinary a r s) as [Ho|[slash ->]]; [by apply proper_ordinary|apply proper_redirect]. Qed.
(** C25. The functional view of the server is the one on the wire. For every
  configuration of the server and every request, in every state, the middleware with its
  two recorders around the handlers, writing to a connection, sends the status, the
  headers and the body that [app.Handler_] answers, with no body for HEAD; it leaves the
  same state, the counters included, does not panic, and logs one line, with the request
  id that the client gets, the status that was sent and the number of bytes. *)
Theorem server_answers (is_head : bool) (r : Request) (s : World) :
  let '(resp, s') := app.Handler_ a r s in
  agrees (ServeHTTP (Handler_ (app.allowedWhileSealed a) (plain (app.serve_mux (app.routes a)))) is_head r s) is_head r (drawn s) resp s'.
Proof. apply chain_agrees. intros r' s1. apply mux_answers. Qed.
End routes.

(** ** Whatever a handler writes *)
Definition problem_text : string := text_of (httpx.Problem StatusInternalServerError "internal_error").
Lemma problem_actions : of_response (httpx.Problem StatusInternalServerError "internal_error") =
  [ASet "Content-Type" "application/json"; AHeader StatusInternalServerError; AWrite problem_text].
Proof. reflexivity. Qed.
#[local] Opaque problem_text.
Lemma performs_head l c : head (performs l c) = head c.
Proof.
  revert c. induction l as [|a l IH]; intros c; [done|]. cbn [performs foldl]. fold (performs l (perform c a)). rewrite IH. destruct a as [k v|st|b]; cbn; [done|..];
    unfold conn_WriteHeader; destruct (answered c) as [[]|]; cbn; by repeat case_match.
Qed.
(** A problem behind what has been written. *)
Lemma Problem_behind (c : Conn) : reply (Problem StatusInternalServerError "internal_error" c) = match answered c with
  | None => (StatusInternalServerError, <["Content-Type" := "application/json"]> (header c), if head c then "" else text c +:+ problem_text)
  | Some (st, hd) => (st, hd, if head c then "" else text c +:+ (if body_allowed st then problem_text else ""))
  end.
Proof.
  unfold Problem, reply. rewrite problem_actions. cbn. unfold conn_WriteHeader. cbn. destruct (answered c) as [[st hd]|]; cbn; [|done].
  destruct (body_allowed st); cbn; [done|]. by rewrite str_app_nil_r.
Qed.
(** Nobody has a body before an answer. *)
Lemma unanswered_empty l c : (answered c = None → text c = "") → answered (performs l c) = None → text (performs l c) = "".
Proof.
  revert c. induction l as [|a l IH]; intros c Hc; [done|]. cbn [performs foldl]. fold (performs l (perform c a)). apply IH. destruct a as [k v|st|b]; cbn; [done|..];
    unfold conn_WriteHeader; destruct (answered c) as [[]|] eqn:E; cbn; rewrite ?E; cbn; repeat case_match; try (intros; exfalso; congruence); cbn; rewrite ?E; try done; auto.
Qed.
(** C26. Whatever a handler writes, in whatever order and however often, and whether it
  then returns or panics, as long as its statuses are final ones. When it returns, the
  line of the access log and the counter have the status that was sent and the log the
  number of bytes. When it panics, the client that has been sent nothing gets 500 with a
  problem, under the headers set so far and those of the middleware; one that has been
  sent something keeps the status and the headers and gets the problem behind what it
  already has; the panic is logged with the request id of the request as it arrived, which
  is empty, and the request is neither counted nor in the access log. *)
Theorem whatever_is_written (allowed : list string) (h : Request → World → list action * bool * World) (is_head : bool) (r : Request) (s s' : World)
  (l : list action) (panics : bool) (Hrun : gated allowed h (httpx.with_request_id (drawn s) r) (after_draw s) = (l, panics, s')) (Hl : Forall settles l) :
  let x := ServeHTTP (Handler_ allowed (writes h)) is_head r s in
  let c := performs l (prepared is_head (drawn s)) in
  let '(st, hd) := default (StatusOK, header c) (answered c) in
  panicked x = false ∧
  if panics
  then lines x = [Panicked (RequestID r) (Method r) (URLPath r)] ∧ world x = s' ∧
    reply (writer x) = match answered c with
      | None => (StatusInternalServerError, <["Content-Type" := "application/json"]> (header c), if is_head then "" else problem_text)
      | Some _ => (st, hd, if is_head then "" else text c +:+ (if body_allowed st then problem_text else ""))
      end
  else lines x = [Handled (drawn s) (Method r) (URLPath r) st (len (text c))] ∧ world x = counted r st s' ∧
    reply (writer x) = (st, hd, if is_head then "" else text c).
Proof.
  rewrite (chain_runs _ _ _ _ _ _ _ _ Hrun Hl). set (c := performs l _). cbn zeta. assert (head c = is_head) as Hhead by apply performs_head.
  pose proof (unanswered_empty l (prepared is_head (drawn s)) (fun _ => eq_refl)) as Hempty. fold c in Hempty. cbn [said taken conn_laws].
  destruct panics; cbn [panicked lines world writer].
  - rewrite Problem_behind, Hhead. destruct (answered c) as [[st hd]|]; cbn [default]; [done|]. by rewrite Hempty.
  - unfold reply. rewrite Hhead. by destruct (answered c) as [[st hd]|].
Qed.

(** ** A handler that stops in the middle of its answer *)
Section example.
Local Definition morning : World := fresh_world (fun n => (1700000000 + Z.of_nat n) * Second) (fun n => Z.of_nat n).
Local Definition asked : Request := MkRequest "GET" "/v1/sys/health" "/v1/sys/health" (fun _ => "") (fun _ => "") "" (fun _ => "") "" "10.0.0.7:4711" None "".
Local Definition half (_ : Request) (s : World) : list action * bool * World := ([AHeader StatusOK; AWrite "one half"; AHeader StatusNotFound], true, s).
Lemma half_settles : Forall settles [AHeader StatusOK; AWrite "one half"; AHeader StatusNotFound].
Proof. by repeat constructor. Qed.
Lemma whatever_is_written_witness :
  let x := ServeHTTP (Handler_ [app.health_path] (writes half)) false asked morning in
  panicked x = false ∧ lines x = [Panicked "" "GET" "/v1/sys/health"] ∧ world x = after_draw morning ∧
  reply (writer x) = (StatusOK, header (prepared false (drawn morning)), "one half" +:+ problem_text).
Proof.
  exact (whatever_is_written [app.health_path] half false asked morning (after_draw morning) [AHeader StatusOK; AWrite "one half"; AHeader StatusNotFound] true eq_refl
    half_settles).
Defined.
End example.
End writers.
