(* ===== verification/Lifecycle.v ===== *)
(** How the server ends: platform/httpx/server.go and [sweep] of app/app.go, as steps of
  the goroutines that are involved: the one that listens, the one that waits for the
  end, and the requests.  Serving.v puts the application behind them.

  From net/http, as it is documented: [Shutdown] closes the listener, waits until that
  accepts no more, and then until no connection is left that may have a request or is
  serving one, or until its context ends; a connection that has been accepted may have
  its request served all that time.  [ListenAndServe] returns [ErrServerClosed] once
  [Shutdown] has been called, and another error when it cannot listen or accept. *)
From Stdlib Require Import ZArith Lia.
From S2P Require Import Prelude GoStrings GoTime World Interfaces Config Lease Walk App.

Module lifecycle.
Definition deadline_exceeded : string := "context deadline exceeded".

(** ** httpx.Serve *)
(** Where [Serve] is: at its select, in [Shutdown], waiting for the listener, at its end;
  and whether the application has been closed since ([serve] of main.go). *)
Inductive place := Selecting | Stopping | Waiting | Returned (r : result unit) | Closed (r : result unit).
(** Where the listener is: reading the certificate and binding the address, in its loop,
  out of it. *)
Inductive phase := Preparing | Accepting | Stopped.
Record state := MkState {
  at_ : place;
  (** the goroutine is in [ListenAndServe], and where *)
  listening : bool;
  listener : phase;
  (** the channel [listenErr], with room for one *)
  listenErr : option (result unit);
  (** [Shutdown] has been called *)
  shutting : bool;
  (** [ctx] is done *)
  told : bool;
  (** connections from which a request may come *)
  connected : nat;
  (** requests that have begun and not ended *)
  in_flight : nat }.
Definition start : state := MkState Selecting true Preparing None false false 0 0.
Definition goto (p : place) (s : state) : state := MkState p (listening s) (listener s) (listenErr s) (shutting s) (told s) (connected s) (in_flight s).
Definition take_err (s : state) : state := MkState (at_ s) (listening s) (listener s) None (shutting s) (told s) (connected s) (in_flight s).
Definition listened (r : result unit) (s : state) : state := MkState (at_ s) false Stopped (Some r) (shutting s) (told s) (connected s) (in_flight s).
Definition turn (l : phase) (s : state) : state := MkState (at_ s) (listening s) l (listenErr s) (shutting s) (told s) (connected s) (in_flight s).
Definition shut (s : state) : state := MkState Stopping (listening s) (listener s) (listenErr s) true (told s) (connected s) (in_flight s).
Definition serving (c n : nat) (s : state) : state := MkState (at_ s) (listening s) (listener s) (listenErr s) (shutting s) (told s) c n.
Definition tell (s : state) : state := MkState (at_ s) (listening s) (listener s) (listenErr s) (shutting s) true (connected s) (in_flight s).
(** The steps of the clients and the operator: a connection is made, a request begins on
  one, ends and leaves it open or not, a connection is closed; the signal comes. *)
Inductive outside : state → state → Prop :=
| o_connect s : listener s = Accepting → outside s (serving (S (connected s)) (in_flight s) s)
| o_begin c s : connected s = S c → outside s (serving c (S (in_flight s)) s)
| o_end n (stays : bool) s : in_flight s = S n → outside s (serving (if stays then S (connected s) else connected s) n s)
| o_leave c s : connected s = S c → outside s (serving c (in_flight s) s)
| o_signal s : outside s (tell s).
(** The goroutine that listens: it does not start to accept once [Shutdown] has been
  called, and then stops.  What it fails with while it prepares it may return even then. *)
Inductive listens : state → state → Prop :=
| l_accepts s : listening s = true → listener s = Preparing → shutting s = false → listens s (turn Accepting s)
| l_fails e s : listening s = true → listener s = Preparing ∨ shutting s = false → listens s (listened (Err e) s)
| l_stops s : listening s = true → listener s = Accepting → shutting s = true → listens s (turn Stopped s)
| l_closed s : listening s = true → listener s ≠ Accepting → shutting s = true → listens s (listened (Ok tt) s).
(** What [Shutdown] waits for. *)
Definition drained (s : state) : Prop := listener s ≠ Accepting ∧ connected s = 0%nat ∧ in_flight s = 0%nat.
(** [Serve] itself; [s_timeout] is the context of [Shutdown]. *)
Inductive serves : state → state → Prop :=
| s_listener r s : at_ s = Selecting → listenErr s = Some r → serves s (goto (Returned r) (take_err s))
| s_told s : at_ s = Selecting → told s = true → serves s (shut s)
| s_drained s : at_ s = Stopping → drained s → serves s (goto Waiting s)
| s_close_fails e s : at_ s = Stopping → drained s → serves s (goto (Returned (Err e)) s)
| s_timeout s : at_ s = Stopping → serves s (goto (Returned (Err [deadline_exceeded])) s)
| s_received r s : at_ s = Waiting → listenErr s = Some r → serves s (goto (Returned r) (take_err s))
| s_close r s : at_ s = Returned r → serves s (goto (Closed r) s).
Definition step (s s' : state) : Prop := outside s s' ∨ listens s s' ∨ serves s s'.

(** ** The invariant *)
Definition at_end (p : place) : Prop := match p with Returned _ | Closed _ => True | _ => False end.
(** Where [Serve] is says what it has done, and what is left. *)
Definition so_far (s : state) : Prop :=
  match at_ s with
  | Selecting => shutting s = false
  | Stopping => shutting s = true ∧ told s = true
  | Waiting => shutting s = true ∧ told s = true ∧ drained s
  | Returned r | Closed r => r = Ok tt → shutting s = true ∧ told s = true ∧ drained s ∧ listening s = false
  end.
(** The channel has what the goroutine sent last; it is [nil] only after [Shutdown]. *)
Definition channel (s : state) : Prop :=
  match listenErr s with
  | Some r => listening s = false ∧ (r = Ok tt → shutting s = true)
  | None => listening s = true ∨ at_end (at_ s)
  end.
Definition inv (s : state) : Prop := so_far s ∧ channel s.
Lemma inv_start : inv start.
Proof. split; [done|by left]. Qed.
(** Once it is drained a server has no connections any more. *)
Lemma outside_drained s s' : outside s s' → drained s → drained s'.
Proof. unfold drained. intros [] (Hl&Hc&Hn); cbn; split_and!; congruence. Qed.
Lemma so_far_drained s s' : so_far s → at_ s' = at_ s → shutting s' = shutting s → (told s = true → told s' = true) → (listening s = false → listening s' = false) →
  (shutting s = true → drained s → drained s') → so_far s'.
Proof. unfold so_far. intros Hp -> -> Ht Hl Hd. destruct (at_ s); [done|destruct Hp; auto|destruct Hp as (?&?&?); auto|..]; intros Hr; destruct (Hp Hr) as (?&?&?&?); auto. Qed.
Lemma outside_inv s s' : inv s → outside s s' → inv s'.
Proof.
  intros [Hp Hc] Ho. pose proof (outside_drained _ _ Ho) as Hd. split; [|by destruct Ho].
  eapply so_far_drained; [exact Hp|by destruct Ho..|by intros _].
Qed.
Lemma listens_inv s s' : inv s → listens s s' → inv s'.
Proof.
  intros [Hp Hc] Hl. split.
  - eapply so_far_drained; [exact Hp|by destruct Hl..|]. unfold drained. intros Hs. destruct Hl; cbn in *; intros (?&?&?); split_and!; congruence.
  - unfold channel in *. destruct Hl as [s Hl _ _|e s Hl _|s Hl _ _|s Hl _ Hs]; cbn; [done|done|done|done].
Qed.
Lemma serves_inv s s' : inv s → serves s s' → inv s'.
Proof.
  unfold inv, so_far, channel. intros [Hp Hc] Hs. destruct Hs as [r s Ha Hr|s Ha Ht|s Ha Hn|e s Ha Hn|s Ha|r s Ha Hr|r s Ha]; cbn in *; rewrite Ha in *.
  - rewrite Hr in Hc. destruct Hc as [Hl Hsh]. split; [|by right]. intros ->. rewrite Hp in Hsh. by discriminate (Hsh eq_refl).
  - split; [done|]. destruct (listenErr s) as [r|]; [by destruct Hc|exact Hc].
  - destruct Hp as [Hsh Ht]. done.
  - split; [done|]. destruct (listenErr s); [done|by right].
  - split; [done|]. destruct (listenErr s); [done|by right].
  - rewrite Hr in Hc. destruct Hp as (Hsh&Ht&Hn), Hc as [Hl _]. split; [done|by right].
  - split; [done|]. destruct (listenErr s); [done|by right].
Qed.
Lemma inv_step s s' : inv s → step s s' → inv s'.
Proof. intros Hi [Ho|[Hl|Hs]]; [by eapply outside_inv|by eapply listens_inv|by eapply serves_inv]. Qed.
Lemma inv_steps s s' : inv s → rtc step s s' → inv s'.
Proof. intros Hi Hr. induction Hr as [s|s s1 s' Hs _ IH]; [done|]. by apply IH, (inv_step s). Qed.

(** ** Serve ends, and how *)
Definition rank (p : place) : nat := match p with Selecting => 4 | Stopping => 3 | Waiting => 2 | Returned _ => 1 | Closed _ => 0 end.
Lemma serves_forward s s' : serves s s' → (rank (at_ s') < rank (at_ s))%nat.
Proof. destruct 1 as [r s Ha|s Ha|s Ha|e s Ha|s Ha|r s Ha|r s Ha]; cbn; rewrite Ha; cbn; lia. Qed.
Lemma others_stay s s' : outside s s' ∨ listens s s' → at_ s' = at_ s.
Proof. intros [Ho|Hl]; [by destruct Ho|by destruct Hl]. Qed.
(** What [Serve] and the goroutine that listens do by themselves. *)
Definition own (s s' : state) : Prop := listens s s' ∨ serves s s'.
Lemma own_once s s' : own s s' → rtc own s s'.
Proof. apply rtc_once. Qed.
Lemma ends_from_waiting s : inv s → at_ s = Waiting → ∃ s', rtc own s s' ∧ at_end (at_ s') ∧ in_flight s' = in_flight s.
Proof.
  unfold inv, so_far, channel. intros [Hp Hc] Ha. rewrite Ha in *. destruct (listenErr s) as [r|] eqn:Er.
  - exists (goto (Returned r) (take_err s)). split; [apply own_once; right; by apply s_received|done].
  - destruct Hc as [Hl|[]]. destruct Hp as (Hs&_&Hd&_). exists (goto (Returned (Ok tt)) (take_err (listened (Ok tt) s))). split; [|done].
    eapply rtc_l; [left; by apply l_closed|]. apply own_once. right. by apply s_received.
Qed.
(** Once it has been told to stop, [Serve] comes to its end by itself: no request has to. *)
Lemma told_ends s : inv s → told s = true → ∃ s', rtc own s s' ∧ at_end (at_ s') ∧ in_flight s' = in_flight s.
Proof.
  intros Hi Ht. destruct (at_ s) eqn:Ha.
  - exists (goto (Returned (Err [deadline_exceeded])) (shut s)). split; [|done]. eapply rtc_l; [right; by apply s_told|]. apply own_once. right. by apply s_timeout.
  - exists (goto (Returned (Err [deadline_exceeded])) s). split; [|done]. apply own_once. right. by apply s_timeout.
  - by apply ends_from_waiting.
  - exists s. by rewrite Ha.
  - exists s. by rewrite Ha.
Qed.
Definition ended_well (p : place) : Prop := p = Returned (Ok tt) ∨ p = Closed (Ok tt).
Lemma step_ended_well s s' : step s s' → ended_well (at_ s) → ended_well (at_ s').
Proof.
  intros [Ho|[Hl|Hs]] He; [rewrite (others_stay s s'); auto..|]. destruct Hs as [r s Ha|s Ha|s Ha|e s Ha|s Ha|r s Ha|r s Ha]; destruct He as [E|E]; rewrite Ha in E; simplify_eq.
  by right.
Qed.
Lemma ended_well_stays s s' : rtc step s s' → ended_well (at_ s) → ended_well (at_ s').
Proof. intros Hr. induction Hr as [s|s s1 s' Hs _ IH]; [done|]. intros He. by eapply IH, step_ended_well. Qed.
(** C27. How the server ends. In every state that the listener, the requests, the operator
  and [Serve] can reach together: once it has been told to stop, [Serve] returns by
  steps of its own and of the listener, with however many requests still running, and
  it goes through at most four places on its way; and when it has returned without an
  error, it had been told to stop, the listener has ended, and no request is running, then
  or ever after, so that closing the application takes nothing from under a request. *)
Theorem Serve_ends (s : state) (Hreach : rtc step start s) :
  (told s = true → ∃ s', rtc own s s' ∧ at_end (at_ s') ∧ in_flight s' = in_flight s) ∧
  (∀ s', step s s' → (rank (at_ s') <= rank (at_ s))%nat ∧ (serves s s' → (rank (at_ s') < rank (at_ s))%nat)) ∧
  (ended_well (at_ s) → ∀ s', rtc step s s' → told s' = true ∧ listening s' = false ∧ in_flight s' = 0%nat).
Proof.
  pose proof (inv_steps _ _ inv_start Hreach) as Hi. split; [by apply told_ends|]. split.
  - intros s' Hs. split; [|apply serves_forward]. destruct Hs as [Ho|[Hl|Hs]]; [rewrite (others_stay s s'); auto..|]. apply serves_forward in Hs. lia.
  - intros He s' Hr. pose proof (ended_well_stays _ _ Hr He) as He'. destruct (inv_steps _ _ Hi Hr) as [Hp _]. unfold so_far in Hp.
    destruct He' as [E|E]; rewrite E in Hp; by destruct (Hp eq_refl) as (_&?&(_&_&?)&?).
Qed.
(** With an error it is otherwise: a request may outlast the application; it may even
  have begun after the server was told to stop. *)
Lemma request_outlasts_close : ∃ s, rtc step start s ∧ at_ s = Closed (Err [deadline_exceeded]) ∧ in_flight s = 1%nat.
Proof.
  eexists. split.
  - eapply rtc_l; [right; left; by apply l_accepts|]. eapply rtc_l; [left; by apply o_connect|]. eapply rtc_l; [left; apply o_signal|].
    eapply rtc_l; [right; right; by apply s_told|]. eapply rtc_l; [left; by eapply o_begin|]. eapply rtc_l; [right; right; by apply s_timeout|].
    apply rtc_once. right; right. by apply s_close.
  - done.
Qed.
(** A server that accepts, is told to stop, and ends well. *)
Definition ended : state := goto (Closed (Ok tt)) (goto (Returned (Ok tt)) (take_err (listened (Ok tt) (goto Waiting (turn Stopped (shut (tell (turn Accepting start)))))))).
Lemma ended_reached : rtc step start ended.
Proof.
  eapply rtc_l; [right; left; by apply l_accepts|]. eapply rtc_l; [left; apply o_signal|]. eapply rtc_l; [right; right; by apply s_told|].
  eapply rtc_l; [right; left; by apply l_stops|]. eapply rtc_l; [right; right; by apply s_drained|].
  eapply rtc_l; [right; left; by apply l_closed|]. eapply rtc_l; [right; right; by apply s_received|]. apply rtc_once. right; right. by apply s_close.
Qed.
Lemma Serve_ends_witness :
  (told ended = true → ∃ s', rtc own ended s' ∧ at_end (at_ s') ∧ in_flight s' = in_flight ended) ∧
  (∀ s', step ended s' → (rank (at_ s') <= rank (at_ ended))%nat ∧ (serves ended s' → (rank (at_ s') < rank (at_ ended))%nat)) ∧
  (ended_well (at_ ended) → ∀ s', rtc step ended s' → told s' = true ∧ listening s' = false ∧ in_flight s' = 0%nat).
Proof. exact (Serve_ends ended ended_reached). Defined.

(** ** The sweep in the background
  [waits]: before each round, whether the context was done while it waited; at the end of
  the list it waits still. *)
Fixpoint sweep (c : config.Config) (waits : list bool) (w : World) : World :=
  match waits with
  | [] => w
  | true :: _ => w
  | false :: waits =>
      match lease.Sweep (config.SweepBatch c) w with
      | (Err e, w) => if errors_Is e context_canceled then w else sweep c waits w
      | (Ok _, w) => sweep c waits w
      end
  end.
(** It removes leases that expired long ago, and touches nothing else. *)
Record swept_only (w w' : World) : Prop := {
  so_rest : database w' = set_lease_records (lease_records (database w')) (database w);
  so_rows : ∃ k, (∀ n, clock w' n = clock w (k + n)%nat) ∧ ∀ id, match lease_records (database w) !! id with
    | None => lease_records (database w') !! id = None
    | Some row => lease_records (database w') !! id = Some row ∨ lease_records (database w') !! id = None ∧
        ∃ n, (n < k)%nat ∧ str_le (lr_expires_at row) (FormatTime (clock w n - lease.Retention)) = true
    end }.
Lemma swept_only_refl w : swept_only w w.
Proof. split; [by destruct (database w)|]. exists 0%nat. split; [done|]. intros id. destruct (_ !! id); [by left|done]. Qed.
Lemma swept_only_trans w1 w2 w3 : swept_only w1 w2 → swept_only w2 w3 → swept_only w1 w3.
Proof.
  intros [D1 (k1&C1&R1)] [D2 (k2&C2&R2)]. split; [by rewrite D2, D1|]. exists (k1 + k2)%nat. split; [intros n; by rewrite C2, C1, Nat.add_assoc|].
  intros id. specialize (R1 id). specialize (R2 id). destruct (lease_records (database w1) !! id) as [row|]; [|by rewrite R1 in R2].
  destruct R1 as [E|(E&n&Hlt&Hn)]; rewrite E in R2.
  - destruct R2 as [?|(?&n&Hlt&Hn)]; [by left|]. right. split; [done|]. exists (k1 + n)%nat. rewrite C1 in Hn. split; [lia|done].
  - right. split; [done|]. exists n. split; [lia|done].
Qed.
Lemma Sweep_only batch w : swept_only w (snd (lease.Sweep batch w)).
Proof.
  unfold lease.Sweep. destruct (batch <? 1); [apply swept_only_refl|]. rewrite bind_now. set (t := clock w 0%nat). set (w1 := set_clock _ w).
  unfold exec, next_fault. destruct (faults w1 0%nat).
  - split; [by destruct w as [[]]|]. exists 1%nat. split; [done|]. intros id. cbn. destruct (_ !! id); [by left|done].
  - split; [done|]. exists 1%nat. split; [done|]. intros id. cbn. rewrite map_lookup_filter. destruct (lease_records (database w) !! id) as [row|] eqn:Er; [|done]. cbn.
    case_guard as Hin; [by left|]. right. split; [done|]. exists 0%nat. split; [lia|]. unfold lease.swept in Hin.
    apply (sublist_subseteq _ _ (sublist_take _ _)), list_elem_of_fmap in Hin as ([i r]&->&Hin). apply lease.elem_of_rows_where in Hin as [Hr He]. cbn in Er. simplify_eq. exact He.
Qed.
Lemma sweep_only c waits w : swept_only w (sweep c waits w).
Proof.
  revert w. induction waits as [|[] waits IH]; intros w; [apply swept_only_refl..|]. cbn [sweep]. pose proof (Sweep_only (config.SweepBatch c) w) as Hs.
  destruct (lease.Sweep _ w) as [[n|e] w1]; cbn [snd] in Hs; [by eapply swept_only_trans|]. destruct (errors_Is _ _); [done|by eapply swept_only_trans].
Qed.
End lifecycle.
