(* ===== verification/Serving.v ===== *)
(** The server from its start to its end: [serve] of cmd/marsec/main.go and [Run] of
  internal/app/app.go around the goroutines of Lifecycle.v, with the state that the
  requests, the sweep and the closing of the application share.

  What a request does is left open: between its beginning and its end it may change the
  state in any way and any number of times, but not a database that is closed.
  database/sql documents that [Close] lets what has started finish and nothing start. *)
From Stdlib Require Import ZArith Lia.
From S2P Require Import Prelude GoStrings GoTime Files Json World Envelope AuditTrail Migrate SealManager Config Lease Metrics GoMux Ratelimit Walk App Hardening Operator Main Lifecycle.

Module serving.
Import lifecycle.
Record process := MkProcess {
  control : state; world : World;
  db_open : bool;
  (** the goroutine of the sweep has not returned *)
  sweeping : bool;
  (** how many of the calls of [app.Close] have been made *)
  closes : nat }.
Definition set_control (s : state) (p : process) : process := MkProcess s (world p) (db_open p) (sweeping p) (closes p).
Definition set_world (w : World) (p : process) : process := MkProcess (control p) w (db_open p) (sweeping p) (closes p).
Definition stop_sweeping (p : process) : process := MkProcess (control p) (world p) (db_open p) false (closes p).
Definition begin (w : World) : process := MkProcess start w true true 0.

(** The calls of [app.Close]; between two of them, others may run. *)
Section close.
Context `{Primitives} `{Driver}.
Definition close_call (n : nat) : M World unit :=
  match n with O => seal.Seal | 1%nat => audit.Close | _ => app.db_Close end.
Definition call_close (p : process) : process :=
  MkProcess (control p) (snd (close_call (closes p) (world p))) (if Nat.eqb (closes p) 2 then false else db_open p) (sweeping p) (S (closes p)).
Lemma Close_calls w : snd (app.Close w) = snd (close_call 2 (snd (close_call 1 (snd (close_call 0 w))))).
Proof.
  unfold app.Close, both. rewrite (bind_ok _ _ _ _ _ (seal.Seal_run w)). cbn [close_call]. rewrite seal.Seal_run. cbn [snd].
  destruct (audit.Close _) as [r1 w1]. cbn [snd]. by destruct (app.db_Close w1) as [r2 w2].
Qed.
End close.
(** One round of the sweep; the calls of a closed database fail before they reach it. *)
Definition sweep_once (open : bool) (batch : Z) (w : World) : World :=
  if open then snd (lease.Sweep batch w) else if batch <? 1 then w else snd (now w).

Section moves.
Context `{Primitives} `{Driver} (c : config.Config).
Inductive moves : process → process → Prop :=
| m_outside s p : outside (control p) s → moves p (set_control s p)
| m_listens s p : listens (control p) s → moves p (set_control s p)
(** [Serve] up to its return; the application is closed after that. *)
| m_serves s p : serves (control p) s → (∀ r, at_ s ≠ Closed r) → moves p (set_control s p)
| m_works w p : in_flight (control p) ≠ 0%nat → (db_open p = false → database w = database (world p)) → moves p (set_world w p)
| m_sweeps p : sweeping p = true → moves p (set_world (sweep_once (db_open p) (config.SweepBatch c) (world p)) p)
(** The context of the sweep is done with that of the server, or when [Run] returns. *)
| m_sweep_ends p : sweeping p = true → told (control p) = true ∨ at_end (at_ (control p)) → moves p (stop_sweeping p)
| m_close_call r p : at_ (control p) = Returned r → (closes p < 3)%nat → moves p (call_close p)
| m_closed r p : at_ (control p) = Returned r → closes p = 3%nat → moves p (set_control (goto (Closed r) (control p)) p).
Lemma moves_control p p' : moves p p' → control p' = control p ∨ step (control p) (control p').
Proof.
  destruct 1 as [s p Ho|s p Hl|s p Hs _|w p _ _|p _|p _ _|r p _ _|r p Ha _]; auto; right; [by left|by right; left|by right; right|]. right; right. by apply s_close.
Qed.

(** ** What holds all along *)
(** How far the closing is. *)
Definition closing (p : process) : Prop :=
  (closes p ≠ 0%nat → at_end (at_ (control p))) ∧ (∀ r, at_ (control p) = Closed r → closes p = 3%nat) ∧ (closes p = 3%nat → db_open p = false).
(** After a return without error nothing undoes what [Close] has done. *)
Definition wiped (p : process) : Prop := ended_well (at_ (control p)) →
  (closes p ≠ 0%nat → seal_memory (world p) = sealed_memory) ∧ ((2 <= closes p)%nat → al_closed (audit_log (world p)) = true).
Definition invariant (p : process) : Prop := inv (control p) ∧ closing p ∧ wiped p.
Lemma invariant_begin w : invariant (begin w).
Proof. split; [apply inv_start|]. split; [by split_and!|]. by intros [?|?]. Qed.
(** The steps of the control do not come back from the end. *)
Lemma at_end_stays s s' : step s s' → at_end (at_ s) → at_ s' = at_ s ∨ ∃ r, at_ s = Returned r ∧ at_ s' = Closed r.
Proof.
  intros [Ho|[Hl|Hs]] He; [left; rewrite (others_stay s s'); auto..|].
  destruct Hs as [r s Ha|s Ha|s Ha|e s Ha|s Ha|r s Ha|r s Ha]; rewrite Ha in He; try done. right. by exists r.
Qed.
Lemma well_idle p : inv (control p) → ended_well (at_ (control p)) → in_flight (control p) = 0%nat.
Proof. intros [Hp _] He. unfold so_far in Hp. by destruct He as [E|E]; rewrite E in Hp; destruct (Hp eq_refl) as (_&_&(_&_&?)&_). Qed.
Lemma sweep_once_same open batch w : seal_memory (sweep_once open batch w) = seal_memory w ∧ audit_log (sweep_once open batch w) = audit_log w.
Proof.
  unfold sweep_once. destruct open; [|by destruct (batch <? 1)]. unfold lease.Sweep. destruct (batch <? 1); [done|]. rewrite bind_now.
  match goal with |- context [exec ?f ?v] => pose proof (quiet_exec f v) as Hq end. destruct Hq as [Hm Hl _ _ _]. by rewrite Hm, Hl.
Qed.
Lemma close_call_same n w : (n ≠ 0%nat → seal_memory (snd (close_call n w)) = seal_memory w) ∧
  (n ≠ 1%nat → audit_log (snd (close_call n w)) = audit_log w) ∧ database (snd (close_call n w)) = database w.
Proof.
  destruct n as [|[|n]]; cbn [close_call]; [by rewrite seal.Seal_run| |done]. destruct (audit.Close_effect w) as (Hd&Hm&_). done.
Qed.
Lemma ended_well_before s s' : step s s' → (∀ r, at_ s' ≠ Closed r) → ended_well (at_ s') → ended_well (at_ s) ∨ ¬ at_end (at_ s).
Proof. intros Hs Hn He. destruct (at_ s) as [| | |r|r] eqn:Ea; auto; left; (destruct (at_end_stays _ _ Hs) as [E|(r'&_&E)]; [by rewrite Ea|by rewrite E, Ea in He|by destruct (Hn r')]). Qed.
Lemma invariant_control s p : step (control p) s → (∀ r, at_ s ≠ Closed r) ∨ at_ s = at_ (control p) → invariant p → invariant (set_control s p).
Proof.
  intros Hs Hn (Hi&(C1&C2&C3)&Hw). split; [by eapply inv_step|]. split.
  - split_and!; cbn; [|intros r Hr; destruct Hn as [Hn|E]; [by destruct (Hn r)|apply (C2 r); by rewrite <- E]|done].
    intros Hc. specialize (C1 Hc). destruct (at_end_stays _ _ Hs C1) as [->|(r&_&->)]; done.
  - intros He. cbn in *. destruct Hn as [Hn|E]; [|apply Hw; by rewrite <- E].
    destruct (ended_well_before _ _ Hs Hn He) as [He'|He']; [by apply Hw|].
    destruct (closes p) eqn:Ec; [split; [done|lia]|]. by destruct (He' (C1 ltac:(done))).
Qed.
Lemma invariant_moves p p' : moves p p' → invariant p → invariant p'.
Proof.
  intros Hm Hinv. destruct Hm as [s p Ho|s p Hl|s p Hs Hn|w p Hf Hdb|p Hsw|p Hsw _|r p Ha Hc|r p Ha Hc].
  - apply invariant_control; [by left|right; apply others_stay; by left|done].
  - apply invariant_control; [by right; left|right; apply others_stay; by right|done].
  - apply invariant_control; [by right; right|by left|done].
  - destruct Hinv as (Hi&Hc&Hw). split; [done|]. split; [done|]. intros He. by destruct (Hf (well_idle p Hi He)).
  - destruct Hinv as (Hi&Hc&Hw). split; [done|]. split; [done|]. intros He. cbn. destruct (sweep_once_same (db_open p) (config.SweepBatch c) (world p)) as [-> ->]. by apply Hw.
  - done.
  - destruct Hinv as (Hi&(C1&C2&C3)&Hw). split; [done|]. destruct (close_call_same (closes p) (world p)) as (Sm&Sl&_). split.
    + split_and!; cbn; [by rewrite Ha|by rewrite Ha|]. intros E. injection E as ->. done.
    + intros He. destruct (Hw He) as [W1 W2]. cbn. split; intros Hle.
      * destruct (closes p) as [|n] eqn:Ec; [cbn [close_call]; by rewrite seal.Seal_run|]. rewrite Sm by done. by apply W1.
      * destruct (closes p) as [|[|n]] eqn:Ec; [lia|apply audit.Close_effect|]. rewrite Sl by done. apply W2. lia.
  - destruct Hinv as (Hi&(C1&C2&C3)&Hw). split; [eapply inv_step; [exact Hi|]; right; right; by apply s_close|]. split.
    + split_and!; cbn; auto.
    + intros [E|E]; [done|]. cbn in E. injection E as ->. apply Hw. by left.
Qed.
Lemma invariant_reached w p : rtc moves (begin w) p → invariant p.
Proof.
  intros Hr. assert (∀ q, rtc moves q p → invariant q → invariant p) as Hall; [|by apply (Hall _ Hr), invariant_begin].
  clear Hr. intros q Hr. induction Hr as [q|q q1 q2 Hm _ IH]; [done|]. intros Hq. by apply IH, (invariant_moves q).
Qed.

Lemma closes_bound w p : rtc moves (begin w) p → (closes p <= 3)%nat.
Proof.
  intros Hr. assert (∀ q, rtc moves q p → (closes q <= 3)%nat → (closes p <= 3)%nat) as Hall; [|apply (Hall _ Hr); cbn; lia].
  clear Hr. intros q Hr. induction Hr as [q|q q1 q2 Hm _ IH]; [done|]. intros Hq. apply IH. destruct Hm; cbn in *; lia.
Qed.

(** ** After the end *)
(** What stays between two states behind the end; the rest only after a return without error. *)
Definition left_alone (r : result unit) (p p' : process) : Prop := at_ (control p') = Closed r ∧ database (world p') = database (world p) ∧
  (r = Ok tt → seal_memory (world p') = seal_memory (world p) ∧ audit_log (world p') = audit_log (world p)).
Lemma closed_moves r p p' : invariant p → at_ (control p) = Closed r → moves p p' → left_alone r p p'.
Proof.
  intros (Hi&(_&C2&C3)&_) Ha Hm. pose proof (C2 r Ha) as Hc. specialize (C3 Hc). unfold left_alone.
  assert (at_ (control p') = Closed r) as Ha'.
  { destruct (moves_control _ _ Hm) as [->|Hs]; [done|]. destruct (at_end_stays _ _ Hs) as [E|(r'&E&_)]; [by rewrite Ha|by rewrite E|by rewrite E in Ha]. }
  split; [done|]. destruct Hm as [s p Ho|s p Hl|s p Hs Hn|w p Hf Hdb|p Hsw|p Hsw _|r' p Hr Hlt|r' p Hr _]; try done.
  - split; [by apply Hdb|]. intros ->. destruct Hf. apply well_idle; [done|by right].
  - cbn. unfold sweep_once. rewrite C3. by destruct (_ <? 1).
  - lia.
Qed.
Lemma closed_reached r p p' : invariant p → at_ (control p) = Closed r → rtc moves p p' → left_alone r p p' ∧ invariant p'.
Proof.
  intros Hi Ha Hr. induction Hr as [p|p p1 p2 Hm _ IH]; [done|].
  destruct (closed_moves _ _ _ Hi Ha Hm) as (Ha1&Hd1&Hs1). destruct (IH (invariant_moves _ _ Hm Hi) Ha1) as [(Ha2&Hd2&Hs2) Hi2].
  split; [|done]. split; [done|]. split; [congruence|]. intros Hr. destruct (Hs1 Hr), (Hs2 Hr). split; congruence.
Qed.

(** ** The end comes *)
Lemma own_lifts s s' p : rtc own s s' → control p = s → at_end (at_ s') → ∃ p', rtc moves p p' ∧ at_end (at_ (control p')) ∧ closes p' = closes p.
Proof.
  intros Hr. revert p. induction Hr as [s|s s1 s' Ho _ IH]; intros p <- He; [by exists p|].
  destruct (at_ (control p)) as [| | |r|r] eqn:Ea; [..|exists p; by rewrite Ea|exists p; by rewrite Ea].
  all: destruct (IH (set_control s1 p) eq_refl He) as (p'&Hm&He'&Hc); exists p'; (split; [|done]); (eapply rtc_l; [|exact Hm]);
    (destruct Ho as [Hl|Hs]; [by apply m_listens|apply m_serves; [done|]; intros r E; destruct Hs; cbn in *; congruence]).
Qed.
Lemma calls_end r n p : at_ (control p) = Returned r → (closes p + n = 3)%nat → ∃ p', rtc moves p p' ∧ at_ (control p') = Closed r.
Proof.
  revert p. induction n as [|n IH]; intros p Ha Hc.
  - exists (set_control (goto (Closed r) (control p)) p). split; [|done]. apply rtc_once. apply m_closed; [done|lia].
  - destruct (IH (call_close p)) as (p'&Hm&Ha'); [done|cbn; lia|]. exists p'. split; [|done]. eapply rtc_l; [|exact Hm]. eapply m_close_call; [exact Ha|lia].
Qed.
(** Once it has been told to stop, a server can always come to its end, with however many
  requests still running. *)
Lemma told_closes w p : rtc moves (begin w) p → told (control p) = true → ∃ p' r, rtc moves p p' ∧ at_ (control p') = Closed r.
Proof.
  intros Hr Ht. pose proof (invariant_reached _ _ Hr) as Hinv. destruct (told_ends _ (proj1 Hinv) Ht) as (s'&Ho&He&_).
  destruct (own_lifts _ _ p Ho eq_refl He) as (p1&Hm1&He1&_). assert (rtc moves (begin w) p1) as Hr1 by by etrans. destruct (invariant_reached _ _ Hr1) as (_&(_&C2&_)&_).
  destruct (at_ (control p1)) as [| | |r|r] eqn:Ea; [done..| |by exists p1, r].
  assert (closes p1 <= 3)%nat as Hle by by apply (closes_bound w). destruct (calls_end r (3 - closes p1) p1 Ea ltac:(lia)) as (p2&Hm2&Ha2).
  exists p2, r. split; [by etrans|done].
Qed.
End moves.


(** ** Example: a server that is initialised, told to stop while it is, and closed *)
Section example.
#[local] Existing Instance sample.primitives.
#[local] Instance accepting : Driver := fun _ d => (Ok tt, d).
#[local] Instance granting : Kernel World := {| mlockall := ret tt; set_core_limit_to_zero := ret tt; prctl_not_dumpable := ret tt |}.
Local Definition morning : World := fresh_world (fun n => (1700000000 + Z.of_nat n) * Second) (fun n => Z.of_nat n).
Local Definition booted : result app.App * World := marsec.boot (Ok config.Default) None (Err [os.not_exist]) morning.
Lemma boots : is_ok (fst booted) = true.
Proof. by vm_compute. Qed.
Lemma booted_pair : ∃ a, marsec.boot (Ok config.Default) None (Err [os.not_exist]) morning = (Ok a, snd booted).
Proof. pose proof boots as E. unfold booted in *. destruct (marsec.boot _ _ _ _) as [[a|e] w0]; [by exists a|done]. Qed.
(** The last request holds the root key while the server shuts down. *)
Local Definition worked : World := set_seal_memory (MkSealMemory (Some (crypto.sample_key 9)) 1 []) (snd booted).
Local Definition served : state := serving 0 0 (shut (tell (serving 0 1 (turn Accepting start)))).
Local Definition returned : state := goto (Returned (Ok tt)) (take_err (listened (Ok tt) (goto Waiting (turn Stopped served)))).
Local Definition down : process := set_control (goto (Closed (Ok tt)) returned)
  (call_close (call_close (call_close (MkProcess returned worked true true 0)))).
#[local] Opaque marsec.boot booted worked close_call.
Lemma down_reached c : rtc (moves c) (begin (snd booted)) down.
Proof.
  eapply rtc_l; [apply m_listens; by apply l_accepts|]. eapply rtc_l; [apply m_outside; by apply o_connect|]. eapply rtc_l; [apply m_outside; by eapply o_begin|].
  eapply rtc_l; [apply m_outside; apply o_signal|]. eapply rtc_l; [apply m_serves; [by apply s_told|done]|]. eapply rtc_l; [apply (m_works _ worked); [discriminate|intros E; discriminate E]|].
  eapply rtc_l; [apply m_outside; by apply (o_end 0 false)|]. eapply rtc_l; [apply m_listens; by apply l_stops|].
  eapply rtc_l; [apply m_serves; [by apply s_drained|done]|]. eapply rtc_l; [apply m_listens; by apply l_closed|].
  eapply rtc_l; [apply m_serves; [by apply s_received|done]|]. do 3 (eapply rtc_l; [eapply (m_close_call _ (Ok tt)); [done|cbn; lia]|]).
  apply rtc_once. by apply (m_closed _ (Ok tt)).
Qed.
End example.
End serving.
