(* ===== verification/Shell.v ===== *)
(** The commands and what stands behind them, together: what a user puts into the
  store on one command line comes out on another, and what an operator disables
  stays out. *)
From Stdlib Require Import ZArith Lia Ascii.
From S2P Require Import Prelude GoStrings GoTime Base64 GoPath Files Json World Policy Httpx Envelope AuditTrail Migrate Migrations SealManager PolicyStore Cipher Walk SecretStore SecretRewrap VersionedMap Interfaces GoNumbers GoUrl Metrics GoMux Ratelimit Config Lease Param Rotate SecretHttp Jwt Client Snapshot GoFlag Command Auth Lockout Pages Telemetry App Hardening Operator Server Wire Main.

Module shell.
Import os flag cli versioned secret wire app.

(** ** Putting a secret and getting it *)
Section secrets.
Context `{PrimitiveLaws} `{Ed25519} `{MapOrder} `{ui.Assets} `{IPLiterals} `{Transport World} `{Environment} `{Certificates}.
Context (a : App) (remote base scheme host : string) (Horigin : url.origin base scheme host).
Definition cas_of (flags : FlagSet) : option Z := let cas := int_of flags "cas" in if 0 <=? cas then Some cas else None.
Ltac each_int := repeat (apply Forall_cons; split; [first [exact I|cbn; unfold in_i64, i64_min, i64_max; lia]|]); apply Forall_nil; exact I.
Lemma located_ints more args flags place : ints_ok more → located more args = Ok (flags, place) → ints_ok flags.
Proof.
  intros Hmore. unfold located. destruct (positional args) as [taken|]; [|done]. cbn [result_bind]. destruct (Parse _ _) as [[set rest]|] eqn:Ep; [|done].
  cbn [result_bind]. destruct (split _) as [p|]; [|done]. intros [= <- _]. eapply ints_ok_refines; [by eapply Parse_refines|].
  apply Forall_app. split; [|exact Hmore]. each_int.
Qed.
Lemma cas_range args flags place : located put_flags args = Ok (flags, place) → match cas_of flags with Some n => in_i64 n | None => True end.
Proof.
  intros El. apply located_ints in El; [|each_int]. unfold cas_of. cbv zeta. destruct (0 <=? _); [by apply int_of_range|done].
Qed.
Lemma runSecretPut_Ok args flags t p (h h' : Host World) : located put_flags args = Ok (flags, (t, p)) → runSecretPut args h = (Ok tt, h') →
  ∃ made v l, client.base made = TrimSuffix (address (connection_of flags)) "/" ∧
    client.WriteSecret t p (bytes_of_string (given (string_of flags "value") (stdin h))) (cas_of flags) (client.MkLinked made (outside h)) = (Ok v, l) ∧
    outside h' = client.network l ∧ stdout h' = stdout h +:+ ("wrote version " +:+ Itoa v) +:+ newline.
Proof.
  intros El. unfold runSecretPut. rewrite El. intros (got&h0&Eg&E)%bind_ok_inv. injection Eg as <- <-.
  apply bind_ok_inv in E as (value&h1&Ev&E). apply valueFrom_Ok in Ev as (->&Ho1&Hs1). apply bind_ok_inv in E as (made&h2&Eo&E).
  apply open_Ok in Eo as [Hbase [Ho2 _ _ Hs2]]. apply bind_ok_inv in E as (v&h3&Ew&E). apply with_client_run in Ew as (l&Ew&Ho3&_&Hs3).
  injection E as <-. rewrite Ho2, Ho1 in Ew. exists made, v, l. split_and!; [done|exact Ew|done|]. cbn. by rewrite Hs3, Hs2, Hs1.
Qed.
Lemma runSecretGet_Ok args flags t p (h h' : Host World) : located get_flags args = Ok (flags, (t, p)) → runSecretGet args h = (Ok tt, h') →
  ∃ made found l, client.base made = TrimSuffix (address (connection_of flags)) "/" ∧
    client.ReadSecret t p (int_of flags "version") (client.MkLinked made (outside h)) = (Ok found, l) ∧
    outside h' = client.network l ∧ stdout h' = stdout h +:+ string_of_bytes (client.Value found) +:+ newline.
Proof.
  intros El. unfold runSecretGet. rewrite El. intros (got&h0&Eg&E)%bind_ok_inv. injection Eg as <- <-.
  apply bind_ok_inv in E as (made&h2&Eo&E). apply open_Ok in Eo as [Hbase [Ho2 _ _ Hs2]].
  apply bind_ok_inv in E as (found&h3&Ew&E). apply with_client_run in Ew as (l&Ew&Ho3&_&Hs3).
  injection E as <-. rewrite Ho2 in Ew. exists made, found, l. split_and!; [done|exact Ew|done|]. cbn. by rewrite Hs3, Hs2.
Qed.
(** C37. From one command line to another: when [marsec secret put] and then
  [marsec secret get] of the same place succeed, get prints the value as it was taken:
  inline, or the first MiB of the standard input less the line feeds at its end, with
  bytes that are no UTF-8 replaced; and in between the store made exactly the step of the
  versioned map that [--cas] asked for.  The place needs no escaping and is clean, both
  commands talk to the same address, get asks for no version, and the body of the put is
  within the server's limit. *)
Theorem put_then_get (s : spec) (put_args get_args : list string) (flags flags' : FlagSet) (t p : string) (h h1 h2 : Host World)
  (Hauth : authentic a remote _) (Hplace : addressable t p) (Hs : implements keep s (outside h))
  (Hputs : located put_flags put_args = Ok (flags, (t, p))) (Hgets : located get_flags get_args = Ok (flags', (t, p)))
  (Hhome : TrimSuffix (address (connection_of flags)) "/" = base) (Hhome' : TrimSuffix (address (connection_of flags')) "/" = base)
  (Hcurrent : int_of flags' "version" = 0)
  (Hfits : (String.length (print (JObj (write_body (bytes_of_string (given (string_of flags "value") (stdin h))) (cas_of flags)))) <= httpx.maxRequestBody)%nat)
  (Hput : runSecretPut put_args h = (Ok tt, h1)) (Hget : runSecretGet get_args h1 = (Ok tt, h2)) :
  let text := sanitize (given (string_of flags "value") (stdin h)) in
  ∃ v s', spec_put keep t p (bytes_of_string text) (expectation_of (cas_of flags)) s = (Ok v, s') ∧ implements keep s' (outside h2) ∧
    stdout h2 = stdout h +:+ ("wrote version " +:+ Itoa v) +:+ newline +:+ text +:+ newline.
Proof.
  intros text. eapply runSecretPut_Ok in Hput as (made&v&l&Hbase&Ew&Ho1&Hout1); [|exact Hputs].
  assert (sent (bytes_of_string (given (string_of flags "value") (stdin h))) = bytes_of_string text) as Htext by (unfold sent; by rewrite string_of_bytes_of_string).
  apply (write_end a remote base scheme host Horigin s) in Ew as [_ (s'&Hspec&Hi)];
    [|done|by rewrite Hbase|done|done|by eapply cas_range|done].
  rewrite Htext in Hspec. exists v, s'. split; [done|]. eapply runSecretGet_Ok in Hget as (made'&found&l'&Hbase'&Er&Ho2&Hout2); [|exact Hgets].
  rewrite Hcurrent, Ho1 in Er. apply (read_end a remote base scheme host Horigin s') in Er as [_ (data&Hdata&Hval&Hi')]; [|done|by rewrite Hbase'|done|done|done].
  change (if 0 <? 0 then 0 else 0) with 0 in Hdata. rewrite (spec_put_get _ _ _ _ _ _ _ _ Hspec (or_introl eq_refl)) in Hdata. injection Hdata as _ <-.
  rewrite Ho2. split; [done|]. rewrite Hout2, Hout1, Hval, <- Htext, sent_sent, Htext, string_of_bytes_of_string. by rewrite <- !str_app_assoc.
Qed.
End secrets.

(** ** Disabling an identity *)
Section operators.
Context `{Primitives} `{Driver} `{As : Assertions} `{!auth.AssertionsLaws As} `{Environment} `{SQLite Db} {E : Type}.
(** A connection to the database of the directory was closed with [d] in it. *)
Definition left_on_disk (flags : FlagSet) (d : Db) (h : Host E) : Prop :=
  ∃ m, files h = sqlite_save (snapshot.dsn (operator.database_path (operator.data_dir_of flags))) d m.
(** What a command that worked on the database of a directory has left there. *)
Lemma with_connection_Ok {A} dataDir (run : M World A) (h : Host E) x h' : operator.with_connection dataDir run h = (Ok x, h') → ∃ w w' m,
  run w = (Ok x, w') ∧ files h' = sqlite_save (snapshot.dsn (operator.database_path dataDir)) (database w') m.
Proof.
  unfold operator.with_connection. intros (d&h1&_&E1)%bind_ok_inv. unfold operator.on_database, deferred in E1.
  destruct (run (set_database d (process h1))) as [r w'] eqn:Er. apply pair_equal_spec in E1 as [-> <-]. eexists _, w', (files h1). split; [exact Er|].
  rewrite (untouched_Close _). apply files_set.
Qed.
Lemma runIdentityDisable_Ok args id rest flags more (h h' : Host E) : positional args = Ok (id, rest) → Parse [operator.data_dir] rest = Ok (flags, more) →
  operator.runIdentityDisable args h = (Ok tt, h') → ∃ w w1 w2 u n m, auth.DisableIdentity id w = (Ok u, w1) ∧ auth.Manager_RevokeIdentity id w1 = (Ok n, w2) ∧
    files h' = sqlite_save (snapshot.dsn (operator.database_path (operator.data_dir_of flags))) (database w2) m.
Proof.
  intros Hp Hf. unfold operator.runIdentityDisable. rewrite Hp. intros (taken&h0&Et&E1)%bind_ok_inv. injection Et as <- <-. cbn [fst snd] in E1.
  rewrite Hf in E1. apply bind_ok_inv in E1 as (parsed&h1&Ef&E1). injection Ef as <- <-. apply bind_ok_inv in E1 as (n&h2&Ew&E1).
  unfold operator.withDatabase in Ew. apply with_connection_Ok in Ew as (w&w'&m&Er&Hm). apply bind_ok_inv in Er as (?&w0&_&Er).
  unfold operator.disable_and_revoke in Er. apply bind_ok_inv in Er as (u&w1&Ed&Er). injection E1 as <-. by exists w0, w1, w', u, n, m.
Qed.
(** C38. An operator who disables an identity locks it out for good: after the
  command has succeeded, the database it leaves on disk has the identity disabled
  and none of its tokens unrevoked, and a server that runs on that database,
  whatever calls of the module follow in whatever order, never again lets a token,
  a bootstrap token or an assertion pass for that identity, nor issues it a token. *)
Theorem disabled_for_good (args rest more : list string) (id : string) (flags : FlagSet) (h h' : Host E)
  (Hargs : positional args = Ok (id, rest)) (Hflags : Parse [operator.data_dir] rest = Ok (flags, more))
  (Hrun : operator.runIdentityDisable args h = (Ok tt, h')) :
  ∃ d, left_on_disk flags d h' ∧ lockout.disabled id d ∧ lockout.all_revoked id d ∧
    ∀ (w : World) (l : list auth.action), database w = d → lockout.shut_out id (auth.run_actions l w).
Proof.
  eapply runIdentityDisable_Ok in Hrun as (w&w1&w2&u&n&m&Ed&Er&Hm); [|exact Hargs|exact Hflags].
  apply lockout.DisableIdentity_Ok in Ed. apply lockout.RevokeIdentity_Ok in Er as [Hrev Hsame].
  assert (lockout.disabled id (database w2)) as Hdis by (by eapply lockout.disabled_same).
  exists (database w2). split_and!; [by exists m|exact Hdis|exact Hrev|]. intros v l Hv. apply lockout.disabled_shut_out, lockout.stays_run. by rewrite Hv.
Qed.
End operators.

(** ** Example: a secret from one terminal to another *)
Section examples.
#[local] Existing Instance sample.primitives.
#[local] Existing Instance sample.primitive_laws.
#[local] Instance unsigned : Ed25519 := fun _ _ _ => false.
#[local] Instance by_key : MapOrder := fun m => (map_to_list m).*1.
#[local] Instance no_pages : ui.Assets := fun _ => None.
#[local] Instance no_literals : IPLiterals := fun _ => false.
#[local] Instance no_certificates : Certificates := fun _ => false.
Local Definition bounds : ratelimit.Limiter * ratelimit.Limiter :=
  match rateLimits config.Default with Ok l => l | Err _ => (ratelimit.MkLimiter (float64 1) (float64 1) 1 1, ratelimit.MkLimiter (float64 1) (float64 1) 1 1) end.
Local Definition instruments : metrics.Registry World := match telemetry.newTelemetry with Ok r => r | Err _ => metrics.New end.
Local Definition assembled : App := MkApp config.Default None (fst bounds) (snd bounds) instruments.
Local Definition terminal : string := "10.0.0.7:4000".
#[local] Instance local_network : Transport World := direct assembled terminal.
Local Definition unsealed : World := set_seal_memory (MkSealMemory (Some (crypto.sample_key 9)) 1 [])
  (fresh_world (fun n => (1700000000 + Z.of_nat n) * Second) (fun n => Z.of_nat (7 * n + 3))).
Local Definition writers : policy.Policy := policy.MkPolicy "writers" [policy.MkRule "secret/acme/*" [authz.Read; authz.Write]].
Local Definition enrolled : World :=
  snd (manager.Bind "acme" "svc-1" "writers" (snd (manager.Put "acme" writers (snd (auth.RegisterIdentity "svc-1" authn.KindService "acme" unsealed))))).
Local Definition bearer : string := auth.tokenPrefix +:+ RawURLEncode (draw auth.tokenBytes (entropy enrolled)).
Local Definition running : World := snd (auth.Manager_Issue "svc-1" auth.NoBinding Hour enrolled).
Local Definition home : string := "https://secrets.internal:8200".
#[local] Instance environment : Environment := fun name =>
  if String.eqb name "MARSEC_ADDRESS" then home else if String.eqb name "MARSEC_TOKEN_FILE" then "/home/ann/token" else "".
Local Definition desk : Host World := MkHost (MkDisk {["/home/ann/token" := MkFile (bearer +:+ newline) 384]} (fun _ => false) 0)
  unsealed running ("hunter2" +:+ newline) "".
Local Definition put_run : result unit * Host World := runSecretPut ["acme/db/main"; "--cas=0"] desk.
Local Definition get_run : result unit * Host World := runSecretGet ["acme/db/main"] (snd put_run).
Local Definition flags_of (more : FlagSet) (args : list string) : FlagSet := match located more args with Ok (flags, _) => flags | Err _ => [] end.
Local Definition put_set : FlagSet := flags_of put_flags ["acme/db/main"; "--cas=0"].
Local Definition get_set : FlagSet := flags_of get_flags ["acme/db/main"].
Lemma put_succeeds : fst put_run = Ok tt.
Proof. by vm_compute. Qed.
Lemma get_succeeds : fst get_run = Ok tt.
Proof. by vm_compute. Qed.
Lemma get_prints : stdout (snd get_run) = "wrote version 1" +:+ newline +:+ "hunter2" +:+ newline.
Proof. by vm_compute. Qed.
Lemma home_is_origin : url.origin home "https" "secrets.internal:8200".
Proof. exact home_origin. Qed.
Lemma nothing_stored : implements keep nothing (outside desk).
Proof. apply (implements_tables keep nothing unsealed); [by vm_compute..|]. by apply implements_nothing. Qed.
Lemma put_located : located put_flags ["acme/db/main"; "--cas=0"] = Ok (put_set, ("acme", "db/main")).
Proof. by vm_compute. Qed.
Lemma get_located : located get_flags ["acme/db/main"] = Ok (get_set, ("acme", "db/main")).
Proof. by vm_compute. Qed.
Lemma put_home : TrimSuffix (address (connection_of put_set)) "/" = home.
Proof. by vm_compute. Qed.
Lemma get_home : TrimSuffix (address (connection_of get_set)) "/" = home.
Proof. by vm_compute. Qed.
Lemma get_current : int_of get_set "version" = 0.
Proof. by vm_compute. Qed.
Lemma put_fits : (String.length (print (JObj (write_body (bytes_of_string (given (string_of put_set "value") (stdin desk))) (cas_of put_set)))) <= httpx.maxRequestBody)%nat.
Proof. apply (bool_decide_unpack _). by vm_compute. Qed.
(** The operator's host: its database has the identity, as enrolled. *)
#[local] Instance accepting : Driver := fun _ d => (Ok tt, d).
#[local] Instance no_assertions : Assertions := fun _ => fail ["no assertion is accepted"].
#[local] Instance no_assertions_laws : auth.AssertionsLaws no_assertions.
Proof. by split. Qed.
#[local] Instance one_database : SQLite Db := {
  sqlite_load := fun _ _ => Ok (database running);
  sqlite_save := fun source _ m => <["/srv/marsec/marsec.db" := MkFile source 420]> m;
  sqlite_image := fun _ => "image";
  sqlite_named := fun path => path;
  sqlite_pragma := fun _ name => match find (fun p => String.eqb (fst p) name) snapshot.expected with Some p => Ok (snd p) | None => Err [snapshot.sql_error] end;
  sqlite_integrity := fun _ _ => Ok "ok";
  sqlite_migrations := fun _ _ => Ok 1 }.
Local Definition console : Host World := MkHost (MkDisk ∅ (fun _ => false) 0) unsealed running "" "".
Local Definition disable_args : list string := ["svc-1"; "--data-dir"; "/srv/marsec"].
Local Definition disable_set : FlagSet := [("data-dir", VString "/srv/marsec")].
Local Definition disable_run : result unit * Host World := operator.runIdentityDisable disable_args console.
Lemma disable_ok : fst disable_run = Ok tt.
Proof. by vm_compute. Qed.
Lemma disable_prints : stdout (snd disable_run) = "disabled svc-1 and revoked 1 token(s)" +:+ newline.
Proof. by vm_compute. Qed.
#[local] Opaque operator.runIdentityDisable.
Lemma disable_ran : operator.runIdentityDisable disable_args console = (Ok tt, snd disable_run).
Proof. exact (pair_fst disable_run _ disable_ok). Qed.
Lemma disabled_for_good_witness : ∃ d, left_on_disk disable_set d (snd disable_run) ∧
  lockout.disabled "svc-1" d ∧ lockout.all_revoked "svc-1" d ∧
  ∀ (w : World) (l : list auth.action), database w = d → lockout.shut_out "svc-1" (auth.run_actions l w).
Proof. exact (disabled_for_good disable_args ["--data-dir"; "/srv/marsec"] [] "svc-1" disable_set console (snd disable_run) eq_refl eq_refl disable_ran). Defined.
#[local] Opaque runSecretPut runSecretGet.
Lemma put_ran : runSecretPut ["acme/db/main"; "--cas=0"] desk = (Ok tt, snd put_run).
Proof. exact (pair_fst put_run _ put_succeeds). Qed.
Lemma get_ran : runSecretGet ["acme/db/main"] (snd put_run) = (Ok tt, snd get_run).
Proof. exact (pair_fst get_run _ get_succeeds). Qed.
Lemma put_then_get_witness : ∃ v s', spec_put keep "acme" "db/main" (bytes_of_string (sanitize (given (string_of put_set "value") (stdin desk)))) (expectation_of (cas_of put_set)) nothing = (Ok v, s') ∧
  implements keep s' (outside (snd get_run)) ∧
  stdout (snd get_run) = "" +:+ ("wrote version " +:+ Itoa v) +:+ newline +:+ sanitize (given (string_of put_set "value") (stdin desk)) +:+ newline.
Proof.
  pose proof (put_then_get assembled terminal home "https" "secrets.internal:8200" home_is_origin nothing ["acme/db/main"; "--cas=0"] ["acme/db/main"]
    put_set get_set "acme" "db/main" desk (snd put_run) (snd get_run) (direct_authentic assembled terminal) place_ok) as X.
  exact (X nothing_stored put_located get_located put_home get_home get_current put_fits put_ran get_ran).
Defined.
End examples.
End shell.
