(* ===== verification/Session.v ===== *)
(** From a bootstrap token to a session: what [marsec login] sends, what the server
  makes of it, and what is in the token file afterwards. *)
From Stdlib Require Import ZArith Lia Ascii.
From S2P Require Import Prelude GoStrings GoTime Base64 GoPath Files Json World Policy Httpx Envelope AuditTrail SealManager PolicyStore Cipher Interfaces GoNumbers GoUrl Metrics GoMux Ratelimit Config Jwt Client GoFlag Command Auth Pages Telemetry App Server Wire.

Module session.
Import os flag cli server wire app.

(** ** Texts that survive the way *)
Definition plain_text (s : string) : Prop := url.all_chars url.unreserved s = true.
Lemma plain_ascii s : plain_text s → ascii_only s = true.
Proof.
  unfold plain_text. induction s as [|c s IH]; [done|]. cbn [url.all_chars ascii_only]. intros [Hc Hs]%andb_true_iff. rewrite IH, andb_true_r by done.
  revert c Hc. assert (∀ c, implb (url.unreserved c) (byte_of_ascii c <? 128) = true) as Hall by (by apply url.every_char).
  intros c. apply implb_true_iff, Hall.
Qed.
Lemma sextet_plain d : 0 ≤ d < 64 → url.unreserved (sextet URLAlphabet d) = true.
Proof. intros Hd. apply (check_from_spec (fun d => url.unreserved (sextet URLAlphabet d)) 64 0); [by vm_compute|lia]. Qed.
Lemma RawURLEncode_plain b : Forall byte_ok b → plain_text (RawURLEncode b).
Proof.
  unfold plain_text, RawURLEncode. induction b as [|x|x y|x y z b IH] using list3_ind; intros Hb; [done|..]; cbn [encode64 url.all_chars].
  - apply Forall_inv in Hb. destruct (sextets x 0 0) as (?&?&_); [done|by unfold byte_ok; lia..|]. by rewrite !sextet_plain.
  - apply Forall_cons in Hb as [Hx [Hy _]%Forall_cons]. destruct (sextets x y 0) as (?&_&?&?&_); [done|done|by unfold byte_ok; lia|]. by rewrite !sextet_plain.
  - apply Forall_cons in Hb as [Hx [Hy [Hz Hb]%Forall_cons]%Forall_cons]. destruct (sextets x y z) as (?&_&?&_&?&?); [done..|]. rewrite !sextet_plain, IH by done. done.
Qed.
(** No white space starts or ends in a plain character. *)
Lemma space_starts sp c r : sp ∈ utf8_space → sp = String c r → url.unreserved c = false.
Proof.
  assert (forallb (fun sp => match sp with String c _ => negb (url.unreserved c) | "" => true end) utf8_space = true) as Hall by (by vm_compute).
  intros Hin ->. apply negb_true_iff. apply (proj1 (forallb_forall _ _) Hall (String c r)). by apply list_elem_of_In.
Qed.
Lemma space_not_plain sp : sp ∈ utf8_space → url.all_chars url.unreserved sp = false.
Proof.
  assert (forallb (fun sp => negb (url.all_chars url.unreserved sp)) utf8_space = true) as Hall by (by vm_compute).
  intros Hin. apply negb_true_iff. apply (proj1 (forallb_forall _ _) Hall sp). by apply list_elem_of_In.
Qed.
Lemma first_some_None {A B} (f : A → option B) l : (∀ x, x ∈ l → f x = None) → first_some f l = None.
Proof.
  induction l as [|x l IH]; intros Hf; [done|]. cbn [first_some]. rewrite (Hf x) by by left. apply IH. intros y Hy. apply Hf. by right.
Qed.
Lemma TrimRight_plain s : plain_text s → first_some (CutSuffix s) utf8_space = None.
Proof.
  intros Hs. apply first_some_None. intros sp Hsp. apply CutSuffix_None. intros r ->. unfold plain_text in Hs.
  rewrite url.all_chars_app, (space_not_plain sp Hsp) in Hs. by rewrite andb_false_r in Hs.
Qed.
Lemma TrimLeft_plain s t : plain_text s → s ≠ "" → first_some (CutPrefix (s +:+ t)) utf8_space = None.
Proof.
  intros Hs Hne. apply first_some_None. intros sp Hsp. destruct (CutPrefix (s +:+ t) sp) as [r|] eqn:E; [|done]. apply CutPrefix_Some in E.
  destruct s as [|c s]; [done|]. destruct sp as [|d sp]; [by apply space_not_plain in Hsp|]. rewrite !str_app_cons in E. injection E as -> _.
  unfold plain_text in Hs. cbn [url.all_chars] in Hs. by rewrite (space_starts _ d sp Hsp eq_refl) in Hs.
Qed.
(** The line of a token file is its token. *)
Lemma TrimSpace_line s : plain_text s → s ≠ "" → TrimSpace (s +:+ newline) = s.
Proof.
  intros Hs Hne. unfold TrimSpace. assert (TrimLeftSpace (s +:+ newline) = s +:+ newline) as ->.
  { unfold TrimLeftSpace. destruct (String.length (s +:+ newline)) as [|n]; [done|]. cbn [trim_with]. by rewrite TrimLeft_plain. }
  unfold TrimRightSpace. rewrite length_app_string, Nat.add_comm. cbn [String.length newline Nat.add trim_with].
  assert (first_some (CutSuffix (s +:+ newline)) utf8_space = Some s) as ->.
  { unfold utf8_space. cbn [List.map map app first_some]. assert (CutSuffix (s +:+ newline) (string_of_bytes [9]) = None) as ->.
    { apply CutSuffix_None. intros r E. apply (f_equal (fun t => CutSuffix t newline)) in E. rewrite (proj2 (CutSuffix_Some _ newline s) eq_refl) in E.
      symmetry in E. apply CutSuffix_Some in E. revert E. clear. revert s. induction r as [|c r IH]; intros [|d s]; rewrite ?str_app_cons, ?str_app_nil_l; intros E; try done.
      - by injection E as E; destruct s.
      - injection E as _ E. destruct r; done.
      - injection E as _ E. by apply (IH s). }
    by rewrite (proj2 (CutSuffix_Some (s +:+ newline) (string_of_bytes [10]) s) eq_refl). }
  destruct (String.length s) as [|n]; [done|]. cbn [trim_with]. by rewrite TrimRight_plain.
Qed.

(** ** What the server makes of a bootstrap token *)
Definition login_path : string := "/v1/auth/bootstrap/login".
Definition login_pattern : string := "POST " +:+ login_path.
Definition login_body (credential : string) : list (string * json) := [("token", JStr credential)].
Section server.
Context `{Primitives} `{Ed25519} `{MapOrder} `{ui.Assets} (a : App).
(** A token value is text that no encoding changes. *)
Lemma issue_value id binding ttl single w t w' : auth.issue id binding ttl single w = (Ok t, w') →
  ∃ s, auth.t_Value t = bytes_of_string s ∧ plain_text s ∧ s ≠ "".
Proof.
  unfold auth.issue. destruct (_ || _); [done|]. intros (i&w1&_&E)%bind_ok_inv. destruct (authn.Disabled i); [done|].
  apply bind_ok_inv in E as (value&w2&Ev&E). apply bind_ok_inv in E as (at_&w3&_&E). apply bind_ok_inv in E as (u&w4&_&E).
  assert (∃ m, Forall byte_ok m ∧ value = bytes_of_string (auth.tokenPrefix +:+ RawURLEncode m)) as (m&Hm&Hv).
  { injection Ev as Ev _. exists (draw auth.tokenBytes (entropy w1)). split; [apply draw_ok|symmetry; exact Ev]. }
  injection E as <- _. exists (auth.tokenPrefix +:+ RawURLEncode m). split; [exact Hv|]. apply RawURLEncode_plain in Hm. split; [|done].
  unfold plain_text in *. by rewrite url.all_chars_app, Hm.
Qed.
(** [t] is good for its identity wherever the database [d] is, while it lasts. *)
Definition good_for (t : auth.Token) (d : Db) : Prop := ∀ v, database v = d → no_faults v → representable (auth.t_ExpiresAt t) →
  clock v 0%nat < auth.t_ExpiresAt t → fst (auth.Authenticate (auth.t_Value t) auth.NoBinding v) = Ok (auth.t_Identity t).
Lemma Exchange_session presented ttl w t w' : auth.Exchange presented auth.NoBinding ttl w = (Ok t, w') →
  (∃ s, auth.t_Value t = bytes_of_string s ∧ plain_text s ∧ s ≠ "") ∧ good_for t (database w').
Proof.
  unfold auth.Exchange. intros E. destruct (_ || _); [done|]. destruct (auth.looksLikeToken _); [|done]. cbn [negb] in E.
  match type of E with with_tx ?body _ = _ => destruct (with_tx_cases body w) as [(e&v&E'&_)|(t'&v&Hb&E')] end; rewrite E' in E; [done|].
  injection E as -> <-. apply bind_ok_inv in Hb as (id&w1&_&Ei). split; [by eapply issue_value|].
  intros u Hu Hnf Hrep Hnow. eapply auth.issued_authenticates in Ei as (w2&->&_); done.
Qed.
Lemma Append_database event w u w' : Append event w = (Ok u, w') → database w' = database w.
Proof.
  unfold Append, counting_sink, telemetry.counting_Append, sealing_Append. destruct (audit.Append event w) as [[[]|e] w2] eqn:Ea; [|done].
  intros [= _ <-]. by apply audit.Append_inv in Ea as [_ Hdb].
Qed.
Lemma finish_login_Ok r operation login w resp w' : auth.finish_login sink r operation login w = (resp, w') → status resp < 400 →
  ∃ session w1, login w = (Ok session, w1) ∧ body resp = Some (auth.loginResponse session) ∧ database w' = database w1.
Proof.
  unfold auth.finish_login, run_or. destruct (login w) as [[session|e] w1]; [|by intros [= <- _]]. unfold auth.record, sink.
  match goal with |- context [Append ?ev w1] => destruct (Append ev w1) as [[u|e] w2] eqn:Ea end; [|by intros [= <- _]].
  intros [= <- <-] _. apply Append_database in Ea. by exists session, w1.
Qed.
Lemma find_login : mux.find (map fst (routes a)) "POST" login_path = mux.Found login_pattern [].
Proof. unfold routes, auth_routes, ui_routes. by destruct (verifier a), (config.UIEnabled (cfg a)). Qed.
Lemma login_route : List.find (fun entry => String.eqb (fst entry) login_pattern) (routes a) =
  Some (login_pattern, perSource a (auth.handleBootstrapLogin sink)).
Proof. done. Qed.
Lemma login_answer r w resp w' : Method r = "POST" → EscapedPath r = login_path → Handler_ a r w = (resp, w') → status resp < 400 →
  ∃ presented v session v', httpx.DecodeJSON ["token"] auth.loginRequest_of (Body r) = Ok presented ∧ database v = database w ∧
    auth.Exchange (bytes_of_string presented) auth.NoBinding auth.DefaultTTL v = (Ok session, v') ∧
    body resp = Some (auth.loginResponse session) ∧ database w' = database v'.
Proof.
  intros Hm Hp. rewrite Handler_run. unfold requireUnsealed. destruct (_ || _); [|by intros [= <- _]].
  rewrite (serve_found a r _ login_pattern [] (perSource a (auth.handleBootstrapLogin sink))); [|unfold served_by; rewrite Hm, Hp; apply find_login|exact login_route].
  unfold perSource, auth.perSource, httpx.RateLimit, allow_login, ratelimit.Allow. destruct (ratelimit.allow_at _ _ _ _) as [[] m]; cbn [negb]; [|by intros [= <- _]].
  unfold auth.handleBootstrapLogin. cbn [Body routed httpx.with_path_values httpx.with_request_id].
  destruct (httpx.DecodeJSON _ _ _) as [presented|e]; [|by intros [= <- _]].
  match goal with |- context [auth.finish_login sink ?q ?o ?m ?u] => destruct (auth.finish_login sink q o m u) as [resp1 w1] eqn:Ef; set (before := u) in * end.
  intros E Hst. injection E as <- <-. apply finish_login_Ok in Ef as (session&v'&Ee&Hb&Hd); [|done].
  exists presented, before, session, v'. by split_and!.
Qed.
End server.

(** ** From end to end *)
Section end_to_end.
Context `{PrimitiveLaws} `{Ed25519} `{MapOrder} `{ui.Assets} `{IPLiterals} `{Transport World} `{Environment} `{Certificates} (a : App) (remote base scheme host : string).
Context (Horigin : url.origin base scheme host).
(** The server took the credential that was sent for a bootstrap token that was
  good, and it is used up. *)
Record traded (presented : string) (t : auth.Token) (d d' : Db) : Prop := {
  td_before : ∃ row identity, auth_tokens d !! auth.fingerprint (bytes_of_string presented) = Some row ∧
    tk_identity_id row = authn.ID (auth.t_Identity t) ∧ auth_identities d !! tk_identity_id row = Some identity ∧
    tk_single_use row = auth.singleUse ∧ tk_consumed_at row = None ∧ tk_revoked_at row = None ∧ ai_disabled_at identity = None;
  td_after : auth.used (auth.fingerprint (bytes_of_string presented)) d';
  td_good : good_for t d' }.
Lemma login_end credential c w session l : authentic a remote _ → client.base c = base →
  client.LoginBootstrap (bytes_of_string credential) (client.MkLinked c w) = (Ok session, l) →
  ∃ presented t, httpx.DecodeJSON ["token"] auth.loginRequest_of (print (JObj (login_body credential))) = Ok presented ∧
    client.s_Token session = auth.t_Value t ∧ traded presented t (database w) (database (client.network l)) ∧
    ∃ s, auth.t_Value t = bytes_of_string s ∧ plain_text s ∧ s ≠ "".
Proof.
  intros Hauth Hc. unfold client.LoginBootstrap, client.login. rewrite string_of_bytes_of_string. fold login_path. fold (login_body credential).
  set (spec := client.MkCall "POST" login_path [] (Some (JObj (login_body credential))) false).
  intros (answer&l1&Ecall&E)%bind_ok_inv. apply bind_ok_inv in E as (expires&l2&Ex&E). injection Ex as _ <-. injection E as <- <-. cbn [client.s_Token client.network].
  pose proof (plain_arrives remote base scheme host Horigin "POST" "v1/auth/bootstrap/login" "" (wr_headers (client.wire c spec))
    (print <$> client.content spec) eq_refl eq_refl) as Hr.
  match type of Hr with request_of _ ?wr = _ => assert (client.wire c spec = wr) as Hwire by (unfold client.wire, client.target; cbn [client.method client.path client.query client.content spec]; rewrite Hc; reflexivity) end.
  rewrite <- Hwire in Hr. set (r := MkRequest _ _ _ _ _ _ _ _ _ _ _) in Hr. destruct (Handler_ a r w) as [resp w'] eqn:Eh.
  assert (served_by a r login_pattern []) as Hserved by apply find_login.
  destruct (call_authentic a remote spec _ _ c w _ l1 r resp w' Hauth Hr Eh (served_final a _ _ _ _ _ _ _ Hserved Eh) Ecall) as [_ [Hn Ho]]. apply received_Ok in Ho as [Hst Ho].
  destruct (login_answer a r w resp w' eq_refl eq_refl Eh Hst) as (presented&v&t&v'&Ed&Hv&Ee&Hb&Hd). exists presented, t. split; [exact Ed|].
  destruct (Exchange_session _ _ _ _ _ Ee) as [(s&Hs&Hplain&Hne) Hgood]. split; [|split; [|by exists s]].
  - destruct Ho as [[Ht _]|Ho]; [by destruct (text_not_empty _ _ Hb)|].
    rewrite (Unmarshal_text _ _ _ (sanitize (string_of_bytes (auth.t_Value t)), sanitize (RFC3339 (auth.t_ExpiresAt t))) Hb) in Ho; [|by repeat constructor|done].
    injection Ho as <-. cbn [fst]. by rewrite Hs, string_of_bytes_of_string, sanitize_ascii by by apply plain_ascii.
  - apply auth.Exchange_Ok in Ee as (row&identity&expiry&Hrow&Hsingle&Hc1&Hr1&HI&Hid&Hdis&_&_&_&Hused). rewrite Hv in *. rewrite Hn, Hd. split; [|done|done].
    exists row, identity. by split_and!.
Qed.
(** ** The command *)
Definition login_flags : FlagSet := [("bootstrap-file", VString ""); ("assertion-file", VString "")].
(** What [readCredential] finds. *)
Definition credential_at (source : string) (h : Host World) : option string :=
  if String.eqb source "-" then Some (TrimSpace (fst (limited maxInput (stdin h)))) else TrimSpace ∘ f_content <$> files h !! source.
Lemma untouched_open link : untouched (S:=Host World) (open link false).
Proof.
  unfold open. apply untouched_bind.
  - destruct (String.eqb _ _); [done|]. apply untouched_bind; [apply untouched_attempt, untouched_ReadFile|]. by intros raw s.
  - intros pem. apply untouched_bind; [done|]. by intros made s.
Qed.
Lemma quietly_Write path content : quietly (E:=World) (Write path content).
Proof. intros h. unfold Write. pose proof (quietly_io h) as Hq. destruct (io h) as [[u|e] h1]; cbn [snd] in *; destruct Hq; by split. Qed.
Lemma quietly_WriteFile path content mode : quietly (E:=World) (WriteFile path content mode).
Proof.
  unfold WriteFile. apply quietly_bind; [apply quietly_io|]. intros u. apply quietly_bind; [by split|]. intros u' h.
  pose proof (quietly_Write path content h) as Hq. destruct (Write path content h) as [[x|e] h1]; cbn [snd] in *; (etrans; [exact Hq|apply quietly_io]).
Qed.
Lemma readCredential_Ok source (h : Host World) credential h' : readCredential source h = (Ok credential, h') →
  ∃ s, credential_at source h = Some s ∧ credential = bytes_of_string s ∧ outside h' = outside h ∧ files h' = files h.
Proof.
  unfold readCredential, credential_at. intros (raw&h1&Er&E)%bind_ok_inv. injection E as <- <-. destruct (String.eqb source "-").
  - exists (TrimSpace raw). pose proof (quietly_io h) as [F1 _ F3 _]. unfold ReadStdin in Er. apply ReadOk_io in Er. rewrite F3 in Er.
    pose proof (files_io h) as F5. destruct (limited maxInput (stdin h)) as [taken behind]. injection Er as <- <-. by split_and!.
  - pose proof (quietly_ReadFile source h) as [F1 _ _ _]. pose proof (untouched_ReadFile source h) as F2. rewrite Er in F1, F2.
    apply ReadFile_Ok in Er as (f&Hf&->). exists (TrimSpace (f_content f)). rewrite Hf. by split_and!.
Qed.
Lemma runLogin_Ok args flags rest (h h' : Host World) : Parse (bind_ ++ login_flags) args = Ok (flags, rest) →
  string_of flags "bootstrap-file" ≠ "" → runLogin args h = (Ok tt, h') →
  let path := tokenFile (connection_of flags) in
  ∃ made credential session l, client.base made = TrimSuffix (address (connection_of flags)) "/" ∧
    credential_at (string_of flags "bootstrap-file") h = Some credential ∧
    client.LoginBootstrap (bytes_of_string credential) (client.MkLinked made (outside h)) = (Ok session, l) ∧ outside h' = client.network l ∧
    files h' !! path = Some (MkFile (string_of_bytes (client.s_Token session) +:+ newline)
                               (match files h !! path with Some f => f_mode f | None => tokenFilePerm end)).
Proof.
  intros Hflags Hboot. unfold runLogin. fold login_flags. rewrite Hflags. intros (parsed&h0&Ep&E)%bind_ok_inv. injection Ep as <- <-. cbn [fst] in E.
  apply String.eqb_neq in Hboot as Hb. rewrite Hb in E. cbn [negb] in E. destruct (Bool.eqb _ _); [done|].
  apply bind_ok_inv in E as (made&h1&Eo&E). pose proof (untouched_open (connection_of flags) h) as F1. rewrite Eo in F1. cbn [snd] in F1.
  apply open_Ok in Eo as [Hbase [Ho1 _ Hs1 _]]. apply bind_ok_inv in E as (session&h3&El&E). apply bind_ok_inv in El as (credential&h2&Ec&El).
  apply readCredential_Ok in Ec as (s&Hs&->&Ho2&F2). unfold with_client in El. rewrite Ho2, Ho1 in El.
  destruct (client.LoginBootstrap _ _) as [o l] eqn:Ell. apply pair_equal_spec in El as [-> <-].
  apply bind_ok_inv in E as (u&h4&Ew&E). injection E as <-. unfold writeToken in Ew. apply bind_ok_inv in Ew as (u'&h5&Em&Ew).
  exists made, s, session, l. assert (credential_at (string_of flags "bootstrap-file") h1 = credential_at (string_of flags "bootstrap-file") h) as Hsame.
  { unfold credential_at. by rewrite Hs1, F1. }
  rewrite Hsame in Hs.
  pose proof (untouched_MkdirAll (filepath.Dir (tokenFile (connection_of flags))) (set_outside (client.network l) h2)) as F4.
  pose proof (quietly_io (set_outside (client.network l) h2)) as F5. unfold MkdirAll in *. rewrite Em in F4, F5. cbn [snd] in F4, F5.
  pose proof (quietly_WriteFile (tokenFile (connection_of flags)) (string_of_bytes (client.s_Token session) +:+ newline) tokenFilePerm h5) as F6.
  rewrite Ew in F6. apply WriteFile_Ok in Ew. rewrite F4 in Ew. change (files (set_outside (client.network l) h2)) with (files h2) in Ew. rewrite F2, F1 in Ew.
  split_and!; [exact Hbase|exact Hs|exact Ell| |exact Ew]. destruct F5 as [F5 _ _ _], F6 as [F6 _ _ _]. cbn [snd] in F6. change (outside h4 = client.network l). by rewrite F6, F5.
Qed.
(** The next command finds the session in the file. *)
Lemma readToken_line link s mode (h : Host World) : plain_text s → s ≠ "" → files h !! tokenFile link = Some (MkFile (s +:+ newline) mode) →
  TrimSpace (Getenv "MARSEC_TOKEN") = "" → fst (io h) = Ok tt → fst (readToken link h) = Ok (bytes_of_string s).
Proof.
  intros Hs Hne Hf Henv Hio. unfold readToken. rewrite Henv. cbn [negb String.eqb]. unfold bind, attempt, ReadFile, bind.
  pose proof (files_io h) as F1. destruct (io h) as [[u|e] h1]; [|done]. cbn [snd] in F1. rewrite F1, Hf. cbn [fst f_content ret]. by rewrite TrimSpace_line.
Qed.
Definition login_fits (credential : string) : Prop := (String.length (print (JObj (login_body credential))) <= httpx.maxRequestBody)%nat.
Lemma body_read credential presented : httpx.DecodeJSON ["token"] auth.loginRequest_of (print (JObj (login_body credential))) = Ok presented →
  login_fits credential → presented = sanitize credential.
Proof.
  intros Ed Hfit. rewrite (DecodeJSON_print ["token"] auth.loginRequest_of (login_body credential) (sanitize credential)) in Ed; [by injection Ed|done|by repeat constructor|done|done].
Qed.
(** [marsec login] turns a bootstrap token into a session and keeps it: when it
  succeeds over an authentic network, the credential it was given was a bootstrap
  token of an identity that is not disabled, neither used nor revoked, and is used
  up now; the token file, which is readable by its owner alone when it is new,
  holds a token of that identity, which the server accepts as long as it lasts; and
  the command that comes next reads exactly that token out of the file. *)
Theorem login_keeps_session (args rest : list string) (flags : FlagSet) (h h' : Host World)
  (Hauth : authentic a remote _) (Hflags : Parse (bind_ ++ login_flags) args = Ok (flags, rest))
  (Hhome : TrimSuffix (address (connection_of flags)) "/" = base) (Hboot : string_of flags "bootstrap-file" ≠ "")
  (Hrun : runLogin args h = (Ok tt, h')) :
  let path := tokenFile (connection_of flags) in
  ∃ credential presented t s, credential_at (string_of flags "bootstrap-file") h = Some credential ∧
    (login_fits credential → presented = sanitize credential) ∧
    traded presented t (database (outside h)) (database (outside h')) ∧ auth.t_Value t = bytes_of_string s ∧
    files h' !! path = Some (MkFile (s +:+ newline) (match files h !! path with Some f => f_mode f | None => tokenFilePerm end)) ∧
    ∀ link, tokenFile link = path → TrimSpace (Getenv "MARSEC_TOKEN") = "" → fst (io h') = Ok tt → fst (readToken link h') = Ok (auth.t_Value t).
Proof.
  eapply runLogin_Ok in Hrun as (made&credential&session&l&Hbase&Hcred&Ell&Ho&Hf); [|exact Hflags|exact Hboot].
  apply login_end in Ell as (presented&t&Ed&Ht&Htr&s&Hs&Hplain&Hne); [|done|congruence]. rewrite Ht, Hs, string_of_bytes_of_string in Hf.
  exists credential, presented, t, s. rewrite Ho. split_and!; [done|by apply body_read|done|done|done|].
  intros link Hlink Henv Hio. rewrite Hs. eapply readToken_line; [done|done|by rewrite Hlink|done|done].
Qed.
End end_to_end.

(** ** Example: from the operator's bootstrap token to a session *)
Section examples.
#[local] Existing Instance sample.primitives.
#[local] Existing Instance sample.primitive_laws.
#[local] Instance unsigned : Ed25519 := fun _ _ _ => false.
#[local] Instance by_key : MapOrder := fun m => (map_to_list m).*1.
#[local] Instance no_pages : ui.Assets := fun _ => None.
#[local] Instance no_literals : IPLiterals := fun _ => false.
#[local] Instance no_certificates : Certificates := fun _ => false.
Local Definition bounds : ratelimit.Limiter * ratelimit.Limiter :=
  match rateLimits config.Default with Ok l => l | Err _ => (ratelimit.MkLimiter (float64 1) (float64 1) 1 1, ratelimit.MkLimiter (float64 1) (float64 1) 1 1) end.
Local Definition instruments : metrics.Registry World := match telemetry.newTelemetry with Ok r => r | Err _ => metrics.New end.
Local Definition assembled : App := MkApp config.Default None (fst bounds) (snd bounds) instruments.
Local Definition terminal : string := "10.0.0.7:4000".
#[local] Instance local_network : Transport World := direct assembled terminal.
Local Definition unsealed : World := set_seal_memory (MkSealMemory (Some (crypto.sample_key 9)) 1 [])
  (fresh_world (fun n => (1700000000 + Z.of_nat n) * Second) (fun n => Z.of_nat (7 * n + 3))).
Local Definition enrolled : World := snd (auth.RegisterIdentity "svc-1" authn.KindService "acme" unsealed).
Local Definition ticket : string := auth.tokenPrefix +:+ RawURLEncode (draw auth.tokenBytes (entropy enrolled)).
Local Definition invited : World := snd (auth.IssueBootstrap "svc-1" auth.BootstrapTTL enrolled).
Local Definition home : string := "https://secrets.internal:8200".
#[local] Instance environment : Environment := fun name =>
  if String.eqb name "MARSEC_ADDRESS" then home else if String.eqb name "MARSEC_TOKEN_FILE" then "/home/ann/token" else "".
Local Definition desk : Host World := MkHost (MkDisk {["/home/ann/ticket" := MkFile (ticket +:+ newline) 384]} (fun _ => false) 0)
  unsealed invited "" "".
Local Definition command_line : list string := ["--bootstrap-file=/home/ann/ticket"].
Local Definition login_run : result unit * Host World := runLogin command_line desk.
Local Definition login_set : FlagSet := match Parse (bind_ ++ login_flags) command_line with Ok (flags, _) => flags | Err _ => [] end.
Lemma login_succeeds : fst login_run = Ok tt.
Proof. by vm_compute. Qed.
Lemma login_parsed : Parse (bind_ ++ login_flags) command_line = Ok (login_set, []).
Proof. by vm_compute. Qed.
Lemma login_home : TrimSuffix (address (connection_of login_set)) "/" = home.
Proof. by vm_compute. Qed.
Lemma login_source : string_of login_set "bootstrap-file" = "/home/ann/ticket".
Proof. by vm_compute. Qed.
Lemma login_origin : url.origin home "https" "secrets.internal:8200".
Proof. exact home_origin. Qed.
#[local] Opaque runLogin.
Lemma login_ran : runLogin command_line desk = (Ok tt, snd login_run).
Proof. exact (pair_fst (runLogin command_line desk) _ login_succeeds). Qed.
Lemma login_keeps_session_witness : ∃ credential presented t s,
  credential_at (string_of login_set "bootstrap-file") desk = Some credential ∧ (login_fits credential → presented = sanitize credential) ∧
  traded presented t (database invited) (database (outside (snd login_run))) ∧ auth.t_Value t = bytes_of_string s ∧
  files (snd login_run) !! "/home/ann/token" = Some (MkFile (s +:+ newline) tokenFilePerm).
Proof.
  pose proof (login_keeps_session assembled terminal home "https" "secrets.internal:8200" login_origin command_line [] login_set desk (snd login_run)
    (direct_authentic assembled terminal) login_parsed login_home) as Hthm.
  assert (string_of login_set "bootstrap-file" ≠ "") as Hne by (by rewrite login_source). specialize (Hthm Hne login_ran).
  destruct Hthm as (credential&presented&t&s&?&?&?&?&?&_). exists credential, presented, t, s. split_and!; assumption.
Defined.
End examples.
End session.
